(* ===== verification/_CoqProject ===== *)
-Q . S2P
Prelude.v
GoStrings.v
Utf8.v
Encoding.v
UrlParse.v
HostPort.v
Json.v
Float64.v
GoTime.v
JsonStruct.v
MediaType.v
Expiring.v
Types.v
Config.v
Pools.v
Routing.v
DotEnv.v
FileSystem.v
Bootstrap.v
BootstrapRun.v
PoolState.v
Lease.v
Prog.v
System.v
Manager.v
Behaviour.v
Reaper.v
Cells.v
Socks.v
Sessions.v
Handshake.v
Spawner.v
LogCapture.v
Gateway.v
Connections.v
Conversation.v
Api.v
Wire.v
Invariant.v
Boot.v
Tunnels.v
Discipline.v
Concurrency.v
Scenarios.v
CellProxy.v
CellControl.v
Servers.v
CellServer.v
ServiceLife.v
ServiceOrder.v
Registry.v
ServiceRun.v
Shutdown.v
AppRun.v
Runner.v
Cobra.v
Process.v
Backoff.v
Client.v
Relay.v
PoolClient.v
ClientCall.v
Transports.v
