(* ===== verification/Prelude.v ===== *)
(** * pr0xteus: a verification development for the controller, its cells and its client

    pr0xteus hands out short-lived proxy leases on WireGuard tunnels.  A
    controller keeps pools of configurations; for a request it reuses the hot
    tunnel of the pool or spawns a cell, a container that runs a tunnel and a
    SOCKS5 proxy, and returns a lease: a URL with credentials for its own SOCKS5
    and HTTP gateways.  The gateways look a lease up, reserve the cell and relay.
    A reaper stops idle and sick cells and orphaned containers.  A service
    manager starts and stops the controller's services inside an application
    that a runner drives and signals stop; a bootstrap command scaffolds the
    configuration directory; a client library asks for leases and retries
    through them.

    ** The parts and the files

    Below [src/internal/pkg/services/pr0xteus/] (the controller):
    - [types.go], [errors.go]: [Types].  Errors are the sentinels [errors.Is]
      finds; messages are not modelled.
    - [config.go]: [Config] (loading and validation).
    - [pool.go]: [Pools] (pools.yaml and the bundle), [PoolState] (one pool: the
      slot, its reservations, the failure cache), [Manager] (every method).
    - [lease.go]: [Lease], on the expiring maps of [Expiring].
    - [routing.go]: [Routing].
    - [api.go]: [Api].  [cells.go]: [Cells].  [cellstatus.go]: [CellControl].
      The JSON the three of them send and read: [Wire].
    - [proxy_gateway.go], [http_proxy_gateway.go]: [Gateway] (a request),
      [Connections] (the life of its reservation), [Conversation] (the gateway as
      a SOCKS5 server over the controller's state), [Tunnels] (the HTTP gateway's
      tunnels and its [Close]).
    - [reaper.go]: [Reaper] (the passes), [ServiceLife] (the loops).
      [metrics.go]: events of [System].
    - [service.go]: [Boot] ([New] and the API router), [ServiceLife] ([Run] and
      [Stop]), [Shutdown] (closing the manager).
    - [bootstrap.go]: [DotEnv] (the dotenv file as text), [FileSystem] (a disk
      whose calls may fail), [Bootstrap] (the scaffolding and the check of a
      configuration, with [src/cmd/commands.go]), [BootstrapRun] (what a run
      without disk failures leaves).
    - [spawner.go]: [Spawner], which discharges the interface
      [System.SpawnerContract] that the manager's theorems assume of a spawner;
      [LogCapture] (the startup log of a cell).
    [src/internal/pkg/cellproxy/] (inside a cell): [CellProxy] (accounting),
    [CellServer] ([Run]), [Conversation] and [Relay] (the cell as a SOCKS5 server); [Servers] is what
    it shares with [ServiceLife].
    [src/internal/pkg/service-manager/]: [Registry] (factories and commands),
    [ServiceOrder] (instantiation and the start order), [ServiceRun] (running, retrying, failing, stopping).
    [src/internal/app/app.go]: [AppRun], which embeds [ServiceRun].
    [src/pkg/runner/runner.go]: [Runner], against the interface
    [Runner.RunnableLaws] that [AppRun] discharges.
    [src/pkg/client/]: [Backoff] (the floating-point backoff), [Client] (dispatch,
    retries, preflight), [PoolClient] (the pool client and its request as [Api] decodes it),
    [ClientCall] (a call of it through the API's handler),
    [Transports] (construction, transports).
    [src/cmd/]: [Process] (the command tree, start-up and the exit code of a
    command line), [CellServer] and [Process] for [src/cmd/cellproxy].

    Vendored libraries the program relies on, modelled from [src/vendor]:
    [Socks] (the SOCKS5 dialer of x/net and the server of go-socks5, as programs
    that read and write bytes), [Sessions] (a dialer and a server on the two ends
    of a connection), [Handshake] (what the two agree on); [Cobra] (finding a
    command and parsing its flags); [Wire] also has the response helpers of
    [aichteeteapee].

    The language and its library: [GoStrings] (strings, strconv, net, path),
    [HostPort] (addresses as text), [Encoding] (base64, [url.URL.String]),
    [UrlParse] ([url.ParseRequestURI]), [Utf8], [Json] (texts of [encoding/json]),
    [JsonStruct] (structs and their tags), [MediaType] ([mime.ParseMediaType]),
    [GoTime] (RFC 3339), [Float64] (IEEE double arithmetic),
    the present file (integers, time, maps, sorting).  Tables that are data
    (Unicode case mapping, SHA-256, IP literals) are members of the classes
    [GoUnicode], [GoHash], [GoNetip], [GoIP], on which nothing is assumed; so are
    the local time zone ([GoZone]) and the digits [strconv] picks for a float
    ([GoFloatText]), which the theorem on a cell's uptime assumes to read back.

    ** How state and effects are modelled

    A critical section of the code (a pool's mutex, the lease mutex) is a pure
    function on its state.  A function that leaves the process or takes several
    critical sections is a program ([Prog]): a finite tree of operations.
    [System] gives the operations their meaning on the shared [world] and
    interleaves the goroutines ([cstep]); [Spawner], [Client], [CellControl],
    [Socks] and [Transports] have their own signatures, whose responses are
    arbitrary.  The service manager,
    the application, the runner, the service, the cell proxy and the HTTP gateway
    are labelled transition systems, whose [fire] functions execute one action;
    their liveness theorems say that the steps of their own end, and in which
    states none is left.  Go's map
    iteration order is the class [MapOrder] below; every theorem about a loop
    over a map holds for every order.  Integers that can overflow are kept at
    64 bits with [wrap64].

    ** What the theorems show

    - The shared state: [Invariant] (every reachable state of every
      interleaving keeps the pools, the leases, the gauges and the reservations
      well formed), [Discipline] and [Concurrency] (one spawn per pool at a
      time, no deadlock, termination under every schedule, one fallback hop).
    - Acquisition: [Behaviour] (the complete behaviour of resolve-or-spawn, and
      that an excluded exit is not reused), [PoolState] (choice of a
      configuration, the failure cache as a refinement of the full history).  Both
      refinements, here and of the leases, say what a lookup finds for any clock
      readings, and that it is the full history's answer when the readings are in
      the order of the critical sections.
    - Leases: [Lease] (the pruned registry refines the history of issued
      leases; what [Issue] hands out), [Connections] (the life of a leased
      connection executed alone: the cell it dials and its reservation; the round trip of a lease URL; header
      hygiene), [Client] (a lease parsed by the client authenticates at the
      controller), [PoolClient] and [ClientCall] (a call of the pool client through
      the API, bytes both ways), [Conversation] (the gateway obeys the lease whatever bytes it is
      sent, and no conversation leaks a reservation when no other goroutine changes the
      pools meanwhile), [Relay] (a name is carried over both hops, the second being the
      dial of [dialLease] to the leased cell, and resolved in that cell only).
    - The controller as a whole: [Boot] (what boots is well formed, and a checked
      directory boots unless its default pool is missing), [ServiceLife] (what
      [Run] reports, shutdown completes), [Tunnels] ([Close] ends every tunnel it
      saw, except one whose copiers both wait for the upstream, which the upstream's
      next step ends), [Shutdown] (which cells [Close] kills).
    - Cells: [Spawner] (a failed spawn leaves no container, exact orphan
      reaping, labels and addresses round-trip), [LogCapture] (the startup log is
      complete when it is read), [CellProxy] (exact accounting), [CellControl]
      (the controller reads the cell's own counts out of the bytes it is sent), [CellServer] (no server is
      lost, no goroutine is left).
    - The control plane: [Api] (authentication before anything, pagination in
      bounds), [Config], [Pools], [Routing] (which configurations are
      accepted, exactly).
    - Services: [ServiceOrder] (the order exists exactly without a cycle, is
      tight, independent of map iteration and the same as a reference layering), [ServiceRun] (dependencies first,
      bounded retries, first failure wins, stop mirrors start unless [Stop] came before
      the startup, termination and progress), [AppRun] (hooks and services bracket the
      run, with the same exception; shutdown never stalls), [Runner] (the process's exit status and its progress), [Process]
      (what every command line comes to).
    - The configuration directory: [DotEnv] (an edit changes exactly the lines
      of its key), [Bootstrap] (operator files are preserved whatever call
      fails), [BootstrapRun] (a bootstrap that succeeds leaves a directory the
      check accepts).
    - The client: [Client] (no direct dial in the VPN-only mode, the retry
      staircase and its outcomes, bounded waits, classification of refusals,
      preflight),
      [Transports] (every connection of a request is IPv4 and goes to a proxy the
      pool handed out), [PoolClient] (a retry's exclusion reaches the cell).
    [Scenarios] replays concrete interleavings: the witnesses of the concurrency
    theorems and three executions in which the code does what its comments rule
    out.

    ** Bounds and fuel

    Programs are inductive, so they end.  [Spawner.waitReady] polls for a number
    of ticks that stands for the spawn deadline; its theorems hold for every
    number.  [ServiceOrder.topoSort] runs on fuel, and the number of services is
    proved enough; [Client.preflight_loop] runs on 22 checks, which is proved to
    cover the ten-minute deadline and is tight; [Cobra.parseArgs] runs on the
    number of arguments, of which every round drops one; [Json.parse_value] and
    [MediaType.params_ok] run on the length of their text, and more fuel is proved
    to change nothing.  Theorems about live
    counters assume fewer than 2^63 operations.  [Float64] rounds every operation
    by itself, as on targets where Go does not fuse multiplication and addition.

    ** What is not modelled

    The relayed bytes, TLS and HTTP framing (servers are goroutines that return,
    tickers tick at any time); YAML and environment decoding, whose results are
    arguments of the loaders; Docker, which may respond with anything; UDP
    associations and deadlines of the SOCKS5 libraries; help texts and
    completion scripts; the cookie jar; logging other than the classification of
    SOCKS5 failures; [tests/testinfra], the mocks and [client.StubPool], which only
    tests use.

    The rest of this file is the shared vocabulary: results, machine integers,
    time, map iteration, sorting, tactics and hints. *)

From Stdlib Require Export ZArith Lia.
From Stdlib Require Ascii.
From stdpp Require Export base gmap sets list strings pretty sorting.

Export Stdlib.Strings.Ascii (ascii(..), N_of_ascii, ascii_of_N).
Export (notations) Stdlib.Strings.Ascii.

(** ** Notation scope and automation *)

Declare Scope go_scope.
Delimit Scope go_scope with go.
Global Open Scope go_scope.

Create HintDb pr0x.
Create Rewrite HintDb pr0x.

(** [simp_hyps] normalises equations between constructors in the context. *)
Ltac simp_hyps := repeat (progress (simplify_eq/= || destruct_and?)).

(** [case_all] splits every [match] and [if] of the goal and the hypotheses,
    closing the contradictory branches. *)
Ltac case_all := repeat (case_match; simp_hyps; try done).

(** [crush] is the default finisher of the routine branches. *)
Ltac crush := simp_hyps; try done; try lia; eauto with pr0x.

(** [dlia] is [lia] with division and modulo by constants. *)
Ltac dlia := zify; Z.to_euclidean_division_equations; lia.

(** ** Results

    A Go call returning [(T, error)] is modelled as a [result]: the error or
    the value, never both. *)
Inductive result (E A : Type) : Type :=
  | Ok (a : A)
  | Err (e : E).
Arguments Ok {E A} a.
Arguments Err {E A} e.

Definition result_bind {E A B} (f : A -> result E B) (m : result E A) : result E B :=
  match m with Ok a => f a | Err e => Err e end.

#[global] Instance result_mret E : MRet (result E) := fun A a => Ok a.
#[global] Instance result_mbind E : MBind (result E) := @result_bind E.

Definition is_ok {E A} (m : result E A) : bool :=
  match m with Ok _ => true | Err _ => false end.

Lemma result_bind_ok {E A B} (f : A -> result E B) (m : result E A) b :
  (m ≫= f) = Ok b <-> exists a, m = Ok a /\ f a = Ok b.
Proof.
  unfold mbind, result_mbind, result_bind. destruct m as [a|e]; split; intros H.
  - exists a; done.
  - destruct H as (a' & [= ->] & H). done.
  - done.
  - destruct H as (a' & ? & H). done.
Qed.

(** [fold_result] runs a fallible step over a list, stopping at the first
    error: the shape of every validating Go loop. *)
Fixpoint fold_result {E A S} (f : S -> A -> result E S) (l : list A) (s : S) : result E S :=
  match l with
  | [] => Ok s
  | x :: l' => match f s x with Ok s' => fold_result f l' s' | Err e => Err e end
  end.

(** A property established by each successful step for its own element and
    kept by the later steps holds of every element when the loop succeeds. *)
Lemma fold_result_forall {E A S} (f : S -> A -> result E S) (Q : A -> Prop) l s s' :
  (forall s x s', f s x = Ok s' -> Q x) ->
  fold_result f l s = Ok s' -> Forall Q l.
Proof.
  intros Hf. revert s. induction l as [|x l IH]; intros s H; simpl in *; [by constructor|].
  destruct (f s x) as [s1|] eqn:E1; [|done]. constructor; eauto.
Qed.

Lemma fold_result_inv {E A S} (f : S -> A -> result E S) (I : S -> Prop) l s s' :
  (forall s x s', x ∈ l -> I s -> f s x = Ok s' -> I s') ->
  I s -> fold_result f l s = Ok s' -> I s'.
Proof.
  revert s. induction l as [|x l IH]; intros s Hf HI H; simpl in *; [by simplify_eq|].
  destruct (f s x) as [s1|] eqn:E1; [|done].
  eapply IH; [ | | exact H].
  - intros; eapply Hf; [right; eauto | ..]; eauto.
  - eapply Hf; [left | ..]; eauto.
Qed.

(** The loop fails exactly when some step, reached with all previous ones
    succeeding, fails. *)
Lemma fold_result_err {E A S} (f : S -> A -> result E S) l s e :
  fold_result f l s = Err e ->
  exists x s1, x ∈ l /\ f s1 x = Err e.
Proof.
  revert s. induction l as [|x l IH]; intros s H; simpl in *; [done|].
  destruct (f s x) as [s1|] eqn:E1.
  - destruct (IH _ H) as (y & s2 & Hy & Hf). exists y, s2. split; [by right|done].
  - simplify_eq. exists x, s. split; [by left|done].
Qed.

Lemma fold_result_total {E A S} (f : S -> A -> result E S) l s :
  (forall s x, x ∈ l -> is_ok (f s x) = true) -> is_ok (fold_result f l s) = true.
Proof.
  revert s. induction l as [|x l IH]; intros s Hf; simpl; [done|].
  destruct (f s x) as [s1|] eqn:E1.
  - apply IH. intros; apply Hf. by right.
  - specialize (Hf s x ltac:(by left)). rewrite E1 in Hf. done.
Qed.

(** ** Machine integers

    [int] and [int64] are 64-bit two's complement; [wrap64] is the value a
    64-bit operation stores. *)
Definition min_int64 : Z := - 2 ^ 63.
Definition max_int64 : Z := 2 ^ 63 - 1.
Definition wrap64 (z : Z) : Z := (z + 2 ^ 63) mod 2 ^ 64 - 2 ^ 63.

Lemma wrap64_range z : (min_int64 <= wrap64 z <= max_int64)%Z.
Proof.
  unfold wrap64, min_int64, max_int64.
  pose proof (Z.mod_pos_bound (z + 2 ^ 63) (2 ^ 64) ltac:(lia)). lia.
Qed.

Lemma wrap64_id z : (min_int64 <= z <= max_int64)%Z -> wrap64 z = z.
Proof.
  unfold wrap64, min_int64, max_int64. intros H. rewrite Z.mod_small; lia.
Qed.

Lemma wrap64_wrap64 z : wrap64 (wrap64 z) = wrap64 z.
Proof. apply wrap64_id, wrap64_range. Qed.

Lemma wrap64_add_l a b : wrap64 (wrap64 a + b) = wrap64 (a + b).
Proof.
  unfold wrap64.
  replace ((a + 2 ^ 63) mod 2 ^ 64 - 2 ^ 63 + b + 2 ^ 63)%Z
    with ((a + 2 ^ 63) mod 2 ^ 64 + b)%Z by lia.
  rewrite Zplus_mod_idemp_l. f_equal. f_equal. lia.
Qed.

Lemma wrap64_add_r a b : wrap64 (a + wrap64 b) = wrap64 (a + b).
Proof. rewrite Z.add_comm, wrap64_add_l. f_equal. lia. Qed.

(** ** Time

    An instant is a number of nanoseconds since the Unix epoch, a duration an
    [int64] number of nanoseconds.  [time.Time.Sub] saturates. *)
Definition time_sub (a b : Z) : Z := Z.max min_int64 (Z.min max_int64 (a - b)).
Definition time_before (a b : Z) : bool := (a <? b)%Z.
Definition time_add (a d : Z) : Z := (a + d)%Z.

(** The zero value of [time.Time]: January 1, year 1, 00:00:00 UTC. *)
Definition time_zero : Z := -62135596800 * 10 ^ 9.

Definition second : Z := 10 ^ 9.
Definition minute : Z := 60 * second.

Lemma time_sub_small a b :
  (min_int64 <= a - b <= max_int64)%Z -> time_sub a b = (a - b)%Z.
Proof. unfold time_sub. lia. Qed.

(** The elapsed duration grows with the clock, also where it saturates. *)
Lemma time_sub_mono a a' b : (a <= a')%Z -> (time_sub a b <= time_sub a' b)%Z.
Proof. unfold time_sub. lia. Qed.

(** ** Map iteration

    Go iterates a map in an unspecified order.  A loop over a map is modelled
    over [range m], the entries in the order chosen by the [MapOrder] in scope;
    a theorem that quantifies over the [MapOrder] holds for every order. *)
Class MapOrder := {
  range : forall {V : Type}, gmap string V -> list (string * V);
  range_perm : forall {V : Type} (m : gmap string V), range m ≡ₚ map_to_list m;
}.

Definition canonical_order : MapOrder :=
  {| range := fun V m => map_to_list m; range_perm := fun V m => reflexivity _ |}.

Section map_order.
Context `{MapOrder}.

Lemma elem_of_range {V} (m : gmap string V) k v : (k, v) ∈ range m <-> m !! k = Some v.
Proof. rewrite range_perm. apply elem_of_map_to_list. Qed.

Lemma range_nodup {V} (m : gmap string V) : NoDup (range m).*1.
Proof. rewrite range_perm. apply NoDup_fst_map_to_list. Qed.

Lemma range_length {V} (m : gmap string V) : length (range m) = size m.
Proof. by rewrite range_perm, length_map_to_list. Qed.

Lemma list_to_map_range {V} (m : gmap string V) : list_to_map (range m) = m.
Proof.
  rewrite <- (list_to_map_to_list m) at 2.
  apply list_to_map_proper; [apply range_nodup | apply range_perm].
Qed.
End map_order.

#[export] Hint Resolve range_nodup : pr0x.

(** [collect] is the loop that rebuilds a map entry by entry, stopping at the
    first entry that fails. *)
Definition collect_step {E V W} (f : string -> V -> result E W)
    (acc : gmap string W) (kv : string * V) : result E (gmap string W) :=
  match f kv.1 kv.2 with Ok w => Ok (<[kv.1 := w]> acc) | Err e => Err e end.

Definition collect `{MapOrder} {E V W} (f : string -> V -> result E W) (m : gmap string V) :
    result E (gmap string W) :=
  fold_result (collect_step f) (range m) ∅.

Lemma collect_fold_spec {E V W} (f : string -> V -> result E W) l acc out :
  NoDup l.*1 ->
  fold_result (collect_step f) l acc = Ok out <->
  (forall k v, (k, v) ∈ l -> exists w, f k v = Ok w /\ out !! k = Some w) /\
  (forall k, k ∉ l.*1 -> out !! k = acc !! k).
Proof.
  revert acc. induction l as [|[k v] l IH]; intros acc Hnd; simpl.
  - split.
    + intros [= ->]. split; [by intros ?? ?%elem_of_nil | done].
    + intros [_ Hout]. f_equal. apply map_eq. intros i. symmetry. apply Hout.
      apply not_elem_of_nil.
  - apply NoDup_cons in Hnd as [Hk Hnd].
    unfold collect_step at 1. simpl. destruct (f k v) as [w|e] eqn:Hf.
    + rewrite (IH _ Hnd). split.
      * intros [H1 H2]. split.
        -- intros k' v' [[= -> ->]|Hin]%elem_of_cons; [|by apply H1].
           exists w. split; [done|]. rewrite (H2 k Hk). apply lookup_insert_eq.
        -- intros k' Hk'. rewrite not_elem_of_cons in Hk'.
           destruct Hk' as [Hne Hk']. rewrite (H2 k' Hk'). by apply lookup_insert_ne.
      * intros [H1 H2]. split.
        -- intros k' v' Hin. apply H1. by right.
        -- intros k' Hk'. destruct (decide (k' = k)) as [->|Hne].
           ++ rewrite lookup_insert_eq. destruct (H1 k v ltac:(left)) as (w' & ? & ?). congruence.
           ++ rewrite lookup_insert_ne by done. apply H2. rewrite not_elem_of_cons. done.
    + split; [done|]. intros [H1 _]. destruct (H1 k v ltac:(left)) as (w & ? & _). congruence.
Qed.

Lemma collect_spec `{MapOrder} {E V W} (f : string -> V -> result E W) m out :
  collect f m = Ok out <->
  (forall k v, m !! k = Some v -> exists w, f k v = Ok w /\ out !! k = Some w) /\
  dom out = dom m.
Proof.
  unfold collect. rewrite collect_fold_spec by apply range_nodup.
  setoid_rewrite elem_of_range. split; intros [H1 H2]; split; try done.
  - apply set_eq. intros k. rewrite !elem_of_dom. destruct (m !! k) as [v|] eqn:Hk.
    + destruct (H1 _ _ Hk) as (w & _ & ->). split; eauto.
    + rewrite H2, lookup_empty; [done|]. intros (kv & -> & Hin)%list_elem_of_fmap.
      destruct kv as [k v]. apply elem_of_range in Hin. simpl in Hk. congruence.
  - intros k Hk. rewrite lookup_empty. apply not_elem_of_dom. rewrite H2.
    apply not_elem_of_dom. destruct (m !! k) as [v|] eqn:Hv; [|done]. destruct Hk.
    apply list_elem_of_fmap. exists (k, v). split; [done|]. by apply elem_of_range.
Qed.

Lemma collect_err `{MapOrder} {E V W} (f : string -> V -> result E W) m e :
  collect f m = Err e -> exists k v, m !! k = Some v /\ f k v = Err e.
Proof.
  intros ([k v] & acc & Hin & Hf)%fold_result_err. exists k, v.
  split; [by apply elem_of_range|]. unfold collect_step in Hf. simpl in Hf. by case_match; simplify_eq.
Qed.

(** ** Sorting

    [sort.Strings] and [sort.Slice] on string keys: bytewise order. *)
Definition sort_strings (l : list string) : list string := merge_sort String.le l.

(** [sort_by] models [sort.Slice] with a [less] comparing keys: a stable sort of
    the elements in iteration order.  As the iteration order is arbitrary, every
    outcome of the unstable sort is covered. *)
Definition key_le {A} (key : A -> string) (x y : A) : Prop := String.le (key x) (key y).

#[global] Instance key_le_dec {A} (key : A -> string) : RelDecision (key_le key).
Proof. intros x y. unfold key_le. apply _. Defined.

#[global] Instance key_le_total {A} (key : A -> string) : Total (key_le key).
Proof. intros x y. unfold key_le. apply (total String.le). Qed.

#[global] Instance key_le_trans {A} (key : A -> string) : Transitive (key_le key).
Proof. intros x y z. unfold key_le. apply transitivity. Qed.

Definition sort_by {A} (key : A -> string) (l : list A) : list A :=
  merge_sort (key_le key) l.

Lemma sort_strings_perm l : sort_strings l ≡ₚ l.
Proof. apply merge_sort_Permutation. Qed.

Lemma sort_strings_sorted l : StronglySorted String.le (sort_strings l).
Proof. apply StronglySorted_merge_sort; apply _. Qed.

Lemma sort_by_perm {A} (key : A -> string) l : sort_by key l ≡ₚ l.
Proof. apply merge_sort_Permutation. Qed.

Lemma sort_by_sorted {A} (key : A -> string) l : StronglySorted (key_le key) (sort_by key l).
Proof. apply StronglySorted_merge_sort; apply _. Qed.

Lemma sort_by_length {A} (key : A -> string) l : length (sort_by key l) = length l.
Proof. by rewrite sort_by_perm. Qed.

Lemma elem_of_sort_strings x l : x ∈ sort_strings l <-> x ∈ l.
Proof. by rewrite sort_strings_perm. Qed.

(** Two permutations of a list with distinct keys sort to the same list: the
    output of a collection endpoint does not depend on map iteration. *)
Lemma sort_by_canonical {A} (key : A -> string) l1 l2 :
  l1 ≡ₚ l2 -> NoDup (key <$> l1) -> sort_by key l1 = sort_by key l2.
Proof.
  intros Hp Hnd.
  assert (forall l l', l ≡ₚ l' -> NoDup (key <$> l) ->
    StronglySorted (key_le key) l -> StronglySorted (key_le key) l' -> l = l') as Huniq.
  { induction l as [|x l IH]; intros l' Hperm Hndk Hs Hs'.
    - apply Permutation_nil_l in Hperm. by subst.
    - destruct l' as [|y l']; [by apply Permutation_nil_r in Hperm|].
      assert (x = y) as ->.
      { inversion Hs as [|? ? _ Hx]; inversion Hs' as [|? ? _ Hy]; subst.
        assert (x ∈ y :: l') as Hxin by (rewrite <- Hperm; left).
        assert (y ∈ x :: l) as Hyin by (rewrite Hperm; left).
        apply elem_of_cons in Hxin as [->|Hxin]; [done|].
        apply elem_of_cons in Hyin as [->|Hyin]; [done|].
        rewrite Forall_forall in Hx, Hy. specialize (Hx y Hyin). specialize (Hy x Hxin).
        assert (key x = key y) as Hk by (apply (anti_symm String.le); done).
        exfalso. rewrite fmap_cons in Hndk. apply NoDup_cons in Hndk as [Hni _].
        apply Hni. rewrite Hk. by apply list_elem_of_fmap_2. }
      f_equal. apply IH.
      + by apply Permutation_cons_inv in Hperm.
      + rewrite fmap_cons in Hndk. by apply NoDup_cons in Hndk as [_ ?].
      + by inversion Hs.
      + by inversion Hs'. }
  apply Huniq.
  - by rewrite !sort_by_perm.
  - by rewrite sort_by_perm.
  - apply sort_by_sorted.
  - apply sort_by_sorted.
Qed.

#[export] Hint Resolve sort_by_sorted sort_strings_sorted : pr0x.

(** ** Counting *)

(** The number of elements a predicate accepts. *)
Definition count_if {A} (P : A -> bool) (l : list A) : nat := length (filter (fun x => P x = true) l).

Lemma count_if_app {A} (P : A -> bool) l1 l2 : count_if P (l1 ++ l2) = count_if P l1 + count_if P l2.
Proof. unfold count_if. by rewrite filter_app, length_app. Qed.

Lemma count_if_single {A} (P : A -> bool) x : count_if P [x] = if P x then 1 else 0.
Proof. unfold count_if. rewrite filter_cons. by destruct (P x). Qed.

Lemma count_if_insert {A} (P : A -> bool) l i x y :
  l !! i = Some x ->
  count_if P (<[i := y]> l) + (if P x then 1 else 0) = count_if P l + (if P y then 1 else 0).
Proof.
  unfold count_if. revert i. induction l as [|z l IH]; intros i Hi; [done|].
  destruct i as [|i]; simpl in Hi |- *; rewrite !filter_cons.
  - simplify_eq. destruct (P x), (P y); repeat case_decide; simpl; try done; lia.
  - specialize (IH i Hi). case_decide; simpl; lia.
Qed.

Lemma count_if_le {A} (P : A -> bool) l : count_if P l <= length l.
Proof. apply length_filter. Qed.

Lemma count_if_zero {A} (P : A -> bool) l : (forall x, x ∈ l -> P x = false) -> count_if P l = 0.
Proof.
  intros Hn. unfold count_if. induction l as [|x l IH]; [done|]. rewrite filter_cons.
  rewrite (Hn x ltac:(left)). simpl. apply IH. intros; apply Hn. by right.
Qed.

Lemma count_if_pos {A} (P : A -> bool) l : 0 < count_if P l <-> exists x, x ∈ l /\ P x = true.
Proof.
  unfold count_if. induction l as [|x l IH]; [split; [simpl; lia|by intros (x & ?%elem_of_nil & _)]|].
  rewrite filter_cons. case_decide as Hx; simpl.
  - split; [intros _; exists x; split; [left|done]|lia].
  - rewrite IH. split; intros (y & Hy & HP); exists y; split; try done; [by right|].
    apply elem_of_cons in Hy as [->|]; done.
Qed.

Lemma sum_list_insert {A} (f : A -> nat) l i x y :
  l !! i = Some x -> sum_list (f <$> <[i := y]> l) + f x = sum_list (f <$> l) + f y.
Proof.
  revert i. induction l as [|z l IH]; intros [|i] Hi; simplify_eq/=; [lia|]. specialize (IH i Hi). lia.
Qed.

(** ** Transition systems *)

(** What every step keeps holds in every state reachable from one where it
    holds. *)
Lemma rtc_invariant {A : Type} (R : relation A) (P : A -> Prop) x y :
  (forall x y, P x -> R x y -> P y) -> P x -> rtc R x y -> P y.
Proof. intros Hstep Hx Hr. revert Hx. induction Hr as [|x y z Hxy _ IH]; eauto. Qed.

(** Two steps from a state that are equal or can be joined in one step each
    make a relation confluent. *)
Lemma rtc_confluent {A : Type} (R : relation A) :
  (forall x y1 y2, R x y1 -> R x y2 -> y1 = y2 \/ exists z, R y1 z /\ R y2 z) -> confluent R.
Proof.
  intros Hd.
  assert (Hstrip : forall x y1 y2, R x y1 -> rtc R x y2 -> exists z, rtc R y1 z /\ (R y2 z \/ y2 = z)).
  { intros x y1 y2 H1 H2. revert y1 H1. induction H2 as [x|x x' y2 Hx H2 IH]; intros y1 H1.
    - exists y1. by split; [|left].
    - destruct (Hd _ _ _ H1 Hx) as [->|(z & Hz1 & Hz2)].
      + exists y2. split; [done|]. by right.
      + destruct (IH _ Hz2) as (w & Hw1 & Hw2). exists w. split; [by eapply rtc_l|done]. }
  intros x y1 y2 H1 H2. revert y2 H2. induction H1 as [x|x x' y1 Hx H1 IH]; intros y2 H2.
  - exists y2. split; [done|apply rtc_refl].
  - destruct (Hstrip _ _ _ Hx H2) as (z & Hz1 & Hz2). destruct (IH _ Hz1) as (w & Hw1 & Hw2).
    exists w. split; [done|]. destruct Hz2 as [Hz2|<-]; [by eapply rtc_l|done].
Qed.
