(* ===== verification/GoStrings.v ===== *)
(** * Go strings

    The parts of Go's [strings], [bytes], [strconv], [net] and [net/url]
    packages the program uses, on byte strings.  A Go [string] is a sequence of
    bytes, modelled as [string] (one [ascii] per byte).

    Case mapping of non-ASCII text depends on the Unicode tables; those are the
    members of the class [GoUnicode], on which every definition using them
    depends.  On ASCII text the mapping is computed. *)

From S2P Require Import Prelude.

(** ** Bytes *)

Definition byte_eqb : ascii -> ascii -> bool := Stdlib.Strings.Ascii.eqb.
Definition byte_val (c : ascii) : N := N_of_ascii c.
Definition in_range (lo hi : ascii) (c : ascii) : bool :=
  (byte_val lo <=? byte_val c)%N && (byte_val c <=? byte_val hi)%N.

Definition is_lower (c : ascii) : bool := in_range "a" "z" c.
Definition is_upper (c : ascii) : bool := in_range "A" "Z" c.
Definition is_digit (c : ascii) : bool := in_range "0" "9" c.

Definition byte_upper (c : ascii) : ascii :=
  if is_lower c then ascii_of_N (byte_val c - 32) else c.
Definition byte_lower (c : ascii) : ascii :=
  if is_upper c then ascii_of_N (byte_val c + 32) else c.

Fixpoint string_map (f : ascii -> ascii) (s : string) : string :=
  match s with
  | EmptyString => EmptyString
  | String c s' => String (f c) (string_map f s')
  end.

Fixpoint string_forallb (p : ascii -> bool) (s : string) : bool :=
  match s with
  | EmptyString => true
  | String c s' => p c && string_forallb p s'
  end.

Definition is_ascii (s : string) : bool :=
  string_forallb (fun c => (byte_val c <? 128)%N) s.

(** ** Case mapping *)

Class GoUnicode := {
  unicode_upper : string -> string;
  unicode_lower : string -> string;
  unicode_fold : string -> string -> bool;
}.

(** Tables that map nothing: the instance the examples evaluate with. *)
Definition no_unicode : GoUnicode :=
  {| unicode_upper := fun s => s; unicode_lower := fun s => s;
     unicode_fold := fun s t => String.eqb s t |}.

Section case_mapping.
Context `{GoUnicode}.

(** [strings.ToUpper], [strings.ToLower]. *)
Definition to_upper (s : string) : string :=
  if is_ascii s then string_map byte_upper s else unicode_upper s.
Definition to_lower (s : string) : string :=
  if is_ascii s then string_map byte_lower s else unicode_lower s.

(** [strings.EqualFold]. *)
Definition equal_fold (s t : string) : bool :=
  if is_ascii s && is_ascii t
  then String.eqb (string_map byte_lower s) (string_map byte_lower t)
  else unicode_fold s t.
End case_mapping.

(** ** White space

    [unicode.IsSpace] holds of the ASCII space characters and of U+0085,
    U+00A0, U+1680, U+2000 to U+200A, U+2028, U+2029, U+202F, U+205F and
    U+3000, whose UTF-8 encodings have two or three bytes. *)
Definition space1 (c : ascii) : bool := in_range "009" "013" c || byte_eqb c " ".
Definition space2 (c1 c2 : ascii) : bool :=
  byte_eqb c1 "194" && (byte_eqb c2 "133" || byte_eqb c2 "160").
Definition space3 (c1 c2 c3 : ascii) : bool :=
  (byte_eqb c1 "225" && byte_eqb c2 "154" && byte_eqb c3 "128") ||
  (byte_eqb c1 "226" && byte_eqb c2 "128" &&
     (in_range "128" "138" c3 || in_range "168" "169" c3 || byte_eqb c3 "175")) ||
  (byte_eqb c1 "226" && byte_eqb c2 "129" && byte_eqb c3 "159") ||
  (byte_eqb c1 "227" && byte_eqb c2 "128" && byte_eqb c3 "128").

Fixpoint strip (p2 : ascii -> ascii -> bool) (p3 : ascii -> ascii -> ascii -> bool)
    (s : string) : string :=
  match s with
  | String c1 s1 =>
      if space1 c1 then strip p2 p3 s1 else
      match s1 with
      | String c2 s2 =>
          if p2 c1 c2 then strip p2 p3 s2 else
          match s2 with
          | String c3 s3 => if p3 c1 c2 c3 then strip p2 p3 s3 else s
          | EmptyString => s
          end
      | EmptyString => s
      end
  | EmptyString => EmptyString
  end.

Fixpoint rev_append (s acc : string) : string :=
  match s with
  | EmptyString => acc
  | String c s' => rev_append s' (String c acc)
  end.
Definition string_rev (s : string) : string := rev_append s "".

Definition trim_left (s : string) : string := strip space2 space3 s.
Definition trim_right (s : string) : string :=
  string_rev (strip (fun c2 c1 => space2 c1 c2) (fun c3 c2 c1 => space3 c1 c2 c3)
    (string_rev s)).

(** [strings.TrimSpace] and [bytes.TrimSpace]. *)
Definition trim_space (s : string) : string := trim_right (trim_left s).

(** ** Searching and splitting *)

Fixpoint has_prefix (p s : string) : bool :=
  match p, s with
  | EmptyString, _ => true
  | String a p', String b s' => byte_eqb a b && has_prefix p' s'
  | _, _ => false
  end.

Fixpoint string_drop (n : nat) (s : string) : string :=
  match n, s with
  | O, _ => s
  | S n', String _ s' => string_drop n' s'
  | S _, EmptyString => EmptyString
  end.

Fixpoint string_take (n : nat) (s : string) : string :=
  match n, s with
  | S n', String c s' => String c (string_take n' s')
  | _, _ => EmptyString
  end.

(** [strings.CutPrefix] and [strings.TrimPrefix]. *)
Definition cut_prefix (s p : string) : string * bool :=
  if has_prefix p s then (string_drop (String.length p) s, true) else (s, false).

(** [strings.HasSuffix], [strings.TrimSuffix]. *)
Definition has_suffix (s p : string) : bool := has_prefix (string_rev p) (string_rev s).
Definition trim_suffix (s p : string) : string :=
  if has_suffix s p then string_take (String.length s - String.length p) s else s.

(** [strings.Contains]. *)
Fixpoint contains (s sub : string) : bool :=
  has_prefix sub s ||
  match s with EmptyString => false | String _ s' => contains s' sub end.

Fixpoint has_byte (b : ascii) (s : string) : bool :=
  match s with
  | EmptyString => false
  | String c s' => byte_eqb c b || has_byte b s'
  end.

(** [strings.ContainsAny]. *)
Fixpoint contains_any (s chars : string) : bool :=
  match s with
  | EmptyString => false
  | String c s' => has_byte c chars || contains_any s' chars
  end.

(** [strings.IndexByte]: the position of the first occurrence. *)
Fixpoint index_byte (s : string) (b : ascii) : option nat :=
  match s with
  | EmptyString => None
  | String c s' => if byte_eqb c b then Some 0 else S <$> index_byte s' b
  end.

(** [strings.LastIndexByte]. *)
Fixpoint last_index_byte (s : string) (b : ascii) : option nat :=
  match s with
  | EmptyString => None
  | String c s' =>
      match last_index_byte s' b with
      | Some i => Some (S i)
      | None => if byte_eqb c b then Some 0 else None
      end
  end.

(** [strings.Cut] with a one-byte separator. *)
Fixpoint cut (s : string) (b : ascii) : string * string * bool :=
  match s with
  | EmptyString => (EmptyString, EmptyString, false)
  | String c s' =>
      if byte_eqb c b then (EmptyString, s', true)
      else match cut s' b with
           | (before, after, true) => (String c before, after, true)
           | (_, _, false) => (s, EmptyString, false)
           end
  end.

(** [strings.Split] and [strings.SplitSeq] with a one-byte separator: always
    at least one piece. *)
Fixpoint split (s : string) (b : ascii) : list string :=
  match s with
  | EmptyString => [EmptyString]
  | String c s' =>
      if byte_eqb c b then EmptyString :: split s' b
      else match split s' b with
           | [] => [String c EmptyString]
           | x :: xs => String c x :: xs
           end
  end.

(** [strings.Join]. *)
Fixpoint join (l : list string) (sep : string) : string :=
  match l with
  | [] => EmptyString
  | [x] => x
  | x :: xs => x +:+ sep +:+ join xs sep
  end.

(** [strings.Trim] with a cutset of ASCII bytes. *)
Fixpoint trim_left_any (s chars : string) : string :=
  match s with
  | EmptyString => EmptyString
  | String c s' => if has_byte c chars then trim_left_any s' chars else s
  end.
Definition trim_any (s chars : string) : string :=
  string_rev (trim_left_any (string_rev (trim_left_any s chars)) chars).

(** ** Numbers *)

Fixpoint digits_val (acc : Z) (s : string) : option Z :=
  match s with
  | EmptyString => Some acc
  | String c s' =>
      if is_digit c then digits_val (10 * acc + (Z.of_N (byte_val c) - 48)) s' else None
  end.

Definition nonempty_digits (s : string) : option Z :=
  match s with EmptyString => None | _ => digits_val 0 s end.

(** [strconv.Atoi]: an optional sign, at least one decimal digit, and a value
    in the range of [int]. *)
Definition atoi (s : string) : option Z :=
  v ← match s with
      | String "-" s' => Z.opp <$> nonempty_digits s'
      | String "+" s' => nonempty_digits s'
      | _ => nonempty_digits s
      end;
  if (min_int64 <=? v)%Z && (v <=? max_int64)%Z then Some v else None.

Lemma atoi_range s z : atoi s = Some z -> (min_int64 <= z <= max_int64)%Z.
Proof.
  unfold atoi. intros (v & _ & Hv)%bind_Some.
  destruct (_ && _) eqn:Hr in Hv; [|done]. simplify_eq. lia.
Qed.

(** [strconv.ParseUint(s, 10, 32)]. *)
Definition parse_uint32 (s : string) : option Z :=
  v ← nonempty_digits s;
  if (v <=? 2 ^ 32 - 1)%Z then Some v else None.

(** [fmt.Sprintf("%d", n)] and [strconv.Itoa]. *)
Definition itoa (n : Z) : string := pretty n.

(** ** Addresses *)

(** [net.JoinHostPort]. *)
Definition join_host_port (host port : string) : string :=
  if has_byte ":" host then "[" +:+ host +:+ "]:" +:+ port
  else host +:+ ":" +:+ port.

(** [net.SplitHostPort]; every malformed address is an error. *)
Definition split_host_port (hostport : string) : option (string * string) :=
  i ← last_index_byte hostport ":";
  '(host, j, k) ←
    (if has_prefix "[" hostport then
       end_ ← index_byte hostport "]";
       if Nat.eqb (end_ + 1) i
       then Some (string_take (end_ - 1) (string_drop 1 hostport), 1, end_ + 1)
       else None
     else
       let host := string_take i hostport in
       if has_byte ":" host then None else Some (host, 0, 0));
  if has_byte "[" (string_drop j hostport) then None else
  if has_byte "]" (string_drop k hostport) then None else
  Some (host, string_drop (i + 1) hostport).

(** ** Paths

    [filepath.Clean] and [filepath.Join] on slash-separated paths. *)
Definition clean_step (rooted : bool) (stack : list string) (elem : string) : list string :=
  if String.eqb elem "" || String.eqb elem "." then stack
  else if String.eqb elem ".." then
    match stack with
    | top :: rest => if String.eqb top ".." then elem :: stack else rest
    | [] => if rooted then [] else [elem]
    end
  else elem :: stack.

Definition path_clean (path : string) : string :=
  let rooted := has_prefix "/" path in
  let stack := foldl (clean_step rooted) [] (split path "/") in
  let body := join (reverse stack) "/" in
  if rooted then "/" +:+ body else if String.eqb body "" then "." else body.

Definition path_join (elems : list string) : string :=
  match filter (fun e => e <> "") elems with
  | [] => ""
  | parts => path_clean (join parts "/")
  end.

(** ** URLs

    The fields of [url.URL] the program reads: scheme, host and user
    information.  [User] is [None] for a nil [*Userinfo], and the password is
    [None] when it was never set. *)
Record URL := mkURL {
  Scheme : string;
  User : option (string * option string);
  Host : string;
}.

#[global] Instance URL_eq_dec : EqDecision URL.
Proof. solve_decision. Defined.

(** [url.URL.Port]: the digits after the last colon of the host. *)
Definition url_port (u : URL) : string :=
  match last_index_byte (Host u) ":" with
  | None => ""
  | Some i =>
      let tail := string_drop i (Host u) in
      if string_forallb (fun c => is_digit c) (string_drop 1 tail)
      then string_drop 1 tail else ""
  end.

(** [url.URL.IsAbs]. *)
Definition url_is_abs (u : URL) : bool := negb (String.eqb (Scheme u) "").

(** ** Facts about appending *)

Lemma string_app_assoc (a b c : string) : (a +:+ b) +:+ c = a +:+ b +:+ c.
Proof. induction a as [|x a IH]; [done|]. unfold String.app in *. simpl. by rewrite IH. Qed.

Lemma string_cons_app c (a b : string) : String c a +:+ b = String c (a +:+ b).
Proof. done. Qed.

Lemma string_nil_app (a : string) : EmptyString +:+ a = a.
Proof. done. Qed.

Lemma string_app_nil_r (a : string) : a +:+ "" = a.
Proof. induction a as [|x a IH]; [done|]. unfold String.app in *. simpl. by rewrite IH. Qed.

Lemma string_app_length (a b : string) :
  String.length (a +:+ b) = String.length a + String.length b.
Proof. induction a as [|x a IH]; [done|]. unfold String.app in *. simpl. by rewrite IH. Qed.

(** ** Facts about searching and cutting *)

Lemma byte_eqb_refl c : byte_eqb c c = true.
Proof. apply Stdlib.Strings.Ascii.eqb_refl. Qed.

Lemma byte_eqb_true c d : byte_eqb c d = true <-> c = d.
Proof. apply Stdlib.Strings.Ascii.eqb_eq. Qed.

Lemma string_forallb_app p a b :
  string_forallb p (a +:+ b) = string_forallb p a && string_forallb p b.
Proof.
  induction a as [|x a IH]; [done|]. change (String x a +:+ b) with (String x (a +:+ b)).
  simpl. by rewrite IH, andb_assoc.
Qed.

Lemma string_forallb_impl (p q : ascii -> bool) s :
  (forall c, p c = true -> q c = true) -> string_forallb p s = true -> string_forallb q s = true.
Proof.
  intros Hpq. induction s as [|c s IH]; [done|]. simpl. rewrite !andb_true_iff. intros [? ?]. auto.
Qed.

(** A string of bytes that satisfy [p] does not contain a byte that does not. *)
Lemma forallb_no_byte p b s : p b = false -> string_forallb p s = true -> has_byte b s = false.
Proof.
  intros Hb. induction s as [|c s IH]; [done|]. simpl. rewrite andb_true_iff. intros [Hc Hs].
  rewrite (IH Hs), orb_false_r. destruct (byte_eqb c b) eqn:E; [|done].
  apply byte_eqb_true in E. congruence.
Qed.

Lemma has_byte_app b s t : has_byte b (s +:+ t) = has_byte b s || has_byte b t.
Proof.
  induction s as [|c s IH]; [done|]. change (String c s +:+ t) with (String c (s +:+ t)).
  simpl. by rewrite IH, orb_assoc.
Qed.

Lemma index_byte_none b s : has_byte b s = false -> index_byte s b = None.
Proof.
  induction s as [|c s IH]; [done|]. simpl. rewrite orb_false_iff. intros [-> Hs]. by rewrite (IH Hs).
Qed.

Lemma index_byte_app b s t : has_byte b s = false -> index_byte (s +:+ String b t) b = Some (String.length s).
Proof.
  induction s as [|c s IH]; intros Hs; [change ("" +:+ String b t) with (String b t); simpl; by rewrite byte_eqb_refl|].
  change (String c s +:+ String b t) with (String c (s +:+ String b t)).
  simpl in *. rewrite orb_false_iff in Hs. destruct Hs as [-> Hs]. by rewrite (IH Hs).
Qed.

Lemma last_index_byte_none b s : has_byte b s = false -> last_index_byte s b = None.
Proof.
  induction s as [|c s IH]; [done|]. simpl. rewrite orb_false_iff. intros [Hc Hs].
  by rewrite (IH Hs), Hc.
Qed.

Lemma last_index_byte_app b s t :
  has_byte b t = false -> last_index_byte (s +:+ String b t) b = Some (String.length s).
Proof.
  intros Ht. induction s as [|c s IH].
  - change ("" +:+ String b t) with (String b t). simpl. by rewrite (last_index_byte_none _ _ Ht), byte_eqb_refl.
  - change (String c s +:+ String b t) with (String c (s +:+ String b t)). simpl. by rewrite IH.
Qed.

Lemma cut_none b s : has_byte b s = false -> cut s b = (s, "", false).
Proof.
  induction s as [|c s IH]; [done|]. simpl. rewrite orb_false_iff. intros [-> Hs]. by rewrite (IH Hs).
Qed.

Lemma cut_app b s t : has_byte b s = false -> cut (s +:+ String b t) b = (s, t, true).
Proof.
  induction s as [|c s IH]; intros Hs; [change ("" +:+ String b t) with (String b t); simpl; by rewrite byte_eqb_refl|].
  change (String c s +:+ String b t) with (String c (s +:+ String b t)).
  simpl in *. rewrite orb_false_iff in Hs. destruct Hs as [-> Hs]. by rewrite (IH Hs).
Qed.

(** [cut] splits at the first separator. *)
Lemma cut_spec b s before after :
  cut s b = (before, after, true) -> s = before +:+ String b after /\ has_byte b before = false.
Proof.
  revert before. induction s as [|c s IH]; intros before; simpl; [done|].
  destruct (byte_eqb c b) eqn:E.
  - apply byte_eqb_true in E as ->. intros [= <- <-]. done.
  - destruct (cut s b) as [[be af] [|]]; [|done]. intros [= <- <-].
    destruct (IH be eq_refl) as [-> Hn]. split; [done|]. simpl. by rewrite E.
Qed.

Lemma string_take_app s t : string_take (String.length s) (s +:+ t) = s.
Proof.
  induction s as [|c s IH]; [by destruct t|].
  change (String c s +:+ t) with (String c (s +:+ t)). simpl. by rewrite IH.
Qed.

Lemma string_drop_app s t : string_drop (String.length s) (s +:+ t) = t.
Proof.
  induction s as [|c s IH]; [by destruct t|].
  change (String c s +:+ t) with (String c (s +:+ t)). simpl. done.
Qed.

Lemma string_drop_app_S s c t : string_drop (S (String.length s)) (s +:+ String c t) = t.
Proof.
  induction s as [|d s IH]; [by destruct t|].
  change (String d s +:+ String c t) with (String d (s +:+ String c t)). simpl in *. done.
Qed.

Lemma has_prefix_spec p s : has_prefix p s = true <-> exists t, s = p +:+ t.
Proof.
  revert s. induction p as [|a p IH]; intros s; cbn [has_prefix].
  - split; [intros _; by exists s | done].
  - destruct s as [|b s]; [split; [done|by intros [t ?]]|].
    rewrite andb_true_iff, byte_eqb_true, IH. split.
    + intros [-> [t ->]]. by exists t.
    + intros [t Ht]. change (String a p +:+ t) with (String a (p +:+ t)) in Ht. simplify_eq. eauto.
Qed.

Lemma cut_prefix_app p t : cut_prefix (p +:+ t) p = (t, true).
Proof.
  unfold cut_prefix. assert (has_prefix p (p +:+ t) = true) as -> by (apply has_prefix_spec; eauto).
  by rewrite string_drop_app.
Qed.

Lemma cut_prefix_none s p : (forall t, s <> p +:+ t) -> cut_prefix s p = (s, false).
Proof.
  intros Hn. unfold cut_prefix. destruct (has_prefix p s) eqn:E; [|done].
  apply has_prefix_spec in E as [t ->]. by destruct (Hn t).
Qed.

(** ** Decimal numerals *)

Lemma pretty_N_char_digit x : is_digit (pretty_N_char x) = true.
Proof. unfold pretty_N_char. repeat case_match; done. Qed.

Lemma pretty_N_go_digits x s :
  string_forallb is_digit s = true -> string_forallb is_digit (pretty_N_go x s) = true.
Proof.
  revert s. induction (N.lt_wf_0 x) as [x _ IH]. intros s Hs.
  destruct (decide (0 < x)%N) as [Hx|Hx].
  - rewrite pretty_N_go_step by done. apply IH.
    + apply N.div_lt; lia.
    + simpl. by rewrite pretty_N_char_digit.
  - assert (x = 0%N) as -> by lia. by rewrite pretty_N_go_0.
Qed.

Lemma pretty_N_digits (x : N) : string_forallb is_digit (pretty x) = true.
Proof. unfold pretty, pretty_N. case_decide; [done|]. by apply pretty_N_go_digits. Qed.

Lemma itoa_digits n : (0 <= n)%Z -> string_forallb is_digit (itoa n) = true.
Proof.
  intros Hn. unfold itoa, pretty, pretty_Z. destruct n; [done| |lia]. apply pretty_N_digits.
Qed.

Lemma itoa_nonempty n : itoa n <> "".
Proof.
  unfold itoa. intros He.
  assert (forall x s, s <> "" -> pretty_N_go x s <> "") as Hgo.
  { intros x. induction (N.lt_wf_0 x) as [x _ IH]. intros s Hs.
    destruct (decide (0 < x)%N) as [Hx|Hx].
    - rewrite pretty_N_go_step by done. apply IH; [apply N.div_lt; lia|done].
    - assert (x = 0%N) as -> by lia. by rewrite pretty_N_go_0. }
  assert (forall x : N, pretty x <> "") as Hp.
  { intros x. unfold pretty, pretty_N. case_decide; [done|].
    rewrite pretty_N_go_step by lia. by apply Hgo. }
  destruct n as [|q|q]; unfold pretty, pretty_Z in He; [done| |done]. by apply Hp in He.
Qed.

Lemma itoa_bytes n : string_forallb (fun c => is_digit c || byte_eqb c "-") (itoa n) = true.
Proof.
  unfold itoa, pretty, pretty_Z. destruct n as [|q|q]; [done| |];
    [|cbn [string_forallb]; apply andb_true_iff; split; [done|]];
    (eapply string_forallb_impl; [|apply pretty_N_digits]); intros c ->; done.
Qed.
