(* ===== verification/Utf8.v ===== *)
(** * UTF-8 ([unicode/utf8])

    Which byte sequences encode a code point, and the replacement of every byte
    that belongs to none by U+FFFD, as [encoding/json] does on both ends. *)

From S2P Require Import Prelude GoStrings.

Definition byte (n : N) : ascii := ascii_of_N n.
Definition in_bytes (lo hi : N) (c : ascii) : bool := (lo <=? byte_val c)%N && (byte_val c <=? hi)%N.
Definition ascii_byte (c : ascii) : bool := (byte_val c <? 128)%N.
Definition continuation (c : ascii) : bool := in_bytes 128 191 c.

(** The sequences of two, three and four bytes [DecodeRune] accepts: no
    surrogates, no overlong forms, nothing above U+10FFFF. *)
Definition rune2 (a b : ascii) : bool := in_bytes 194 223 a && continuation b.
Definition rune3 (a b c : ascii) : bool :=
  ((byte_eqb a (byte 224) && in_bytes 160 191 b) || (in_bytes 225 236 a && continuation b) ||
   (byte_eqb a (byte 237) && in_bytes 128 159 b) || (in_bytes 238 239 a && continuation b)) && continuation c.
Definition rune4 (a b c d : ascii) : bool :=
  ((byte_eqb a (byte 240) && in_bytes 144 191 b) || (in_bytes 241 243 a && continuation b) ||
   (byte_eqb a (byte 244) && in_bytes 128 143 b)) && continuation c && continuation d.

(** What a text begins with. *)
Inductive head :=
  | HEnd
  | HRune (r rest : string)
  | HBad (rest : string).

Definition decode_rune (s : string) : head :=
  match s with
  | EmptyString => HEnd
  | String a s1 =>
      if ascii_byte a then HRune (String a "") s1 else
      match s1 with
      | EmptyString => HBad s1
      | String b s2 =>
          if rune2 a b then HRune (String a (String b "")) s2 else
          match s2 with
          | EmptyString => HBad s1
          | String c s3 =>
              if rune3 a b c then HRune (String a (String b (String c ""))) s3 else
              match s3 with
              | EmptyString => HBad s1
              | String d s4 =>
                  if rune4 a b c d then HRune (String a (String b (String c (String d "")))) s4 else HBad s1
              end
          end
      end
  end.

(** U+FFFD. *)
Definition replacement : string := String (byte 239) (String (byte 191) (String (byte 189) "")).

(** A text, rune by rune: [f] of every rune and [bad] for every byte that is part of none. *)
Fixpoint map_runes (f : string -> string) (bad : string) (fuel : nat) (s : string) : string :=
  match fuel with
  | O => ""
  | S fuel =>
      match decode_rune s with
      | HEnd => ""
      | HRune r rest => f r +:+ map_runes f bad fuel rest
      | HBad rest => bad +:+ map_runes f bad fuel rest
      end
  end.

Definition runes (f : string -> string) (bad : string) (s : string) : string :=
  map_runes f bad (String.length s) s.

(** [strings.ToValidUTF8] with U+FFFD for every bad byte. *)
Definition to_valid (s : string) : string := runes (fun r => r) replacement s.
Definition valid_utf8 (s : string) : bool := String.eqb (to_valid s) s.

(** A rune is at least one byte and at most four. *)
Definition is_rune (r : string) : Prop := decode_rune r = HRune r "".

Lemma decode_rune_spec s :
  match decode_rune s with
  | HEnd => s = ""
  | HRune r rest => s = r +:+ rest /\ is_rune r
  | HBad rest => exists a, s = String a rest /\ ascii_byte a = false
  end.
Proof.
  destruct s as [|a s1]; [done|]. unfold is_rune. cbn [decode_rune]. destruct (ascii_byte a) eqn:Ea.
  { split; [done|]. cbn. by rewrite Ea. }
  destruct s1 as [|b s2]; [by eauto|]. destruct (rune2 a b) eqn:E2.
  { split; [done|]. cbn. by rewrite Ea, E2. }
  destruct s2 as [|c s3]; [by eauto|]. destruct (rune3 a b c) eqn:E3.
  { split; [done|]. cbn. by rewrite Ea, E2, E3. }
  destruct s3 as [|d s4]; [by eauto|]. destruct (rune4 a b c d) eqn:E4; [|by eauto].
  split; [done|]. cbn. by rewrite Ea, E2, E3, E4.
Qed.

(** A rune stays one whatever follows it: the lead byte fixes the length. *)
Lemma rune_app r rest : is_rune r -> decode_rune (r +:+ rest) = HRune r rest.
Proof.
  unfold is_rune. destruct r as [|a r1]; [done|]. cbn [decode_rune]. destruct (ascii_byte a) eqn:Ea.
  { intros. simplify_eq. rewrite !string_cons_app. cbn [decode_rune]. by rewrite Ea. }
  destruct r1 as [|b r2]; [done|]. destruct (rune2 a b) eqn:E2.
  { intros. simplify_eq. rewrite !string_cons_app. cbn [decode_rune]. by rewrite Ea, E2. }
  destruct r2 as [|c r3]; [done|]. destruct (rune3 a b c) eqn:E3.
  { intros. simplify_eq. rewrite !string_cons_app. cbn [decode_rune]. by rewrite Ea, E2, E3. }
  destruct r3 as [|d r4]; [done|]. destruct (rune4 a b c d) eqn:E4; intros; simplify_eq.
  rewrite !string_cons_app. cbn [decode_rune]. by rewrite Ea, E2, E3, E4.
Qed.

Lemma rune_nonempty r : is_rune r -> r <> "".
Proof. by intros H ->. Qed.

Lemma decode_rune_shorter s :
  match decode_rune s with
  | HEnd => True
  | HRune _ rest | HBad rest => String.length rest < String.length s
  end.
Proof.
  pose proof (decode_rune_spec s) as H. destruct (decode_rune s) as [|r rest|rest]; [done|..].
  - destruct H as [-> Hr]. rewrite string_app_length. destruct r; [done|]. cbn. lia.
  - destruct H as (a & -> & _). cbn. lia.
Qed.

(** The length of the text is enough fuel. *)
Lemma map_runes_fuel f bad s n : String.length s <= n -> map_runes f bad n s = runes f bad s.
Proof.
  unfold runes. revert s. induction n as [n IH] using lt_wf_ind. intros s Hn.
  pose proof (decode_rune_shorter s) as Hs.
  destruct n as [|n]; [by destruct s; cbn in Hn; [|lia]|].
  destruct (String.length s) as [|k] eqn:El; [by destruct s|]. cbn [map_runes].
  destruct (decode_rune s) as [|r rest|rest]; [done|..];
    rewrite (IH n) by lia; rewrite (IH k) by lia; done.
Qed.

Lemma runes_rune f bad r rest : is_rune r -> runes f bad (r +:+ rest) = f r +:+ runes f bad rest.
Proof.
  intros Hr. rewrite <- (map_runes_fuel f bad (r +:+ rest) (S (String.length (r +:+ rest)))) by lia. cbn [map_runes].
  rewrite (rune_app _ _ Hr). f_equal. apply map_runes_fuel. rewrite string_app_length. lia.
Qed.

Lemma runes_bad f bad s rest : decode_rune s = HBad rest -> runes f bad s = bad +:+ runes f bad rest.
Proof.
  intros Hs. rewrite <- (map_runes_fuel f bad s (S (String.length s))) by lia. cbn [map_runes]. rewrite Hs. f_equal.
  apply map_runes_fuel. pose proof (decode_rune_shorter s) as H. rewrite Hs in H. lia.
Qed.

(** Induction over a text rune by rune. *)
Lemma runes_ind (P : string -> Prop) :
  P "" ->
  (forall r rest, is_rune r -> P rest -> P (r +:+ rest)) ->
  (forall s a rest, s = String a rest -> decode_rune s = HBad rest -> ascii_byte a = false -> P rest -> P s) ->
  forall s, P s.
Proof.
  intros He Hr Hb s. induction s as [s IH] using (induction_ltof1 _ String.length). unfold ltof in IH.
  pose proof (decode_rune_spec s) as Hs. pose proof (decode_rune_shorter s) as Hl.
  destruct (decode_rune s) as [|r rest|rest] eqn:E; [by subst|..].
  - destruct Hs as [-> Hs]. by apply Hr, IH.
  - destruct Hs as (a & -> & Ha). eapply Hb; eauto.
Qed.

Lemma to_valid_rune r rest : is_rune r -> to_valid (r +:+ rest) = r +:+ to_valid rest.
Proof. apply runes_rune. Qed.

Lemma to_valid_bad s rest : decode_rune s = HBad rest -> to_valid s = replacement +:+ to_valid rest.
Proof. apply runes_bad. Qed.

Lemma replacement_rune : is_rune replacement.
Proof. reflexivity. Qed.

(** What was made valid is valid. *)
Lemma to_valid_idem s : to_valid (to_valid s) = to_valid s.
Proof.
  induction s as [|r rest Hr IH|s a rest -> Hb Ha IH] using runes_ind; [done|..].
  - by rewrite (to_valid_rune _ _ Hr), (to_valid_rune _ _ Hr), IH.
  - by rewrite (to_valid_bad _ _ Hb), (to_valid_rune _ _ replacement_rune), IH.
Qed.

Lemma valid_utf8_id s : valid_utf8 s = true -> to_valid s = s.
Proof. apply String.eqb_eq. Qed.

Lemma to_valid_valid s : valid_utf8 (to_valid s) = true.
Proof. unfold valid_utf8. rewrite to_valid_idem. apply String.eqb_refl. Qed.

Lemma ascii_rune a : ascii_byte a = true -> is_rune (String a "").
Proof. intros Ha. unfold is_rune. cbn. by rewrite Ha. Qed.

Lemma ascii_valid s : is_ascii s = true -> valid_utf8 s = true.
Proof.
  intros Hs. apply String.eqb_eq. induction s as [|a s IH]; [done|]. cbn in Hs. apply andb_true_iff in Hs as [Ha Hs].
  change (String a s) with (String a "" +:+ s). rewrite (to_valid_rune _ _ (ascii_rune a Ha)), IH by done. done.
Qed.

(** Valid texts are closed under concatenation. *)
Lemma to_valid_app s t : valid_utf8 s = true -> to_valid (s +:+ t) = s +:+ to_valid t.
Proof.
  intros Hs%valid_utf8_id. revert Hs. induction s as [|r rest Hr IH|s a rest -> Hb Ha IH] using runes_ind; intros Hs; [done|..].
  - rewrite (to_valid_rune _ _ Hr) in Hs. rewrite string_app_assoc, (to_valid_rune _ _ Hr), IH; [by rewrite string_app_assoc|].
    by apply (inj (String.append r)) in Hs.
  - exfalso. rewrite (to_valid_bad _ _ Hb) in Hs. injection Hs as <- Hs. revert Hb. rewrite <- Hs at 1. done.
Qed.
