(* ===== verification/Encoding.v ===== *)
(** * Base64 and URL rendering

    The parts of [encoding/base64] and [net/url] the lease and the proxy
    gateway use: raw URL-safe encoding, standard encoding and decoding, and
    [url.URL.String] for URLs made of a scheme, user information and a host. *)

From S2P Require Import Prelude GoStrings.

(** ** Base64 *)

Definition url_alphabet : string :=
  "ABCDEFGHIJKLMNOPQRSTUVWXYZabcdefghijklmnopqrstuvwxyz0123456789-_".
Definition std_alphabet : string :=
  "ABCDEFGHIJKLMNOPQRSTUVWXYZabcdefghijklmnopqrstuvwxyz0123456789+/".

Definition sextet_char (alphabet : string) (n : N) : ascii :=
  default "000"%char (String.get (N.to_nat n) alphabet).
Definition char_sextet (alphabet : string) (c : ascii) : option N :=
  N.of_nat <$> index_byte alphabet c.

(** The sextets of a group of one, two or three bytes. *)
Definition s1 (a : N) : N := (a / 4)%N.
Definition s2 (a b : N) : N := ((a mod 4) * 16 + b / 16)%N.
Definition s3 (b c : N) : N := ((b mod 16) * 4 + c / 64)%N.
Definition s4 (c : N) : N := (c mod 64)%N.

Section encode.
Context (alphabet : string) (padding : bool).
Let ch (n : N) (s : string) : string := String (sextet_char alphabet n) s.

Fixpoint b64_encode (s : string) : string :=
  match s with
  | EmptyString => EmptyString
  | String a EmptyString =>
      let a := byte_val a in
      ch (s1 a) (ch (s2 a 0) (if padding then "==" else ""))
  | String a (String b EmptyString) =>
      let a := byte_val a in let b := byte_val b in
      ch (s1 a) (ch (s2 a b) (ch (s3 b 0) (if padding then "=" else "")))
  | String a (String b (String c s')) =>
      let a := byte_val a in let b := byte_val b in let c := byte_val c in
      ch (s1 a) (ch (s2 a b) (ch (s3 b c) (ch (s4 c) (b64_encode s'))))
  end.
End encode.

(** [base64.RawURLEncoding.EncodeToString]. *)
Definition raw_url_encode (s : string) : string := b64_encode url_alphabet false s.
(** [base64.StdEncoding.EncodeToString]. *)
Definition std_encode (s : string) : string := b64_encode std_alphabet true s.

Fixpoint drop_newlines (s : string) : string :=
  match s with
  | EmptyString => EmptyString
  | String c s' =>
      if byte_eqb c "010" || byte_eqb c "013" then drop_newlines s'
      else String c (drop_newlines s')
  end.

Definition to_byte (n : N) : ascii := ascii_of_N n.

Fixpoint b64_decode (s : string) : option string :=
  match s with
  | EmptyString => Some EmptyString
  | String c1 (String c2 (String c3 (String c4 s'))) =>
      w ← char_sextet std_alphabet c1;
      x ← char_sextet std_alphabet c2;
      match char_sextet std_alphabet c3, char_sextet std_alphabet c4 with
      | Some y, Some z =>
          rest ← b64_decode s';
          Some (String (to_byte (w * 4 + x / 16))
                 (String (to_byte ((x mod 16) * 16 + y / 4))
                   (String (to_byte ((y mod 4) * 64 + z)) rest)))
      | Some y, None =>
          if byte_eqb c4 "=" && String.eqb s' "" then
            Some (String (to_byte (w * 4 + x / 16))
                   (String (to_byte ((x mod 16) * 16 + y / 4)) EmptyString))
          else None
      | None, _ =>
          if byte_eqb c3 "=" && byte_eqb c4 "=" && String.eqb s' "" then
            Some (String (to_byte (w * 4 + x / 16)) EmptyString)
          else None
      end
  | _ => None
  end.

(** [base64.StdEncoding.DecodeString]: line breaks are ignored, padding is
    required, trailing bits are not checked. *)
Definition std_decode (s : string) : option string := b64_decode (drop_newlines s).

(** ** Round trip *)

Lemma byte_val_lt c : (byte_val c < 256)%N.
Proof. apply Stdlib.Strings.Ascii.N_ascii_bounded. Qed.

Lemma to_byte_val c : to_byte (byte_val c) = c.
Proof. apply Stdlib.Strings.Ascii.ascii_N_embedding. Qed.

Lemma byte_eqb_spec a b : reflect (a = b) (byte_eqb a b).
Proof. apply Stdlib.Strings.Ascii.eqb_spec. Qed.

(** Every sextet survives the alphabet, and no alphabet character is a line
    break or padding. *)
Definition sextet_ok (n : N) : bool :=
  let c := sextet_char std_alphabet n in
  bool_decide (char_sextet std_alphabet c = Some n) &&
  negb (byte_eqb c "010") && negb (byte_eqb c "013").

Lemma sextet_ok_all n : (n < 64)%N -> sextet_ok n = true.
Proof.
  intros Hn.
  assert (forallb (fun i => sextet_ok (N.of_nat i)) (seq 0 64) = true) as Hall
    by (vm_compute; reflexivity).
  rewrite forallb_forall in Hall. specialize (Hall (N.to_nat n)).
  rewrite N2Nat.id in Hall. apply Hall. apply in_seq. lia.
Qed.

Lemma sextet_decode n : (n < 64)%N -> char_sextet std_alphabet (sextet_char std_alphabet n) = Some n.
Proof.
  intros Hn%sextet_ok_all. unfold sextet_ok in Hn.
  rewrite !andb_true_iff, bool_decide_eq_true in Hn. tauto.
Qed.

Lemma sextet_no_newline n s :
  (n < 64)%N -> drop_newlines (String (sextet_char std_alphabet n) s) =
                String (sextet_char std_alphabet n) (drop_newlines s).
Proof.
  intros Hn%sextet_ok_all. unfold sextet_ok in Hn. rewrite !andb_true_iff, !negb_true_iff in Hn.
  destruct Hn as [[_ H1] H2]. cbn [drop_newlines]. by rewrite H1, H2.
Qed.

Lemma s1_lt a : (a < 256)%N -> (s1 a < 64)%N.
Proof. unfold s1. dlia. Qed.
Lemma s2_lt a b : (b < 256)%N -> (s2 a b < 64)%N.
Proof. unfold s2. dlia. Qed.
Lemma s3_lt b c : (c < 256)%N -> (s3 b c < 64)%N.
Proof. unfold s3. dlia. Qed.
Lemma s4_lt c : (s4 c < 64)%N.
Proof. unfold s4. dlia. Qed.

Lemma zero_lt_256 : (0 < 256)%N.
Proof. done. Qed.

#[local] Hint Resolve s1_lt s2_lt s3_lt s4_lt byte_val_lt zero_lt_256 : core.

Lemma byte1 a b : (a < 256)%N -> (b < 256)%N -> (s1 a * 4 + s2 a b / 16)%N = a.
Proof. unfold s1, s2. dlia. Qed.
Lemma byte2 a b c : (b < 256)%N -> (c < 256)%N -> ((s2 a b mod 16) * 16 + s3 b c / 4)%N = b.
Proof. unfold s2, s3. dlia. Qed.
Lemma byte3 b c : (c < 256)%N -> ((s3 b c mod 4) * 64 + s4 c)%N = c.
Proof. unfold s3, s4. dlia. Qed.

(** Induction on byte strings three at a time. *)
Lemma string_ind3 (P : string -> Prop) :
  P "" -> (forall a, P (String a "")) -> (forall a b, P (String a (String b ""))) ->
  (forall a b c s, P s -> P (String a (String b (String c s)))) -> forall s, P s.
Proof.
  intros H0 H1 H2 H3.
  fix IH 1. intros [|a [|b [|c s]]]; [apply H0|apply H1|apply H2|apply H3, IH].
Qed.

Lemma pad_not_sextet : char_sextet std_alphabet "=" = None.
Proof. reflexivity. Qed.

Lemma std_encode_newline s : drop_newlines (std_encode s) = std_encode s.
Proof.
  induction s as [|a|a b|a b c s IH] using string_ind3; unfold std_encode; cbn [b64_encode];
    rewrite ?sextet_no_newline by auto using byte_val_lt; try done.
  change (b64_encode std_alphabet true s) with (std_encode s). by rewrite IH.
Qed.

Lemma std_decode_encode s : std_decode (std_encode s) = Some s.
Proof.
  unfold std_decode. rewrite std_encode_newline.
  induction s as [|a|a b|a b c s IH] using string_ind3; unfold std_encode; cbn [b64_encode]; [done|..];
    cbn [b64_decode]; rewrite !sextet_decode by auto using byte_val_lt; cbn [mbind option_bind];
    rewrite ?pad_not_sextet; cbn [byte_eqb andb].
  - rewrite byte1, to_byte_val by (auto || lia). done.
  - rewrite byte1, byte2, !to_byte_val by (auto || lia). done.
  - change (b64_encode std_alphabet true s) with (std_encode s). rewrite IH. simpl.
    by rewrite byte1, byte2, byte3, !to_byte_val by auto.
Qed.

(** ** URLs *)

Inductive escape_mode := EncodeHost | EncodeUserPassword.

Definition is_alnum (c : ascii) : bool := is_lower c || is_upper c || is_digit c.

(** [shouldEscape] of [net/url], for the two modes used here. *)
Definition shouldEscape (c : ascii) (mode : escape_mode) : bool :=
  if is_alnum c then false else
  if (match mode with EncodeHost => true | _ => false end) &&
     has_byte c (String "034" "!$&'()*+,;=:[]<>") then false else
  if has_byte c "-_.~" then false else
  if has_byte c "$&+,/:;=?@" then
    match mode with
    | EncodeUserPassword => has_byte c "@/?:"
    | EncodeHost => true
    end
  else true.

Definition hex_digit (n : N) : ascii :=
  default "0"%char (String.get (N.to_nat n) "0123456789ABCDEF").

Fixpoint url_escape (mode : escape_mode) (s : string) : string :=
  match s with
  | EmptyString => EmptyString
  | String c s' =>
      if shouldEscape c mode
      then String "%" (String (hex_digit (byte_val c / 16))
                        (String (hex_digit (byte_val c mod 16)) (url_escape mode s')))
      else String c (url_escape mode s')
  end.

(** [Userinfo.String]. *)
Definition userinfo_string (u : string * option string) : string :=
  url_escape EncodeUserPassword u.1 +:+
  match u.2 with Some p => ":" +:+ url_escape EncodeUserPassword p | None => "" end.

(** [url.URL.String] for a URL without path, query and fragment. *)
Definition url_string (u : URL) : string :=
  (if String.eqb (Scheme u) "" then "" else Scheme u +:+ ":") +:+
  (if String.eqb (Scheme u) "" && String.eqb (Host u) "" && bool_decide (User u = None) then ""
   else (if String.eqb (Host u) "" && bool_decide (User u = None) then "" else "//") +:+
        match User u with Some ui => userinfo_string ui +:+ "@" | None => "" end +:+
        url_escape EncodeHost (Host u)).

(** The characters of a lease identifier or secret need no escaping. *)
Lemma alphabet_safe c : has_byte c url_alphabet = true -> shouldEscape c EncodeUserPassword = false.
Proof.
  intros Hc.
  assert (forall s, string_forallb (fun c => negb (shouldEscape c EncodeUserPassword)) s = true ->
    has_byte c s = true -> shouldEscape c EncodeUserPassword = false) as Hgen.
  { induction s as [|d s IH]; simpl; [done|]. rewrite andb_true_iff, orb_true_iff, negb_true_iff.
    intros [Hd Hs] [He|He]; [|by apply IH]. by destruct (byte_eqb_spec d c); subst. }
  apply (Hgen url_alphabet); [vm_compute; reflexivity|done].
Qed.

Definition safe_part (s : string) : bool := string_forallb (fun c => has_byte c url_alphabet) s.

Lemma safe_part_escape s : safe_part s = true -> url_escape EncodeUserPassword s = s.
Proof.
  unfold safe_part. induction s as [|c s IH]; [done|]. cbn [string_forallb url_escape].
  rewrite andb_true_iff. intros [Hc Hs]. rewrite (alphabet_safe c Hc). by rewrite (IH Hs).
Qed.

Lemma sextet_url_safe n : (n < 64)%N -> has_byte (sextet_char url_alphabet n) url_alphabet = true.
Proof.
  intros Hn.
  assert (forallb (fun i => has_byte (sextet_char url_alphabet (N.of_nat i)) url_alphabet)
            (seq 0 64) = true) as Hall by (vm_compute; reflexivity).
  rewrite forallb_forall in Hall. specialize (Hall (N.to_nat n)).
  rewrite N2Nat.id in Hall. apply Hall. apply in_seq. lia.
Qed.

Lemma raw_url_encode_safe s : safe_part (raw_url_encode s) = true.
Proof.
  unfold safe_part. induction s as [|a|a b|a b c s IH] using string_ind3;
    unfold raw_url_encode; cbn [b64_encode string_forallb];
    rewrite ?sextet_url_safe by auto using byte_val_lt; try done.
Qed.

(** 32 random bytes encode to 43 characters. *)
Lemma raw_url_encode_length s :
  String.length (raw_url_encode s) = (4 * (String.length s) + 2) / 3.
Proof.
  induction s as [|a|a b|a b c s IH] using string_ind3; try done.
  unfold raw_url_encode in *. cbn [b64_encode String.length]. rewrite IH.
  replace (4 * S (S (S (String.length s))) + 2) with (4 * String.length s + 2 + 4 * 3) by lia.
  rewrite Nat.div_add by lia. lia.
Qed.
