(* ===== verification/UrlParse.v ===== *)
(** * Parsing request URIs

    [url.ParseRequestURI] of Go's [net/url] (1.26), on the fields the program
    reads: scheme, user information and host.  A bracketed host is an IP
    literal whose syntax is the business of [netip]; its parse is the member
    [parse_ip_literal] of [GoNetip], on which nothing is assumed.  The result
    of the file is the round trip with [url_string] for the URLs a lease is
    handed out as. *)

From S2P Require Import Prelude GoStrings Encoding.

Class GoNetip := { parse_ip_literal : string -> option string }.

(** ** Unescaping *)

Definition unhex (c : ascii) : option N :=
  if is_digit c then Some (byte_val c - 48)%N
  else if in_range "a" "f" c then Some (byte_val c - 87)%N
  else if in_range "A" "F" c then Some (byte_val c - 55)%N
  else None.

Inductive unescape_mode := InHost | InUserPassword | InPath.

(** [unescape]: in a host only non-ASCII bytes and [%25] may be escaped, and
    an unescaped ASCII byte must be legal. *)
Fixpoint unescape (mode : unescape_mode) (s : string) : option string :=
  match s with
  | EmptyString => Some EmptyString
  | String "%" s1 =>
      match s1 with
      | String h (String l s') =>
          match unhex h, unhex l with
          | Some hi, Some lo =>
              let ok := match mode with
                        | InHost => negb (hi <? 8)%N || ((hi =? 2)%N && (lo =? 5)%N)
                        | _ => true
                        end in
              if ok then String (ascii_of_N (16 * hi + lo)) <$> unescape mode s' else None
          | _, _ => None
          end
      | _ => None
      end
  | String c s' =>
      let ok := match mode with
                | InHost => negb ((byte_val c <? 128)%N && shouldEscape c EncodeHost)
                | _ => true
                end in
      if ok then String c <$> unescape mode s' else None
  end.

(** ** The parts of a URL *)

(** [getScheme]: the scheme and the rest; [None] for a missing scheme. *)
Fixpoint getScheme_from (i : nat) (s : string) : option (option (string * string)) :=
  match s with
  | EmptyString => Some None
  | String c s' =>
      let continue := match getScheme_from (S i) s' with
                      | Some (Some (scheme, rest)) => Some (Some (String c scheme, rest))
                      | other => other
                      end in
      if is_lower c || is_upper c then continue
      else if is_digit c || has_byte c "+-." then (if Nat.eqb i 0 then Some None else continue)
      else if byte_eqb c ":" then (if Nat.eqb i 0 then None else Some (Some (EmptyString, s')))
      else Some None
  end.

Definition getScheme (s : string) : option (string * string) :=
  match getScheme_from 0 s with
  | None => None
  | Some None => Some ("", s)
  | Some (Some (scheme, rest)) => Some (scheme, rest)
  end.

(** [validUserinfo]. *)
Definition validUserinfo (s : string) : bool :=
  string_forallb (fun c => is_alnum c || has_byte c "-._:~!$&'()*+,;=%@") s.

(** [validOptionalPort]: empty, or a colon followed by digits. *)
Definition validOptionalPort (port : string) : bool :=
  match port with
  | EmptyString => true
  | String ":" digits => string_forallb is_digit digits
  | _ => false
  end.

Section parse.
Context `{GoNetip}.

(** [parseHost]: outside brackets, only a port may follow a colon. *)
Definition parseHost (host : string) : option string :=
  if has_byte "[" host then parse_ip_literal host else
  match index_byte host ":" with
  | Some i => if validOptionalPort (string_drop i host) then unescape InHost host else None
  | None => unescape InHost host
  end.

(** [parseAuthority]. *)
Definition parseAuthority (authority : string) : option (option (string * option string) * string) :=
  match last_index_byte authority "@" with
  | None => host ← parseHost authority; Some (None, host)
  | Some i =>
      host ← parseHost (string_drop (S i) authority);
      let userinfo := string_take i authority in
      if negb (validUserinfo userinfo) then None else
      match cut userinfo ":" with
      | (name, _, false) => name ← unescape InUserPassword name; Some (Some (name, None), host)
      | (name, password, true) =>
          name ← unescape InUserPassword name;
          password ← unescape InUserPassword password;
          Some (Some (name, Some password), host)
      end
  end.

Definition control_byte (c : ascii) : bool := (byte_val c <? 32)%N || (byte_val c =? 127)%N.

(** [url.ParseRequestURI]; the query is cut off and the path only checked. *)
Definition parse_request_uri (raw : string) : option URL :=
  if negb (string_forallb (fun c => negb (control_byte c)) raw) then None else
  if String.eqb raw "" then None else
  if String.eqb raw "*" then Some (mkURL "" None "") else
  '(scheme, rest) ← getScheme raw;
  let scheme := string_map byte_lower scheme in
  let rest := (cut rest "?").1.1 in
  if negb (has_prefix "/" rest) then
    (if String.eqb scheme "" then None else Some (mkURL scheme None ""))
  else if negb (String.eqb scheme "") && has_prefix "//" rest then
    let authority := string_drop 2 rest in
    let '(authority, path) :=
      match index_byte authority "/" with
      | Some i => (string_take i authority, string_drop i authority)
      | None => (authority, "")
      end in
    '(user, host) ← parseAuthority authority;
    _ ← unescape InPath path;
    Some (mkURL scheme user host)
  else _ ← unescape InPath rest; Some (mkURL scheme None "").
End parse.

(** ** Round trip for lease URLs *)

(** A host name and a numeric port. *)
Definition plain_byte (c : ascii) : bool := is_alnum c || has_byte c "-._".

Definition plain_address (addr : string) : bool :=
  match cut addr ":" with
  | (host, port, true) =>
      string_forallb plain_byte host && string_forallb is_digit port && negb (String.eqb port "")
  | _ => false
  end.

(** The bytes of a lease URL after the scheme. *)
Definition lease_byte (c : ascii) : bool := is_alnum c || has_byte c "-._:@".

(** A fact about bytes is checked on all 256 of them. *)
Definition all_bytes : list ascii := map ascii_of_N (map N.of_nat (seq 0 256)).

Lemma elem_of_all_bytes c : In c all_bytes.
Proof.
  unfold all_bytes. rewrite map_map. apply in_map_iff. exists (N.to_nat (byte_val c)).
  rewrite N2Nat.id. split; [apply Stdlib.Strings.Ascii.ascii_N_embedding|].
  apply in_seq. pose proof (byte_val_lt c). lia.
Qed.

Lemma byte_impl (p q : ascii -> bool) :
  forallb (fun c => negb (p c) || q c) all_bytes = true -> forall c, p c = true -> q c = true.
Proof.
  intros Hall c Hp. rewrite forallb_forall in Hall. specialize (Hall c (elem_of_all_bytes c)).
  by rewrite Hp in Hall.
Qed.

Lemma forallb_bytes (p q : ascii -> bool) s :
  forallb (fun c => negb (p c) || q c) all_bytes = true ->
  string_forallb p s = true -> string_forallb q s = true.
Proof. intros Hall. apply string_forallb_impl, byte_impl, Hall. Qed.

(** Closes the side conditions on bytes. *)
Ltac bytes := first [assumption | vm_compute; reflexivity].

Lemma unescape_plain mode p s :
  (forall c, p c = true ->
    negb (byte_eqb c "%") && negb ((byte_val c <? 128)%N && shouldEscape c EncodeHost) = true) ->
  string_forallb p s = true -> unescape mode s = Some s.
Proof.
  intros Hp. induction s as [|c s IH]; [done|]. cbn [string_forallb]. rewrite andb_true_iff.
  intros [Hc Hs]. specialize (Hp c Hc). rewrite andb_true_iff in Hp. destruct Hp as [Hn He].
  specialize (IH Hs).
  assert (unescape mode (String c s) =
    (if match mode with InHost => negb ((byte_val c <? 128)%N && shouldEscape c EncodeHost) | _ => true end
     then String c <$> unescape mode s else None)) as ->.
  { destruct c as [[] [] [] [] [] [] [] []]; try done. }
  rewrite IH. by destruct mode; rewrite ?He.
Qed.

Lemma url_escape_plain s :
  string_forallb lease_byte s = true -> has_byte "@" s = false -> url_escape EncodeHost s = s.
Proof.
  induction s as [|c s IH]; [done|]. cbn [string_forallb has_byte url_escape].
  rewrite andb_true_iff, orb_false_iff. intros [Hc Hs] [Ha Hn]. rewrite (IH Hs Hn).
  replace (shouldEscape c EncodeHost) with false; [done|]. symmetry. apply negb_true_iff.
  revert c Ha Hc. intros c Ha Hc.
  apply (byte_impl (fun c => lease_byte c && negb (byte_eqb c "@")) (fun c => negb (shouldEscape c EncodeHost)));
    [vm_compute; reflexivity|]. by rewrite Hc, Ha.
Qed.

Section roundtrip.
Context `{GoNetip}.

Lemma plain_address_spec addr :
  plain_address addr = true ->
  exists host port, addr = host +:+ String ":" port /\
    string_forallb plain_byte host = true /\ string_forallb is_digit port = true /\ port <> "".
Proof.
  unfold plain_address. destruct (cut addr ":") as [[host port] [|]] eqn:Hc; [|done].
  apply cut_spec in Hc as [-> Hn]. rewrite !andb_true_iff, negb_true_iff, String.eqb_neq.
  intros [[? ?] ?]. eauto 10.
Qed.

Lemma parseHost_plain addr : plain_address addr = true -> parseHost addr = Some addr.
Proof.
  intros (host & port & -> & Hh & Hp & _)%plain_address_spec. unfold parseHost.
  assert (string_forallb lease_byte (host +:+ String ":" port) = true) as Hl.
  { rewrite string_forallb_app. cbn [string_forallb].
    rewrite (forallb_bytes plain_byte lease_byte host) by bytes.
    rewrite (forallb_bytes is_digit lease_byte port) by bytes. done. }
  rewrite (forallb_no_byte lease_byte "[" _ eq_refl Hl).
  rewrite index_byte_app by by apply (forallb_no_byte plain_byte).
  rewrite string_drop_app. cbn [validOptionalPort]. rewrite Hp.
  apply (unescape_plain _ (fun c => plain_byte c || byte_eqb c ":")).
  { apply byte_impl. vm_compute. reflexivity. }
  rewrite string_forallb_app. cbn [string_forallb].
  rewrite (forallb_bytes plain_byte (fun c => plain_byte c || byte_eqb c ":") host) by bytes.
  rewrite (forallb_bytes is_digit (fun c => plain_byte c || byte_eqb c ":") port) by bytes. done.
Qed.

Lemma plain_address_lease_byte addr :
  plain_address addr = true ->
  string_forallb lease_byte addr = true /\ has_byte "@" addr = false.
Proof.
  intros (host & port & -> & Hh & Hp & _)%plain_address_spec.
  rewrite has_byte_app, string_forallb_app. cbn [string_forallb has_byte].
  rewrite (forallb_no_byte plain_byte "@" host eq_refl Hh).
  rewrite (forallb_no_byte is_digit "@" port eq_refl Hp).
  rewrite (forallb_bytes plain_byte lease_byte host) by bytes.
  rewrite (forallb_bytes is_digit lease_byte port) by bytes.
  done.
Qed.

Lemma safe_part_bytes p s :
  forallb (fun c => negb (has_byte c url_alphabet) || p c) all_bytes = true ->
  safe_part s = true -> string_forallb p s = true.
Proof. apply forallb_bytes. Qed.

Lemma parseAuthority_lease leaseID secret addr :
  safe_part leaseID = true -> safe_part secret = true -> plain_address addr = true ->
  parseAuthority (leaseID +:+ ":" +:+ secret +:+ "@" +:+ addr) =
  Some (Some (leaseID, Some secret), addr).
Proof.
  intros Hi Hs Ha. unfold parseAuthority.
  change ("@" +:+ addr) with (String "@" addr). change (":" +:+ ?x) with (String ":" x).
  replace (leaseID +:+ String ":" (secret +:+ String "@" addr))
    with ((leaseID +:+ String ":" secret) +:+ String "@" addr) by by rewrite string_app_assoc.
  rewrite last_index_byte_app by by apply plain_address_lease_byte.
  rewrite string_drop_app_S, string_take_app, (parseHost_plain _ Ha). cbn [mbind option_bind].
  unfold validUserinfo. rewrite string_forallb_app. cbn [string_forallb].
  rewrite (safe_part_bytes (fun c => is_alnum c || has_byte c "-._:~!$&'()*+,;=%@") leaseID) by done.
  rewrite (safe_part_bytes (fun c => is_alnum c || has_byte c "-._:~!$&'()*+,;=%@") secret) by done.
  cbn [negb andb orb is_alnum has_byte]. rewrite cut_app.
  2: { by apply (forallb_no_byte (fun c => has_byte c url_alphabet)). }
  assert (forall s, safe_part s = true -> unescape InUserPassword s = Some s) as Hu.
  { intros s. apply unescape_plain. apply byte_impl. vm_compute. reflexivity. }
  by rewrite (Hu _ Hi), (Hu _ Hs).
Qed.

Lemma parse_lease_url leaseID secret addr :
  safe_part leaseID = true -> safe_part secret = true -> plain_address addr = true ->
  parse_request_uri ("socks5://" +:+ leaseID +:+ ":" +:+ secret +:+ "@" +:+ addr) =
  Some (mkURL "socks5" (Some (leaseID, Some secret)) addr).
Proof.
  intros Hi Hs Ha. destruct (plain_address_lease_byte _ Ha) as [Hl Hn].
  set (rest := leaseID +:+ ":" +:+ secret +:+ "@" +:+ addr).
  assert (string_forallb lease_byte rest = true) as Hr.
  { unfold rest. rewrite !string_forallb_app, Hl.
    by rewrite (safe_part_bytes lease_byte leaseID), (safe_part_bytes lease_byte secret). }
  unfold parse_request_uri. rewrite string_forallb_app.
  rewrite (forallb_bytes lease_byte (fun c => negb (control_byte c)) rest) by bytes.
  change ("socks5://" +:+ rest) with ("socks5:" +:+ "//" +:+ rest).
  assert (getScheme ("socks5:" +:+ "//" +:+ rest) = Some ("socks5", "//" +:+ rest)) as -> by done.
  cbn [mbind option_bind]. rewrite cut_none.
  2: { rewrite has_byte_app. by rewrite (forallb_no_byte lease_byte "?" rest eq_refl Hr). }
  cbn [fst snd]. change (string_drop 2 ("//" +:+ rest)) with rest.
  rewrite (index_byte_none "/" rest) by by apply (forallb_no_byte lease_byte).
  unfold rest. rewrite (parseAuthority_lease leaseID secret addr Hi Hs Ha). done.
Qed.
End roundtrip.
