(* ===== verification/HostPort.v ===== *)
(** * Addresses: joining and splitting hosts and ports

    The round trip of [net.JoinHostPort] and [net.SplitHostPort], and of
    decimal port numbers. *)

From S2P Require Import Prelude GoStrings.

(** ** Decimal numerals *)

Lemma pretty_N_char_val x : (x < 10)%N -> (Z.of_N (byte_val (pretty_N_char x)) - 48 = Z.of_N x)%Z.
Proof.
  intros Hx. assert (x = 0 \/ x = 1 \/ x = 2 \/ x = 3 \/ x = 4 \/ x = 5 \/ x = 6 \/ x = 7 \/ x = 8 \/ x = 9)%N as Hc by lia.
  repeat destruct Hc as [->|Hc]; [reflexivity..|]. by subst.
Qed.

Lemma digits_val_pretty x : forall s, digits_val 0 (pretty_N_go x s) = digits_val (Z.of_N x) s.
Proof.
  induction (N.lt_wf_0 x) as [x _ IH]. intros s. destruct (decide (0 < x)%N) as [Hx|Hx].
  - rewrite pretty_N_go_step by done. rewrite IH by (apply N.div_lt; lia). cbn [digits_val].
    rewrite pretty_N_char_digit. f_equal.
    pose proof (N.mod_lt x 10 ltac:(done)). rewrite pretty_N_char_val by done.
    pose proof (N.div_mod x 10 ltac:(done)). lia.
  - assert (x = 0%N) as -> by lia. by rewrite pretty_N_go_0.
Qed.

Lemma nonempty_digits_itoa n : (0 <= n)%Z -> nonempty_digits (itoa n) = Some n.
Proof.
  intros Hn. pose proof (itoa_nonempty n) as Hne. unfold nonempty_digits.
  assert (digits_val 0 (itoa n) = Some n) as Hd.
  { destruct n as [|p|p]; [done| |lia]. change (itoa (Z.pos p)) with (pretty_N (N.pos p)).
    unfold pretty_N. rewrite decide_False by done. by rewrite digits_val_pretty. }
  by destruct (itoa n).
Qed.

Lemma atoi_digits s : string_forallb is_digit s = true -> s <> "" ->
  atoi s = v ← nonempty_digits s; if (min_int64 <=? v)%Z && (v <=? max_int64)%Z then Some v else None.
Proof.
  intros Hd Hne. destruct s as [|c s]; [done|]. unfold atoi. f_equal.
  assert (is_digit c = true) as Hc by (cbn in Hd; by apply andb_true_iff in Hd as [? _]).
  by destruct c as [[][][][][][][][]].
Qed.

Lemma atoi_itoa n : (0 <= n <= max_int64)%Z -> atoi (itoa n) = Some n.
Proof.
  intros Hn. rewrite atoi_digits by (apply itoa_digits || apply itoa_nonempty; lia).
  rewrite nonempty_digits_itoa by lia. cbn.
  rewrite !(proj2 (Z.leb_le _ _)) by (unfold min_int64; lia). done.
Qed.

Lemma atoi_itoa_int64 n : (min_int64 <= n <= max_int64)%Z -> atoi (itoa n) = Some n.
Proof.
  intros Hn. destruct (Z.le_gt_cases 0 n) as [|Hneg]; [apply atoi_itoa; lia|].
  destruct n as [|q|q]; [lia..|]. change (itoa (Z.neg q)) with (String "-" (itoa (Z.pos q))).
  unfold atoi. cbn match. rewrite nonempty_digits_itoa by lia. cbn.
  by rewrite !(proj2 (Z.leb_le _ _)) by lia.
Qed.

(** A numeral has no leading zero. *)
Lemma pretty_N_go_leading x : forall s, (0 < x)%N -> exists c t, pretty_N_go x s = String c t /\ c <> "0"%char.
Proof.
  induction (N.lt_wf_0 x) as [x _ IH]. intros s Hx. rewrite pretty_N_go_step by done.
  destruct (decide (0 < x / 10)%N) as [Hd|Hd]; [apply IH; [apply N.div_lt; lia|done]|].
  assert (x / 10 = 0)%N as Hz by (by apply N.le_0_r, N.nlt_ge). rewrite Hz, pretty_N_go_0. eexists _, _. split; [done|].
  apply N.div_small_iff in Hz; [|done]. rewrite N.mod_small by done. intros Hc.
  pose proof (pretty_N_char_val x Hz) as Hv. rewrite Hc in Hv. cbn in Hv. lia.
Qed.

Lemma itoa_leading n : (0 < n)%Z -> exists c t, itoa n = String c t /\ c <> "0"%char.
Proof.
  intros Hn. destruct n as [|q|q]; [lia| |lia]. change (itoa (Z.pos q)) with (pretty_N (N.pos q)). unfold pretty_N.
  rewrite decide_False by done. by apply pretty_N_go_leading.
Qed.

(** ** Hosts and ports *)

Definition bracket_free (host : string) : Prop := has_byte "[" host = false /\ has_byte "]" host = false.

Lemma has_byte_drop b n s : has_byte b s = false -> has_byte b (string_drop n s) = false.
Proof.
  revert s. induction n as [|n IH]; intros [|c s]; [done..|]. cbn. rewrite orb_false_iff. intros [_ Hs]. by apply IH.
Qed.
Lemma has_byte_take b n s : has_byte b s = false -> has_byte b (string_take n s) = false.
Proof.
  revert s. induction n as [|n IH]; intros [|c s]; [done..|]. cbn. rewrite !orb_false_iff.
  intros [Hc Hs]. split; [done|]. by apply IH.
Qed.

Lemma index_byte_first b s i : index_byte s b = Some i -> has_byte b (string_take i s) = false.
Proof.
  revert i. induction s as [|c s IH]; intros i; [done|]. cbn. destruct (byte_eqb c b) eqn:Hc; [by intros [= <-]|].
  destruct (index_byte s b) as [j|]; [|done]. intros [= <-]. cbn. rewrite Hc. by apply IH.
Qed.

(** What [SplitHostPort] returns has no brackets left. *)
Lemma split_host_port_free hostport host port :
  split_host_port hostport = Some (host, port) -> bracket_free host.
Proof.
  unfold split_host_port. intros (i & _ & H)%bind_Some. apply bind_Some in H as ([[h j] k] & Hh & H).
  destruct (has_byte "[" (string_drop j hostport)) eqn:Hl; [done|].
  destruct (has_byte "]" (string_drop k hostport)) eqn:Hr; [done|].
  assert (h = host) as -> by congruence. clear H. destruct (has_prefix "[" hostport).
  - apply bind_Some in Hh as (e & He & Hh). destruct (Nat.eqb (e + 1) i); [|done].
    assert (host = string_take (e - 1) (string_drop 1 hostport) /\ j = 1) as [-> ->] by (split; congruence). split.
    + by apply has_byte_take.
    + destruct hostport as [|c rest]; [done|]. cbn [index_byte] in He. destruct (byte_eqb c "]").
      * assert (e = 0) as -> by congruence. done.
      * destruct (index_byte rest "]") as [e'|] eqn:Hi; [|done].
        assert (e = S e') as -> by (cbn in He; congruence).
        change (string_drop 1 (String c rest)) with rest. replace (S e' - 1) with e' by lia. by apply index_byte_first.
  - destruct (has_byte ":" (string_take i hostport)); [done|].
    assert (host = string_take i hostport /\ j = 0 /\ k = 0) as (-> & -> & ->) by (split_and!; congruence).
    split; by apply has_byte_take.
Qed.

Lemma split_join_host_port host port :
  bracket_free host -> string_forallb is_digit port = true ->
  split_host_port (join_host_port host port) = Some (host, port).
Proof.
  intros [Hl Hr] Hp. unfold join_host_port.
  assert (has_byte ":" port = false) as Hcp by by apply (forallb_no_byte is_digit).
  assert (has_byte "[" port = false) as Hlp by by apply (forallb_no_byte is_digit).
  assert (has_byte "]" port = false) as Hrp by by apply (forallb_no_byte is_digit).
  unfold split_host_port. destruct (has_byte ":" host) eqn:Hc.
  - pose (w := "[" +:+ host +:+ "]" +:+ String ":" port).
    change ("[" +:+ host +:+ "]:" +:+ port) with w.
    assert (last_index_byte w ":" = Some (String.length host + 2)) as Hlast.
    { unfold w. rewrite <- !string_app_assoc, last_index_byte_app by done. f_equal. rewrite !string_app_length. cbn. lia. }
    assert (index_byte w "]" = Some (S (String.length host))) as Hidx.
    { unfold w. rewrite <- (string_app_assoc "[" host). change ("]" +:+ String ":" port) with (String "]" (String ":" port)).
      rewrite index_byte_app; [done|]. by rewrite has_byte_app, Hr. }
    rewrite Hlast. cbn [mbind option_bind]. change (has_prefix "[" w) with true. rewrite Hidx. cbn [mbind option_bind].
    replace (Nat.eqb (S (String.length host) + 1) (String.length host + 2)) with true by (symmetry; apply Nat.eqb_eq; lia).
    cbn [mbind option_bind]. change (string_drop 1 w) with (host +:+ "]" +:+ String ":" port).
    replace (S (String.length host) - 1) with (String.length host) by lia. rewrite string_take_app.
    rewrite !has_byte_app, Hl. change (has_byte "[" "]") with false.
    change (has_byte "[" (String ":" port)) with (has_byte "[" port). rewrite Hlp. cbn [orb].
    assert (string_drop (S (String.length host) + 1) w = String ":" port) as ->.
    { replace (S (String.length host) + 1) with (S (S (String.length host))) by lia. exact (string_drop_app_S host "]" _). }
    change (has_byte "]" (String ":" port)) with (has_byte "]" port). rewrite Hrp. do 2 f_equal.
    replace (String.length host + 2 + 1) with (S (S (S (String.length host)))) by lia.
    change (string_drop (S (S (String.length host))) (host +:+ "]" +:+ String ":" port) = port).
    rewrite <- (string_app_assoc host "]").
    replace (S (S (String.length host))) with (S (String.length (host +:+ "]"))) by (rewrite string_app_length; cbn; lia).
    apply string_drop_app_S.
  - change (host +:+ ":" +:+ port) with (host +:+ String ":" port). rewrite last_index_byte_app by done. cbn [mbind option_bind].
    assert (has_prefix "[" (host +:+ String ":" port) = false) as ->.
    { destruct host as [|c host]; [done|]. cbn [has_byte] in Hl. apply orb_false_iff in Hl as [Hne _].
      change (has_prefix "[" (String c host +:+ String ":" port)) with (byte_eqb "[" c && true).
      destruct (byte_eqb "[" c) eqn:E; [|done]. apply byte_eqb_true in E as <-. by rewrite byte_eqb_refl in Hne. }
    rewrite string_take_app, Hc. cbn [mbind option_bind string_drop].
    rewrite !has_byte_app, Hl, Hr. cbn [orb].
    change (has_byte "[" (String ":" port)) with (has_byte "[" port). change (has_byte "]" (String ":" port)) with (has_byte "]" port).
    rewrite Hlp, Hrp. replace (String.length host + 1) with (S (String.length host)) by lia. by rewrite string_drop_app_S.
Qed.
