(* ===== verification/Json.v ===== *)
(** * JSON texts ([encoding/json])

    What the package writes ([Marshal], [Encoder], with and without indentation)
    and what it accepts ([Unmarshal], [Decoder]): values, the text of a value
    and the value of a text.  Strings are escaped as for HTML; bytes that are
    not UTF-8 become U+FFFD on both ends. *)

From S2P Require Import Prelude GoStrings Utf8 Encoding UrlParse HostPort.

Definition dquote : ascii := byte 34.
Definition backslash : ascii := byte 92.
Definition newline : string := String (byte 10) "".

(** ** Strings *)

Definition hex_lower (n : N) : ascii := default "0"%char (String.get (N.to_nat n) "0123456789abcdef").

(** [appendString] of one byte below 128, and of a rune. *)
Definition escape_byte (c : ascii) : string :=
  if byte_eqb c dquote || byte_eqb c backslash then String backslash (String c "")
  else if (32 <=? byte_val c)%N && negb (has_byte c "<>&") then String c ""
  else if byte_eqb c (byte 8) then String backslash "b"
  else if byte_eqb c (byte 12) then String backslash "f"
  else if byte_eqb c (byte 10) then String backslash "n"
  else if byte_eqb c (byte 13) then String backslash "r"
  else if byte_eqb c (byte 9) then String backslash "t"
  else String backslash ("u00" +:+ String (hex_lower (byte_val c / 16)) (String (hex_lower (byte_val c mod 16)) "")).

Definition line_separator (last : N) : string := String (byte 226) (String (byte 128) (String (byte last) "")).

Definition escape_rune (r : string) : string :=
  match r with
  | String c "" => escape_byte c
  | _ => if String.eqb r (line_separator 168) then String backslash "u2028"
         else if String.eqb r (line_separator 169) then String backslash "u2029"
         else r
  end.

Definition escape (s : string) : string := runes escape_rune (String backslash "ufffd") s.

(** [utf8.AppendRune]. *)
Definition encode_rune (n : N) : string :=
  let tail k := byte (128 + (n / k) mod 64) in
  if (n <? 128)%N then String (byte n) ""
  else if (n <? 2048)%N then String (byte (192 + n / 64)) (String (tail 1%N) "")
  else if (n <? 65536)%N then String (byte (224 + n / 4096)) (String (tail 64%N) (String (tail 1%N) ""))
  else String (byte (240 + n / 262144)) (String (tail 4096%N) (String (tail 64%N) (String (tail 1%N) ""))).

(** [getu4], without the two bytes before the digits. *)
Definition hex4 (a b c d : ascii) : option N :=
  x ← unhex a; y ← unhex b; z ← unhex c; w ← unhex d;
  Some (4096 * x + 256 * y + 16 * z + w)%N.

Definition surrogate (r : N) : bool := (55296 <=? r)%N && (r <=? 57343)%N.
(** [utf16.DecodeRune]: a high and a low surrogate. *)
Definition surrogate_pair (r1 r2 : N) : option N :=
  if (55296 <=? r1)%N && (r1 <? 56320)%N && (56320 <=? r2)%N && (r2 <=? 57343)%N
  then Some ((r1 - 55296) * 1024 + (r2 - 56320) + 65536)%N else None.

Definition simple_escape (c : ascii) : option ascii :=
  if byte_eqb c dquote || byte_eqb c backslash || byte_eqb c "/" then Some c
  else if byte_eqb c "b" then Some (byte 8)
  else if byte_eqb c "f" then Some (byte 12)
  else if byte_eqb c "n" then Some (byte 10)
  else if byte_eqb c "r" then Some (byte 13)
  else if byte_eqb c "t" then Some (byte 9)
  else None.

Definition prepend (p : string) (o : option (string * string)) : option (string * string) :=
  match o with Some (t, rest) => Some (p +:+ t, rest) | None => None end.

(** A string literal from behind its opening quote: its bytes with the escapes
    resolved, and what follows the closing quote.  A surrogate without its other
    half becomes U+FFFD. *)
Fixpoint unquote (s : string) : option (string * string) :=
  match s with
  | EmptyString => None
  | String c s1 =>
      if byte_eqb c dquote then Some ("", s1)
      else if byte_eqb c backslash then
        match s1 with
        | EmptyString => None
        | String e s2 =>
            if byte_eqb e "u" then
              match s2 with
              | String h1 (String h2 (String h3 (String h4 s6))) =>
                  match hex4 h1 h2 h3 h4 with
                  | None => None
                  | Some r =>
                      if surrogate r then
                        match s6 with
                        | String b (String u (String g1 (String g2 (String g3 (String g4 s12))))) =>
                            match (if byte_eqb b backslash && byte_eqb u "u"
                                   then hex4 g1 g2 g3 g4 ≫= surrogate_pair r else None) with
                            | Some full => prepend (encode_rune full) (unquote s12)
                            | None => prepend replacement (unquote s6)
                            end
                        | _ => prepend replacement (unquote s6)
                        end
                      else prepend (encode_rune r) (unquote s6)
                  end
              | _ => None
              end
            else match simple_escape e with
                 | Some b => prepend (String b "") (unquote s2)
                 | None => None
                 end
        end
      else if (byte_val c <? 32)%N then None
      else prepend (String c "") (unquote s1)
  end.

Lemma prepend_prepend p q o : prepend p (prepend q o) = prepend (p +:+ q) o.
Proof. destruct o as [[t rest]|]; [|done]. cbn. by rewrite string_app_assoc. Qed.

Lemma unquote_high c s : ascii_byte c = false -> unquote (String c s) = prepend (String c "") (unquote s).
Proof.
  unfold ascii_byte. intros Hc%N.ltb_ge. cbn [unquote].
  destruct (byte_eqb_spec c dquote) as [->|_]; [done|]. destruct (byte_eqb_spec c backslash) as [->|_]; [done|].
  by replace (byte_val c <? 32)%N with false by (symmetry; apply N.ltb_ge; lia).
Qed.

Lemma unquote_ascii c s : ascii_byte c = true -> unquote (escape_byte c +:+ s) = prepend (String c "") (unquote s).
Proof. destruct c as [[] [] [] [] [] [] [] []]; intros Hc; try discriminate Hc; reflexivity. Qed.

Lemma unquote_rune r s : is_rune r -> unquote (escape_rune r +:+ s) = prepend r (unquote s).
Proof.
  intros Hr. destruct r as [|a r1]; [done|]. unfold is_rune in Hr. cbn [decode_rune] in Hr.
  destruct (ascii_byte a) eqn:Ea. { simplify_eq. by apply unquote_ascii. }
  destruct r1 as [|b r2]; [done|]. unfold escape_rune.
  destruct (String.eqb_spec (String a (String b r2)) (line_separator 168)) as [->|_]; [reflexivity|].
  destruct (String.eqb_spec (String a (String b r2)) (line_separator 169)) as [->|_]; [reflexivity|].
  assert (forall c t, continuation c = true -> unquote (String c t) = prepend (String c "") (unquote t)) as Hc.
  { intros c t. unfold continuation, in_bytes. intros [Hc _]%andb_true_iff. apply unquote_high.
    apply N.leb_le in Hc. by apply N.ltb_ge. }
  assert (forall lo hi c t, (128 <= lo)%N -> in_bytes lo hi c = true -> unquote (String c t) = prepend (String c "") (unquote t)) as Hi.
  { intros lo hi c t Hlo. unfold in_bytes. intros [H _]%andb_true_iff. apply unquote_high. apply N.leb_le in H. apply N.ltb_ge. lia. }
  rewrite !string_cons_app, (unquote_high a) by done. destruct (rune2 a b) eqn:E2.
  { simplify_eq. apply andb_true_iff in E2 as [_ E2]. rewrite string_nil_app, Hc, prepend_prepend by done. done. }
  destruct r2 as [|c r3]; [done|]. destruct (rune3 a b c) eqn:E3.
  { simplify_eq. apply andb_true_iff in E3 as [E3 Ec].
    assert (unquote (String b (String c "" +:+ s)) = prepend (String b "") (unquote (String c "" +:+ s))) as ->.
    { unfold continuation in E3. repeat (apply orb_true_iff in E3 as [E3|E3]); apply andb_true_iff in E3 as [_ E3];
        (eapply Hi; [|exact E3]; lia). }
    rewrite string_cons_app, string_nil_app, Hc, !prepend_prepend by done. done. }
  destruct r3 as [|d r4]; [done|]. destruct (rune4 a b c d) eqn:E4; [|done]. simplify_eq.
  apply andb_true_iff in E4 as [[E4 Ec]%andb_true_iff Ed].
  assert (unquote (String b (String c (String d "") +:+ s)) = prepend (String b "") (unquote (String c (String d "") +:+ s))) as ->.
  { unfold continuation in E4. repeat (apply orb_true_iff in E4 as [E4|E4]); apply andb_true_iff in E4 as [_ E4];
      (eapply Hi; [|exact E4]; lia). }
  rewrite !string_cons_app, string_nil_app, !Hc, !prepend_prepend by done. done.
Qed.

(** The round trip of a string: its invalid bytes are replaced. *)
Lemma unquote_escape s rest : unquote (escape s +:+ String dquote rest) = Some (to_valid s, rest).
Proof.
  unfold escape. induction s as [|r s Hr IH|s a s' -> Hb Ha IH] using runes_ind; [done|..].
  - by rewrite (runes_rune _ _ _ _ Hr), string_app_assoc, (unquote_rune _ _ Hr), IH, (to_valid_rune _ _ Hr).
  - rewrite (runes_bad _ _ _ _ Hb), string_app_assoc, (to_valid_bad _ _ Hb).
    change (unquote (String backslash "ufffd" +:+ ?t)) with (prepend replacement (unquote t)). by rewrite IH.
Qed.

(** ** Numbers *)

(** The longest prefix of digits. *)
Fixpoint span_digits (s : string) : string * string :=
  match s with
  | String c s' => if is_digit c then let '(d, rest) := span_digits s' in (String c d, rest) else ("", s)
  | EmptyString => ("", "")
  end.

Definition digits1 (s : string) : option (string * string) :=
  match span_digits s with ("", _) => None | p => Some p end.

(** The parts of a number literal: integer, fraction and exponent. *)
Definition scan_int (s : string) : option (string * string) :=
  match s with
  | String "0" rest => Some ("0", rest)
  | _ => digits1 s
  end.
Definition scan_frac (s : string) : option (string * string) :=
  match s with
  | String "." rest => prepend "." (digits1 rest)
  | _ => Some ("", s)
  end.
Definition scan_exp (s : string) : option (string * string) :=
  match s with
  | String e rest =>
      if byte_eqb e "e" || byte_eqb e "E" then
        match rest with
        | String c rest' => if byte_eqb c "+" || byte_eqb c "-" then prepend (String e (String c "")) (digits1 rest')
                            else prepend (String e "") (digits1 rest)
        | EmptyString => None
        end
      else Some ("", s)
  | EmptyString => Some ("", "")
  end.

(** Both halves of a literal, one after the other. *)
Definition scan_then (p q : string -> option (string * string)) (s : string) : option (string * string) :=
  match p s with Some (a, rest) => prepend a (q rest) | None => None end.

Definition scan_number (s : string) : option (string * string) :=
  let number := scan_then scan_int (scan_then scan_frac scan_exp) in
  match s with
  | String "-" rest => prepend "-" (number rest)
  | _ => number s
  end.

(** Where a number ends. *)
Definition ends_number (s : string) : Prop :=
  match s with
  | EmptyString => True
  | String c _ => is_digit c = false /\ has_byte c ".eE" = false
  end.

Definition number_ok (lit : string) : Prop := forall rest, ends_number rest -> scan_number (lit +:+ rest) = Some (lit, rest).

Lemma span_digits_app d rest :
  string_forallb is_digit d = true -> ends_number rest -> span_digits (d +:+ rest) = (d, rest).
Proof.
  induction d as [|c d IH]; intros Hd Hr.
  - destruct rest as [|c rest]; [done|]. destruct Hr as [Hr _]. rewrite string_nil_app. cbn. by rewrite Hr.
  - cbn in Hd. apply andb_true_iff in Hd as [Hc Hd]. rewrite string_cons_app. cbn [span_digits]. by rewrite Hc, IH.
Qed.

Lemma scan_tail_ends rest : ends_number rest -> scan_then scan_frac scan_exp rest = Some ("", rest).
Proof.
  destruct rest as [|c rest]; [done|]. intros [_ Hc]. unfold scan_then, scan_frac, scan_exp. cbn in Hc.
  apply orb_false_iff in Hc as [H1 [H2 [H3 _]%orb_false_iff]%orb_false_iff].
  destruct (byte_eqb_spec "." c) as [<-|Hn]; [done|].
  assert (match c with "."%char => prepend "." (digits1 rest) | _ => Some ("", String c rest) end = Some ("", String c rest)) as ->.
  { by destruct c as [[] [] [] [] [] [] [] []]. }
  destruct (byte_eqb_spec "e" c) as [<-|?]; [done|]. destruct (byte_eqb_spec "E" c) as [<-|?]; [done|].
  destruct (byte_eqb_spec c "e") as [->|?]; [done|]. by destruct (byte_eqb_spec c "E") as [->|?].
Qed.

Lemma scan_number_digits d rest :
  string_forallb is_digit d = true -> d <> "" -> (d = "0" \/ has_prefix "0" d = false) -> ends_number rest ->
  scan_then scan_int (scan_then scan_frac scan_exp) (d +:+ rest) = Some (d, rest).
Proof.
  intros Hd Hne Hz Hr. unfold scan_then at 1. assert (scan_int (d +:+ rest) = Some (d, rest)) as ->.
  { destruct Hz as [->|Hz]; [done|]. pose proof (span_digits_app d rest Hd Hr) as Hs.
    destruct d as [|c d]; [done|]. rewrite string_cons_app in *.
    assert (scan_int (String c (d +:+ rest)) = digits1 (String c (d +:+ rest))) as ->.
    { by destruct c as [[] [] [] [] [] [] [] []]. }
    unfold digits1. by rewrite Hs. }
  rewrite scan_tail_ends by done. cbn. by rewrite string_app_nil_r.
Qed.

Lemma number_itoa n : number_ok (itoa n).
Proof.
  assert (forall m rest, (0 <= m)%Z -> ends_number rest ->
    scan_then scan_int (scan_then scan_frac scan_exp) (itoa m +:+ rest) = Some (itoa m, rest)) as Hpos.
  { intros m rest Hm Hr. apply scan_number_digits; auto using itoa_digits, itoa_nonempty.
    destruct (Z.eq_dec m 0%Z) as [->|]; [by left|]. right. destruct (itoa_leading m) as (c & t & -> & Hc); [lia|].
    unfold has_prefix. destruct (byte_eqb_spec "0" c) as [<-|]; done. }
  intros rest Hr. destruct (Z.le_gt_cases 0 n) as [Hn|Hn].
  - rewrite <- (Hpos n rest Hn Hr). pose proof (itoa_digits n Hn) as Hd. destruct (itoa n) as [|c t] eqn:E; [by apply itoa_nonempty in E|].
    rewrite string_cons_app. cbn in Hd. apply andb_true_iff in Hd as [Hd _]. by destruct c as [[] [] [] [] [] [] [] []].
  - destruct n as [|q|q]; [lia..|]. change (itoa (Z.neg q)) with (String "-" (itoa (Z.pos q))). rewrite string_cons_app.
    cbn [scan_number]. by rewrite Hpos.
Qed.

(** ** Values and their text *)

(** A number is its literal; an object keeps the order and the duplicates of
    its keys. *)
Inductive json :=
  | JNull
  | JBool (b : bool)
  | JNumber (literal : string)
  | JString (s : string)
  | JArray (elems : list json)
  | JObject (members : list (string * json)).

Section json_induction.
Variable P : json -> Prop.
Hypothesis Hnull : P JNull.
Hypothesis Hbool : forall b, P (JBool b).
Hypothesis Hnumber : forall lit, P (JNumber lit).
Hypothesis Hstring : forall s, P (JString s).
Hypothesis Harray : forall l, Forall P l -> P (JArray l).
Hypothesis Hobject : forall l, Forall (fun m => P m.2) l -> P (JObject l).

Fixpoint json_tree_ind (v : json) : P v :=
  match v with
  | JNull => Hnull
  | JBool b => Hbool b
  | JNumber lit => Hnumber lit
  | JString s => Hstring s
  | JArray l => Harray l ((fix go l := match l return Forall P l with
      | [] => List.Forall_nil _ | v :: l => List.Forall_cons _ _ _ (json_tree_ind v) (go l) end) l)
  | JObject l => Hobject l ((fix go l := match l return Forall (fun m => P m.2) l with
      | [] => List.Forall_nil _ | (k, v) :: l => List.Forall_cons _ (k, v) _ (json_tree_ind v) (go l) end) l)
  end.
End json_induction.

(** How a value is laid out: on one line, or broken at a level of indentation
    by two spaces ([SetIndent] with no prefix). *)
Definition layout := option nat.
Definition deeper (lay : layout) : layout := S <$> lay.
Fixpoint spaces (n : nat) : string := match n with O => "" | S n => String " " (String " " (spaces n)) end.
Definition line_break (lay : layout) : string := match lay with None => "" | Some n => newline +:+ spaces n end.
Definition colon (lay : layout) : string := match lay with None => ":" | Some _ => ": " end.
Definition quoted (s : string) : string := String dquote (escape s +:+ String dquote "").

(** Items between two brackets; empty brackets are not broken. *)
Definition bracketed (lay : layout) (left right : string) (items : list string) : string :=
  match items with
  | [] => left +:+ right
  | _ => left +:+ line_break (deeper lay) +:+ join items ("," +:+ line_break (deeper lay)) +:+ line_break lay +:+ right
  end.

Fixpoint print (lay : layout) (v : json) : string :=
  match v with
  | JNull => "null"
  | JBool b => if b then "true" else "false"
  | JNumber lit => lit
  | JString s => quoted s
  | JArray l => bracketed lay "[" "]" (map (print (deeper lay)) l)
  | JObject l =>
      bracketed lay "{" "}" (map (fun m => quoted m.1 +:+ colon lay +:+ print (deeper lay) m.2) l)
  end.

(** [json.Marshal], and [Encoder.Encode] without and with the indentation of
    two spaces. *)
Definition marshal (v : json) : string := print None v.
Definition encode_line (v : json) : string := print None v +:+ newline.
Definition encode_indented (v : json) : string := print (Some 0) v +:+ newline.

(** ** From text to values *)

Definition is_ws (c : ascii) : bool := has_byte c (String (byte 32) (String (byte 9) (String (byte 10) (String (byte 13) "")))).

Fixpoint skip_ws (s : string) : string :=
  match s with String c s' => if is_ws c then skip_ws s' else s | EmptyString => "" end.

Inductive brackets := Arr | Obj.

Inductive token :=
  | TNull
  | TBool (b : bool)
  | TNumber (literal : string)
  | TString (s : string)
  | TOpen (k : brackets)
  | TClose (k : brackets)
  | TColon
  | TComma.

Definition literal_token (t : token) (text s : string) : option (token * string) :=
  let '(rest, found) := cut_prefix s text in if found then Some (t, rest) else None.

(** The next token, white space before it skipped; [None] at the end of the
    text and at a byte that begins no token. *)
Definition next_token (s : string) : option (token * string) :=
  let s := skip_ws s in
  match s with
  | EmptyString => None
  | String c rest =>
      if byte_eqb c dquote then
        match unquote rest with Some (raw, rest) => Some (TString (to_valid raw), rest) | None => None end
      else if byte_eqb c "[" then Some (TOpen Arr, rest)
      else if byte_eqb c "]" then Some (TClose Arr, rest)
      else if byte_eqb c "{" then Some (TOpen Obj, rest)
      else if byte_eqb c "}" then Some (TClose Obj, rest)
      else if byte_eqb c ":" then Some (TColon, rest)
      else if byte_eqb c "," then Some (TComma, rest)
      else if byte_eqb c "n" then literal_token TNull "null" s
      else if byte_eqb c "t" then literal_token (TBool true) "true" s
      else if byte_eqb c "f" then literal_token (TBool false) "false" s
      else match scan_number s with Some (lit, rest) => Some (TNumber lit, rest) | None => None end
  end.

(** An array's items have no key. *)
Definition build (k : brackets) (items : list (string * json)) : json :=
  match k with Arr => JArray (map snd items) | Obj => JObject items end.
Definition item_key (k : brackets) (s : string) : option (string * string) :=
  match k with
  | Arr => Some ("", s)
  | Obj =>
      match next_token s with
      | Some (TString key, s) => match next_token s with Some (TColon, s) => Some (key, s) | _ => None end
      | _ => None
      end
  end.
Definition closes (k k' : brackets) : bool := match k, k' with Arr, Arr | Obj, Obj => true | _, _ => false end.

(** A value at the beginning of a text, with what follows it.  [depth] bounds
    the nesting of brackets. *)
Fixpoint parse_value (fuel : nat) (depth : Z) (s : string) : option (json * string) :=
  match fuel with
  | O => None
  | S fuel =>
      match next_token s with
      | Some (TNull, s) => Some (JNull, s)
      | Some (TBool b, s) => Some (JBool b, s)
      | Some (TNumber lit, s) => Some (JNumber lit, s)
      | Some (TString t, s) => Some (JString t, s)
      | Some (TOpen k, s) =>
          if (depth <=? 0)%Z then None else
          match next_token s with
          | Some (TClose k', s) => if closes k k' then Some (build k [], s) else None
          | _ => match parse_items fuel (depth - 1) k s with
                 | Some (items, s) => Some (build k items, s)
                 | None => None
                 end
          end
      | _ => None
      end
  end
with parse_items (fuel : nat) (depth : Z) (k : brackets) (s : string) : option (list (string * json) * string) :=
  match fuel with
  | O => None
  | S fuel =>
      match item_key k s with
      | None => None
      | Some (key, s) =>
          match parse_value fuel depth s with
          | None => None
          | Some (v, s) =>
              match next_token s with
              | Some (TComma, s) =>
                  match parse_items fuel depth k s with
                  | Some (items, s) => Some ((key, v) :: items, s)
                  | None => None
                  end
              | Some (TClose k', s) => if closes k k' then Some ([(key, v)], s) else None
              | _ => None
              end
          end
      end
  end.

Definition maxNestingDepth : Z := 10000.

(** [Decoder.Decode] of a text: the first value and the rest. *)
Definition decode_value (s : string) : option (json * string) :=
  parse_value (S (2 * String.length s)) maxNestingDepth s.

(** Nothing but white space. *)
Definition all_blank (s : string) : bool := String.eqb (skip_ws s) "".

(** [Unmarshal]: one value, with white space around it. *)
Definition unmarshal (s : string) : option json :=
  match decode_value s with
  | Some (v, rest) => if all_blank rest then Some v else None
  | None => None
  end.

(** ** The fuel is enough *)

Lemma skip_ws_length s : String.length (skip_ws s) <= String.length s.
Proof. induction s as [|c s IH]; [done|]. cbn [skip_ws]. destruct (is_ws c); cbn; lia. Qed.

Lemma prepend_shorter p o t rest n :
  prepend p o = Some (t, rest) ->
  (forall t' rest', o = Some (t', rest') -> String.length rest' < n) -> String.length rest < n.
Proof. destruct o as [[t' rest']|]; [|done]. intros [= <- <-] H. by eapply H. Qed.

Lemma unquote_shorter s : forall t rest, unquote s = Some (t, rest) -> String.length rest < String.length s.
Proof.
  induction s as [s IH] using (induction_ltof1 _ String.length). unfold ltof in IH.
  assert (forall p s' t rest, String.length s' < String.length s -> prepend p (unquote s') = Some (t, rest) ->
    String.length rest < String.length s) as Hp.
  { intros p s' t rest Hl Hq. eapply prepend_shorter; [exact Hq|]. intros t' rest' Hs'. specialize (IH _ Hl _ _ Hs'). lia. }
  intros t rest Hs. destruct s as [|c s1]; [done|]. cbn [unquote] in Hs. repeat case_match; simplify_eq; try (cbn; lia);
    (eapply Hp; [|eassumption]; cbn; lia).
Qed.

Lemma span_digits_shorter s : String.length (span_digits s).2 <= String.length s.
Proof.
  induction s as [|c s IH]; [done|]. cbn [span_digits]. destruct (is_digit c); [|done].
  destruct (span_digits s). cbn in *. lia.
Qed.

Lemma digits1_shorter s d rest : digits1 s = Some (d, rest) -> String.length rest < String.length s.
Proof.
  unfold digits1. destruct s as [|c s]; [done|]. cbn [span_digits]. destruct (is_digit c); [|done].
  pose proof (span_digits_shorter s). destruct (span_digits s) as [d' rest']. intros [= <- <-]. cbn in *. lia.
Qed.

Lemma scan_frac_shorter s t rest : scan_frac s = Some (t, rest) -> String.length rest <= String.length s.
Proof.
  unfold scan_frac. destruct s as [|c s]; [by intros [= <- <-]|].
  assert (forall o, o = Some (t, rest) -> o = prepend "." (digits1 s) \/ o = Some ("", String c s) ->
    String.length rest <= String.length (String c s)) as H.
  { intros o -> [Ho|[= -> ->]]; [|done]. symmetry in Ho. apply Nat.lt_le_incl. eapply prepend_shorter; [exact Ho|].
    intros d r Hd%digits1_shorter. cbn. lia. }
  intros Hs. eapply H; [exact Hs|]. destruct c as [[] [] [] [] [] [] [] []]; auto.
Qed.

Lemma scan_exp_shorter s t rest : scan_exp s = Some (t, rest) -> String.length rest <= String.length s.
Proof.
  unfold scan_exp. destruct s as [|c s]; [by intros [= <- <-]|]. destruct (_ || _); [|by intros [= <- <-]].
  destruct s as [|d s]; [done|]. intros Hs. apply Nat.lt_le_incl.
  destruct (_ || _); (eapply prepend_shorter; [exact Hs|]; intros e r He%digits1_shorter; cbn in *; lia).
Qed.

Lemma scan_unsigned_shorter s t rest :
  scan_then scan_int (scan_then scan_frac scan_exp) s = Some (t, rest) -> String.length rest < String.length s.
Proof.
  unfold scan_then. destruct (scan_int s) as [[i s1]|] eqn:Ei; [|done].
  assert (String.length s1 < String.length s) as Hi.
  { destruct s as [|c s]; [done|]. unfold scan_int in Ei.
    destruct c as [[] [] [] [] [] [] [] []]; first [by apply digits1_shorter in Ei|simplify_eq; cbn; lia]. }
  intros Hs. eapply prepend_shorter; [exact Hs|]. intros t1 r1 H1.
  destruct (scan_frac s1) as [[f s2]|] eqn:Ef; [|done]. apply scan_frac_shorter in Ef.
  eapply prepend_shorter; [exact H1|]. intros t2 r2 H2%scan_exp_shorter. lia.
Qed.

Lemma scan_number_shorter s t rest : scan_number s = Some (t, rest) -> String.length rest < String.length s.
Proof.
  destruct s as [|c s]; [done|].
  assert (forall o, o = Some (t, rest) ->
    o = prepend "-" (scan_then scan_int (scan_then scan_frac scan_exp) s) \/
    o = scan_then scan_int (scan_then scan_frac scan_exp) (String c s) -> String.length rest < String.length (String c s)) as H.
  { intros o -> [Ho|Ho]; symmetry in Ho; [|by apply scan_unsigned_shorter in Ho].
    eapply prepend_shorter; [exact Ho|]. intros t' r' H'%scan_unsigned_shorter. cbn. lia. }
  intros Hs. eapply H; [exact Hs|]. unfold scan_number. destruct c as [[] [] [] [] [] [] [] []]; auto.
Qed.

Lemma literal_token_shorter t text s t' rest :
  text <> "" -> literal_token t text s = Some (t', rest) -> String.length rest < String.length s.
Proof.
  intros Hne. unfold literal_token, cut_prefix. destruct (has_prefix text s) eqn:Hp; [|done]. intros [= <- <-].
  apply has_prefix_spec in Hp as [u ->]. rewrite string_drop_app, string_app_length. destruct text; [done|]. cbn. lia.
Qed.

Lemma next_token_shorter s t rest : next_token s = Some (t, rest) -> String.length rest < String.length s.
Proof.
  unfold next_token. pose proof (skip_ws_length s) as Hws. destruct (skip_ws s) as [|c s1] eqn:Es; [done|].
  assert (String.length rest < String.length (String c s1) -> String.length rest < String.length s) as Hfin by lia.
  intros Hn. apply Hfin. clear Hfin Hws Es.
  destruct (byte_eqb c dquote).
  { destruct (unquote s1) as [[raw r]|] eqn:Eu; [|done]. simplify_eq. apply unquote_shorter in Eu. cbn. lia. }
  repeat (destruct (byte_eqb c _); [by first [simplify_eq; cbn; lia | eapply literal_token_shorter; [|exact Hn]]|]).
  destruct (scan_number (String c s1)) as [[lit r]|] eqn:Eu; [|done]. simplify_eq. by apply scan_number_shorter in Eu.
Qed.

Lemma item_key_shorter k s key rest : item_key k s = Some (key, rest) -> String.length rest <= String.length s.
Proof.
  unfold item_key. destruct k; [by intros [= <- <-]|].
  destruct (next_token s) as [[[] s1]|] eqn:E1; try done. destruct (next_token s1) as [[[] s2]|] eqn:E2; try done.
  intros [= <- <-]. apply next_token_shorter in E1, E2. lia.
Qed.

Lemma parse_shorter fuel :
  (forall d s v rest, parse_value fuel d s = Some (v, rest) -> String.length rest < String.length s) /\
  (forall d k s l rest, parse_items fuel d k s = Some (l, rest) -> String.length rest < String.length s).
Proof.
  induction fuel as [|fuel [IHv IHi]]; [done|]. split.
  - intros d s v rest Hp. cbn [parse_value] in Hp. destruct (next_token s) as [[t s1]|] eqn:E1; [|done].
    apply next_token_shorter in E1. destruct t as [| | | |k|k| |]; simplify_eq; try done.
    destruct (d <=? 0)%Z; [done|]. destruct (parse_items fuel (d - 1) k s1) as [[l s2]|] eqn:Ei; [apply IHi in Ei|];
      destruct (next_token s1) as [[[] s3]|] eqn:E2; try apply next_token_shorter in E2; repeat case_match; simplify_eq; lia.
  - intros d k s l rest Hp. cbn [parse_items] in Hp. destruct (item_key k s) as [[key s1]|] eqn:E1; [|done].
    apply item_key_shorter in E1. destruct (parse_value fuel d s1) as [[v s2]|] eqn:E2; [|done]. apply IHv in E2.
    destruct (next_token s2) as [[t s3]|] eqn:E3; [|done]. apply next_token_shorter in E3.
    destruct t; try done; [repeat case_match; simplify_eq; lia|].
    destruct (parse_items fuel d k s3) as [[l' s4]|] eqn:E4; [|done]. apply IHi in E4. simplify_eq. lia.
Qed.

(** More fuel than the text needs changes nothing. *)
Lemma parse_enough fuel :
  (forall d s x n, parse_value fuel d s = Some x -> 2 * String.length s + 1 <= n -> parse_value n d s = Some x) /\
  (forall d k s x n, parse_items fuel d k s = Some x -> 2 * String.length s + 2 <= n -> parse_items n d k s = Some x).
Proof.
  induction fuel as [|fuel [IHv IHi]]; [done|]. split.
  - intros d s x [|n] Hp Hn; [lia|]. cbn [parse_value] in *. destruct (next_token s) as [[t s1]|] eqn:E1; [|done].
    apply next_token_shorter in E1. destruct t as [| | | |k|k| |]; try done. destruct (d <=? 0)%Z; [done|].
    assert (forall o, match parse_items fuel (d - 1) k s1 with Some (l, r) => Some (build k l, r) | None => None end = Some o ->
      match parse_items n (d - 1) k s1 with Some (l, r) => Some (build k l, r) | None => None end = Some o) as Hi.
    { intros o. destruct (parse_items fuel (d - 1) k s1) as [p|] eqn:Ei; [|done]. by rewrite (IHi _ _ _ _ n Ei) by lia. }
    destruct (next_token s1) as [[[] s2]|]; auto.
  - intros d k s x [|n] Hp Hn; [lia|]. cbn [parse_items] in *. destruct (item_key k s) as [[key s1]|] eqn:E1; [|done].
    apply item_key_shorter in E1. destruct (parse_value fuel d s1) as [[v s2]|] eqn:E2; [|done].
    rewrite (IHv _ _ _ n E2) by lia. apply (proj1 (parse_shorter fuel)) in E2.
    destruct (next_token s2) as [[t s3]|] eqn:E3; [|done]. apply next_token_shorter in E3. destruct t; try done.
    destruct (parse_items fuel d k s3) as [p|] eqn:E4; [|done]. by rewrite (IHi _ _ _ _ n E4) by lia.
Qed.

Lemma decode_value_fuel fuel s x : parse_value fuel maxNestingDepth s = Some x -> decode_value s = Some x.
Proof. intros Hp. unfold decode_value. eapply (proj1 (parse_enough fuel)); [exact Hp|lia]. Qed.

(** ** The round trip of a value *)

(** What a text can carry of a value: its strings made valid. *)
Fixpoint sanitize (v : json) : json :=
  match v with
  | JString s => JString (to_valid s)
  | JArray l => JArray (map sanitize l)
  | JObject l => JObject (map (fun m => (to_valid m.1, sanitize m.2)) l)
  | _ => v
  end.

(** Number literals are ones, and the nesting is at most [d]. *)
Fixpoint printable (d : Z) (v : json) : Prop :=
  match v with
  | JNumber lit => number_ok lit
  | JArray l => (0 < d)%Z /\ list_rect _ True (fun v _ P => printable (d - 1) v /\ P) l
  | JObject l => (0 < d)%Z /\ list_rect _ True (fun m _ P => printable (d - 1) m.2 /\ P) l
  | _ => True
  end.

Lemma printable_array d l : (0 < d)%Z -> Forall (printable (d - 1)) l -> printable d (JArray l).
Proof. intros Hd Hl. split; [done|]. by induction Hl. Qed.

Lemma printable_object d l : (0 < d)%Z -> Forall (fun m => printable (d - 1) m.2) l -> printable d (JObject l).
Proof. intros Hd Hl. split; [done|]. by induction Hl. Qed.

(** The fuel a printed value takes. *)
Fixpoint weight (v : json) : nat :=
  match v with
  | JArray l => S (list_rect _ 1 (fun v _ n => S (weight v + n)) l)
  | JObject l => S (list_rect _ 1 (fun m _ n => S (weight m.2 + n)) l)
  | _ => 1
  end.

Definition item_text (lay : layout) (k : brackets) (m : string * json) : string :=
  match k with Arr => "" | Obj => quoted m.1 +:+ colon lay end +:+ print (deeper lay) m.2.

Fixpoint items_weight (l : list (string * json)) : nat :=
  match l with [] => 1 | m :: l => S (weight m.2 + items_weight l) end.

Lemma next_token_skip s t : skip_ws s = skip_ws t -> next_token s = next_token t.
Proof. unfold next_token. by intros ->. Qed.

Lemma skip_ws_spaces n s : skip_ws (spaces n +:+ s) = skip_ws s.
Proof. by induction n as [|n IH]; [|cbn [spaces]; rewrite !string_cons_app]. Qed.

Lemma skip_ws_break lay s : skip_ws (line_break lay +:+ s) = skip_ws s.
Proof.
  destruct lay as [n|]; [|done]. unfold line_break, newline. rewrite string_app_assoc, string_cons_app, string_nil_app.
  change (skip_ws (String (byte 10) ?t)) with (skip_ws t). apply skip_ws_spaces.
Qed.

Lemma parse_value_skip fuel d s t : skip_ws s = skip_ws t -> parse_value fuel d s = parse_value fuel d t.
Proof. intros Hst. destruct fuel; [done|]. cbn [parse_value]. by rewrite (next_token_skip s t). Qed.

Lemma parse_items_skip fuel d k s t : skip_ws s = skip_ws t -> parse_items fuel d k s = parse_items fuel d k t.
Proof.
  intros Hst. destruct fuel; [done|]. cbn [parse_items]. destruct k; unfold item_key.
  - by rewrite (parse_value_skip fuel d s t).
  - by rewrite (next_token_skip s t).
Qed.

Lemma next_token_quoted s rest : next_token (quoted s +:+ rest) = Some (TString (to_valid s), rest).
Proof.
  unfold quoted. rewrite string_cons_app, string_app_assoc, string_cons_app, string_nil_app.
  change (next_token (String dquote ?t)) with
    (match unquote t with Some (raw, rest) => Some (TString (to_valid raw), rest) | None => None end).
  by rewrite unquote_escape, to_valid_idem.
Qed.

Lemma item_key_text lay k (m : string * json) s : exists s',
  item_key k (match k with Arr => "" | Obj => quoted m.1 +:+ colon lay end +:+ s) =
    Some (match k with Arr => "" | Obj => to_valid m.1 end, s') /\ skip_ws s' = skip_ws s.
Proof.
  destruct k; [by exists s|]. unfold item_key. rewrite string_app_assoc, next_token_quoted.
  destruct lay; [exists (" " +:+ s)|exists s]; done.
Qed.

Definition close_text (k : brackets) : string := match k with Arr => "]" | Obj => "}" end.
Definition open_text (k : brackets) : string := match k with Arr => "[" | Obj => "{" end.
Definition read_item (k : brackets) (m : string * json) : string * json :=
  (match k with Arr => "" | Obj => to_valid m.1 end, sanitize m.2).

(** What is printed of [v] reads back at depth [d], on whatever fuel it takes. *)
Definition reads_back (d : Z) (v : json) : Prop := forall lay fuel rest,
  weight v <= fuel -> ends_number rest -> parse_value fuel d (print lay v +:+ rest) = Some (sanitize v, rest).

Lemma ends_number_break lay k rest : ends_number (line_break lay +:+ close_text k +:+ rest).
Proof. destruct lay, k; done. Qed.

Lemma next_token_close lay k rest :
  next_token (line_break lay +:+ close_text k +:+ rest) = Some (TClose k, rest).
Proof. rewrite (next_token_skip _ (close_text k +:+ rest)) by apply skip_ws_break. by destruct k. Qed.

Lemma parse_item_text d lay k m fuel s :
  reads_back d m.2 -> weight m.2 <= fuel -> ends_number s ->
  parse_items (S fuel) d k (item_text lay k m +:+ s) =
    match next_token s with
    | Some (TComma, s) =>
        match parse_items fuel d k s with Some (items, s) => Some (read_item k m :: items, s) | None => None end
    | Some (TClose k', s) => if closes k k' then Some ([read_item k m], s) else None
    | _ => None
    end.
Proof.
  intros Hm Hf Hs. unfold item_text. rewrite string_app_assoc.
  destruct (item_key_text lay k m (print (deeper lay) m.2 +:+ s)) as (s' & Hk & Hws).
  cbn [parse_items]. rewrite Hk, (parse_value_skip _ _ _ _ Hws), Hm by done. done.
Qed.

Lemma parse_items_text d lay k l fuel rest :
  l <> [] -> Forall (fun m => reads_back d m.2) l -> items_weight l <= fuel ->
  parse_items fuel d k
    (join (map (item_text lay k) l) ("," +:+ line_break (deeper lay)) +:+ line_break lay +:+ close_text k +:+ rest) =
  Some (map (read_item k) l, rest).
Proof.
  intros Hne Hl. revert fuel Hne. induction Hl as [|m l Hm Hl IH]; intros fuel Hne Hf; [done|].
  destruct fuel as [|fuel]; [cbn in Hf; lia|]. cbn in Hf. destruct l as [|m' l].
  - cbn [map join]. rewrite parse_item_text by (done || lia || apply ends_number_break).
    rewrite next_token_close. by destruct k.
  - change (join (map (item_text lay k) (m :: m' :: l)) ?sep) with (item_text lay k m +:+ sep +:+ join (map (item_text lay k) (m' :: l)) sep).
    rewrite !string_app_assoc, parse_item_text by (done || lia).
    rewrite string_cons_app, string_nil_app.
    change (next_token (String "," ?t)) with (Some (TComma, t)). cbn match.
    rewrite (parse_items_skip _ _ _ _ _ (skip_ws_break _ _)), IH by (done || (cbn in *; lia)). done.
Qed.


Lemma parse_items_no_close fuel d k s x : parse_items fuel d k s = Some x ->
  forall k' s', next_token s <> Some (TClose k', s').
Proof.
  destruct fuel as [|fuel]; [done|]. cbn [parse_items]. intros Hp k' s' Hn. destruct k; unfold item_key in Hp.
  - destruct fuel; [done|]. cbn [parse_value] in Hp. by rewrite Hn in Hp.
  - by rewrite Hn in Hp.
Qed.

Lemma parse_bracketed d lay k l fuel rest :
  (0 < d)%Z -> Forall (fun m => reads_back (d - 1) m.2) l -> S (items_weight l) <= fuel ->
  parse_value fuel d (bracketed lay (open_text k) (close_text k) (map (item_text lay k) l) +:+ rest) =
  Some (build k (map (read_item k) l), rest).
Proof.
  intros Hd Hl Hf. destruct fuel as [|fuel]; [lia|].
  assert (forall s, next_token (open_text k +:+ s) = Some (TOpen k, s)) as Ho by (intros s; by destruct k).
  destruct l as [|m l].
  - cbn [map bracketed]. rewrite string_app_assoc. cbn [parse_value]. rewrite Ho.
    replace (d <=? 0)%Z with false by (symmetry; lia). by destruct k.
  - unfold bracketed. cbn [map]. change (item_text lay k m :: map (item_text lay k) l) with (map (item_text lay k) (m :: l)).
    rewrite !string_app_assoc. cbn [parse_value]. rewrite Ho. replace (d <=? 0)%Z with false by (symmetry; lia).
    pose proof (parse_items_text (d - 1) lay k (m :: l) fuel rest ltac:(done) Hl ltac:(lia)) as Hi.
    rewrite <- (parse_items_skip _ _ _ _ _ (skip_ws_break (deeper lay) _)) in Hi.
    pose proof (parse_items_no_close _ _ _ _ _ Hi) as Hc. rewrite Hi.
    destruct (next_token _) as [[[] s']|]; try done. by destruct (Hc _ _ eq_refl).
Qed.

Lemma next_token_number s lit rest :
  scan_number s = Some (lit, rest) -> next_token s = Some (TNumber lit, rest).
Proof.
  destruct s as [|c s]; [done|]. intros Hs.
  assert (next_token (String c s) = match scan_number (String c s) with Some (lit, rest) => Some (TNumber lit, rest) | None => None end) as ->.
  { destruct c as [[] [] [] [] [] [] [] []]; first [discriminate Hs|reflexivity]. }
  by rewrite Hs.
Qed.

Lemma print_reads_back v : forall d, printable d v -> reads_back d v.
Proof.
  induction v as [|b|lit|s|l IH|l IH] using json_tree_ind; intros d Hp lay fuel rest Hf Hr.
  - destruct fuel; [cbn in Hf; lia|done].
  - destruct fuel; [cbn in Hf; lia|]. by destruct b.
  - destruct fuel as [|fuel]; [cbn in Hf; lia|]. cbn [print parse_value]. by rewrite (next_token_number _ _ _ (Hp rest Hr)).
  - destruct fuel as [|fuel]; [cbn in Hf; lia|]. cbn [print parse_value]. by rewrite next_token_quoted.
  - destruct Hp as [Hd Hp]. cbn [print].
    replace (map (print (deeper lay)) l) with (map (item_text lay Arr) (map (pair "") l)) by (rewrite map_map; done).
    change "[" with (open_text Arr). change "]" with (close_text Arr).
    rewrite parse_bracketed; [|done|..].
    + cbn [build sanitize]. rewrite !map_map. done.
    + clear Hf. induction IH as [|v l Hv Hl IHl]; constructor; destruct Hp; auto.
    + clear Hp IH. etrans; [|exact Hf]. cbn [weight]. apply le_n_S. induction l as [|v l IHl]; cbn in *; [done|].
      apply le_n_S, Nat.add_le_mono_l, IHl. lia.
  - destruct Hp as [Hd Hp]. cbn [print].
    replace (map _ l) with (map (item_text lay Obj) l) at 1.
    2: { apply map_ext. intros m. unfold item_text. by rewrite string_app_assoc. }
    change "{" with (open_text Obj). change "}" with (close_text Obj).
    rewrite parse_bracketed; [done|done|..].
    + clear Hf. induction IH as [|v l Hv Hl IHl]; constructor; destruct Hp; auto.
    + clear Hp IH. etrans; [|exact Hf]. cbn [weight]. apply le_n_S. induction l as [|v l IHl]; cbn in *; [done|].
      apply le_n_S, Nat.add_le_mono_l, IHl. lia.
Qed.

(** A printed value is read back whole, in either layout, with its strings made
    valid; what follows it is left. *)
Lemma decode_print lay v rest :
  printable maxNestingDepth v -> ends_number rest -> decode_value (print lay v +:+ rest) = Some (sanitize v, rest).
Proof. intros Hp Hr. by eapply decode_value_fuel, print_reads_back. Qed.

Lemma unmarshal_print lay v rest :
  printable maxNestingDepth v -> ends_number rest -> all_blank rest = true ->
  unmarshal (print lay v +:+ rest) = Some (sanitize v).
Proof. intros Hp Hr Hb. unfold unmarshal. by rewrite decode_print, Hb. Qed.

Lemma unmarshal_marshal v : printable maxNestingDepth v -> unmarshal (marshal v) = Some (sanitize v).
Proof. intros Hp. rewrite <- (string_app_nil_r (marshal v)). by apply unmarshal_print. Qed.
