(* ===== verification/Float64.v ===== *)
(** * Binary floating point

    The [float64] of Go as far as the program uses it: rationals rounded to the
    nearest multiple of a power of two, ties to even, with 53 bits and the
    exponents of IEEE 754 binary64, and the infinities and NaN.  The sign of
    zero, which no operation below tells apart, is left out. *)

From Stdlib Require Import QArith Qround Qabs Qpower Lqa.
From S2P Require Import Prelude.

Local Open Scope Q_scope.

(** ** Powers of two *)

Definition pow2 (e : Z) : Q := 2 ^ e.

Lemma pow2_pos e : 0 < pow2 e.
Proof. unfold pow2. apply Qpower_0_lt. reflexivity. Qed.

Lemma pow2_add a b : pow2 (a + b) == pow2 a * pow2 b.
Proof. unfold pow2. by apply Qpower_plus. Qed.

Lemma pow2_Z n : (0 <= n)%Z -> pow2 n == inject_Z (2 ^ n).
Proof. intros Hn. unfold pow2. by rewrite (Zpower_Qpower 2). Qed.

Lemma pow2_mono a b : (a <= b)%Z -> pow2 a <= pow2 b.
Proof.
  intros Hab. destruct (Z.eq_dec a b) as [->|]; [apply Qle_refl|].
  apply Qlt_le_weak. unfold pow2. apply Qpower_lt_compat_l; [lia|reflexivity].
Qed.

(** A power of two times another is an integer when the exponents add up. *)
Lemma pow2_div a b : (b <= a)%Z -> pow2 a / pow2 b == inject_Z (2 ^ (a - b)).
Proof.
  intros Hab. replace a with ((a - b) + b)%Z at 1 by lia. rewrite pow2_add, (pow2_Z (a - b)) by lia.
  pose proof (pow2_pos b). field. lra.
Qed.

(** [floor (log2 q)] of a positive number. *)
Definition ilog (q : Q) : Z :=
  let l := (Z.log2 (Qnum q) - Z.log2 (Zpos (Qden q)))%Z in
  if Qle_bool (pow2 l) q then l else (l - 1)%Z.

Lemma Qnum_den q : q * inject_Z (Zpos (Qden q)) == inject_Z (Qnum q).
Proof. destruct q as [n d]. unfold Qeq, Qmult, inject_Z. cbn. lia. Qed.

Lemma log2_pow2 n : (0 < n)%Z -> pow2 (Z.log2 n) <= inject_Z n < pow2 (Z.log2 n + 1).
Proof.
  intros Hn. pose proof (Z.log2_spec n Hn) as [H1 H2]. pose proof (Z.log2_nonneg n).
  rewrite !pow2_Z by lia. rewrite <- Zle_Qle, <- Zlt_Qlt. replace (Z.log2 n + 1)%Z with (Z.succ (Z.log2 n)) by lia. done.
Qed.

Lemma ilog_spec q : 0 < q -> pow2 (ilog q) <= q < pow2 (ilog q + 1).
Proof.
  intros Hq. pose proof (Qnum_den q) as E.
  assert (0 < Qnum q)%Z as Hn by (unfold Qlt in Hq; cbn in Hq; lia).
  destruct (log2_pow2 _ Hn) as [N1 N2]. destruct (log2_pow2 (Zpos (Qden q)) ltac:(lia)) as [D1 D2].
  set (dq := inject_Z (Zpos (Qden q))) in *. set (ln := Z.log2 (Qnum q)) in *. set (ld := Z.log2 (Zpos (Qden q))) in *.
  assert (0 < dq) as Hd by (unfold dq; change 0 with (inject_Z 0); rewrite <- Zlt_Qlt; lia).
  assert (q < pow2 (ln - ld + 1)) as Hup.
  { apply (Qmult_lt_r _ _ dq Hd). rewrite E. apply (Qlt_le_trans _ _ _ N2).
    replace (ln + 1)%Z with ((ln - ld + 1) + ld)%Z by lia. rewrite pow2_add.
    pose proof (pow2_pos (ln - ld + 1)). nra. }
  assert (pow2 (ln - ld - 1) <= q) as Hlow.
  { apply (Qmult_le_r _ _ dq Hd). rewrite E. refine (Qle_trans _ _ _ _ N1).
    replace ln with ((ln - ld - 1) + (ld + 1))%Z at 2 by lia. rewrite pow2_add.
    pose proof (pow2_pos (ln - ld - 1)). nra. }
  unfold ilog. fold ln ld. destruct (Qle_bool (pow2 (ln - ld)) q) eqn:Hb.
  - apply Qle_bool_iff in Hb. done.
  - split; [done|]. replace (ln - ld - 1 + 1)%Z with (ln - ld)%Z by lia. apply Qnot_le_lt. intros Hc%Qle_bool_iff. congruence.
Qed.

Lemma ilog_mono x y : 0 < x -> x <= y -> (ilog x <= ilog y)%Z.
Proof.
  intros Hx Hxy. destruct (ilog_spec x Hx) as [X1 _]. destruct (ilog_spec y ltac:(lra)) as [_ Y2].
  destruct (Z.le_gt_cases (ilog x) (ilog y)) as [|Hgt]; [done|].
  pose proof (pow2_mono (ilog y + 1) (ilog x) ltac:(lia)). lra.
Qed.

Lemma ilog_le x e : 0 < x -> x <= pow2 e -> (ilog x <= e)%Z.
Proof.
  intros Hx Hle. destruct (ilog_spec x Hx) as [X1 _]. destruct (Z.le_gt_cases (ilog x) e) as [|Hgt]; [done|].
  assert (pow2 e < pow2 (ilog x)) by (unfold pow2; apply Qpower_lt_compat_l; [lia|reflexivity]). lra.
Qed.

(** ** Rounding to an integer, ties to even *)

Definition rhe (q : Q) : Z :=
  let f := Qfloor q in
  match Qcompare (q - inject_Z f) (1 # 2) with
  | Lt => f
  | Gt => (f + 1)%Z
  | Eq => if Z.even f then f else (f + 1)%Z
  end.

Lemma rhe_range q : (Qfloor q <= rhe q <= Qfloor q + 1)%Z.
Proof. unfold rhe. destruct (Qcompare _ _); [destruct (Z.even _)|..]; lia. Qed.

Lemma rhe_ge q n : inject_Z n <= q -> (n <= rhe q)%Z.
Proof.
  intros Hn. pose proof (rhe_range q). pose proof (Qfloor_resp_le _ _ Hn) as Hf. rewrite Qfloor_Z in Hf. lia.
Qed.

Lemma rhe_le q n : q <= inject_Z n -> (rhe q <= n)%Z.
Proof.
  intros Hn. pose proof (rhe_range q) as Hr. pose proof (Qfloor_resp_le _ _ Hn) as Hf. rewrite Qfloor_Z in Hf.
  destruct (Z.eq_dec (Qfloor q) n) as [E|]; [|lia]. unfold rhe. rewrite E.
  pose proof (Qfloor_le q) as Hl. rewrite E in Hl.
  assert (Qcompare (q - inject_Z n) (1 # 2) = Lt) as ->; [|lia].
  apply Qlt_alt. apply (Qle_lt_trans _ 0); [|reflexivity].
  apply (Qplus_le_l _ _ (inject_Z n)). ring_simplify. exact Hn.
Qed.

Lemma rhe_mono x y : x <= y -> (rhe x <= rhe y)%Z.
Proof.
  intros Hxy. pose proof (Qfloor_resp_le _ _ Hxy). pose proof (rhe_range x). pose proof (rhe_range y).
  destruct (Z.eq_dec (Qfloor x) (Qfloor y)) as [E|]; [|lia]. unfold rhe. rewrite <- E.
  destruct (Qcompare (x - inject_Z (Qfloor x)) (1 # 2)) eqn:Cx, (Qcompare (y - inject_Z (Qfloor x)) (1 # 2)) eqn:Cy;
    try (destruct (Z.even (Qfloor x)); lia); exfalso;
    repeat match goal with
    | H : Qcompare _ _ = Eq |- _ => apply Qeq_alt in H
    | H : Qcompare _ _ = Lt |- _ => apply Qlt_alt in H
    | H : Qcompare _ _ = Gt |- _ => apply Qgt_alt in H
    end; lra.
Qed.

(** ** Rounding to 53 bits *)

Definition ulp_exp (q : Q) : Z := Z.max (ilog q - 52) (-1074).

Definition rnd_pos (q : Q) : Q := inject_Z (rhe (q / pow2 (ulp_exp q))) * pow2 (ulp_exp q).

Definition rnd (q : Q) : Q :=
  if Qeq_bool q 0 then 0
  else if Qle_bool 0 q then Qred (rnd_pos q)
  else Qred (- rnd_pos (- q)).

Lemma rnd_pos_ge q n e : 0 < q -> (ulp_exp q <= e)%Z -> inject_Z n * pow2 e <= q -> inject_Z n * pow2 e <= rnd_pos q.
Proof.
  intros Hq He Hn. unfold rnd_pos. set (u := ulp_exp q) in *. pose proof (pow2_pos u) as Hu.
  assert (inject_Z n * pow2 e == inject_Z (n * 2 ^ (e - u)) * pow2 u) as E.
  { rewrite inject_Z_mult, <- (pow2_div e u He). field. lra. }
  rewrite E in Hn |- *. apply Qmult_le_compat_r; [|lra]. rewrite <- Zle_Qle. apply rhe_ge.
  apply Qle_shift_div_l; [done|exact Hn].
Qed.

Lemma rnd_pos_le q n e : 0 < q -> (ulp_exp q <= e)%Z -> q <= inject_Z n * pow2 e -> rnd_pos q <= inject_Z n * pow2 e.
Proof.
  intros Hq He Hn. unfold rnd_pos. set (u := ulp_exp q) in *. pose proof (pow2_pos u) as Hu.
  assert (inject_Z n * pow2 e == inject_Z (n * 2 ^ (e - u)) * pow2 u) as E.
  { rewrite inject_Z_mult, <- (pow2_div e u He). field. lra. }
  rewrite E in Hn |- *. apply Qmult_le_compat_r; [|lra]. rewrite <- Zle_Qle. apply rhe_le.
  apply Qle_shift_div_r; [done|exact Hn].
Qed.

Lemma rnd_pos_mono x y : 0 < x -> x <= y -> rnd_pos x <= rnd_pos y.
Proof.
  intros Hx Hxy. pose proof (ilog_mono x y Hx Hxy) as Hl. destruct (ilog_spec x Hx) as [_ X2].
  destruct (ilog_spec y ltac:(lra)) as [Y1 _].
  destruct (Z.eq_dec (ulp_exp x) (ulp_exp y)) as [E|Hne].
  - unfold rnd_pos. rewrite <- E. pose proof (pow2_pos (ulp_exp x)) as Hu. apply Qmult_le_compat_r; [|lra].
    rewrite <- Zle_Qle. apply rhe_mono. apply Qle_shift_div_l; [done|].
    assert (x / pow2 (ulp_exp x) * pow2 (ulp_exp x) == x) as -> by (field; lra). done.
  - assert (ulp_exp x < ulp_exp y)%Z as Hlt by (unfold ulp_exp in *; lia).
    assert (ilog x + 1 <= ilog y)%Z as Hlog by (unfold ulp_exp in *; lia).
    assert (ulp_exp y <= ilog y)%Z as Huy by (unfold ulp_exp in *; lia).
    pose proof (pow2_mono _ _ Hlog) as Hp.
    apply (Qle_trans _ (inject_Z 1 * pow2 (ilog y))).
    + apply rnd_pos_le; [done|lia|]. change (inject_Z 1) with 1. lra.
    + apply rnd_pos_ge; [lra|done|]. change (inject_Z 1) with 1. lra.
Qed.

Lemma rnd_pos_nonneg q : 0 < q -> 0 <= rnd_pos q.
Proof.
  intros Hq. unfold rnd_pos. pose proof (pow2_pos (ulp_exp q)) as Hu.
  assert (0 <= rhe (q / pow2 (ulp_exp q)))%Z as Hr.
  { apply rhe_ge. apply Qle_shift_div_l; [done|]. change (inject_Z 0) with 0. lra. }
  assert (0 <= inject_Z (rhe (q / pow2 (ulp_exp q)))) by (change 0 with (inject_Z 0); by rewrite <- Zle_Qle). nra.
Qed.

(** What [rnd] is, up to equality of rationals. *)
Lemma rnd_cases q :
  (q == 0 /\ rnd q == 0) \/ (0 < q /\ rnd q == rnd_pos q) \/ (q < 0 /\ rnd q == - rnd_pos (- q)).
Proof.
  unfold rnd. destruct (Qeq_bool q 0) eqn:E0; [left; split; [by apply Qeq_bool_iff|reflexivity]|].
  apply Qeq_bool_neq in E0. right. destruct (Qle_bool 0 q) eqn:E1.
  - apply Qle_bool_iff in E1. left. split; [lra|apply Qred_correct].
  - right. split; [|apply Qred_correct]. apply Qnot_le_lt. intros Hc%Qle_bool_iff. congruence.
Qed.

Lemma rnd_mono x y : x <= y -> rnd x <= rnd y.
Proof.
  intros Hxy.
  destruct (rnd_cases x) as [[X ->]|[[X ->]|[X ->]]], (rnd_cases y) as [[Y ->]|[[Y ->]|[Y ->]]]; try lra.
  - by apply rnd_pos_nonneg.
  - by apply rnd_pos_mono.
  - pose proof (rnd_pos_nonneg (- x) ltac:(lra)). lra.
  - pose proof (rnd_pos_nonneg (- x) ltac:(lra)). pose proof (rnd_pos_nonneg y Y). lra.
  - pose proof (rnd_pos_mono (- y) (- x) ltac:(lra) ltac:(lra)). lra.
Qed.

#[global] Instance rnd_proper : Proper (Qeq ==> Qeq) rnd.
Proof. intros x y E. apply Qle_antisym; apply rnd_mono; lra. Qed.

Lemma rnd_nonneg x : 0 <= x -> 0 <= rnd x.
Proof. intros Hx. apply rnd_mono in Hx. by change (rnd 0) with 0 in Hx. Qed.

Lemma rnd_opp x : rnd (- x) == - rnd x.
Proof.
  assert (forall a b, 0 < a -> a == b -> rnd_pos a == rnd_pos b) as P
    by (intros a b Ha E; apply Qle_antisym; apply rnd_pos_mono; lra).
  destruct (rnd_cases x) as [[X ->]|[[X ->]|[X ->]]], (rnd_cases (- x)) as [[Y ->]|[[Y ->]|[Y ->]]]; try lra.
  rewrite (P x (- - x) X); [lra|]. by rewrite Qopp_involutive.
Qed.

(** The rounded value is a multiple of a power of two that fits its own
    precision, so rounding it again changes nothing. *)
Lemma rnd_pos_idem q : 0 < q -> 0 < rnd_pos q -> rnd_pos (rnd_pos q) == rnd_pos q.
Proof.
  intros Hq Hr. destruct (ilog_spec q Hq) as [L1 L2].
  assert (exists n e, rnd_pos q == inject_Z n * pow2 e /\ (ulp_exp (rnd_pos q) <= e)%Z) as (n & e & E & He).
  { destruct (Z.le_gt_cases (ulp_exp (rnd_pos q)) (ulp_exp q)) as [|Hgt]; [by eexists _, (ulp_exp q)|].
    assert (forall e, (ulp_exp q <= e)%Z -> q <= pow2 e -> rnd_pos q <= pow2 e) as Hup.
    { intros e He Hle. pose proof (rnd_pos_le q 1 e Hq He) as H. change (inject_Z 1) with 1 in H. lra. }
    destruct (Z.le_gt_cases (ulp_exp q) (ilog q + 1)) as [Hu|Hu].
    - specialize (Hup _ Hu ltac:(lra)). pose proof (ilog_le _ _ Hr Hup) as Hl.
      destruct (ilog_spec _ Hr) as [R1 _]. pose proof (pow2_mono (ilog q + 1) (ilog (rnd_pos q))) as Hp.
      exists 1%Z, (ilog q + 1)%Z. unfold ulp_exp in *. change (inject_Z 1) with 1. specialize (Hp ltac:(lia)).
      split; [lra|lia].
    - pose proof (pow2_mono (ilog q + 1) (ulp_exp q) ltac:(lia)).
      specialize (Hup _ (Z.le_refl _) ltac:(lra)). pose proof (ilog_le _ _ Hr Hup) as Hl. unfold ulp_exp in *. lia. }
  pose proof (rnd_pos_le _ n e Hr He) as H1. pose proof (rnd_pos_ge _ n e Hr He) as H2. rewrite <- E in H1, H2.
  apply Qle_antisym; [apply H1|apply H2]; apply Qle_refl.
Qed.

Lemma rnd_idem x : rnd (rnd x) == rnd x.
Proof.
  assert (forall q, 0 < q -> rnd (rnd_pos q) == rnd_pos q) as Hpos.
  { intros q Hq. pose proof (rnd_pos_nonneg q Hq).
    destruct (rnd_cases (rnd_pos q)) as [[E ->]|[[Hlt ->]|[? _]]]; [by rewrite E|by apply rnd_pos_idem|lra]. }
  destruct (rnd_cases x) as [[X ->]|[[X ->]|[X ->]]]; [done|by apply Hpos|].
  rewrite rnd_opp. by rewrite Hpos by lra.
Qed.

(** The values of finite floats. *)
Definition representable (q : Q) : Prop := rnd q == q.

Lemma rnd_between lo hi x : representable lo -> representable hi -> lo <= x <= hi -> lo <= rnd x <= hi.
Proof. intros Hl Hh [H1 H2]. apply rnd_mono in H1, H2. red in Hl, Hh. lra. Qed.

(** ** The type and its operations

    Each operation rounds its exact result once; a result of magnitude [2^1024]
    or more is an infinity. *)

Inductive float64 := Finite (q : Q) | Infinite (negative : bool) | NaN.

Definition fzero : float64 := Finite 0.
Definition is_fzero (a : float64) : bool := match a with Finite q => Qeq_bool q 0 | _ => false end.

Definition overflow : Q := pow2 1024.

Definition Qltb (a b : Q) : bool := negb (Qle_bool b a).

Definition of_Q (q : Q) : float64 :=
  let r := rnd q in
  if Qle_bool overflow (Qabs r) then Infinite (Qltb r 0) else Finite r.

(** [float64(n)] of an [int64]. *)
Definition of_int64 (n : Z) : float64 := of_Q (inject_Z n).

Definition fmul (a b : float64) : float64 :=
  match a, b with
  | Finite x, Finite y => of_Q (x * y)
  | Infinite s, Finite y | Finite y, Infinite s => if Qeq_bool y 0 then NaN else Infinite (xorb s (Qltb y 0))
  | Infinite s, Infinite t => Infinite (xorb s t)
  | NaN, _ | _, NaN => NaN
  end.

Definition fadd (a b : float64) : float64 :=
  match a, b with
  | Finite x, Finite y => of_Q (x + y)
  | Infinite s, Finite _ | Finite _, Infinite s => Infinite s
  | Infinite s, Infinite t => if Bool.eqb s t then Infinite s else NaN
  | NaN, _ | _, NaN => NaN
  end.

Definition fneg (a : float64) : float64 :=
  match a with Finite x => Finite (- x) | Infinite s => Infinite (negb s) | NaN => NaN end.

Definition fsub (a b : float64) : float64 := fadd a (fneg b).

(** [a > b]: every comparison with NaN is false. *)
Definition fgt (a b : float64) : bool :=
  match a, b with
  | Finite x, Finite y => Qltb y x
  | Infinite s, Finite _ => negb s
  | Finite _, Infinite s => s
  | Infinite s, Infinite t => negb s && t
  | NaN, _ | _, NaN => false
  end.

(** [int64(a)]: truncation towards zero.  [None] when the value is not in the
    range of the type, where the language leaves the result open. *)
Definition to_int64 (a : float64) : option Z :=
  match a with
  | Finite q =>
      let t := if Qle_bool 0 q then Qfloor q else Qceiling q in
      if ((- 2 ^ 63 <=? t) && (t <? 2 ^ 63))%Z then Some t else None
  | Infinite _ | NaN => None
  end.

Lemma Qltb_lt a b : Qltb a b = true <-> a < b.
Proof.
  unfold Qltb. rewrite negb_true_iff. split.
  - intros H. apply Qnot_le_lt. intros Hc%Qle_bool_iff. congruence.
  - intros H. apply not_true_is_false. intros Hc%Qle_bool_iff. lra.
Qed.

Lemma Qltb_ge a b : Qltb a b = false <-> b <= a.
Proof. unfold Qltb. rewrite negb_false_iff. apply Qle_bool_iff. Qed.

(** An operation whose exact result lies between two floats that are not
    infinite is finite and lies between their values. *)
Lemma of_Q_finite x : Qabs (rnd x) < overflow -> of_Q x = Finite (rnd x).
Proof.
  intros H. unfold of_Q. replace (Qle_bool overflow (Qabs (rnd x))) with false; [done|].
  symmetry. apply not_true_is_false. intros Hc%Qle_bool_iff. lra.
Qed.

Lemma of_Q_between lo hi x :
  - overflow < rnd lo -> rnd hi < overflow -> lo <= x <= hi ->
  of_Q x = Finite (rnd x) /\ rnd lo <= rnd x <= rnd hi.
Proof.
  intros Hl Hh [H1 H2]. apply rnd_mono in H1, H2. split; [|done].
  apply of_Q_finite. apply Qabs_case; intros; lra.
Qed.

(** A non-negative exact result gives a non-negative float or overflows. *)
Lemma of_Q_nonneg x : 0 <= x -> (exists r, of_Q x = Finite r /\ 0 <= r) \/ of_Q x = Infinite false.
Proof.
  intros Hx%rnd_nonneg. unfold of_Q. destruct (Qle_bool _ _); [right|left; by eexists].
  f_equal. by apply Qltb_ge.
Qed.

(** Integers below [2^53] are floats. *)
Lemma rnd_Z n : (Z.abs n < 2 ^ 53)%Z -> rnd (inject_Z n) == inject_Z n.
Proof.
  enough (forall m, (0 < m < 2 ^ 53)%Z -> rnd_pos (inject_Z m) == inject_Z m) as Hpos.
  { intros Hn. destruct (rnd_cases (inject_Z n)) as [[E ->]|[[Hlt ->]|[Hlt ->]]].
    - by rewrite E.
    - apply Hpos. change 0 with (inject_Z 0) in Hlt. rewrite <- Zlt_Qlt in Hlt. lia.
    - change 0 with (inject_Z 0) in Hlt. rewrite <- Zlt_Qlt in Hlt.
      rewrite <- inject_Z_opp. rewrite Hpos by lia. rewrite inject_Z_opp. ring. }
  intros m [Hm Hlt]. assert (0 < inject_Z m) as Hq by (change 0 with (inject_Z 0); by rewrite <- Zlt_Qlt).
  destruct (ilog_spec _ Hq) as [L1 _].
  assert (ilog (inject_Z m) < 53)%Z as Hlog.
  { destruct (Z.le_gt_cases 53 (ilog (inject_Z m))) as [Hc|]; [|done]. apply pow2_mono in Hc.
    rewrite pow2_Z in Hc by lia. assert (inject_Z m < inject_Z (2 ^ 53)) by (by rewrite <- Zlt_Qlt). lra. }
  assert (ulp_exp (inject_Z m) <= 0)%Z as Hu by (unfold ulp_exp; lia).
  assert (inject_Z m * pow2 0 == inject_Z m) as E by (change (pow2 0) with 1; ring).
  pose proof (rnd_pos_le _ m 0 Hq Hu) as H1. pose proof (rnd_pos_ge _ m 0 Hq Hu) as H2. rewrite E in H1, H2.
  apply Qle_antisym; [apply H1|apply H2]; apply Qle_refl.
Qed.
