(* ===== verification/GoTime.v ===== *)
(** * Instants and durations as the program shows them ([time])

    The RFC 3339 text of an instant, as [time.Time.MarshalJSON] writes it, and
    [Duration.Seconds].  The zone an instant is shown in is the class [GoZone]. *)

From Stdlib Require Import QArith.
From S2P Require Import Prelude GoStrings Float64.

(** The offset of the local zone from UTC, in seconds, at an instant. *)
Class GoZone := { zone_offset : Z -> Z }.

Local Open Scope Z_scope.

(** Days since the epoch as year, month and day of the proleptic Gregorian
    calendar, in eras of 400 years that begin in March. *)
Definition civil (days : Z) : Z * Z * Z :=
  let z := days + 719468 in
  let era := z / 146097 in
  let doe := z mod 146097 in
  let yoe := (doe - doe / 1460 + doe / 36524 - doe / 146096) / 365 in
  let doy := doe - (365 * yoe + yoe / 4 - yoe / 100) in
  let mp := (5 * doy + 2) / 153 in
  let month := if mp <? 10 then mp + 3 else mp - 9 in
  (yoe + era * 400 + (if month <=? 2 then 1 else 0), month, doy - (153 * mp + 2) / 5 + 1).

(** [n] in [width] decimal digits. *)
Fixpoint pad (width : nat) (n : Z) : string :=
  match width with
  | O => ""
  | S width => pad width (n / 10) +:+ String (ascii_of_N (Z.to_N (48 + n mod 10))) ""
  end.

(** The fraction of a second, without trailing zeros. *)
Fixpoint fraction (digits : nat) (n : Z) : string :=
  match digits with
  | O => ""
  | S d => if n mod 10 =? 0 then fraction d (n / 10) else "." +:+ pad digits n
  end.

Definition zone_text (offset : Z) : string :=
  if offset =? 0 then "Z" else
  let minutes := Z.quot offset 60 in
  let magnitude := Z.abs minutes in
  (if minutes <? 0 then "-" else "+") +:+ pad 2 (magnitude / 60) +:+ ":" +:+ pad 2 (magnitude mod 60).

(** [appendStrictRFC3339]: years of four digits, offsets below a day. *)
Definition rfc3339 `{GoZone} (t : Z) : option string :=
  let offset := zone_offset t in
  let local := t / second + offset in
  let '(year, month, day) := civil (local / 86400) in
  let clock := local mod 86400 in
  if (year <? 0) || (9999 <? year) || (86400 <=? Z.abs offset) then None else
  Some (pad 4 year +:+ "-" +:+ pad 2 month +:+ "-" +:+ pad 2 day +:+ "T" +:+
        pad 2 (clock / 3600) +:+ ":" +:+ pad 2 (clock / 60 mod 60) +:+ ":" +:+ pad 2 (clock mod 60) +:+
        fraction 9 (t mod second) +:+ zone_text offset).

(** [Duration.Seconds]. *)
Definition fdiv_int (a : float64) (n : Z) : float64 :=
  match a with Finite x => of_Q (x / inject_Z n)%Q | _ => a end.
Definition duration_seconds (d : Z) : float64 :=
  fadd (of_int64 (Z.quot d second)) (fdiv_int (of_int64 (Z.rem d second)) second).

Module TimeExamples.
#[local] Instance utc : GoZone := {| zone_offset := fun _ => 0 |}.
#[local] Instance india : GoZone := {| zone_offset := fun _ => 19800 |}.

Example epoch : @rfc3339 utc 0 = Some "1970-01-01T00:00:00Z".
Proof. vm_compute. reflexivity. Qed.
Example leap_day : @rfc3339 utc (1709251199 * second + 120000000) = Some "2024-02-29T23:59:59.12Z".
Proof. vm_compute. reflexivity. Qed.
Example half_hours : @rfc3339 india (1709251199 * second) = Some "2024-03-01T05:29:59+05:30".
Proof. vm_compute. reflexivity. Qed.
Example zero_time : @rfc3339 utc time_zero = Some "0001-01-01T00:00:00Z".
Proof. vm_compute. reflexivity. Qed.
Example uptime : duration_seconds (1500 * 10 ^ 6) = Finite (3 # 2).
Proof. vm_compute. reflexivity. Qed.
End TimeExamples.
