(* ===== verification/JsonStruct.v ===== *)
(** * JSON and Go structs ([encoding/json])

    Reading a value into a struct and writing a struct as an object.  A struct
    is described by its fields: the name of the tag, and how a value is stored.
    [None] stands for a decoding error: the callers drop the target then.

    The digits of a floating-point number that is written are the member of
    [GoFloatText]; reading one is computed. *)

From Stdlib Require Import QArith.
From S2P Require Import Prelude GoStrings Utf8 Json Float64.

(** ** Numbers *)

(** An exponent as [strconv] accumulates it: digits after a value of 10000 are
    dropped. *)
Fixpoint exponent_val (acc : Z) (s : string) : Z :=
  match s with
  | EmptyString => acc
  | String c s' => exponent_val (if (acc <? 10000)%Z then 10 * acc + (Z.of_N (byte_val c) - 48) else acc) s'
  end.

Definition signed_exponent (e : string) : Z :=
  match e with
  | String _ (String "-" digits) => - exponent_val 0 digits
  | String _ (String "+" digits) => exponent_val 0 digits
  | String _ digits => exponent_val 0 digits
  | EmptyString => 0
  end.

(** The rational a number literal denotes. *)
Definition literal_value (lit : string) : option Q :=
  let '(digits, negative) := cut_prefix lit "-" in
  match scan_int digits with
  | None => None
  | Some (i, s1) =>
      match scan_frac s1 with
      | None => None
      | Some (f, s2) =>
          match scan_exp s2 with
          | Some (e, "") =>
              let frac := string_drop 1 f in
              match digits_val 0 (i +:+ frac) with
              | None => None
              | Some m =>
                  let q := (inject_Z m * (10 # 1) ^ (signed_exponent e - Z.of_nat (String.length frac)))%Q in
                  Some (if negative then - q else q)%Q
              end
          | _ => None
          end
      end
  end.

(** [strconv.ParseFloat]: correctly rounded; out of range is an error. *)
Definition parse_float (lit : string) : option float64 :=
  match literal_value lit with
  | None => None
  | Some q => match of_Q q with Finite r => Some (Finite r) | _ => None end
  end.

Class GoFloatText := { float_text : Q -> string }.

(** [float64] encodes a finite number only. *)
Definition json_float `{GoFloatText} (f : float64) : option json :=
  match f with Finite q => Some (JNumber (float_text q)) | _ => None end.

(** ** Fields *)

Record field (A : Type) := mkField { fd_name : string; fd_store : json -> A -> option A }.
Arguments mkField {A}. Arguments fd_name {A}. Arguments fd_store {A}.

(** [foldName], for the comparison with ASCII names: besides the letters, only
    U+017F and U+212A fold to ASCII. *)
Definition fold_rune (r : string) : string :=
  match r with
  | String c "" => String (byte_upper c) ""
  | _ => if String.eqb r (String (byte 197) (String (byte 191) "")) then "S"
         else if String.eqb r (String (byte 226) (String (byte 132) (String (byte 170) ""))) then "K"
         else r
  end.
Definition fold_name (s : string) : string := runes fold_rune replacement s.

(** The field of a key: the one of that name, else the first that differs in
    case only. *)
Definition find_field {A} (fields : list (field A)) (key : string) : option (field A) :=
  match List.find (fun f => String.eqb (fd_name f) key) fields with
  | Some f => Some f
  | None => List.find (fun f => String.eqb (fold_name (fd_name f)) (fold_name key)) fields
  end.

Fixpoint store_members {A} (strict : bool) (fields : list (field A)) (l : list (string * json)) (a : A) : option A :=
  match l with
  | [] => Some a
  | (key, v) :: l =>
      match find_field fields key with
      | Some f => match fd_store f v a with Some a => store_members strict fields l a | None => None end
      | None => if strict then None else store_members strict fields l a
      end
  end.

(** A value into a struct; [strict] is [DisallowUnknownFields]. *)
Definition store_struct {A} (strict : bool) (fields : list (field A)) (v : json) (a : A) : option A :=
  match v with
  | JNull => Some a
  | JObject l => store_members strict fields l a
  | _ => None
  end.

(** ** Fields of the basic types; [null] leaves them as they are *)

Definition string_field {A} (name : string) (put : string -> A -> A) : field A :=
  mkField name (fun v a => match v with JNull => Some a | JString s => Some (put s a) | _ => None end).
Definition bool_field {A} (name : string) (put : bool -> A -> A) : field A :=
  mkField name (fun v a => match v with JNull => Some a | JBool b => Some (put b a) | _ => None end).
Definition int64_field {A} (name : string) (put : Z -> A -> A) : field A :=
  mkField name (fun v a =>
    match v with
    | JNull => Some a
    | JNumber lit => match atoi lit with Some n => Some (put n a) | None => None end
    | _ => None
    end).
Definition float_field {A} (name : string) (put : float64 -> A -> A) : field A :=
  mkField name (fun v a =>
    match v with
    | JNull => Some a
    | JNumber lit => match parse_float lit with Some f => Some (put f a) | None => None end
    | _ => None
    end).
Definition struct_field {A B} (strict : bool) (name : string) (fields : list (field B)) (get : A -> B) (put : B -> A -> A) : field A :=
  mkField name (fun v a => match store_struct strict fields v (get a) with Some b => Some (put b a) | None => None end).

(** The elements of an array go into the elements the slice already has, then
    into new zero values; what an earlier, shorter array cut off does not come
    back. *)
Fixpoint store_elems {B} (strict : bool) (fields : list (field B)) (zero : B) (l : list json) (old : list B) : option (list B) :=
  match l with
  | [] => Some []
  | v :: l =>
      match store_struct strict fields v (default zero (List.head old)) with
      | Some b => match store_elems strict fields zero l (List.tl old) with Some bs => Some (b :: bs) | None => None end
      | None => None
      end
  end.
Definition slice_field {A B} (strict : bool) (name : string) (fields : list (field B)) (zero : B)
    (get : A -> list B) (put : list B -> A -> A) : field A :=
  mkField name (fun v a =>
    match v with
    | JNull => Some (put [] a)
    | JArray l => match store_elems strict fields zero l (get a) with Some bs => Some (put bs a) | None => None end
    | _ => None
    end).

(** Into an [any]: every number has to be a [float64]. *)
Fixpoint any_ok (v : json) : bool :=
  match v with
  | JNumber lit => match parse_float lit with Some _ => true | None => false end
  | JArray l => forallb any_ok l
  | JObject l => forallb (fun m => any_ok m.2) l
  | _ => true
  end.
Definition any_field {A} (name : string) : field A :=
  mkField name (fun v a => if any_ok v then Some a else None).

(** ** Writing *)

(** [omitempty] of a string and of a bool. *)
Definition member (name : string) (v : json) : list (string * json) := [(name, v)].
Definition member_string_omitempty (name s : string) : list (string * json) :=
  if String.eqb s "" then [] else [(name, JString s)].
Definition member_true (name : string) (b : bool) : list (string * json) := if b then [(name, JBool true)] else [].
Definition member_int (name : string) (n : Z) : list (string * json) := [(name, JNumber (itoa n))].
Definition member_string (name s : string) : list (string * json) := [(name, JString s)].
