(* ===== verification/MediaType.v ===== *)
(** * Media types ([mime.ParseMediaType])

    The media type of a [Content-Type] header; [None] when the header is
    malformed.  The values of the parameters matter only for duplicates. *)

From S2P Require Import Prelude GoStrings Utf8 Encoding Json.

(** RFC 2045 tokens. *)
Definition isTSpecial (c : ascii) : bool :=
  has_byte c "()<>@,;:/[]?=" || byte_eqb c dquote || byte_eqb c backslash.
Definition isTokenChar (c : ascii) : bool := is_alnum c || has_byte c "!#$%&'*+-.^_`{|}~".

Fixpoint consumeToken (v : string) : string * string :=
  match v with
  | String c v' => if isTokenChar c then let '(t, rest) := consumeToken v' in (String c t, rest) else ("", v)
  | EmptyString => ("", "")
  end.

(** A quoted value from behind its opening quote; a backslash escapes a special
    byte only.  [None]: no end, or a line break. *)
Fixpoint consumeQuoted (v : string) : option (string * string) :=
  match v with
  | EmptyString => None
  | String c v' =>
      if byte_eqb c dquote then Some ("", v')
      else match v' with
           | String e v'' =>
               if byte_eqb c backslash && isTSpecial e then prepend (String e "") (consumeQuoted v'')
               else if has_byte c (String (byte 13) (String (byte 10) "")) then None
               else prepend (String c "") (consumeQuoted v')
           | EmptyString => None
           end
  end.

Definition consumeValue (v : string) : string * string :=
  match v with
  | EmptyString => ("", "")
  | String c v' =>
      if byte_eqb c dquote then match consumeQuoted v' with Some p => p | None => ("", v) end
      else consumeToken v
  end.

Section media_type.
Context `{GoUnicode}.

(** A parameter with its value, and the rest; [None] where the code returns an
    empty name. *)
Definition consumeMediaParam (v : string) : option (string * string * string) :=
  let '(rest, ok) := cut_prefix (trim_left v) ";" in
  if negb ok then None else
  let '(param, rest) := consumeToken (trim_left rest) in
  let param := to_lower param in
  if String.eqb param "" then None else
  let '(rest, ok) := cut_prefix (trim_left rest) "=" in
  if negb ok then None else
  let rest := trim_left rest in
  let '(value, rest2) := consumeValue rest in
  if String.eqb value "" && String.eqb rest2 rest then None else Some (param, value, rest2).

Definition checkMediaTypeDisposition (s : string) : bool :=
  let '(typ, rest) := consumeToken s in
  if String.eqb typ "" then false else
  if String.eqb rest "" then true else
  let '(rest, ok) := cut_prefix rest "/" in
  if negb ok then false else
  let '(subtype, rest) := consumeToken rest in
  negb (String.eqb subtype "") && String.eqb rest "".

(** The loop over the parameters: whether they parse, without two values for
    one name. *)
Fixpoint params_ok (fuel : nat) (params : gmap string string) (v : string) : bool :=
  match fuel with
  | O => false
  | S fuel =>
      let v := trim_left v in
      if String.eqb v "" then true else
      match consumeMediaParam v with
      | None => String.eqb (trim_space v) ";"
      | Some (key, value, rest) =>
          match params !! key with
          | Some old => if String.eqb old value then params_ok fuel (<[key := value]> params) rest else false
          | None => params_ok fuel (<[key := value]> params) rest
          end
      end
  end.

Definition ParseMediaType (v : string) : option string :=
  let '(base, _, _) := cut v ";" in
  let mediatype := trim_space (to_lower base) in
  if checkMediaTypeDisposition mediatype &&
     params_ok (S (String.length v)) ∅ (string_drop (String.length base) v)
  then Some mediatype else None.

(** [hasJSONContentType], of the header's value. *)
Definition contentTypeJSON : string := "application/json".
Definition hasJSONContentType (contentType : string) : bool :=
  bool_decide (ParseMediaType contentType = Some contentTypeJSON).
End media_type.

(** ** The loop ends *)

Lemma strip_length p2 p3 s : String.length (strip p2 p3 s) <= String.length s.
Proof.
  induction s as [s IH] using (induction_ltof1 _ String.length). unfold ltof in IH.
  destruct s as [|c1 s1]; [done|]. cbn [strip]. destruct (space1 c1); [etrans; [apply IH|]; cbn; lia|].
  destruct s1 as [|c2 s2]; [done|]. destruct (p2 c1 c2); [etrans; [apply IH|]; cbn; lia|].
  destruct s2 as [|c3 s3]; [done|]. destruct (p3 c1 c2 c3); [etrans; [apply IH|]; cbn; lia|done].
Qed.

Lemma consumeToken_app v : (consumeToken v).1 +:+ (consumeToken v).2 = v.
Proof.
  induction v as [|c v IH]; [done|]. cbn [consumeToken]. destruct (isTokenChar c); [|done].
  destruct (consumeToken v) as [t rest]. cbn in *. by rewrite string_cons_app, IH.
Qed.

Lemma consumeQuoted_length v : forall t rest, consumeQuoted v = Some (t, rest) -> String.length rest <= String.length v.
Proof.
  induction v as [v IH] using (induction_ltof1 _ String.length). unfold ltof in IH. intros t rest Hq.
  destruct v as [|c v]; [done|]. cbn [consumeQuoted] in Hq. destruct (byte_eqb c dquote); [simplify_eq; cbn; lia|].
  destruct v as [|e v]; [done|].
  destruct (_ && _); [|destruct (has_byte _ _); [done|]].
  - destruct (consumeQuoted v) as [[t' r']|] eqn:E; [|done]. apply IH in E; [|cbn; lia]. injection Hq as <- <-. cbn. lia.
  - destruct (consumeQuoted (String e v)) as [[t' r']|] eqn:E; [|done]. apply IH in E; [|cbn; lia].
    injection Hq as <- <-. cbn in *. lia.
Qed.

Lemma consumeValue_length v : String.length (consumeValue v).2 <= String.length v.
Proof.
  destruct v as [|c v]; [done|]. unfold consumeValue. destruct (byte_eqb c dquote).
  - destruct (consumeQuoted v) as [[t r]|] eqn:E; [|done]. apply consumeQuoted_length in E. cbn. lia.
  - rewrite <- (consumeToken_app (String c v)) at 2. rewrite string_app_length. lia.
Qed.

Lemma cut_prefix_length s p rest : cut_prefix s p = (rest, true) -> String.length s = String.length p + String.length rest.
Proof.
  unfold cut_prefix. destruct (has_prefix p s) eqn:Hp; [|done]. intros [= <-]. apply has_prefix_spec in Hp as [t ->].
  by rewrite string_drop_app, string_app_length.
Qed.

(** Every round takes at least the semicolon and the equals sign. *)
Lemma consumeMediaParam_shorter `{GoUnicode} v param value rest :
  consumeMediaParam v = Some (param, value, rest) -> String.length rest < String.length v.
Proof.
  unfold consumeMediaParam. pose proof (strip_length space2 space3 v) as H1. fold (trim_left v) in H1.
  destruct (cut_prefix (trim_left v) ";") as [r1 ok1] eqn:E1. destruct ok1; [|done]. apply cut_prefix_length in E1. cbn [negb].
  pose proof (strip_length space2 space3 r1) as H2. fold (trim_left r1) in H2.
  pose proof (f_equal String.length (consumeToken_app (trim_left r1))) as H3. rewrite string_app_length in H3.
  destruct (consumeToken (trim_left r1)) as [tok r2]. cbn in H3. destruct (String.eqb (to_lower tok) ""); [done|].
  pose proof (strip_length space2 space3 r2) as H4. fold (trim_left r2) in H4.
  destruct (cut_prefix (trim_left r2) "=") as [r3 ok2] eqn:E2. destruct ok2; [|done]. apply cut_prefix_length in E2. cbn [negb].
  pose proof (strip_length space2 space3 r3) as H5. fold (trim_left r3) in H5.
  pose proof (consumeValue_length (trim_left r3)) as H6. destruct (consumeValue (trim_left r3)) as [val r4].
  destruct (_ && _); [done|]. intros [= _ _ <-]. cbn in *. lia.
Qed.

Lemma params_ok_fuel `{GoUnicode} n : forall params v m,
  String.length v < n -> String.length v < m -> params_ok n params v = params_ok m params v.
Proof.
  induction n as [|n IH]; intros params v m Hn Hm; [lia|]. destruct m as [|m]; [lia|]. cbn [params_ok].
  pose proof (strip_length space2 space3 v) as Hs. fold (trim_left v) in Hs.
  destruct (String.eqb (trim_left v) ""); [done|]. destruct (consumeMediaParam (trim_left v)) as [[[key value] rest]|] eqn:E; [|done].
  apply consumeMediaParam_shorter in E. destruct (params !! key) as [old|]; [destruct (String.eqb old value); [|done]|];
    apply IH; lia.
Qed.

Module MediaTypeExamples.
#[local] Existing Instance no_unicode.

Example plain : hasJSONContentType "application/json" = true.
Proof. vm_compute. reflexivity. Qed.
Example with_charset : hasJSONContentType "Application/JSON ; charset=utf-8;" = true.
Proof. vm_compute. reflexivity. Qed.
Example broken_parameter : hasJSONContentType "application/json; charset" = false.
Proof. vm_compute. reflexivity. Qed.
Example two_values : hasJSONContentType "application/json; a=1; A=2" = false.
Proof. vm_compute. reflexivity. Qed.
Example other_type : hasJSONContentType "text/json" = false.
Proof. vm_compute. reflexivity. Qed.
End MediaTypeExamples.
