(* ===== verification/Expiring.v ===== *)
(** * Maps with expiring entries

    The failure cache of a pool and the lease registry are both maps whose dead
    entries are dropped whenever the map is used.  This file proves once what the
    dropping can change.  Each operation brings its own clock reading, taken
    before the mutex, so the readings need not be in the order of the operations:
    an entry is gone once some reading since it was stored found it dead.  With
    readings in order a pruned lookup answers as if every entry ever stored were
    kept. *)

From S2P Require Import Prelude.

(** The operations of such a map, with the time at which they run. *)
Inductive exp_op (V : Type) : Type :=
  | EPut (k : string) (v : V) (now : Z)
  | EPrune (now : Z).
Arguments EPut {V} k v now.
Arguments EPrune {V} now.

Definition exp_time {V} (o : exp_op V) : Z :=
  match o with EPut _ _ now => now | EPrune now => now end.

(** The entry stored last under [k], oldest operation first. *)
Definition last_put {V} (ops : list (exp_op V)) (k : string) : option V :=
  foldl (fun acc o => match o with
                      | EPut k' v _ => if String.eqb k' k then Some v else acc
                      | EPrune _ => acc
                      end) None ops.

Lemma last_put_snoc {V} (ops : list (exp_op V)) o k :
  last_put (ops ++ [o]) k =
  match o with
  | EPut k' v _ => if String.eqb k' k then Some v else last_put ops k
  | EPrune _ => last_put ops k
  end.
Proof. unfold last_put. rewrite foldl_app. done. Qed.

(** The entry stored last under [k], with the clock readings of the prunings
    since, latest first. *)
Definition put_since {V} (ops : list (exp_op V)) (k : string) : option (V * list Z) :=
  foldl (fun acc o => match o with
                      | EPut k' v _ => if String.eqb k' k then Some (v, []) else acc
                      | EPrune now => (fun e : V * list Z => (e.1, now :: e.2)) <$> acc
                      end) None ops.

Lemma put_since_snoc {V} (ops : list (exp_op V)) o k :
  put_since (ops ++ [o]) k =
  match o with
  | EPut k' v _ => if String.eqb k' k then Some (v, []) else put_since ops k
  | EPrune now => (fun e : V * list Z => (e.1, now :: e.2)) <$> put_since ops k
  end.
Proof. unfold put_since. rewrite foldl_app. done. Qed.

Lemma sorted_snoc (l : list Z) (x y : Z) :
  StronglySorted Z.le ((l ++ [x]) ++ [y]) ->
  StronglySorted Z.le (l ++ [y]) /\ StronglySorted Z.le (l ++ [x]) /\ (x <= y)%Z.
Proof.
  rewrite <- app_assoc. simpl. rewrite !StronglySorted_app. intros (Hx & Hl & Hr).
  inversion Hr as [|? ? _ Hf]; subst. rewrite Forall_singleton in Hf.
  split_and!; try done; try (by repeat constructor); intros a b Ha Hb; apply Hx; set_solver.
Qed.

Section expiring.
Context {V : Type} (dead : Z -> V -> bool).

Definition prune (now : Z) (m : gmap string V) : gmap string V :=
  filter (fun e : string * V => dead now e.2 = false) m.

Definition exp_step (m : gmap string V) (o : exp_op V) : gmap string V :=
  match o with
  | EPut k v _ => <[k := v]> m
  | EPrune now => prune now m
  end.

Lemma prune_lookup now m k :
  prune now m !! k =
  match m !! k with
  | Some v => if dead now v then None else Some v
  | None => None
  end.
Proof.
  unfold prune. rewrite map_lookup_filter. destruct (m !! k) as [v|]; simpl; [|done].
  destruct (dead now v); by case_guard.
Qed.

(** Whatever the order of the clock readings: an entry is found while no
    reading since it was stored found it dead. *)
Lemma expiring_lookup ops k :
  foldl exp_step ∅ ops !! k =
  match put_since ops k with
  | Some (v, readings) => if existsb (fun t => dead t v) readings then None else Some v
  | None => None
  end.
Proof.
  induction ops as [|o ops IH] using rev_ind; [done|].
  rewrite foldl_app, put_since_snoc. destruct o as [k' v t|t]; simpl.
  - rewrite lookup_insert. destruct (String.eqb_spec k' k) as [->|Hne].
    + by rewrite decide_True.
    + by rewrite decide_False.
  - rewrite prune_lookup, IH. destruct (put_since ops k) as [[v readings]|]; simpl; [|done].
    by destruct (existsb _ readings), (dead t v).
Qed.

Context (dead_mono : forall now now' v, (now <= now')%Z -> dead now v = true -> dead now' v = true).

(** Pruning at a later time subsumes an earlier pruning. *)
Lemma prune_prune now now' m : (now <= now')%Z -> prune now' (prune now m) = prune now' m.
Proof.
  intros Hle. apply map_eq. intros k. rewrite !prune_lookup.
  destruct (m !! k) as [v|]; [|done]. destruct (dead now v) eqn:Hd; [|done].
  by rewrite (dead_mono now now' v Hle Hd).
Qed.

Lemma expiring_refines ops now k :
  StronglySorted Z.le ((exp_time <$> ops) ++ [now]) ->
  prune now (foldl exp_step ∅ ops) !! k =
  match last_put ops k with
  | Some v => if dead now v then None else Some v
  | None => None
  end.
Proof.
  revert now. induction ops as [|o ops IH] using rev_ind; intros now Hs.
  { by rewrite prune_lookup. }
  rewrite foldl_app, last_put_snoc. rewrite fmap_app in Hs. simpl in *.
  apply sorted_snoc in Hs as (Hs1 & Hs2 & Hle). destruct o as [k' v t|t]; simpl in *.
  - rewrite prune_lookup, lookup_insert. destruct (String.eqb_spec k' k) as [->|Hne].
    + by rewrite decide_True.
    + rewrite decide_False by done. rewrite <- (IH now Hs1). by rewrite prune_lookup.
  - rewrite (prune_prune t now) by done. by apply IH.
Qed.
End expiring.
