(* ===== verification/Types.v ===== *)
(** * Data model of the controller

    The types of [types.go], [errors.go], the records of [pool.go] and
    [lease.go] that cross component boundaries, and the [Config] record of
    [config.go]. *)

From S2P Require Import Prelude GoStrings Float64.

(** ** Errors

    The program routes on errors with [errors.Is] only, so an error is
    represented by the sentinel it matches; messages are not modelled.
    [ErrNotFound] and [ErrFetchFailed] are [commerr]'s, [ErrForeign] is an
    error of another package (Docker, net, json, crypto/rand) that matches
    none of the sentinels. *)
Inductive error :=
  | ErrPoolUnavailable
  | ErrPoolExhausted
  | ErrUnknownPool
  | ErrInvalidCountry
  | ErrSpawnTimeout
  | ErrSpawnFailed
  | ErrTunnelUnhealthy
  | ErrConfigInvalid
  | ErrBundleConfMissing
  | ErrNotFound
  | ErrFetchFailed
  | ErrForeign.

#[global] Instance error_eq_dec : EqDecision error.
Proof. solve_decision. Defined.

(** [errors.Is]. *)
Definition errors_is (e target : error) : bool := bool_decide (e = target).

Abbreviation res := (result error).

(** ** Tunnels *)

Inductive TunnelState :=
  | TunnelStateSpawning
  | TunnelStateHot
  | TunnelStateUnhealthy
  | TunnelStateReaping.

#[global] Instance TunnelState_eq_dec : EqDecision TunnelState.
Proof. solve_decision. Defined.

Record Tunnel := mkTunnel {
  ContainerID : string;
  ConfName : string;
  ProxyURL : option URL;
  GatewayAddr : string;
  State : TunnelState;
  Pool : string;
  ExitCountry : string;
  ExitIP : string;
  SpawnedAt : Z;
  HealthyAt : Z;
  LastUsedAt : Z;
  LastURL : string;
  LastURLExpiresAt : Z;
  InFlight : Z;
}.

#[global] Instance Tunnel_eq_dec : EqDecision Tunnel.
Proof. solve_decision. Defined.

(** Field assignments of the code, one per field the program writes. *)
Definition set_State (s : TunnelState) (t : Tunnel) : Tunnel :=
  mkTunnel (ContainerID t) (ConfName t) (ProxyURL t) (GatewayAddr t) s (Pool t)
    (ExitCountry t) (ExitIP t) (SpawnedAt t) (HealthyAt t) (LastUsedAt t)
    (LastURL t) (LastURLExpiresAt t) (InFlight t).
Definition set_Pool (p : string) (t : Tunnel) : Tunnel :=
  mkTunnel (ContainerID t) (ConfName t) (ProxyURL t) (GatewayAddr t) (State t) p
    (ExitCountry t) (ExitIP t) (SpawnedAt t) (HealthyAt t) (LastUsedAt t)
    (LastURL t) (LastURLExpiresAt t) (InFlight t).
Definition set_GatewayAddr (a : string) (t : Tunnel) : Tunnel :=
  mkTunnel (ContainerID t) (ConfName t) (ProxyURL t) a (State t) (Pool t)
    (ExitCountry t) (ExitIP t) (SpawnedAt t) (HealthyAt t) (LastUsedAt t)
    (LastURL t) (LastURLExpiresAt t) (InFlight t).
Definition set_HealthyAt (at_ : Z) (t : Tunnel) : Tunnel :=
  mkTunnel (ContainerID t) (ConfName t) (ProxyURL t) (GatewayAddr t) (State t) (Pool t)
    (ExitCountry t) (ExitIP t) (SpawnedAt t) at_ (LastUsedAt t)
    (LastURL t) (LastURLExpiresAt t) (InFlight t).
Definition set_LastUsedAt (at_ : Z) (t : Tunnel) : Tunnel :=
  mkTunnel (ContainerID t) (ConfName t) (ProxyURL t) (GatewayAddr t) (State t) (Pool t)
    (ExitCountry t) (ExitIP t) (SpawnedAt t) (HealthyAt t) at_
    (LastURL t) (LastURLExpiresAt t) (InFlight t).
Definition set_LastURL (u : string) (expires : Z) (t : Tunnel) : Tunnel :=
  mkTunnel (ContainerID t) (ConfName t) (ProxyURL t) (GatewayAddr t) (State t) (Pool t)
    (ExitCountry t) (ExitIP t) (SpawnedAt t) (HealthyAt t) (LastUsedAt t)
    u expires (InFlight t).
Definition set_InFlight (n : Z) (t : Tunnel) : Tunnel :=
  mkTunnel (ContainerID t) (ConfName t) (ProxyURL t) (GatewayAddr t) (State t) (Pool t)
    (ExitCountry t) (ExitIP t) (SpawnedAt t) (HealthyAt t) (LastUsedAt t)
    (LastURL t) (LastURLExpiresAt t) n.

(** ** Pool definitions *)

Record PoolSpec := mkPoolSpec {
  Name : string;
  Region : string;
  Purpose : string;
  Configs : list string;
  ExitCountries : gmap string string;
  FallbackPool : string;
}.

(** ** Operator projections

    [IdleSeconds] is kept as the duration (nanoseconds) whose [Seconds()] the
    code serialises. *)
Record TunnelView := mkTunnelView {
  tv_ConfName : string;
  tv_ProxyURL : string;
  tv_State : TunnelState;
  tv_ExitCountry : string;
  tv_ExitIP : string;
  tv_SpawnedAt : Z;
  tv_HealthyAt : Z;
  tv_LastUsedAt : Z;
  tv_IdleSeconds : Z;
}.

Record PoolView := mkPoolView {
  pv_Name : string;
  pv_Region : string;
  pv_Tunnel : option TunnelView;
  pv_FallbackPool : string;
  pv_ConfCount : nat;
  pv_RecentlyFailed : nat;
}.

Record ProxyView := mkProxyView {
  xv_Pool : string;
  xv_ConfName : string;
  xv_State : TunnelState;
  xv_ExitCountry : string;
  xv_ExitIP : string;
  xv_SpawnedAt : Z;
  xv_HealthyAt : Z;
  xv_LastUsedAt : Z;
  xv_LastURL : string;
  xv_LastURLExpiresAt : Z;
  xv_IdleSeconds : Z;
}.

Record ProxyURLs := mkProxyURLs { SOCKS5 : string; HTTP : string }.

Record ProxyResponse := mkProxyResponse {
  rsp_Proxies : ProxyURLs;
  rsp_Pool : string;
  rsp_ExitCountry : string;
  rsp_ExitIP : string;
  rsp_ExpiresAt : Z;
}.

(** ** Spawner and allocation records *)

Record CellHandle := mkCellHandle {
  h_ContainerID : string;
  h_Pool : string;
  h_ConfName : string;
  h_State : string;
  h_ControlURL : option URL;
  h_CreatedAt : Z;
}.

Record SpawnRequest := mkSpawnRequest {
  req_Pool : string;
  req_ConfName : string;
  req_ExitCountry : string;
  req_BundleDir : string;
}.

(** An [Acquisition] holds a copy of the tunnel ([*Tunnel], nil when absent)
    and the pool the caller passes back to [Release]. *)
Record Acquisition := mkAcquisition {
  acq_Tunnel : option Tunnel;
  acq_Pool : string;
}.

(** ** Traffic statistics reported by a cell *)

Record DestStat := mkDestStat {
  Destination : string;
  Requests : Z;
  BytesUp : Z;
  BytesDown : Z;
  Active : Z;
}.

Record Stats := mkStats {
  st_Requests : Z;
  st_BytesUp : Z;
  st_BytesDown : Z;
  st_Active : Z;
  st_DialFailures : Z;
  st_Destinations : list DestStat;
}.

Record Status := mkStatus {
  CellID : string;
  ParentID : string;
  StartedAt : string;
  UptimeSeconds : float64;
  Traffic : Stats;
}.

(** ** Configuration *)

Record Config := mkConfig {
  HTTPAddr : string;
  MetricsAddr : string;
  SOCKSAddr : string;
  SOCKSPublicAddr : string;
  HTTPProxyAddr : string;
  HTTPProxyPublicAddr : string;
  ProxyLeaseTTL : Z;
  PoolsFile : string;
  BundleDir : string;
  RoutingFile : string;
  DefaultPool : string;
  IdleTimeout : Z;
  SpawnTimeout : Z;
  HealthCheckInterval : Z;
  HealthHandshakeMaxAge : Z;
  FailureCacheTTL : Z;
  CellImage : string;
  CellSocksPort : Z;
  CellControlPort : Z;
  cfg_ParentID : string;
  CellNetwork : string;
  CellControlNetwork : string;
  ManagedScope : string;
  DockerHost : string;
  APIToken : string;
}.

(** The constants of [constants.go]. *)
Definition proxySchemeHTTP : string := "http".
Definition proxySchemeSOCKS5 : string := "socks5".

(** ** HTTP statuses *)

Definition StatusOK : Z := 200.
Definition StatusNoContent : Z := 204.
Definition StatusBadRequest : Z := 400.
Definition StatusUnauthorized : Z := 401.
Definition StatusForbidden : Z := 403.
Definition StatusNotFound : Z := 404.
Definition StatusProxyAuthRequired : Z := 407.
Definition StatusUnsupportedMediaType : Z := 415.
Definition StatusTooManyRequests : Z := 429.
Definition StatusInternalServerError : Z := 500.
Definition StatusBadGateway : Z := 502.
Definition StatusServiceUnavailable : Z := 503.
