(* ===== verification/Config.v ===== *)
(** * Configuration of the controller ([config.go])

    Loading and validating the environment-driven [Config].  The third-party
    parser that fills the struct from the environment ([gonfiguration.Parse])
    and [os.Hostname] are arguments: their results. *)

From S2P Require Import Prelude GoStrings Types.

Definition maxAPITokenBytes : nat := 4096.
Definition cellImageRepo : string := "psyb0t/pr0xteus".
Definition defaultCellTag : string := "dev".
Definition defaultSOCKSListenAddr : string := ":1080".
Definition defaultSOCKSPublicAddr : string := "127.0.0.1:1080".
Definition defaultHTTPProxyListenAddr : string := ":8080".
Definition defaultHTTPProxyPublicAddr : string := "127.0.0.1:8080".
Definition defaultProxyLeaseTTL : Z := 15 * minute.
Definition minPort : Z := 1.
Definition maxPort : Z := 65535.

Definition cellImageForVersion (version : string) : string :=
  let version := trim_space version in
  let version := if String.eqb version "" then defaultCellTag else version in
  cellImageRepo +:+ ":cell-" +:+ version.

Definition port_in_range (p : Z) : bool := (minPort <=? p)%Z && (p <=? maxPort)%Z.

(** [validateTCPAddress]. *)
Definition validateTCPAddress (address : string) (allowEmptyHost : bool) : res unit :=
  match split_host_port address with
  | None => Err ErrConfigInvalid
  | Some (host, rawPort) =>
      if negb allowEmptyHost && String.eqb (trim_space host) "" then Err ErrConfigInvalid
      else match atoi rawPort with
           | None => Err ErrConfigInvalid
           | Some port => if port_in_range port then Ok tt else Err ErrConfigInvalid
           end
  end.

Definition addressChecks (cfg : Config) : list (string * bool) :=
  [(SOCKSAddr cfg, true); (SOCKSPublicAddr cfg, false);
   (HTTPProxyAddr cfg, true); (HTTPProxyPublicAddr cfg, false)].

Definition validateProxyAddresses (cfg : Config) : res unit :=
  fold_result (fun _ check => validateTCPAddress check.1 check.2) (addressChecks cfg) tt.

Definition validateCellPorts (cfg : Config) : res unit :=
  if negb (port_in_range (CellSocksPort cfg)) then Err ErrConfigInvalid else
  if negb (port_in_range (CellControlPort cfg)) then Err ErrConfigInvalid else
  if (CellControlPort cfg =? CellSocksPort cfg)%Z then Err ErrConfigInvalid else Ok tt.

Definition validatePorts (cfg : Config) : res unit :=
  _ ← validateProxyAddresses cfg;
  if (ProxyLeaseTTL cfg <=? 0)%Z then Err ErrConfigInvalid else validateCellPorts cfg.

(** [ValidateAPIToken]: the trimmed token, at most 4096 bytes and not empty. *)
Definition ValidateAPIToken (raw : string) : res string :=
  let token := trim_space raw in
  if Nat.ltb maxAPITokenBytes (String.length token) then Err ErrConfigInvalid else
  if Nat.eqb (String.length token) 0 then Err ErrConfigInvalid else Ok token.

Definition set_CellImage (image : string) (c : Config) : Config :=
  mkConfig (HTTPAddr c) (MetricsAddr c) (SOCKSAddr c) (SOCKSPublicAddr c) (HTTPProxyAddr c)
    (HTTPProxyPublicAddr c) (ProxyLeaseTTL c) (PoolsFile c) (BundleDir c) (RoutingFile c)
    (DefaultPool c) (IdleTimeout c) (SpawnTimeout c) (HealthCheckInterval c)
    (HealthHandshakeMaxAge c) (FailureCacheTTL c) image (CellSocksPort c)
    (CellControlPort c) (cfg_ParentID c) (CellNetwork c) (CellControlNetwork c)
    (ManagedScope c) (DockerHost c) (APIToken c).

Definition set_ParentID (id : string) (c : Config) : Config :=
  mkConfig (HTTPAddr c) (MetricsAddr c) (SOCKSAddr c) (SOCKSPublicAddr c) (HTTPProxyAddr c)
    (HTTPProxyPublicAddr c) (ProxyLeaseTTL c) (PoolsFile c) (BundleDir c) (RoutingFile c)
    (DefaultPool c) (IdleTimeout c) (SpawnTimeout c) (HealthCheckInterval c)
    (HealthHandshakeMaxAge c) (FailureCacheTTL c) (CellImage c) (CellSocksPort c)
    (CellControlPort c) id (CellNetwork c) (CellControlNetwork c)
    (ManagedScope c) (DockerHost c) (APIToken c).

(** [resolveParentID]; [hostname] is the result of [os.Hostname]. *)
Definition resolveParentID (hostname : option string) (cfg : Config) : Config :=
  if negb (String.eqb (trim_space (cfg_ParentID cfg)) "") then cfg
  else match hostname with
       | None => cfg
       | Some h => set_ParentID (trim_space h) cfg
       end.

(** [LoadConfig]; [parsed] is what [gonfiguration.Parse] made of the
    environment, [image] the value of [configuredCellImage]. *)
Definition LoadConfig (parsed : res Config) (image : string) (hostname : option string) :
    res Config :=
  cfg ← parsed;
  let cfg := set_CellImage image cfg in
  _ ← validatePorts cfg;
  let cfg := resolveParentID hostname cfg in
  _ ← ValidateAPIToken (APIToken cfg);
  if String.eqb (trim_space (ManagedScope cfg)) "" then Err ErrConfigInvalid else Ok cfg.

Definition socksPublicAddr (cfg : Config) : string :=
  if String.eqb (SOCKSPublicAddr cfg) "" then defaultSOCKSPublicAddr else SOCKSPublicAddr cfg.
Definition socksListenAddr (cfg : Config) : string :=
  if String.eqb (SOCKSAddr cfg) "" then defaultSOCKSListenAddr else SOCKSAddr cfg.
Definition httpProxyPublicAddr (cfg : Config) : string :=
  if String.eqb (HTTPProxyPublicAddr cfg) "" then defaultHTTPProxyPublicAddr
  else HTTPProxyPublicAddr cfg.
Definition httpProxyListenAddr (cfg : Config) : string :=
  if String.eqb (HTTPProxyAddr cfg) "" then defaultHTTPProxyListenAddr else HTTPProxyAddr cfg.
Definition proxyLeaseTTL (cfg : Config) : Z :=
  if (0 <? ProxyLeaseTTL cfg)%Z then ProxyLeaseTTL cfg else defaultProxyLeaseTTL.

(** A loaded configuration has a valid token. *)
Lemma LoadConfig_token parsed image hostname cfg :
  LoadConfig parsed image hostname = Ok cfg -> exists token, ValidateAPIToken (APIToken cfg) = Ok token.
Proof.
  unfold LoadConfig. intros (c & _ & E)%result_bind_ok. rewrite result_bind_ok in E. destruct E as (_ & _ & E).
  rewrite result_bind_ok in E. destruct E as (token & Ht & E). destruct (String.eqb _ ""); simplify_eq. eauto.
Qed.

(** The lease lifetime is positive whatever the configuration: a lease is
    never issued already expired. *)
Lemma proxyLeaseTTL_pos cfg : (0 < proxyLeaseTTL cfg)%Z.
Proof. unfold proxyLeaseTTL, defaultProxyLeaseTTL, minute, second. case_match; lia. Qed.

(** ** Specification of an accepted configuration *)

(** [valid_address a any]: [a] splits into a host and a port number in range,
    with a non-blank host unless [any]. *)
Definition valid_address (a : string) (any : bool) : Prop :=
  exists host rawPort port,
    split_host_port a = Some (host, rawPort) /\ atoi rawPort = Some port /\
    (minPort <= port <= maxPort)%Z /\ (any = false -> trim_space host <> "").

Record valid_config (cfg : Config) : Prop := {
  vc_addresses : Forall (fun c => valid_address c.1 c.2) (addressChecks cfg);
  vc_ttl : (0 < ProxyLeaseTTL cfg)%Z;
  vc_socks : (minPort <= CellSocksPort cfg <= maxPort)%Z;
  vc_control : (minPort <= CellControlPort cfg <= maxPort)%Z;
  vc_distinct : CellControlPort cfg <> CellSocksPort cfg;
  vc_token : 0 < String.length (trim_space (APIToken cfg)) <= maxAPITokenBytes;
  vc_scope : trim_space (ManagedScope cfg) <> "";
}.

Lemma port_in_range_spec p : port_in_range p = true <-> (minPort <= p <= maxPort)%Z.
Proof. unfold port_in_range. rewrite andb_true_iff, !Z.leb_le. done. Qed.

Lemma validateTCPAddress_spec a any :
  validateTCPAddress a any = Ok tt <-> valid_address a any.
Proof.
  unfold validateTCPAddress, valid_address. split.
  - intros H. destruct (split_host_port a) as [[host raw]|] eqn:Es; [|done].
    destruct (negb any && String.eqb (trim_space host) "") eqn:Eh; [done|].
    destruct (atoi raw) as [port|] eqn:Ea; [|done].
    destruct (port_in_range port) eqn:Ep; [|done].
    exists host, raw, port. rewrite port_in_range_spec in Ep. split_and!; try done; try lia.
    intros ->. simpl in Eh. by apply String.eqb_neq.
  - intros (host & raw & port & -> & Ha & Hp & Hh).
    rewrite <- port_in_range_spec in Hp. rewrite Ha, Hp.
    destruct any; simpl; [done|]. rewrite (proj2 (String.eqb_neq _ _)); auto.
Qed.

Lemma validateTCPAddress_cases a any :
  validateTCPAddress a any = Ok tt \/ validateTCPAddress a any = Err ErrConfigInvalid.
Proof. unfold validateTCPAddress. repeat case_match; auto. Qed.

Lemma validateProxyAddresses_spec cfg :
  validateProxyAddresses cfg = Ok tt <->
  Forall (fun c => valid_address c.1 c.2) (addressChecks cfg).
Proof.
  unfold validateProxyAddresses. generalize (addressChecks cfg). intros l.
  induction l as [|c l IH]; simpl; [split; [constructor|done]|].
  rewrite Forall_cons, <- IH, <- validateTCPAddress_spec.
  destruct (validateTCPAddress_cases c.1 c.2) as [->| ->]; naive_solver.
Qed.

Lemma validateCellPorts_spec cfg :
  validateCellPorts cfg = Ok tt <->
  (minPort <= CellSocksPort cfg <= maxPort)%Z /\
  (minPort <= CellControlPort cfg <= maxPort)%Z /\
  CellControlPort cfg <> CellSocksPort cfg.
Proof.
  unfold validateCellPorts. rewrite <- !port_in_range_spec.
  destruct (port_in_range (CellSocksPort cfg)), (port_in_range (CellControlPort cfg));
    simpl; try naive_solver.
  destruct (Z.eqb_spec (CellControlPort cfg) (CellSocksPort cfg)); naive_solver.
Qed.

Lemma ValidateAPIToken_spec raw token :
  ValidateAPIToken raw = Ok token <->
  token = trim_space raw /\ 0 < String.length token <= maxAPITokenBytes.
Proof.
  unfold ValidateAPIToken.
  destruct (Nat.ltb_spec maxAPITokenBytes (String.length (trim_space raw)));
    [split; [done|]; intros [-> ?]; lia|].
  destruct (Nat.eqb_spec (String.length (trim_space raw)) 0);
    [split; [done|]; intros [-> ?]; lia|].
  split; [intros [= <-]; split; [done|lia] | by intros [-> _]].
Qed.

Lemma resolveParentID_keeps hostname cfg :
  exists id, resolveParentID hostname cfg = set_ParentID id cfg.
Proof.
  unfold resolveParentID. case_match; [|case_match].
  - by exists (cfg_ParentID cfg); destruct cfg.
  - eauto.
  - by exists (cfg_ParentID cfg); destruct cfg.
Qed.

Lemma validatePorts_spec cfg :
  validatePorts cfg = Ok tt <->
  Forall (fun c => valid_address c.1 c.2) (addressChecks cfg) /\
  (0 < ProxyLeaseTTL cfg)%Z /\
  (minPort <= CellSocksPort cfg <= maxPort)%Z /\
  (minPort <= CellControlPort cfg <= maxPort)%Z /\
  CellControlPort cfg <> CellSocksPort cfg.
Proof.
  unfold validatePorts. rewrite result_bind_ok, <- validateProxyAddresses_spec,
    <- validateCellPorts_spec.
  destruct (Z.leb_spec (ProxyLeaseTTL cfg) 0); split.
  - intros (u & _ & ?). done.
  - intros (_ & ? & _). lia.
  - intros ([] & ? & ?). split_and!; try done; lia.
  - intros (? & ? & ?). exists tt. done.
Qed.

(** Loading fails closed: [LoadConfig] returns a configuration exactly when
    the environment parsed and the result satisfies every documented bound
    (listen and public addresses, positive lease lifetime, distinct cell ports
    in 1..65535, a token of 1 to 4096 bytes, a non-blank managed scope); the
    returned configuration differs from the parsed one only in the cell image,
    which is always the one built into the controller, and in the parent
    identity. *)
Theorem LoadConfig_iff parsed image hostname cfg :
  LoadConfig parsed image hostname = Ok cfg <->
  exists env, parsed = Ok env /\
    cfg = resolveParentID hostname (set_CellImage image env) /\
    CellImage cfg = image /\ valid_config cfg.
Proof.
  unfold LoadConfig. rewrite result_bind_ok. split.
  - intros (env & -> & H). exists env. rewrite result_bind_ok in H.
    destruct H as ([] & Hp & H). rewrite result_bind_ok in H. destruct H as (tok & Ht & H).
    destruct (String.eqb_spec
      (trim_space (ManagedScope (resolveParentID hostname (set_CellImage image env)))) "");
      simplify_eq.
    apply validatePorts_spec in Hp. apply ValidateAPIToken_spec in Ht as [-> Ht].
    split_and!; [done|done| |].
    + by destruct (resolveParentID_keeps hostname (set_CellImage image env)) as [id ->].
    + destruct (resolveParentID_keeps hostname (set_CellImage image env)) as [id Heq].
      rewrite Heq in *. destruct Hp as (? & ? & ? & ? & ?). constructor; done.
  - intros (env & -> & -> & _ & Hv). exists env. split; [done|].
    destruct (resolveParentID_keeps hostname (set_CellImage image env)) as [id Heq].
    rewrite Heq in *. destruct Hv.
    rewrite result_bind_ok. exists tt. split; [by apply validatePorts_spec|].
    rewrite result_bind_ok. exists (trim_space (APIToken env)).
    split; [by apply ValidateAPIToken_spec|].
    destruct (String.eqb_spec (trim_space (ManagedScope (set_ParentID id (set_CellImage image env)))) "");
      done.
Qed.
