(* ===== verification/Pools.v ===== *)
(** * Pool definitions ([pool.go], first half) and country codes ([api.go])

    Loading [pools.yaml] and the WireGuard bundle into validated [PoolSpec]s.
    The YAML decoder is not under verification: [parsed] is its result (an
    error, or the decoded file), and [entries] the result of [os.ReadDir]. *)

From S2P Require Import Prelude GoStrings Types.

Record poolEntry := mkPoolEntry {
  e_Region : string;
  e_Purpose : string;
  e_Configs : list string;
  e_ExitCountries : gmap string string;
  e_FallbackPool : string;
}.

(** [poolsFile]: the field [Pools]. *)
Abbreviation poolsFile := (gmap string poolEntry).

(** ** Country codes *)

Definition countryCodeLength : nat := 2.

Definition isASCIIAlpha (value : ascii) : bool :=
  in_range "a" "z" value || in_range "A" "Z" value.

Definition isCountryCode (country : string) : bool :=
  let trimmed := trim_space country in
  Nat.eqb (String.length trimmed) countryCodeLength && string_forallb isASCIIAlpha trimmed.

(** ** Reading the bundle *)

Record dirEntry := mkDirEntry { d_Name : string; d_IsDir : bool }.

(** [readBundle], after [os.ReadDir]: the basenames of the [*.conf] files. *)
Definition readBundle_entries (entries : list dirEntry) : gset string :=
  foldl (fun out e =>
    if d_IsDir e then out
    else if negb (has_suffix (d_Name e) ".conf") then out
    else {[ trim_suffix (d_Name e) ".conf" ]} ∪ out) ∅ entries.

Definition readBundle (entries : option (list dirEntry)) : res (gset string) :=
  match entries with
  | None => Err ErrConfigInvalid
  | Some es => Ok (readBundle_entries es)
  end.

(** [readPoolsFile]: read and decode errors and the empty file are invalid
    configuration. *)
Definition readPoolsFile (parsed : option poolsFile) : res poolsFile :=
  match parsed with
  | None => Err ErrConfigInvalid
  | Some p => if Nat.eqb (size p) 0 then Err ErrConfigInvalid else Ok p
  end.

Section specs.
Context `{GoUnicode} `{MapOrder}.

Definition normalizeCountry (configs : list string) (configName exitCountry : string) :
    res string :=
  if negb (bool_decide (configName ∈ configs)) then Err ErrConfigInvalid else
  let country := to_upper (trim_space exitCountry) in
  if negb (isCountryCode country) then Err ErrConfigInvalid else Ok country.

Definition normalizeExitCountries (configs : list string) (exitCountries : gmap string string) :
    res (gmap string string) :=
  if Nat.eqb (size exitCountries) 0 then Ok ∅
  else collect (normalizeCountry configs) exitCountries.

(** One iteration of the loop of [buildSpecs]. *)
Definition buildSpec (bundle : gset string) (name : string) (entry : poolEntry) :
    res PoolSpec :=
  if Nat.eqb (length (e_Configs entry)) 0 then Err ErrConfigInvalid else
  _ ← fold_result (fun _ conf =>
        if bool_decide (conf ∈ bundle) then Ok tt else Err ErrBundleConfMissing)
      (e_Configs entry) tt;
  let configs := sort_strings (e_Configs entry) in
  exitCountries ← normalizeExitCountries configs (e_ExitCountries entry);
  Ok (mkPoolSpec name (e_Region entry) (e_Purpose entry) configs exitCountries
        (e_FallbackPool entry)).

(** [buildSpecs]: the spec of every pool and the set of known names. *)
Definition buildSpecs (parsed : poolsFile) (bundle : gset string) :
    res (gmap string PoolSpec * gset string) :=
  specs ← collect (buildSpec bundle) parsed;
  Ok (specs, dom specs).

Definition validateFallbacks (specs : gmap string PoolSpec) : res unit :=
  fold_result (fun _ '(_, spec) =>
    if String.eqb (FallbackPool spec) "" then Ok tt
    else match specs !! FallbackPool spec with
         | Some _ => Ok tt
         | None => Err ErrConfigInvalid
         end) (range specs) tt.

Definition LoadPoolSpecs (file : option poolsFile) (entries : option (list dirEntry)) :
    res (gmap string PoolSpec * gset string) :=
  parsed ← readPoolsFile file;
  bundle ← readBundle entries;
  '(specs, known) ← buildSpecs parsed bundle;
  _ ← validateFallbacks specs;
  Ok (specs, known).

(** ** What an accepted definition satisfies *)

Definition valid_countries (e : poolEntry) : Prop :=
  forall c x, e_ExitCountries e !! c = Some x ->
    c ∈ e_Configs e /\ isCountryCode (to_upper (trim_space x)) = true.

Definition valid_entry (bundle : gset string) (e : poolEntry) : Prop :=
  e_Configs e <> [] /\ (forall c, c ∈ e_Configs e -> c ∈ bundle) /\ valid_countries e.

Definition spec_of (name : string) (e : poolEntry) : PoolSpec :=
  mkPoolSpec name (e_Region e) (e_Purpose e) (sort_strings (e_Configs e))
    ((fun x => to_upper (trim_space x)) <$> e_ExitCountries e) (e_FallbackPool e).

Lemma normalizeCountry_spec configs c x y :
  normalizeCountry configs c x = Ok y <->
  c ∈ configs /\ y = to_upper (trim_space x) /\ isCountryCode y = true.
Proof.
  unfold normalizeCountry. case_bool_decide; simpl; [|split; [done|by intros [? _]]].
  destruct (isCountryCode (to_upper (trim_space x))) eqn:E; simpl; split.
  - by intros [= <-].
  - by intros (_ & -> & _).
  - done.
  - intros (_ & -> & ?). congruence.
Qed.

Lemma normalizeExitCountries_spec configs ec out :
  normalizeExitCountries configs ec = Ok out <->
  (forall c x, ec !! c = Some x ->
    c ∈ configs /\ isCountryCode (to_upper (trim_space x)) = true) /\
  out = (fun x => to_upper (trim_space x)) <$> ec.
Proof.
  unfold normalizeExitCountries. destruct (Nat.eqb_spec (size ec) 0) as [Hz|Hz].
  { apply map_size_empty_iff in Hz as ->. rewrite fmap_empty. split.
    - intros [= <-]. split; [|done]. intros c x Hc. by rewrite lookup_empty in Hc.
    - by intros [_ ->]. }
  rewrite collect_spec. setoid_rewrite normalizeCountry_spec. split.
  - intros [H1 H2]. split.
    + intros c x Hx. destruct (H1 _ _ Hx) as (y & (? & -> & ?) & _). done.
    + apply map_eq. intros c. rewrite lookup_fmap. destruct (ec !! c) as [x|] eqn:Hx; simpl.
      * by destruct (H1 _ _ Hx) as (y & (? & -> & ?) & ->).
      * apply not_elem_of_dom. rewrite H2. by apply not_elem_of_dom.
  - intros [H1 ->]. split; [|by rewrite dom_fmap_L].
    intros c x Hx. exists (to_upper (trim_space x)). rewrite lookup_fmap, Hx.
    destruct (H1 _ _ Hx). done.
Qed.

Lemma bundle_check_spec (bundle : gset string) confs u :
  fold_result (fun _ conf =>
    if bool_decide (conf ∈ bundle) then Ok tt else Err ErrBundleConfMissing) confs tt = Ok u <->
  (forall c, c ∈ confs -> c ∈ bundle).
Proof.
  destruct u. induction confs as [|c confs IH]; simpl.
  - split; [|done]. by intros _ c ?%elem_of_nil.
  - case_bool_decide as Hc.
    + rewrite IH. split; intros H'.
      * intros c' [->|?]%elem_of_cons; auto.
      * intros c' ?. apply H'. by right.
    + split; [done|]. intros H'. destruct Hc. apply H'. left.
Qed.

Lemma buildSpec_spec bundle name e spec :
  buildSpec bundle name e = Ok spec <-> valid_entry bundle e /\ spec = spec_of name e.
Proof.
  unfold buildSpec, valid_entry, valid_countries, spec_of.
  destruct (Nat.eqb_spec (length (e_Configs e)) 0) as [Hz|Hz].
  { apply length_zero_iff_nil in Hz. naive_solver. }
  rewrite result_bind_ok. setoid_rewrite bundle_check_spec.
  setoid_rewrite result_bind_ok. setoid_rewrite normalizeExitCountries_spec.
  setoid_rewrite elem_of_sort_strings. split.
  - intros (_ & Hb & out & [Hc ->] & [= <-]). split_and!; try done.
    intros Hn. by rewrite Hn in Hz.
  - intros [(Hne & Hb & Hc) ->]. exists tt. split; [done|]. eexists. split; [by split|]. done.
Qed.

Lemma buildSpecs_spec parsed bundle specs known :
  buildSpecs parsed bundle = Ok (specs, known) <->
  (forall n e, parsed !! n = Some e -> valid_entry bundle e) /\
  specs = map_imap (fun n e => Some (spec_of n e)) parsed /\ known = dom parsed.
Proof.
  unfold buildSpecs. rewrite result_bind_ok. setoid_rewrite collect_spec.
  setoid_rewrite buildSpec_spec. split.
  - intros (m & [Hm Hd] & [= <- <-]). split_and!; [|apply map_eq; intros n|done].
    + intros n e He. by destruct (Hm _ _ He) as (? & [? _] & _).
    + rewrite map_lookup_imap. destruct (parsed !! n) as [e|] eqn:He; simpl.
      * by destruct (Hm _ _ He) as (? & [_ ->] & ->).
      * apply not_elem_of_dom. rewrite Hd. by apply not_elem_of_dom.
  - intros (Hv & -> & ->).
    assert (dom (map_imap (fun n e => Some (spec_of n e)) parsed) = dom parsed) as Hdom.
    { apply set_eq. intros n. rewrite !elem_of_dom, map_lookup_imap.
      destruct (parsed !! n); simpl; split; intros [? ?]; eauto; done. }
    eexists. split; [split; [|exact Hdom]|by rewrite Hdom].
    intros n e He. exists (spec_of n e). rewrite map_lookup_imap, He. simpl.
    split; [|done]. split; [by eapply Hv|done].
Qed.

Lemma validateFallbacks_spec specs u :
  validateFallbacks specs = Ok u <->
  forall n s, specs !! n = Some s -> FallbackPool s = "" \/ is_Some (specs !! FallbackPool s).
Proof.
  destruct u. unfold validateFallbacks. setoid_rewrite <- elem_of_range.
  generalize (range specs). intros l. induction l as [|[n s] l IH]; simpl.
  - split; [|done]. by intros _ n s ?%elem_of_nil.
  - destruct (String.eqb_spec (FallbackPool s) "") as [He|He].
    + rewrite IH. split; intros Hl.
      * intros n' s' [[= -> ->]|Hin]%elem_of_cons; [by left | by eapply Hl].
      * intros n' s' Hin. eapply Hl. by right.
    + destruct (specs !! FallbackPool s) eqn:Hs.
      * rewrite IH. split; intros Hl.
        -- intros n' s' [[= -> ->]|Hin]%elem_of_cons; [right; eauto | by eapply Hl].
        -- intros n' s' Hin. eapply Hl. by right.
      * split; [done|]. intros Hl. destruct (Hl n s ltac:(left)) as [?|Hi]; [done|].
        rewrite Hs in Hi. by destruct Hi.
Qed.

Definition valid_pools (parsed : poolsFile) (bundle : gset string) : Prop :=
  parsed <> ∅ /\
  (forall n e, parsed !! n = Some e -> valid_entry bundle e) /\
  (forall n e, parsed !! n = Some e ->
    e_FallbackPool e = "" \/ is_Some (parsed !! e_FallbackPool e)).

Lemma imap_fallback parsed :
  (forall n s, map_imap (fun n e => Some (spec_of n e)) parsed !! n = Some s ->
    FallbackPool s = "" \/
    is_Some (map_imap (fun n e => Some (spec_of n e)) parsed !! FallbackPool s)) <->
  (forall n e, parsed !! n = Some e ->
    e_FallbackPool e = "" \/ is_Some (parsed !! e_FallbackPool e)).
Proof.
  split.
  - intros Hs n e He. specialize (Hs n (spec_of n e)).
    rewrite !map_lookup_imap, He in Hs. simpl in Hs.
    destruct (Hs eq_refl) as [?|Hi]; [by left|]. right.
    by destruct (parsed !! e_FallbackPool e); [eauto|destruct Hi].
  - intros Hp n s Hs. rewrite !map_lookup_imap in *.
    destruct (parsed !! n) as [e|] eqn:He; simplify_eq/=.
    destruct (Hp _ _ He) as [?|[e' He']]; [by left|]. right. rewrite He'. eauto.
Qed.

(** A loaded pool is stored under its own name. *)
Lemma spec_of_named parsed key spec :
  map_imap (fun n e => Some (spec_of n e)) parsed !! key = Some spec -> Name spec = key.
Proof. rewrite map_lookup_imap. destruct (parsed !! key); simpl; [by intros [= <-]|done]. Qed.

(** The known names are those of the loaded pools. *)
Lemma LoadPoolSpecs_known file entries specs known :
  LoadPoolSpecs file entries = Ok (specs, known) ->
  (forall key spec, specs !! key = Some spec -> Name spec = key) /\ known = dom specs /\
  (forall parsed, file = Some parsed -> known = dom parsed) /\
  (forall key spec, specs !! key = Some spec -> FallbackPool spec = "" \/ is_Some (specs !! FallbackPool spec)).
Proof.
  unfold LoadPoolSpecs, readPoolsFile. rewrite result_bind_ok. intros (parsed & Hf & Hr).
  rewrite result_bind_ok in Hr. destruct Hr as (b & _ & Hr). rewrite result_bind_ok in Hr.
  destruct Hr as ([specs' known'] & Hbs & Hr). rewrite result_bind_ok in Hr. destruct Hr as ([] & Hfb & [= <- <-]).
  pose proof Hbs as (_ & Hs & Hk)%buildSpecs_spec. split_and!.
  - subst. apply spec_of_named.
  - unfold buildSpecs in Hbs. rewrite result_bind_ok in Hbs. by destruct Hbs as (m & _ & [= <- <-]).
  - intros p ->. destruct (Nat.eqb (size p) 0); simplify_eq. done.
  - exact (proj1 (validateFallbacks_spec _ _) Hfb).
Qed.

(** C31. Loading [pools.yaml] succeeds exactly on a file with at least one
    pool in which every pool has a configuration, every configuration is in
    the bundle, every exit country names a configuration of its pool and is
    a two-letter code, and every fallback names a defined pool (an exit country is
    optional for every configuration); the specs are
    then determined by the file alone (sorted configurations, upper-cased
    countries), whatever the order in which the maps are iterated, and the
    set of known pools is the set of their names. *)
Theorem LoadPoolSpecs_iff file entries specs known :
  LoadPoolSpecs file entries = Ok (specs, known) <->
  exists parsed es, file = Some parsed /\ entries = Some es /\
    valid_pools parsed (readBundle_entries es) /\
    specs = map_imap (fun n e => Some (spec_of n e)) parsed /\ known = dom parsed.
Proof.
  unfold LoadPoolSpecs, readPoolsFile, readBundle, valid_pools.
  rewrite result_bind_ok. split.
  - intros (parsed & Hf & Hr). destruct file as [p|]; [|done].
    destruct (Nat.eqb_spec (size p) 0) as [|Hsz]; simplify_eq.
    rewrite result_bind_ok in Hr. destruct Hr as (b & Hb & Hr).
    destruct entries as [es|]; simplify_eq. rewrite result_bind_ok in Hr.
    destruct Hr as ([specs' known'] & Hbs & Hr). rewrite result_bind_ok in Hr.
    destruct Hr as ([] & Hvf & [= <- <-]).
    apply buildSpecs_spec in Hbs as (Hv & -> & ->). rewrite validateFallbacks_spec in Hvf.
    rewrite imap_fallback in Hvf.
    exists parsed, es. split_and!; try done. intros ->. by rewrite map_size_empty in Hsz.
  - intros (parsed & es & -> & -> & (Hne & Hv & Hfb) & -> & ->).
    exists parsed. destruct (Nat.eqb_spec (size parsed) 0) as [Hz|Hz].
    { by apply map_size_empty_iff in Hz. }
    split; [done|]. rewrite result_bind_ok. eexists. split; [done|].
    rewrite result_bind_ok. eexists (_, _). split; [by apply buildSpecs_spec|].
    rewrite result_bind_ok. exists tt. split; [|done].
    rewrite validateFallbacks_spec. by apply imap_fallback.
Qed.
End specs.
