(* ===== verification/Routing.v ===== *)
(** * Country routing ([routing.go])

    [LoadRouter] validates [egress-routing.yaml] against the known pools;
    [Resolve] maps a country code to a pool. *)

From S2P Require Import Prelude GoStrings Types.

Record routingFile := mkRoutingFile {
  CountryToPool : gmap string string;
  rf_DefaultPool : string;
}.

Record Router := mkRouter {
  countryToPool : gmap string string;
  defaultPool : string;
}.

Section routing.
Context `{GoUnicode}.

Definition countryKey (cc : string) : string := to_lower (trim_space cc).

(** One iteration of the normalisation loop. *)
Definition addRoute (knownPools : gset string) (acc : gmap string string)
    (route : string * string) : res (gmap string string) :=
  if bool_decide (route.2 ∈ knownPools) then Ok (<[countryKey route.1 := route.2]> acc)
  else Err ErrConfigInvalid.

Definition LoadRouter `{MapOrder} (file : option routingFile) (fallbackDefault : string)
    (knownPools : gset string) : res Router :=
  match file with
  | None => Err ErrConfigInvalid
  | Some parsed =>
      normalized ← fold_result (addRoute knownPools) (range (CountryToPool parsed)) ∅;
      let defaultPool := if String.eqb (rf_DefaultPool parsed) "" then fallbackDefault
                         else rf_DefaultPool parsed in
      if negb (String.eqb defaultPool "") && negb (bool_decide (defaultPool ∈ knownPools))
      then Err ErrConfigInvalid
      else Ok (mkRouter normalized defaultPool)
  end.

(** [Router.Resolve]. *)
Definition Resolve (r : Router) (country : string) : res string :=
  match countryToPool r !! countryKey country with
  | Some pool => Ok pool
  | None => if String.eqb (defaultPool r) "" then Err ErrInvalidCountry else Ok (defaultPool r)
  end.

(** [Router.Countries]. *)
Definition Countries `{MapOrder} (r : Router) : list string :=
  sort_strings (range (countryToPool r)).*1.

(** ** Well-formed routers *)

Definition router_wf (known : gset string) (r : Router) : Prop :=
  (forall k p, countryToPool r !! k = Some p -> p ∈ known) /\
  (defaultPool r = "" \/ defaultPool r ∈ known).

Lemma addRoute_known known acc route acc' :
  (forall k p, acc !! k = Some p -> p ∈ known) ->
  addRoute known acc route = Ok acc' ->
  forall k p, acc' !! k = Some p -> p ∈ known.
Proof.
  unfold addRoute. intros Hacc Hadd k p. case_bool_decide; simplify_eq.
  rewrite lookup_insert. case_decide; naive_solver.
Qed.

Lemma LoadRouter_wf `{MapOrder} file fallback known r :
  LoadRouter file fallback known = Ok r -> router_wf known r.
Proof.
  unfold LoadRouter. destruct file as [parsed|]; [|done].
  rewrite result_bind_ok. intros (normalized & Hn & Hr).
  destruct (negb (String.eqb _ "") && _) eqn:Hd; simplify_eq. split; simpl.
  - eapply (fold_result_inv (addRoute known) (fun acc => forall k p, acc !! k = Some p -> p ∈ known));
      [| |exact Hn].
    + intros; eapply addRoute_known; eauto.
    + intros k p Hk. by rewrite lookup_empty in Hk.
  - apply andb_false_iff in Hd as [Hd|Hd]; rewrite negb_false_iff in Hd.
    + left. by apply String.eqb_eq.
    + right. by apply bool_decide_eq_true in Hd.
Qed.

(** Loading fails exactly when a route or the default names an unknown pool. *)
Lemma LoadRouter_total `{MapOrder} parsed fallback known :
  (forall cc p, CountryToPool parsed !! cc = Some p -> p ∈ known) ->
  (let d := if String.eqb (rf_DefaultPool parsed) "" then fallback else rf_DefaultPool parsed in
   d = "" \/ d ∈ known) ->
  is_ok (LoadRouter (Some parsed) fallback known) = true.
Proof.
  intros Hr Hd. unfold LoadRouter.
  assert (is_ok (fold_result (addRoute known) (range (CountryToPool parsed)) ∅) = true) as Hok.
  { apply fold_result_total. intros acc [cc p] Hin%elem_of_range. unfold addRoute. simpl.
    rewrite bool_decide_true; [done|]. by eapply Hr. }
  destruct (fold_result _ _ _) as [m|]; [|done]. simpl.
  destruct Hd as [->|Hd]; simpl; [done|].
  rewrite (bool_decide_true _ Hd), andb_false_r. done.
Qed.

(** A file that loads with one fallback loads with another exactly when it has
    a default of its own or that fallback is empty or known. *)
Lemma LoadRouter_fallback `{MapOrder} parsed fallback fallback' known r :
  LoadRouter (Some parsed) fallback known = Ok r ->
  is_ok (LoadRouter (Some parsed) fallback' known) = true <->
  rf_DefaultPool parsed <> "" \/ fallback' = "" \/ fallback' ∈ known.
Proof.
  unfold LoadRouter. rewrite result_bind_ok. intros (normalized & -> & Hd). simpl.
  destruct (String.eqb (rf_DefaultPool parsed) "") eqn:He; simpl in *.
  - clear Hd. apply String.eqb_eq in He. destruct (String.eqb_spec fallback' "") as [->|Hn]; simpl; [naive_solver|].
    case_bool_decide; simpl; naive_solver.
  - rewrite He in Hd |- *. simpl in *. apply String.eqb_neq in He.
    destruct (bool_decide (rf_DefaultPool parsed ∈ known)); simpl in *; [|done]. naive_solver.
Qed.

(** A loaded router only ever routes to a pool that exists: if
    [egress-routing.yaml] loads against the known pools, then for every
    country string [Resolve] returns a known pool, or reports
    [ErrInvalidCountry], the latter exactly when the normalised country has
    no route and no default is configured. *)
Theorem Resolve_known `{MapOrder} file fallback known r country :
  LoadRouter file fallback known = Ok r ->
  (exists p, Resolve r country = Ok p /\ p ∈ known) \/
  (Resolve r country = Err ErrInvalidCountry /\
   countryToPool r !! countryKey country = None /\ defaultPool r = "").
Proof.
  intros [Hr Hd]%LoadRouter_wf. unfold Resolve.
  destruct (countryToPool r !! countryKey country) as [p|] eqn:Hp; [left; naive_solver|].
  destruct (String.eqb_spec (defaultPool r) ""); [by right|].
  left. exists (defaultPool r). naive_solver.
Qed.

(** ** Normalised keys *)

Lemma routes_lookup known l acc out :
  NoDup (countryKey <$> l.*1) ->
  fold_result (addRoute known) l acc = Ok out ->
  (forall cc p, (cc, p) ∈ l -> out !! countryKey cc = Some p) /\
  (forall k, k ∉ countryKey <$> l.*1 -> out !! k = acc !! k).
Proof.
  revert acc. induction l as [|[cc p] l IH]; intros acc Hnd Hf; simpl in *.
  { simplify_eq. split; [by intros ?? ?%elem_of_nil|done]. }
  apply NoDup_cons in Hnd as [Hk Hnd].
  destruct (addRoute known acc (cc, p)) as [acc'|] eqn:Ha; [|done].
  unfold addRoute in Ha. case_bool_decide; simplify_eq/=.
  destruct (IH _ Hnd Hf) as [H1 H2]. split.
  - intros cc' p' [[= -> ->]|Hin]%elem_of_cons; [|by apply H1].
    rewrite (H2 _ Hk). apply lookup_insert_eq.
  - intros k Hk'. apply not_elem_of_cons in Hk' as [Hne Hk'].
    rewrite (H2 _ Hk'). by rewrite lookup_insert_ne.
Qed.

(** Round trip from the routing file to a request: when no two country
    keys of the file normalise to the same key, a request spelled like a
    configured key up to case and surrounding white space resolves to that
    key's pool. *)
Theorem Resolve_configured `{MapOrder} parsed fallback known r cc country p :
  LoadRouter (Some parsed) fallback known = Ok r ->
  NoDup (countryKey <$> (range (CountryToPool parsed)).*1) ->
  CountryToPool parsed !! cc = Some p ->
  countryKey country = countryKey cc ->
  Resolve r country = Ok p.
Proof.
  unfold LoadRouter. rewrite result_bind_ok. intros (m & Hm & Hr) Hnd Hcc Hkey.
  destruct (negb _ && _); simplify_eq. unfold Resolve. simpl. rewrite Hkey.
  destruct (routes_lookup known _ _ _ Hnd Hm) as [Hl _].
  rewrite (Hl cc p); [done|]. by apply elem_of_range.
Qed.
End routing.

(** ** Witnesses *)

Module RoutingExamples.
#[local] Existing Instance no_unicode.
#[local] Existing Instance canonical_order.

Definition known : gset string := {[ "us"; "de" ]}.
Definition file : routingFile :=
  mkRoutingFile (<[ "US" := "us" ]> (<[ " de" := "de" ]> ∅)) "".
Definition router : Router :=
  mkRouter (<[ "us" := "us" ]> (<[ "de" := "de" ]> ∅)) "us".

Lemma load_file : LoadRouter (Some file) "us" known = Ok router.
Proof. vm_compute. reflexivity. Defined.

Lemma Resolve_known_witness :
  (exists p, Resolve router "FR" = Ok p /\ p ∈ known) \/
  (Resolve router "FR" = Err ErrInvalidCountry /\
   countryToPool router !! countryKey "FR" = None /\ defaultPool router = "").
Proof. exact (Resolve_known (Some file) "us" known router "FR" load_file). Defined.

Lemma Resolve_configured_witness : Resolve router " De " = Ok "de".
Proof.
  refine (Resolve_configured file "us" known router " de" " De " "de" load_file _ _ _).
  - apply (bool_decide_unpack _). vm_compute. exact I.
  - vm_compute. reflexivity.
  - vm_compute. reflexivity.
Defined.

(** Two keys that differ only in case: the loaded router depends on the
    order in which the map is iterated. *)
Definition ambiguous : routingFile :=
  mkRoutingFile (<[ "US" := "us" ]> (<[ "us" := "de" ]> ∅)) "".

Definition reverse_order : MapOrder :=
  {| range := fun V m => reverse (map_to_list m);
     range_perm := fun V m => reverse_Permutation (map_to_list m) |}.

Definition resolve_under (o : MapOrder) (country : string) : res string :=
  r ← @LoadRouter _ o (Some ambiguous) "" known; Resolve r country.
End RoutingExamples.

(** Routing of a country configured under two spellings is not determined
    by the file: with [US: us] and [us: de], one iteration order routes "US" to
    [us] and another to [de]. *)
Theorem LoadRouter_order_dependent :
  exists o1 o2 : MapOrder,
    RoutingExamples.resolve_under o1 "US" <> RoutingExamples.resolve_under o2 "US".
Proof.
  exists canonical_order, RoutingExamples.reverse_order. vm_compute. discriminate.
Qed.
