(* ===== verification/DotEnv.v ===== *)
(** * The dotenv file ([bootstrap.go])

    Editing one value of a dotenv file, reading the API token back from it, and
    rendering the initial file, on the text of the file. *)

From S2P Require Import Prelude GoStrings UrlParse Types Config.

Definition newline : ascii := ascii_of_N 10.
Definition quotes : string := String (ascii_of_N 34) "'".
Definition apiTokenEnvName : string := "PR0XTEUS_API_TOKEN".
Definition runtimeUserEnvName : string := "PR0XTEUS_RUNTIME_USER".
Definition developmentControllerImage : string := "psyb0t/pr0xteus:dev".

(** ** Editing *)

Definition assignment (key value : string) : string := key +:+ String "=" value.

(** A line that sets [key]. *)
Definition assigns (key line : string) : bool :=
  let '(lineKey, _, hasValue) := cut line "=" in
  hasValue && String.eqb (trim_space lineKey) key.

(** [replaceDotEnvValue]: every line that sets the key is rewritten; if there
    is none, the assignment becomes the last line. *)
Definition replaceDotEnvValue (contents key value : string) : string :=
  let lines := split contents newline in
  let rewritten := (fun line => if assigns key line then assignment key value else line) <$> lines in
  let found := existsb (assigns key) lines in
  let lines :=
    if found then rewritten
    else match last lines with
         | None => [assignment key value; ""]
         | Some "" => removelast lines ++ [assignment key value; ""]
         | Some _ => lines ++ [assignment key value; ""]
         end in
  join lines (String newline "").

(** ** Reading *)

(** [bufio.ScanLines] on the whole file: the pieces between newlines without a
    final empty one; a line of 64 KiB or more ends the scan with an error. *)
Definition maxScanTokenSize : Z := 65536.
Definition scan_lines (contents : string) : list string :=
  let lines := split contents newline in
  match last lines with Some "" => removelast lines | _ => lines end.

(** The loop of [loadAPITokenFromDotEnv]. *)
Fixpoint find_token (lines : list string) : res string :=
  match lines with
  | [] => Err ErrConfigInvalid
  | text :: rest =>
      if (maxScanTokenSize <=? Z.of_nat (String.length text))%Z then Err ErrForeign else
      let line := trim_space text in
      if String.eqb line "" || has_prefix "#" line then find_token rest else
      let '(key, value, found) := cut line "=" in
      if negb found || negb (String.eqb (trim_space key) apiTokenEnvName) then find_token rest
      else ValidateAPIToken (trim_any value quotes)
  end.

(** [loadAPITokenFromDotEnv], on the contents of the file. *)
Definition loadAPITokenFromDotEnv (contents : string) : res string := find_token (scan_lines contents).

(** ** Rendering *)

(** [renderEnvFile]. *)
Definition envFileLines (hostConfigDir controllerImage runtimeUser apiToken : string) (development : bool) :
    list string :=
  let controllerImage := if development then developmentControllerImage else controllerImage in
  [ "# Generated by pr0xteus config init. Keep this file local.";
    assignment "PR0XTEUS_CONFIG_DIR" hostConfigDir;
    assignment "PR0XTEUS_CONTROLLER_IMAGE" controllerImage;
    assignment runtimeUserEnvName runtimeUser;
    assignment apiTokenEnvName apiToken;
    "PR0XTEUS_HTTP_HOST_PORT=127.0.0.1:8000";
    "PR0XTEUS_METRICS_HOST_PORT=127.0.0.1:9091";
    "PR0XTEUS_SOCKS_HOST_PORT=127.0.0.1:1080";
    "PR0XTEUS_HTTP_PROXY_HOST_PORT=127.0.0.1:8080";
    "PR0XTEUS_SOCKS_PUBLIC_ADDRESS=127.0.0.1:1080";
    "PR0XTEUS_HTTP_PROXY_PUBLIC_ADDRESS=127.0.0.1:8080";
    "PR0XTEUS_DISABLE_HOST_PORTS=false";
    "PR0XTEUS_TAILSCALE_ENABLED=false";
    "TS_AUTHKEY=";
    "TS_HOSTNAME=pr0xteus";
    "TS_EXTRA_ARGS=--accept-dns=false";
    "LOG_LEVEL=info";
    "LOG_FORMAT=json";
    "LOG_ADD_SOURCE=true" ].

Definition renderEnvFile (hostConfigDir controllerImage runtimeUser apiToken : string) (development : bool) :
    string :=
  join (envFileLines hostConfigDir controllerImage runtimeUser apiToken development) (String newline "")
  +:+ String newline "".

(** [renderEnvExample]. *)
Definition envExampleLines (hostConfigDir controllerImage runtimeUser : string) (development : bool) : list string :=
  let controllerImage := if development then developmentControllerImage else controllerImage in
  [ "# This file is refreshed by pr0xteus setup and upgrade. Copy values into .env; .env is never overwritten.";
    "# Never commit .env, WireGuard bundles, routing policy, or the API token.";
    "";
    "# Docker binds this absolute host directory into the controller at the same path.";
    assignment "PR0XTEUS_CONFIG_DIR" hostConfigDir;
    "";
    "# The controller runs as this host UID:GID so it can read the private";
    "# bind-mounted config without making provider files world-readable.";
    assignment runtimeUserEnvName runtimeUser;
    "";
    "# Required private controller bearer token. config init generates a random owner-only value in .env.";
    assignment apiTokenEnvName "REPLACE_ME";
    "";
    "# Published controller image. setup and upgrade pin this automatically to a release.";
    assignment "PR0XTEUS_CONTROLLER_IMAGE" controllerImage;
    "";
    "# Host-port bindings. Each value is HOST:PORT; defaults stay on host loopback.";
    "# Use a real protected host address when changing SOCKS_HOST_PORT: 0.0.0.0 is";
    "# valid for binding every interface but is not an address a client can use.";
    "PR0XTEUS_HTTP_HOST_PORT=127.0.0.1:8000";
    "PR0XTEUS_METRICS_HOST_PORT=127.0.0.1:9091";
    "PR0XTEUS_SOCKS_HOST_PORT=127.0.0.1:1080";
    "PR0XTEUS_HTTP_PROXY_HOST_PORT=127.0.0.1:8080";
    "";
    "# Addresses returned in allocated proxy URLs. Keep them aligned with reachable";
    "# host ports; do not use 0.0.0.0 here.";
    "PR0XTEUS_SOCKS_PUBLIC_ADDRESS=127.0.0.1:1080";
    "PR0XTEUS_HTTP_PROXY_PUBLIC_ADDRESS=127.0.0.1:8080";
    "";
    "# Set true to remove every pr0xteus host-port binding. Use this for the";
    "# Tailscale sidecar or another private Docker-network gateway.";
    "PR0XTEUS_DISABLE_HOST_PORTS=false";
    "";
    "# Optional tailnet-only API. Set true and provide a key from your own tailnet.";
    "PR0XTEUS_TAILSCALE_ENABLED=false";
    "TS_AUTHKEY=your-tailscale-auth-key";
    "TS_HOSTNAME=pr0xteus";
    "TS_EXTRA_ARGS=--accept-dns=false";
    "";
    "LOG_LEVEL=info";
    "LOG_FORMAT=json";
    "LOG_ADD_SOURCE=true" ].

Definition renderEnvExample (hostConfigDir controllerImage runtimeUser : string) (development : bool) : string :=
  join (envExampleLines hostConfigDir controllerImage runtimeUser development) (String newline "")
  +:+ String newline "".

(** [newAPIToken]: the hexadecimal form of the random bytes. *)
Definition hex_char (n : N) : ascii :=
  ascii_of_N (if (n <? 10)%N then 48 + n else 87 + n).
Fixpoint hex_encode (s : string) : string :=
  match s with
  | EmptyString => EmptyString
  | String c s => String (hex_char (byte_val c / 16)) (String (hex_char (byte_val c mod 16)) (hex_encode s))
  end.
Definition randomTokenBytes : nat := 32.
Definition newAPIToken (random : option string) : res string :=
  match random with Some bytes => Ok (hex_encode bytes) | None => Err ErrForeign end.

(** ** Lines *)

Lemma split_nonempty s b : split s b <> [].
Proof. destruct s as [|c s]; [done|]. simpl. case_match; [done|]. by destruct (split s b). Qed.

Lemma split_one s b : has_byte b s = false -> split s b = [s].
Proof.
  induction s as [|c s IH]; [done|]. simpl. rewrite orb_false_iff. intros [-> Hs]. by rewrite (IH Hs).
Qed.

Lemma split_app s b t : has_byte b s = false -> split (s +:+ String b t) b = s :: split t b.
Proof.
  induction s as [|c s IH]; intros Hs.
  - simpl. by rewrite byte_eqb_refl.
  - simpl in Hs. apply orb_false_iff in Hs as [Hc Hs].
    change (String c s +:+ String b t) with (String c (s +:+ String b t)). simpl. by rewrite Hc, (IH Hs).
Qed.

Lemma split_pieces s b : Forall (fun x => has_byte b x = false) (split s b).
Proof.
  induction s as [|c s IH]; simpl; [by repeat constructor|]. destruct (byte_eqb c b) eqn:Hc.
  - by constructor.
  - destruct (split s b) as [|x xs]; [constructor; [simpl; by rewrite Hc|constructor]|].
    apply Forall_cons in IH as [? ?]. constructor; [|done]. simpl. by rewrite Hc.
Qed.

Lemma join_cons x y l sep : join (x :: y :: l) sep = x +:+ sep +:+ join (y :: l) sep.
Proof. done. Qed.

Lemma join_split s b : join (split s b) (String b "") = s.
Proof.
  induction s as [|c s IH]; [done|]. simpl. destruct (byte_eqb c b) eqn:Hc.
  - apply byte_eqb_true in Hc as ->. destruct (split s b) as [|x xs] eqn:Hs; [by destruct (split_nonempty s b)|].
    rewrite join_cons, IH. done.
  - destruct (split s b) as [|x xs] eqn:Hs; [by destruct (split_nonempty s b)|].
    destruct xs as [|y ys]; [by rewrite <- IH|]. rewrite join_cons in *. rewrite <- IH. done.
Qed.

Lemma split_join l b :
  l <> [] -> Forall (fun x => has_byte b x = false) l -> split (join l (String b "")) b = l.
Proof.
  intros Hne. induction l as [|x l IH]; [done|]. intros [Hx Hl]%Forall_cons.
  destruct l as [|y l]; [by apply split_one|]. rewrite join_cons.
  change (String b "" +:+ join (y :: l) (String b "")) with (String b (join (y :: l) (String b ""))).
  rewrite split_app by done. f_equal. by apply IH.
Qed.

(** ** Editing is exact *)

(** A usable key: no separator inside, nothing to trim. *)
Definition env_key (key : string) : Prop :=
  has_byte "=" key = false /\ has_byte newline key = false /\ trim_space key = key.

Lemma assigns_assignment key value : env_key key -> assigns key (assignment key value) = true.
Proof.
  intros (He & _ & Ht). unfold assigns, assignment. rewrite cut_app by done. by rewrite Ht, String.eqb_refl.
Qed.

Lemma assigns_empty key : assigns key "" = false.
Proof. done. Qed.

(** The lines of the edited file. *)
Definition edited (lines : list string) (key value : string) : list string :=
  if existsb (assigns key) lines
  then (fun line => if assigns key line then assignment key value else line) <$> lines
  else match last lines with
       | None => [assignment key value; ""]
       | Some "" => removelast lines ++ [assignment key value; ""]
       | Some _ => lines ++ [assignment key value; ""]
       end.

Lemma removelast_snoc {A} (l : list A) x : last l = Some x -> l = removelast l ++ [x].
Proof.
  induction l as [|y l IH]; [done|]. destruct l as [|z l]; [by intros [= ->]|].
  intros Hl. change (last (y :: z :: l)) with (last (z :: l)) in Hl.
  change (removelast (y :: z :: l)) with (y :: removelast (z :: l)). cbn [app]. f_equal. by apply IH.
Qed.

Lemma edited_pieces lines key value :
  env_key key -> has_byte newline value = false -> Forall (fun x => has_byte newline x = false) lines ->
  edited lines key value <> [] /\ Forall (fun x => has_byte newline x = false) (edited lines key value).
Proof.
  intros (_ & Hk & _) Hv Hl.
  assert (Ha : has_byte newline (assignment key value) = false).
  { unfold assignment. rewrite has_byte_app, Hk. simpl. done. }
  unfold edited. destruct (existsb (assigns key) lines) eqn:Hf.
  - split; [destruct lines; [done|discriminate]|]. apply Forall_fmap.
    eapply Forall_impl; [exact Hl|]. intros x Hx. simpl. by destruct (assigns key x).
  - destruct (last lines) as [x|] eqn:Hx.
    + assert (Hrm : Forall (fun x => has_byte newline x = false) (removelast lines)).
      { rewrite (removelast_snoc _ _ Hx) in Hl. by apply Forall_app in Hl as [? _]. }
      destruct x; (split; [intros He; by apply app_nil in He as [_ ?]|]);
        apply Forall_app; (split; [done|by repeat constructor]).
    + split; [done|by repeat constructor].
Qed.

Lemma replace_lines contents key value :
  env_key key -> has_byte newline value = false ->
  split (replaceDotEnvValue contents key value) newline = edited (split contents newline) key value.
Proof.
  intros Hk Hv. change (replaceDotEnvValue contents key value)
    with (join (edited (split contents newline) key value) (String newline "")).
  destruct (edited_pieces (split contents newline) key value Hk Hv (split_pieces _ _)) as [Hne Hp].
  by apply split_join.
Qed.

(** The lines that say something else. *)
Definition others (key : string) (lines : list string) : list string :=
  filter (fun line => negb (assigns key line) && negb (String.eqb line "") = true) lines.

Lemma edited_others lines key value : env_key key -> others key (edited lines key value) = others key lines.
Proof.
  intros Hk. pose proof (assigns_assignment key value Hk) as Ha. unfold edited, others.
  destruct (existsb (assigns key) lines) eqn:Hf.
  - clear Hf. induction lines as [|x lines IH]; [done|]. rewrite fmap_cons.
    destruct (assigns key x) eqn:Hx.
    + rewrite filter_cons_False by (rewrite Ha; done). rewrite filter_cons_False by (rewrite Hx; done). done.
    + rewrite !filter_cons, IH. done.
  - assert (Hnil : filter (fun line => negb (assigns key line) && negb (String.eqb line "") = true)
              [assignment key value; ""] = []).
    { rewrite filter_cons_False by (rewrite Ha; done). by rewrite filter_cons_False. }
    destruct (last lines) as [[|c x]|] eqn:Hx.
    + rewrite (removelast_snoc _ _ Hx) at 2. rewrite !filter_app, Hnil.
      rewrite filter_cons_False by done. done.
    + by rewrite filter_app, Hnil, app_nil_r.
    + destruct lines; [done|]. by apply last_None in Hx.
Qed.

Lemma edited_assigned lines key value :
  env_key key ->
  assignment key value ∈ edited lines key value /\
  (forall line, line ∈ edited lines key value -> assigns key line = true -> line = assignment key value).
Proof.
  intros Hk. unfold edited. destruct (existsb (assigns key) lines) eqn:Hf.
  - split.
    + apply existsb_exists in Hf as (x & Hin%list_elem_of_In & Hx). apply list_elem_of_fmap.
      exists x. by rewrite Hx.
    + intros line (x & -> & _)%list_elem_of_fmap Hx. cbn in *.
      destruct (assigns key x) eqn:E; [done|congruence].
  - assert (Hno : forall x, x ∈ lines -> assigns key x = false).
    { intros x Hin. apply not_true_iff_false. intros Hx. rewrite <- not_true_iff_false, existsb_exists in Hf.
      apply Hf. exists x. split; [by apply list_elem_of_In|done]. }
    assert (Hpre : forall pre, (forall x, x ∈ pre -> x ∈ lines) ->
      assignment key value ∈ pre ++ [assignment key value; ""] /\
      (forall line, line ∈ pre ++ [assignment key value; ""] -> assigns key line = true -> line = assignment key value)).
    { intros pre Hsub. split; [apply elem_of_app; right; left|].
      intros line [Hin|Hin]%elem_of_app Hx; [rewrite (Hno _ (Hsub _ Hin)) in Hx; done|].
      apply elem_of_cons in Hin as [->|Hin]; [done|]. apply list_elem_of_singleton in Hin. by subst. }
    destruct (last lines) as [[|c x]|] eqn:Hx; [|by apply Hpre|apply (Hpre []); by intros y ?%elem_of_nil].
    apply Hpre. intros y Hy. rewrite (removelast_snoc _ _ Hx). by apply elem_of_app; left.
Qed.

(** Editing a dotenv value is exact: afterwards the file has a line that
    sets the key to the value, every line that sets the key sets it to that
    value, the other non-empty lines are the same in the same order, and editing
    again changes nothing. *)
Theorem replaceDotEnvValue_exact contents key value :
  env_key key -> has_byte newline value = false ->
  let updated := replaceDotEnvValue contents key value in
  assignment key value ∈ split updated newline /\
  (forall line, line ∈ split updated newline -> assigns key line = true -> line = assignment key value) /\
  others key (split updated newline) = others key (split contents newline) /\
  replaceDotEnvValue updated key value = updated.
Proof.
  intros Hk Hv. cbv zeta. rewrite replace_lines by done.
  destruct (edited_assigned (split contents newline) key value Hk) as [Hin Hall].
  split_and!; [done|done|by apply edited_others|].
  change (replaceDotEnvValue (replaceDotEnvValue contents key value) key value)
    with (join (edited (split (replaceDotEnvValue contents key value) newline) key value) (String newline "")).
  rewrite replace_lines by done.
  change (replaceDotEnvValue contents key value)
    with (join (edited (split contents newline) key value) (String newline "")).
  f_equal. set (lines := edited (split contents newline) key value) in *. unfold edited.
  assert (existsb (assigns key) lines = true) as ->.
  { apply existsb_exists. exists (assignment key value). split; [by apply list_elem_of_In|by apply assigns_assignment]. }
  rewrite <- (list_fmap_id lines) at 2. apply list_fmap_ext. intros i x Hx%list_elem_of_lookup_2.
  simpl. destruct (assigns key x) eqn:E; [|done]. symmetry. by apply Hall.
Qed.

(** ** Trimming stops at a graphic byte *)

Definition graphic (c : ascii) : bool := (33 <=? byte_val c)%N && (byte_val c <=? 126)%N.

(** Neither a space nor part of the encoding of one. *)
Lemma graphic_space c x y :
  graphic c = true ->
  space1 c = false /\ space2 c x = false /\ space2 x c = false /\
  space3 c x y = false /\ space3 x c y = false /\ space3 x y c = false.
Proof.
  intros Hg. pose proof Hg as [Hlo%N.leb_le Hhi%N.leb_le]%andb_true_iff.
  assert (Hne : forall K, (127 <? byte_val K)%N = true -> byte_eqb c K = false).
  { intros K HK%N.ltb_lt. destruct (byte_eqb c K) eqn:E; [|done]. apply byte_eqb_true in E as ->. lia. }
  assert (Hr : forall lo hi, (127 <? byte_val lo)%N = true -> in_range lo hi c = false).
  { intros lo hi HK%N.ltb_lt. unfold in_range. apply andb_false_iff. left. apply N.leb_gt. lia. }
  split.
  - apply negb_true_iff. revert Hg. apply (byte_impl graphic (fun c => negb (space1 c))). vm_compute. reflexivity.
  - unfold space2, space3. rewrite !Hne, !Hr by (vm_compute; reflexivity).
    rewrite ?andb_false_r. done.
Qed.

Lemma strip_three p2 p3 c1 c2 c3 s :
  strip p2 p3 (String c1 (String c2 (String c3 s))) =
  if space1 c1 then strip p2 p3 (String c2 (String c3 s))
  else if p2 c1 c2 then strip p2 p3 (String c3 s)
  else if p3 c1 c2 c3 then strip p2 p3 s else String c1 (String c2 (String c3 s)).
Proof. done. Qed.

(** Trimming from the left stops at a graphic byte, also inside the string. *)
Lemma strip_stops p2 p3 c q :
  graphic c = true ->
  (forall x, p2 c x = false) -> (forall x, p2 x c = false) ->
  (forall x y, p3 c x y = false) -> (forall x y, p3 x c y = false) -> (forall x y, p3 x y c = false) ->
  forall n r, String.length r <= n -> strip p2 p3 (r +:+ String c q) = strip p2 p3 r +:+ String c q.
Proof.
  intros Hg A1 A2 B1 B2 B3. destruct (graphic_space c c c Hg) as (S1 & _).
  assert (Hbase : strip p2 p3 (String c q) = String c q).
  { cbn [strip]. rewrite S1. destruct q as [|c2 q]; [done|]. rewrite A1. destruct q; [done|]. by rewrite B1. }
  induction n as [|n IH]; intros r Hn; (destruct r as [|c1 r]; [exact Hbase|]); simpl in Hn; [lia|].
  change (strip p2 p3 (String c1 r +:+ String c q)) with (strip p2 p3 (String c1 (r +:+ String c q))).
  destruct r as [|c2 r].
  { change ("" +:+ String c q) with (String c q). cbn [strip]. destruct (space1 c1); [exact Hbase|].
    rewrite A2. destruct q; [done|]. by rewrite B2. }
  destruct r as [|c3 r].
  { change (String c2 "" +:+ String c q) with (String c2 (String c q)).
    pose proof (IH (String c2 "") ltac:(simpl in *; lia)) as H1.
    change (String c2 "" +:+ String c q) with (String c2 (String c q)) in H1.
    cbn [strip] in H1 |- *. destruct (space1 c1); [exact H1|].
    destruct (p2 c1 c2); [exact Hbase|]. by rewrite B3. }
  pose proof (IH (String c2 (String c3 r)) ltac:(simpl in *; lia)) as H1.
  pose proof (IH (String c3 r) ltac:(simpl in *; lia)) as H2.
  pose proof (IH r ltac:(simpl in *; lia)) as H3.
  change (String c2 (String c3 r) +:+ String c q) with (String c2 (String c3 (r +:+ String c q))) in H1 |- *.
  change (String c3 r +:+ String c q) with (String c3 (r +:+ String c q)) in H2.
  rewrite !(strip_three p2 p3 c1 c2 c3). destruct (space1 c1); [exact H1|].
  destruct (p2 c1 c2); [exact H2|]. by destruct (p3 c1 c2 c3).
Qed.

(** What is left after trimming is a suffix that is not trimmed further. *)
Lemma strip_fixed p2 p3 n s :
  String.length s <= n ->
  strip p2 p3 (strip p2 p3 s) = strip p2 p3 s /\ exists pre, s = pre +:+ strip p2 p3 s.
Proof.
  revert s. induction n as [|n IH]; intros s Hn; (destruct s as [|c1 s]; [split; [done|by exists ""]|]);
    simpl in Hn; [lia|].
  assert (Hstep : forall pre t, String c1 s = pre +:+ t -> String.length t <= n ->
    strip p2 p3 (String c1 s) = strip p2 p3 t ->
    strip p2 p3 (strip p2 p3 (String c1 s)) = strip p2 p3 (String c1 s) /\
    exists pre, String c1 s = pre +:+ strip p2 p3 (String c1 s)).
  { intros pre t He Ht Hs. rewrite Hs. destruct (IH t Ht) as [Hi [pre' Hp]]. split; [done|].
    exists (pre +:+ pre'). rewrite string_app_assoc, <- Hp. done. }
  assert (Hkeep : strip p2 p3 (String c1 s) = String c1 s ->
    strip p2 p3 (strip p2 p3 (String c1 s)) = strip p2 p3 (String c1 s) /\
    exists pre, String c1 s = pre +:+ strip p2 p3 (String c1 s)).
  { intros He. rewrite !He. split; [done|]. by exists "". }
  destruct (space1 c1) eqn:E1.
  { apply (Hstep (String c1 "") s); [done|lia|]. cbn [strip]. by rewrite E1. }
  destruct s as [|c2 s]; [apply Hkeep; cbn [strip]; by rewrite E1|]. simpl in Hn.
  destruct (p2 c1 c2) eqn:E2.
  { apply (Hstep (String c1 (String c2 "")) s); [done|lia|]. cbn [strip]. by rewrite E1, E2. }
  destruct s as [|c3 s]; [apply Hkeep; cbn [strip]; by rewrite E1, E2|]. simpl in Hn.
  destruct (p3 c1 c2 c3) eqn:E3.
  - apply (Hstep (String c1 (String c2 (String c3 ""))) s); [done|lia|].
    rewrite strip_three. by rewrite E1, E2, E3.
  - apply Hkeep. rewrite strip_three. by rewrite E1, E2, E3.
Qed.

Lemma rev_append_app s t acc : rev_append (s +:+ t) acc = rev_append t (rev_append s acc).
Proof.
  revert acc. induction s as [|c s IH]; intros acc; [done|].
  change (String c s +:+ t) with (String c (s +:+ t)). simpl. apply IH.
Qed.

Lemma rev_append_acc s acc : rev_append s acc = string_rev s +:+ acc.
Proof.
  unfold string_rev. revert acc. induction s as [|c s IH]; intros acc; [done|]. simpl.
  rewrite IH, (IH (String c "")), string_app_assoc. done.
Qed.

Lemma string_rev_app s t : string_rev (s +:+ t) = string_rev t +:+ string_rev s.
Proof. unfold string_rev at 1. by rewrite rev_append_app, rev_append_acc. Qed.

Lemma string_rev_involutive s : string_rev (string_rev s) = s.
Proof.
  induction s as [|c s IH]; [done|]. unfold string_rev at 2. simpl. rewrite rev_append_acc, string_rev_app, IH. done.
Qed.

Lemma trim_left_graphic c s : graphic c = true -> trim_left (String c s) = String c s.
Proof.
  intros Hg. destruct (graphic_space c c c Hg) as (S1 & _). unfold trim_left. cbn [strip]. rewrite S1.
  destruct s as [|c2 s]; [done|]. destruct (graphic_space c c2 c2 Hg) as (_ & -> & _).
  destruct s as [|c3 s]; [done|]. by destruct (graphic_space c c2 c3 Hg) as (_ & _ & _ & -> & _).
Qed.

Lemma trim_right_graphic p c v :
  graphic c = true -> exists v', trim_right (p +:+ String c v) = p +:+ String c v'.
Proof.
  intros Hg. unfold trim_right. rewrite string_rev_app.
  assert (string_rev (String c v) = string_rev v +:+ String c "") as ->
    by (unfold string_rev at 1; simpl; apply rev_append_acc).
  rewrite string_app_assoc. change (String c "" +:+ string_rev p) with (String c (string_rev p)).
  rewrite (strip_stops (fun c2 c1 => space2 c1 c2) (fun c3 c2 c1 => space3 c1 c2 c3) c (string_rev p) Hg)
    with (n := String.length (string_rev v)) (r := string_rev v).
  - set (r' := strip _ _ (string_rev v)). exists (string_rev r'). rewrite string_rev_app.
    assert (string_rev (String c (string_rev p)) = p +:+ String c "") as ->
      by (unfold string_rev at 1; simpl; by rewrite rev_append_acc, string_rev_involutive).
    by rewrite string_app_assoc.
  - intros x. by destruct (graphic_space c x x Hg) as (_ & _ & -> & _).
  - intros x. by destruct (graphic_space c x x Hg) as (_ & -> & _).
  - intros x y. by destruct (graphic_space c y x Hg) as (_ & _ & _ & _ & _ & ->).
  - intros x y. by destruct (graphic_space c y x Hg) as (_ & _ & _ & _ & -> & _).
  - intros x y. by destruct (graphic_space c y x Hg) as (_ & _ & _ & -> & _).
  - done.
Qed.

Lemma trim_left_stops c r q : graphic c = true -> trim_left (r +:+ String c q) = trim_left r +:+ String c q.
Proof.
  intros Hg. unfold trim_left. apply (strip_stops space2 space3 c q Hg) with (n := String.length r); [..|done].
  - intros x. by destruct (graphic_space c x x Hg) as (_ & -> & _).
  - intros x. by destruct (graphic_space c x x Hg) as (_ & _ & -> & _).
  - intros x y. by destruct (graphic_space c x y Hg) as (_ & _ & _ & -> & _).
  - intros x y. by destruct (graphic_space c x y Hg) as (_ & _ & _ & _ & -> & _).
  - intros x y. by destruct (graphic_space c x y Hg) as (_ & _ & _ & _ & _ & ->).
Qed.

(** A string of graphic bytes is not trimmed at all. *)
Lemma trim_space_graphic s : string_forallb graphic s = true -> trim_space s = s.
Proof.
  intros Hs. unfold trim_space.
  assert (trim_left s = s) as ->.
  { destruct s as [|c s]; [done|]. simpl in Hs. apply andb_true_iff in Hs as [Hc _]. by apply trim_left_graphic. }
  unfold trim_right. rewrite <- (string_rev_involutive s) at 2. f_equal.
  assert (Hr : string_forallb graphic (string_rev s) = true).
  { clear -Hs. induction s as [|c s IH]; [done|]. simpl in Hs. apply andb_true_iff in Hs as [Hc Hs].
    unfold string_rev. simpl. rewrite rev_append_acc, string_forallb_app, (IH Hs). simpl. by rewrite Hc. }
  destruct (string_rev s) as [|c t]; [done|]. simpl in Hr. apply andb_true_iff in Hr as [Hc _].
  destruct (graphic_space c c c Hc) as (S1 & _). cbn [strip]. rewrite S1.
  destruct t as [|c2 t]; [done|]. destruct (graphic_space c c2 c2 Hc) as (_ & _ & -> & _).
  destruct t as [|c3 t]; [done|]. by destruct (graphic_space c c3 c2 Hc) as (_ & _ & _ & _ & _ & ->).
Qed.

(** ** The token *)

(** Cutting a trimmed line at its first [=] finds the key of the line as it is. *)
Lemma cut_trimmed before after :
  has_byte "=" before = false ->
  exists after', cut (trim_space (before +:+ String "=" after)) "=" = (trim_left before, after', true) /\
    trim_space (trim_left before) = trim_space before.
Proof.
  intros Hb. unfold trim_space. rewrite trim_left_stops by done.
  destruct (trim_right_graphic (trim_left before) "=" after) as [after' ->]; [done|]. exists after'.
  destruct (strip_fixed space2 space3 _ before (le_n _)) as [Hi [pre Hp]].
  rewrite cut_app.
  - split; [done|]. f_equal. exact Hi.
  - rewrite Hp, has_byte_app in Hb. by apply orb_false_iff in Hb as [_ Hb].
Qed.

Definition short (line : string) : Prop := (Z.of_nat (String.length line) < maxScanTokenSize)%Z.

(** Lines the search for the token passes over. *)
Definition passed (line : string) : Prop := forall rest, find_token (line :: rest) = find_token rest.

Lemma passed_other key line :
  assigns key line = true -> key <> apiTokenEnvName -> short line -> passed line.
Proof.
  unfold assigns. intros Ha Hne Hs rest. destruct (cut line "=") as [[before after] found] eqn:Hc.
  apply andb_true_iff in Ha as [-> Hk]. apply cut_spec in Hc as [-> Hb]. apply String.eqb_eq in Hk.
  destruct (cut_trimmed before after Hb) as (after' & Hcut & Hkey). cbn [find_token].
  unfold short in Hs. apply Z.leb_gt in Hs. rewrite Hs, Hcut, Hkey, Hk. cbn [negb orb].
  apply String.eqb_neq in Hne. rewrite Hne. cbn [negb]. by destruct (_ || _).
Qed.

Lemma find_token_app_passed l l' : Forall passed l' -> find_token (l ++ l') = find_token l.
Proof.
  intros Hp. induction l as [|x l IH].
  - simpl app. induction Hp as [|y l' Hy _ IH]; [done|]. by rewrite (Hy l').
  - cbn [app find_token]. destruct (_ <=? _)%Z; [done|]. destruct (_ || _); [done|].
    destruct (cut (trim_space x) "=") as [[k v] f]. destruct (_ || _); [exact IH|done].
Qed.

Lemma load_split contents : loadAPITokenFromDotEnv contents = find_token (split contents newline).
Proof.
  unfold loadAPITokenFromDotEnv, scan_lines. destruct (last (split contents newline)) as [[|c x]|] eqn:Hl; [|done|done].
  rewrite (removelast_snoc _ _ Hl) at 2. rewrite find_token_app_passed; [done|]. repeat constructor.
Qed.

Lemma find_token_edited lines key value :
  env_key key -> key <> apiTokenEnvName -> short (assignment key value) -> Forall short lines ->
  find_token (edited lines key value) = find_token lines.
Proof.
  intros Hk Hne Hs Hl. pose proof (passed_other key _ (assigns_assignment key value Hk) Hne Hs) as Hp.
  assert (Hend : Forall passed [assignment key value; ""]) by (repeat constructor; done).
  unfold edited. destruct (existsb (assigns key) lines).
  - induction Hl as [|x lines Hx Hl IH]; [done|]. rewrite fmap_cons. destruct (assigns key x) eqn:Ha.
    + rewrite (Hp _), (passed_other key x Ha Hne Hx lines). exact IH.
    + cbn [find_token]. by rewrite IH.
  - destruct (last lines) as [[|c x]|] eqn:Hx.
    + rewrite (removelast_snoc _ _ Hx) at 2. rewrite !find_token_app_passed; [done|repeat constructor|done].
    + by apply find_token_app_passed.
    + apply last_None in Hx as ->. by rewrite (Hp _).
Qed.

(** Editing another setting never changes the API token that is read from
    the file, nor the error when there is none, as long as no line exceeds the
    scanner's limit. *)
Theorem replaceDotEnvValue_keeps_token contents key value :
  env_key key -> key <> apiTokenEnvName -> has_byte newline value = false ->
  short (assignment key value) -> Forall short (split contents newline) ->
  loadAPITokenFromDotEnv (replaceDotEnvValue contents key value) = loadAPITokenFromDotEnv contents.
Proof.
  intros Hk Hne Hv Hs Hl. rewrite !load_split, replace_lines by done. by apply find_token_edited.
Qed.

(** ** The generated token and the generated file *)

Definition lower_hex (c : ascii) : bool := is_digit c || in_range "a" "f" c.

Lemma hex_char_lower n : (n < 16)%N -> lower_hex (hex_char n) = true.
Proof.
  intros Hn. destruct n as [|p]; [reflexivity|].
  do 4 (destruct p as [p|p|]; try reflexivity); lia.
Qed.

Lemma hex_encode_lower s :
  string_forallb lower_hex (hex_encode s) = true /\ String.length (hex_encode s) = 2 * String.length s.
Proof.
  induction s as [|c s [IH IHl]]; [done|]. cbn [hex_encode string_forallb String.length].
  pose proof (Stdlib.Strings.Ascii.N_ascii_bounded c) as Hb. rewrite IH, IHl, !hex_char_lower.
  - split; [done|lia].
  - apply N.mod_lt. lia.
  - apply N.Div0.div_lt_upper_bound. unfold byte_val. exact Hb.
Qed.

Lemma trim_left_any_none s chars :
  string_forallb (fun c => negb (has_byte c chars)) s = true -> trim_left_any s chars = s.
Proof. destruct s as [|c s]; [done|]. simpl. rewrite andb_true_iff, negb_true_iff. by intros [-> _]. Qed.

Lemma string_forallb_rev p s : string_forallb p (string_rev s) = string_forallb p s.
Proof.
  induction s as [|c s IH]; [done|]. unfold string_rev. simpl. rewrite rev_append_acc, string_forallb_app, IH. simpl.
  by rewrite andb_true_r, andb_comm.
Qed.

Lemma trim_any_none s chars :
  string_forallb (fun c => negb (has_byte c chars)) s = true -> trim_any s chars = s.
Proof.
  intros Hs. unfold trim_any. rewrite (trim_left_any_none s) by done.
  rewrite trim_left_any_none by (by rewrite string_forallb_rev). apply string_rev_involutive.
Qed.

(** A usable token: hexadecimal, not empty and not too long. *)
Definition hex_token (token : string) : Prop :=
  string_forallb lower_hex token = true /\ 0 < String.length token <= maxAPITokenBytes.

Lemma find_token_here token rest :
  hex_token token -> find_token (assignment apiTokenEnvName token :: rest) = Ok token.
Proof.
  intros [Hh Hl].
  assert (Hg : string_forallb graphic token = true).
  { revert Hh. apply string_forallb_impl. apply byte_impl. vm_compute. reflexivity. }
  assert (Hq : string_forallb (fun c => negb (has_byte c quotes)) token = true).
  { revert Hh. apply string_forallb_impl. apply (byte_impl lower_hex (fun c => negb (has_byte c quotes))).
    vm_compute. reflexivity. }
  unfold maxAPITokenBytes in Hl.
  assert (trim_space (assignment apiTokenEnvName token) = assignment apiTokenEnvName token) as Ht.
  { apply trim_space_graphic. unfold assignment. rewrite string_forallb_app. simpl. exact Hg. }
  cbn [find_token]. rewrite Ht. unfold assignment at 1. rewrite string_app_length.
  assert ((maxScanTokenSize <=? Z.of_nat (String.length apiTokenEnvName + String.length (String "=" token)))%Z = false) as ->.
  { apply Z.leb_gt. unfold maxScanTokenSize. simpl String.length. lia. }
  unfold assignment. rewrite cut_app by reflexivity. rewrite trim_any_none by exact Hq.
  change (String.eqb (apiTokenEnvName +:+ String "=" token) "" || has_prefix "#" (apiTokenEnvName +:+ String "=" token))
    with false.
  change (trim_space apiTokenEnvName) with apiTokenEnvName. rewrite String.eqb_refl. cbn [negb orb].
  apply ValidateAPIToken_spec. rewrite trim_space_graphic by exact Hg. done.
Qed.

(** The settings a rendered file carries: one line each, within the limit. *)
Definition plain_setting (value : string) : Prop :=
  has_byte newline value = false /\ (Z.of_nat (String.length value) < 65000)%Z.

Lemma rendered_lines hostConfigDir controllerImage runtimeUser token development :
  plain_setting hostConfigDir -> plain_setting controllerImage -> plain_setting runtimeUser -> hex_token token ->
  split (renderEnvFile hostConfigDir controllerImage runtimeUser token development) newline =
    envFileLines hostConfigDir controllerImage runtimeUser token development ++ [""] /\
  Forall short (envFileLines hostConfigDir controllerImage runtimeUser token development ++ [""]).
Proof.
  intros [Hd Ld] [Hi Li] [Hu Lu] [Hh Hl]. unfold maxAPITokenBytes in Hl.
  assert (Ht : has_byte newline token = false) by (eapply forallb_no_byte; [|exact Hh]; reflexivity).
  split.
  - unfold renderEnvFile.
    set (lines := envFileLines _ _ _ _ _).
    assert (join lines (String newline "") +:+ String newline "" = join (lines ++ [""]) (String newline "")) as ->.
    { unfold lines, envFileLines. cbn [app]. rewrite !join_cons, !string_app_assoc. reflexivity. }
    apply split_join; [done|]. unfold lines, envFileLines. destruct development;
      repeat (apply Forall_cons; split); try apply Forall_nil; try done;
      unfold assignment; rewrite has_byte_app; simpl; done.
  - unfold short, maxScanTokenSize, envFileLines, assignment. destruct development;
      repeat (apply Forall_cons; split); try apply Forall_nil; try (vm_compute; reflexivity); try done;
      rewrite string_app_length; simpl String.length; lia.
Qed.

Lemma load_rendered hostConfigDir controllerImage runtimeUser token development :
  plain_setting hostConfigDir -> plain_setting controllerImage -> plain_setting runtimeUser -> hex_token token ->
  loadAPITokenFromDotEnv (renderEnvFile hostConfigDir controllerImage runtimeUser token development) = Ok token.
Proof.
  intros Hd Hi Hu Ht.
  destruct (rendered_lines hostConfigDir controllerImage runtimeUser token development Hd Hi Hu Ht) as [Hl Hs].
  rewrite load_split, Hl. unfold envFileLines in *. cbn [app] in *.
  apply Forall_cons in Hs as [_ Hs]. apply Forall_cons in Hs as [S1 Hs]. apply Forall_cons in Hs as [S2 Hs].
  apply Forall_cons in Hs as [S3 _].
  assert (Hpass : forall key value, env_key key -> key <> apiTokenEnvName -> short (assignment key value) ->
    passed (assignment key value)).
  { intros key value Hk Hne Hsh. eapply passed_other; [by apply assigns_assignment|done|done]. }
  assert (Hc : passed "# Generated by pr0xteus config init. Keep this file local.") by (intros rest; reflexivity).
  rewrite (Hc _). rewrite (Hpass _ _); [|by split_and!|done|done]. rewrite (Hpass _ _); [|by split_and!|done|done].
  rewrite (Hpass _ _); [|by split_and!|done|done]. by apply find_token_here.
Qed.

Lemma newAPIToken_hex bytes :
  String.length bytes = randomTokenBytes ->
  exists token, newAPIToken (Some bytes) = Ok token /\ hex_token token /\ String.length token = 64.
Proof.
  intros Hb. destruct (hex_encode_lower bytes) as [Hh Hl]. exists (hex_encode bytes). rewrite Hb in Hl.
  unfold randomTokenBytes in Hl. split_and!; [done|split; [done|]|done]. unfold maxAPITokenBytes. lia.
Qed.

Module DotEnvExamples.
Definition sample : string :=
  join ["# local"; " PR0XTEUS_RUNTIME_USER = 0:0"; assignment apiTokenEnvName "secret"; ""] (String newline "").

Lemma replaceDotEnvValue_exact_witness :
  let updated := replaceDotEnvValue sample runtimeUserEnvName "7:8" in
  assignment runtimeUserEnvName "7:8" ∈ split updated newline /\
  replaceDotEnvValue updated runtimeUserEnvName "7:8" = updated.
Proof.
  destruct (replaceDotEnvValue_exact sample runtimeUserEnvName "7:8") as (Hin & _ & _ & Hidem);
    [split; [|split]; vm_compute; reflexivity|vm_compute; reflexivity|]. split; [exact Hin|exact Hidem].
Defined.

Lemma replaceDotEnvValue_keeps_token_witness :
  loadAPITokenFromDotEnv (replaceDotEnvValue sample runtimeUserEnvName "7:8") = Ok "secret".
Proof.
  rewrite replaceDotEnvValue_keeps_token; [vm_compute; reflexivity|split; [|split]; vm_compute; reflexivity
    |discriminate|vm_compute; reflexivity|vm_compute; reflexivity|].
  repeat constructor.
Defined.
End DotEnvExamples.
