(* ===== verification/FileSystem.v ===== *)
(** * A file system with failures

    The operating-system calls the bootstrap makes, on a map from cleaned
    absolute paths to nodes, with a umask and, for each call, whether it fails.
    A failing write may leave any prefix of its data.  A path whose parent is
    not a real directory cannot be reached; a symbolic link is a node of its own
    that carries what reading through it gives, and only reads follow it. *)

From S2P Require Import Prelude GoStrings Types DotEnv.

(** ** Paths *)

(** [filepath.Clean] of a rooted path, as its components. *)
Definition clean_step (stack : list string) (c : string) : list string :=
  if String.eqb c "" || String.eqb c "." then stack
  else if String.eqb c ".." then removelast stack
  else stack ++ [c].
Definition normalize (parts : list string) : list string := fold_left clean_step parts [].
Definition path_clean (s : string) : list string := normalize (split s "/").
(** [filepath.Join] of a cleaned path and a relative one. *)
Definition path_join (dir : list string) (rel : string) : list string := normalize (dir ++ split rel "/").
Definition path_string (p : list string) : string := "/" +:+ join p "/".

(** ** The file system *)

Inductive node :=
  | Regular (contents : string) (mode : Z)
  | Directory (mode : Z)
  | Symlink (through : option string)
  | Irregular.

Definition is_dir (n : node) : bool := match n with Directory _ => true | _ => false end.
Definition is_regular (n : node) : bool := match n with Regular _ _ => true | _ => false end.

Record Disk := mkDisk {
  nodes : gmap (list string) node;
  umask : Z;
  (** The next calls to the system: [Some n] is a failure, a write after [n] bytes. *)
  faults : list (option nat);
  (** The next random suffixes for temporary files. *)
  randoms : list N;
}.

Definition set_nodes (f : gmap (list string) node -> gmap (list string) node) (d : Disk) : Disk :=
  mkDisk (f (nodes d)) (umask d) (faults d) (randoms d).

Definition fsM (A : Type) : Type := Disk -> res A * Disk.
#[global] Instance fs_mret : MRet fsM := fun A a d => (Ok a, d).
#[global] Instance fs_mbind : MBind fsM := fun A B f m d =>
  match m d with (Ok a, d') => f a d' | (Err e, d') => (Err e, d') end.
Definition throw {A} (e : error) : fsM A := fun d => (Err e, d).
Definition lift {A} (r : res A) : fsM A := fun d => (r, d).
(** A failure the caller looks at. *)
Definition catch {A} (m : fsM A) : fsM (res A) := fun d => let '(r, d') := m d in (Ok r, d').
(** [defer], ignoring what the deferred call returns. *)
Definition finally {A} (m : fsM A) (deferred : fsM unit) : fsM A := fun d =>
  let '(r, d') := m d in (r, (deferred d').2).

(** The outcome of the next call. *)
Definition syscall : fsM (option nat) := fun d =>
  match faults d with
  | [] => (Ok None, d)
  | f :: rest => (Ok f, mkDisk (nodes d) (umask d) rest (randoms d))
  end.
Definition attempt : fsM unit :=
  f ← syscall; match f with None => mret tt | Some _ => throw ErrForeign end.

Inductive Reach := Reachable | Missing | Blocked.
Fixpoint reach_in (m : gmap (list string) node) (parents : list (list string)) : Reach :=
  match parents with
  | [] => Reachable
  | q :: parents =>
      match m !! q with
      | Some (Directory _) => reach_in m parents
      | None => Missing
      | Some _ => Blocked
      end
  end.
(** The strict prefixes of a path, from the root. *)
Definition parents (p : list string) : list (list string) := (fun n => take n p) <$> seq 0 (length p).
Definition reach (m : gmap (list string) node) (p : list string) : Reach := reach_in m (parents p).

Definition get_nodes : fsM (gmap (list string) node) := fun d => (Ok (nodes d), d).
Definition update (f : gmap (list string) node -> gmap (list string) node) : fsM unit :=
  fun d => (Ok tt, set_nodes f d).

(** A new node, with its mode under the umask. *)
Definition put (p : list string) (make : Z -> node) (mode : Z) : fsM unit :=
  fun d => (Ok tt, set_nodes (<[p := make (Z.ldiff mode (umask d))]>) d).

(** [os.Lstat]: [None] when [os.IsNotExist] holds of the error. *)
Definition lstat (p : list string) : fsM (option node) :=
  _ ← attempt; m ← get_nodes;
  match reach m p with
  | Reachable => mret (m !! p)
  | Missing => mret None
  | Blocked => throw ErrForeign
  end.

(** [os.MkdirAll]: the missing directories from the root down. *)
Fixpoint mkdirs (l : list (list string)) (mode : Z) : fsM unit :=
  match l with
  | [] => mret tt
  | q :: l =>
      m ← get_nodes;
      match m !! q with
      | Some (Directory _) => mkdirs l mode
      | Some _ => throw ErrForeign
      | None => _ ← attempt; _ ← put q Directory mode; mkdirs l mode
      end
  end.
Definition mkdirAll (p : list string) (mode : Z) : fsM unit := mkdirs (parents p ++ [p]) mode.

Definition set_mode (mode : Z) (n : node) : node :=
  match n with Regular c _ => Regular c mode | Directory _ => Directory mode | n => n end.

(** [os.Chmod] and [File.Chmod]. *)
Definition chmod (p : list string) (mode : Z) : fsM unit := _ ← attempt; update (alter (set_mode mode) p).

(** [os.OpenFile] with [O_CREATE|O_EXCL]: whether it was created. *)
Definition create_excl (p : list string) (mode : Z) : fsM bool :=
  _ ← attempt; m ← get_nodes;
  match reach m p, m !! p with
  | Reachable, None => _ ← put p (Regular "") mode; mret true
  | Reachable, Some _ => mret false
  | _, _ => throw ErrForeign
  end.

Definition append_contents (data : string) (n : node) : node :=
  match n with Regular c mode => Regular (c +:+ data) mode | n => n end.
(** [File.Write] and [File.Close] on the open file at [p]. *)
Definition write (p : list string) (data : string) : fsM unit :=
  f ← syscall;
  match f with
  | None => update (alter (append_contents data) p)
  | Some n => _ ← update (alter (append_contents (string_take n data)) p); throw ErrForeign
  end.
Definition close : fsM unit := attempt.

Definition read_file (p : list string) : fsM string :=
  _ ← attempt; m ← get_nodes;
  match reach m p, m !! p with
  | Reachable, Some (Regular c _) | Reachable, Some (Symlink (Some c)) => mret c
  | _, _ => throw ErrForeign
  end.

(** [os.Rename] within one directory. *)
Definition rename (src dst : list string) : fsM unit :=
  _ ← attempt; m ← get_nodes;
  match m !! src, m !! dst with
  | None, _ => throw ErrForeign
  | Some _, Some (Directory _) => throw ErrForeign
  | Some n, _ => update (fun m => <[dst := n]> (delete src m))
  end.
(** [os.Remove] of a file. *)
Definition remove (p : list string) : fsM unit :=
  _ ← attempt; m ← get_nodes;
  match m !! p with Some (Regular _ _) => update (delete p) | _ => throw ErrForeign end.

(** [os.CreateTemp]: random names until one is free. *)
Definition temp_path (dir : list string) (r : N) : list string := dir ++ [".env.example-" +:+ pretty r].
Definition next_random : fsM N := fun d =>
  match randoms d with
  | [] => (Err ErrForeign, d)
  | r :: rest => (Ok r, mkDisk (nodes d) (umask d) (faults d) rest)
  end.
Fixpoint create_temp (tries : nat) (dir : list string) : fsM (list string) :=
  match tries with
  | O => throw ErrForeign
  | S tries =>
      r ← next_random;
      created ← create_excl (temp_path dir r) 384;
      if created : bool then mret (temp_path dir r) else create_temp tries dir
  end.
Definition createTemp (dir : list string) : fsM (list string) := create_temp (N.to_nat 10000) dir.

(** ** What the operations do to the nodes, whatever fails *)

(** [m] relates the nodes before, its result and the nodes after by [R]. *)
Definition spec {A : Type} (m : fsM A) (R : gmap (list string) node -> res A -> gmap (list string) node -> Prop) : Prop :=
  forall d, R (nodes d) (m d).1 (nodes (m d).2).

Lemma spec_impl {A} (m : fsM A) (R R' : gmap (list string) node -> res A -> gmap (list string) node -> Prop) :
  spec m R -> (forall n r n', R n r n' -> R' n r n') -> spec m R'.
Proof. intros Hm Hi d. apply Hi, Hm. Qed.

Lemma spec_bind {A B} (m : fsM A) (f : A -> fsM B) R1 R2 R :
  spec m R1 -> (forall a, spec (f a) (R2 a)) ->
  (forall n e n', R1 n (Err e) n' -> R n (Err e) n') ->
  (forall n a n' r n'', R1 n (Ok a) n' -> R2 a n' r n'' -> R n r n'') ->
  spec (m ≫= f) R.
Proof.
  intros Hm Hf He Ho d. specialize (Hm d). unfold mbind, fs_mbind.
  destruct (m d) as [[a|e] d']; simpl in *; [|by apply He]. eapply Ho; [exact Hm|apply Hf].
Qed.

(** Operations that only look. *)
Definition same {A : Type} (n : gmap (list string) node) (r : res A) (n' : gmap (list string) node) : Prop := n' = n.
Definition looks {A} (m : fsM A) : Prop := spec m same.

Lemma looks_bind {A B} (m : fsM A) (f : A -> fsM B) : looks m -> (forall a, looks (f a)) -> looks (m ≫= f).
Proof. intros Hm Hf. apply (spec_bind m f same (fun _ => same)); [exact Hm|exact Hf|done|].
  unfold same. by intros ????? -> ->. Qed.
Lemma looks_pure {A} (a : A) : looks (mret a).
Proof. done. Qed.
Lemma looks_throw {A} e : looks (throw (A := A) e).
Proof. done. Qed.
Lemma looks_lift {A} (r : res A) : looks (lift r).
Proof. done. Qed.
Lemma looks_catch {A} (m : fsM A) : looks m -> looks (catch m).
Proof. intros Hm d. specialize (Hm d). unfold catch. by destruct (m d). Qed.
Lemma looks_nodes : looks get_nodes.
Proof. done. Qed.
Lemma looks_syscall : looks syscall.
Proof. intros d. unfold syscall. by destruct (faults d). Qed.
Lemma looks_random : looks next_random.
Proof. intros d. unfold next_random. by destruct (randoms d). Qed.

Create HintDb fs.
#[export] Hint Resolve looks_pure looks_throw looks_lift looks_catch looks_nodes looks_syscall looks_random : fs.
Ltac looking :=
  repeat (match goal with
          | |- looks (_ ≫= _) => apply looks_bind
          | |- forall _, _ => intro
          | |- looks (match _ with _ => _ end) => case_match
          end); auto with fs.

Lemma looks_attempt : looks attempt.
Proof. unfold attempt. looking. Qed.
#[export] Hint Resolve looks_attempt : fs.
Lemma looks_lstat p : looks (lstat p).
Proof. unfold lstat. looking. Qed.
#[export] Hint Resolve looks_lstat : fs.
Lemma looks_read_file p : looks (read_file p).
Proof. unfold read_file. looking. Qed.
(** ** Everything but the touched paths is kept *)

(** Files outside [touched] are the same, directories are still directories. *)
Definition keeps (touched : list string -> Prop) (n n' : gmap (list string) node) : Prop :=
  (forall p x, n !! p = Some x -> is_dir x = false -> ~ touched p -> n' !! p = Some x) /\
  (forall p mode, n !! p = Some (Directory mode) -> exists mode', n' !! p = Some (Directory mode')).

Lemma keeps_refl T n : keeps T n n.
Proof. split; eauto. Qed.

Lemma keeps_trans T n n' n'' : keeps T n n' -> keeps T n' n'' -> keeps T n n''.
Proof. intros [F D] [F' D']. split; [by eauto|]. intros p mode (mode' & Hp)%D. eauto. Qed.

Lemma keeps_mono (T T' : list string -> Prop) n n' : (forall p, T p -> T' p) -> keeps T n n' -> keeps T' n n'.
Proof. intros Hs [F D]. split; [|done]. intros p x Hp Hd Ht. apply F; [done|done|]. by intros ?%Hs. Qed.

Definition touches {A} (m : fsM A) (T : list string -> Prop) : Prop := spec m (fun n _ n' => keeps T n n').
Definition nothing (p : list string) : Prop := False.

Lemma touches_looks {A} (m : fsM A) T : looks m -> touches m T.
Proof. intros Hm d. rewrite (Hm d). apply keeps_refl. Qed.

Lemma touches_bind {A B} (m : fsM A) (f : A -> fsM B) T :
  touches m T -> (forall a, touches (f a) T) -> touches (m ≫= f) T.
Proof. intros Hm Hf. apply (spec_bind m f (fun n _ n' => keeps T n n') (fun _ n _ n' => keeps T n n')); [exact Hm|exact Hf|done|].
  simpl. eauto using keeps_trans. Qed.

Lemma touches_mono {A} (m : fsM A) (T T' : list string -> Prop) :
  (forall p, T p -> T' p) -> touches m T -> touches m T'.
Proof. intros Hs Hm d. eapply keeps_mono; [exact Hs|apply Hm]. Qed.

Lemma keeps_insert_new n p x : n !! p = None -> keeps nothing n (<[p := x]> n).
Proof.
  intros Hn. split.
  - intros q y Hq _ _. rewrite lookup_insert_ne by congruence. done.
  - intros q mode Hq. exists mode. rewrite lookup_insert_ne by congruence. done.
Qed.

Lemma keeps_alter n p f :
  (forall x, is_dir (f x) = is_dir x) -> keeps (fun q => q = p) n (alter f p n).
Proof.
  intros Hf. split.
  - intros q x Hq _ Hne. by rewrite lookup_alter_ne by congruence.
  - intros q mode Hq. destruct (decide (q = p)) as [->|Hne].
    + rewrite lookup_alter_eq, Hq. simpl. specialize (Hf (Directory mode)). destruct (f (Directory mode)); try done. eauto.
    + exists mode. by rewrite lookup_alter_ne by congruence.
Qed.

(** Both outcomes of a call, the nodes the same. *)
Lemma attempt_cases d :
  exists d', nodes d' = nodes d /\ umask d' = umask d /\
    (attempt d = (Ok tt, d') \/ attempt d = (Err ErrForeign, d')).
Proof.
  unfold attempt, syscall, mbind, fs_mbind. destruct (faults d) as [|[n|] rest]; simpl.
  - exists d. split; [done|]. split; [done|]. by left.
  - eexists. split; [|split; [|by right]]; done.
  - eexists. split; [|split; [|by left]]; done.
Qed.

(** *** Directories *)

Lemma mkdirs_step q l mode d :
  mkdirs (q :: l) mode d =
  match nodes d !! q with
  | Some (Directory _) => mkdirs l mode d
  | Some _ => (Err ErrForeign, d)
  | None => match attempt d with
            | (Ok _, d1) => mkdirs l mode (set_nodes (<[q := Directory (Z.ldiff mode (umask d1))]>) d1)
            | (Err e, d1) => (Err e, d1)
            end
  end.
Proof.
  cbn [mkdirs]. unfold mbind at 1, fs_mbind at 1, get_nodes at 1. cbn. by destruct (nodes d !! q) as [[]|].
Qed.

Lemma mkdirs_spec l mode :
  spec (mkdirs l mode) (fun n r n' =>
    keeps nothing n n' /\ (forall a, r = Ok a -> forall q, q ∈ l -> exists m, n' !! q = Some (Directory m))).
Proof.
  induction l as [|q l IH]; intros d.
  { split; [apply keeps_refl|]. by intros ? _ q ?%elem_of_nil. }
  rewrite mkdirs_step. destruct (nodes d !! q) as [x|] eqn:Hq.
  - destruct x; try (split; [apply keeps_refl|done]). destruct (IH d) as [Hk Hd].
    split; [exact Hk|]. intros a Ha p [->|Hp]%elem_of_cons; [|exact (Hd a Ha p Hp)]. exact (proj2 Hk _ _ Hq).
  - destruct (attempt_cases d) as (d1 & Hn & Hu & [-> | ->]); [|simpl; rewrite Hn; by split; [apply keeps_refl|]].
    set (d2 := set_nodes _ d1). destruct (IH d2) as [Hk Hd].
    assert (H2 : nodes d2 = <[q := Directory (Z.ldiff mode (umask d1))]> (nodes d)) by (simpl; by rewrite Hn).
    rewrite H2 in Hk. split.
    + eapply keeps_trans; [by apply keeps_insert_new|exact Hk].
    + intros a Ho p [->|Hp]%elem_of_cons; [|exact (Hd a Ho p Hp)]. eapply (proj2 Hk). by rewrite lookup_insert_eq.
Qed.

Lemma keeps_chmod_dir n p mode m :
  n !! p = Some (Directory m) -> keeps nothing n (alter (set_mode mode) p n).
Proof.
  intros Hp. destruct (keeps_alter n p (set_mode mode)) as [F D]; [by intros []|]. split; [|done].
  intros q x Hq Hd _. apply F; [done|done|]. intros ->. rewrite Hp in Hq. by injection Hq as <-.
Qed.

Lemma chmod_alters p mode :
  spec (chmod p mode) (fun n r n' => (r = Ok tt /\ n' = alter (set_mode mode) p n) \/ (r = Err ErrForeign /\ n' = n)).
Proof.
  intros d. unfold chmod, mbind, fs_mbind. destruct (attempt_cases d) as (d1 & Hn & _ & [-> | ->]); simpl; rewrite Hn; auto.
Qed.

(** *** New files *)

Lemma create_excl_spec p mode :
  spec (create_excl p mode) (fun n r n' =>
    (r = Ok true /\ n !! p = None /\ exists m, n' = <[p := Regular "" m]> n) \/ (r <> Ok true /\ n' = n)).
Proof.
  intros d. unfold create_excl, mbind, fs_mbind. destruct (attempt_cases d) as (d1 & Hn & _ & [-> | ->]); simpl; rewrite ?Hn; [|by right].
  destruct (reach (nodes d) p); simpl; rewrite ?Hn; [|by right|by right].
  destruct (nodes d !! p) eqn:Hp; simpl; rewrite ?Hn; [by right|]. left. eauto.
Qed.

Lemma write_alters p data :
  spec (write p data) (fun n r n' =>
    (r = Ok tt /\ n' = alter (append_contents data) p n) \/
    (r = Err ErrForeign /\ exists k, n' = alter (append_contents (string_take k data)) p n)).
Proof.
  intros d. unfold write, mbind, fs_mbind, syscall. destruct (faults d) as [|[k|] rest]; simpl; eauto.
Qed.

Lemma looks_close : looks close.
Proof. exact looks_attempt. Qed.

(** *** Replacing a file *)

Lemma create_temp_spec tries dir :
  spec (create_temp tries dir) (fun n r n' =>
    (exists k m, r = Ok (temp_path dir k) /\ n !! temp_path dir k = None /\
       n' = <[temp_path dir k := Regular "" m]> n) \/
    ((exists e, r = Err e) /\ n' = n)).
Proof.
  induction tries as [|tries IH]; intros d; [right; eauto|]. cbn [create_temp]. revert d.
  change (spec (r ← next_random; created ← create_excl (temp_path dir r) 384;
    if created : bool then mret (temp_path dir r) else create_temp tries dir)
    (fun n r n' => (exists k m, r = Ok (temp_path dir k) /\ n !! temp_path dir k = None /\
       n' = <[temp_path dir k := Regular "" m]> n) \/
       ((exists e, r = Err e) /\ n' = n))).
  set (R := fun n r n' => _).
  apply (spec_bind _ _ same (fun _ => R)); [apply looks_random|intros r| |].
  - eapply (spec_bind _ _ _ (fun b n x n' => if b : bool then x = Ok (temp_path dir r) /\ n' = n else R n x n'));
      [apply create_excl_spec|intros [|]; [intros d; done|exact IH]| |].
    + intros n e n' [[? _]|[_ ->]]; [done|]. right. eauto.
    + intros n [|] n' x n'' [(Hb & Hp & m & ->)|[Hb ->]] Hx; [|done|done|exact Hx].
      destruct Hx as [-> ->]. left. eauto.
  - intros n e n' ->. right. eauto.
  - intros n r n' x n'' -> Hx. exact Hx.
Qed.

Lemma catch_close d : exists r d', catch close d = (Ok r, d') /\ nodes d' = nodes d.
Proof.
  unfold catch, close. destruct (attempt_cases d) as (d' & Hn & _ & [-> | ->]); eauto.
Qed.

Lemma remove_spec p :
  spec (remove p) (fun n r n' => n' = n \/ exists c m, n !! p = Some (Regular c m) /\ n' = delete p n).
Proof.
  intros d. unfold remove, mbind, fs_mbind. destruct (attempt_cases d) as (d1 & Hn & _ & [-> | ->]); cbn; rewrite ?Hn; [|by left].
  destruct (nodes d !! p) as [[]|] eqn:Hp; cbn; rewrite ?Hn; eauto.
Qed.

Lemma read_file_spec p :
  spec (read_file p) (fun n r n' => n' = n /\
    forall c, r = Ok c -> (exists m, n !! p = Some (Regular c m)) \/ n !! p = Some (Symlink (Some c))).
Proof.
  intros d. unfold read_file, mbind, fs_mbind.
  destruct (attempt_cases d) as (d1 & Hn & _ & [-> | ->]); cbn; rewrite ?Hn; [|done].
  destruct (reach (nodes d) p); cbn; rewrite ?Hn; [|done|done].
  destruct (nodes d !! p) as [[| |[c|]|]|]; cbn; rewrite ?Hn; try done; (split; [done|]); intros ? [= <-]; eauto.
Qed.

Lemma lstat_spec p :
  spec (lstat p) (fun n r n' => n' = n /\ forall x, r = Ok (Some x) -> n !! p = Some x).
Proof.
  intros d. unfold lstat, mbind, fs_mbind.
  destruct (attempt_cases d) as (d1 & Hn & _ & [-> | ->]); cbn; rewrite ?Hn; [|done].
  destruct (reach (nodes d) p); cbn; rewrite ?Hn; [|done|done]. split; [done|]. by intros x [= ->].
Qed.

(** ** Paths below the configuration directory *)

Definition plain_part (c : string) : Prop := c <> "" /\ c <> "." /\ c <> "..".

Lemma normalize_plain l : Forall plain_part (normalize l).
Proof.
  unfold normalize. assert (Hg : forall s, Forall plain_part s -> Forall plain_part (fold_left clean_step l s)); [|by apply Hg].
  induction l as [|c l IH]; intros s Hs; [done|]. cbn [fold_left]. apply IH. unfold clean_step.
  destruct (String.eqb_spec c ""); [done|]. destruct (String.eqb_spec c "."); [done|]. cbn [orb].
  destruct (String.eqb_spec c "..").
  - destruct (last s) as [x|] eqn:Hx; [|by apply last_None in Hx as ->].
    rewrite (removelast_snoc _ _ Hx) in Hs. by apply Forall_app in Hs as [? _].
  - apply Forall_app. split; [done|]. repeat constructor; done.
Qed.

Lemma fold_plain parts s : Forall plain_part parts -> fold_left clean_step parts s = s ++ parts.
Proof.
  intros Hd. revert s. induction Hd as [|c parts (H1 & H2 & H3) _ IH]; intros s; [by rewrite app_nil_r|].
  cbn [fold_left]. rewrite IH. unfold clean_step. apply String.eqb_neq in H1, H2, H3. rewrite H1, H2, H3. cbn [orb].
  by rewrite <- app_assoc.
Qed.

Lemma path_join_parts dir rel parts :
  Forall plain_part dir -> Forall plain_part parts -> split rel "/" = parts -> path_join dir rel = dir ++ parts.
Proof.
  intros Hd Hp Hs. unfold path_join, normalize. rewrite Hs, fold_left_app, !fold_plain by done. done.
Qed.

Lemma plain_parts (l : list string) :
  forallb (fun c => negb (String.eqb c "") && negb (String.eqb c ".") && negb (String.eqb c "..")) l = true ->
  Forall plain_part l.
Proof.
  induction l as [|c l IH]; [constructor|]. cbn [forallb]. rewrite !andb_true_iff, !negb_true_iff, !String.eqb_neq.
  intros [[[? ?] ?] ?]. constructor; [done|auto].
Qed.

(** A file of the configuration directory itself. *)
Lemma path_join_name dir name :
  Forall plain_part dir -> split name "/" = [name] ->
  forallb (fun c => negb (String.eqb c "") && negb (String.eqb c ".") && negb (String.eqb c "..")) [name] = true ->
  path_join dir name = dir ++ [name].
Proof. intros Hd Hs Hn. apply path_join_parts; [done|by apply plain_parts|done]. Qed.

#[export] Hint Resolve looks_read_file looks_close : fs.
