(* ===== verification/Bootstrap.v ===== *)
(** * Bootstrapping the configuration ([bootstrap.go])

    [config init] and [config check] over the file system of [FileSystem]. *)

From S2P Require Import Prelude GoStrings UrlParse Types Config Pools Routing DotEnv FileSystem.

(** ** Writing files ([bootstrap.go]) *)

Definition bootstrapDirectoryMode : Z := 448. (* 0o700 *)
Definition bootstrapFileMode : Z := 384. (* 0o600 *)
Definition bootstrapExampleMode : Z := 420. (* 0o644 *)

Definition writeFileIfAbsent (p : list string) (contents : string) : fsM bool :=
  info ← lstat p;
  match info with
  | Some n => if is_regular n then mret false else throw ErrConfigInvalid
  | None =>
      created ← create_excl p bootstrapFileMode;
      if negb created then throw ErrForeign else
      written ← catch (write p contents);
      _ ← close;
      _ ← lift written;
      mret true
  end.

Definition validateExamplePath (p : list string) : fsM unit :=
  info ← lstat p;
  match info with
  | Some n => if is_regular n then mret tt else throw ErrConfigInvalid
  | None => mret tt
  end.

(** The steps of [writeRefreshedFile] on the temporary file. *)
Definition replaceThrough (tmp p : list string) (contents : string) (mode : Z) : fsM unit :=
  moded ← catch (chmod tmp mode);
  if negb (is_ok moded) then _ ← catch close; throw ErrForeign else
  written ← catch (write tmp contents);
  if negb (is_ok written) then _ ← catch close; throw ErrForeign else
  _ ← close;
  rename tmp p.

Definition writeRefreshedFile (p : list string) (contents : string) (mode : Z) : fsM unit :=
  _ ← validateExamplePath p;
  tmp ← createTemp (removelast p);
  finally (replaceThrough tmp p contents mode) (remove tmp).

Definition writeExampleFile (p : list string) (contents : string) : fsM unit :=
  writeRefreshedFile p contents bootstrapExampleMode.

Definition readRegularDotEnv (p : list string) : fsM string :=
  info ← lstat p;
  match info with
  | Some n => if is_regular n then read_file p else throw ErrConfigInvalid
  | None => throw ErrForeign
  end.

Definition upsertDotEnvValue (p : list string) (key value : string) : fsM unit :=
  contents ← readRegularDotEnv p;
  let updated := replaceDotEnvValue contents key value in
  if String.eqb updated contents then mret tt else writeRefreshedFile p updated bootstrapFileMode.

Definition ensurePrivateDirectory (p : list string) : fsM unit :=
  info ← lstat p;
  match info with
  | None => _ ← mkdirAll p bootstrapDirectoryMode; chmod p bootstrapDirectoryMode
  | Some n => if is_dir n then mret tt else throw ErrConfigInvalid
  end.

(** ** Checked input *)

Definition checkedAbsolutePath (value : string) : res (list string) :=
  let path := trim_space value in
  if String.eqb path "" || negb (has_prefix "/" path) then Err ErrConfigInvalid else
  if contains_any path (String (ascii_of_N 13) (String newline "")) then Err ErrConfigInvalid else
  Ok (path_clean path).

Definition checkedAbsoluteDirectory (value : string) : fsM (list string) :=
  path ← lift (checkedAbsolutePath value);
  _ ← ensurePrivateDirectory path;
  mret path.

Definition checkedExistingDirectory (value : string) : fsM (list string) :=
  path ← lift (checkedAbsolutePath value);
  info ← lstat path;
  match info with
  | None => throw ErrForeign
  | Some n => if is_dir n then mret path else throw ErrConfigInvalid
  end.

Definition white : string := String " " (String (ascii_of_N 9) (String (ascii_of_N 13) (String newline ""))).
Definition checkedImageReference (value : string) : res string :=
  let image := trim_space value in
  if String.eqb image "" || contains_any image white then Err ErrConfigInvalid else Ok image.

Definition checkedRuntimeUser (uid gid : Z) (value : string) : res string :=
  let runtimeUser := trim_space value in
  if String.eqb runtimeUser "" then Ok (itoa uid +:+ ":" +:+ itoa gid) else
  let '(user, group, found) := cut runtimeUser ":" in
  if negb found || String.eqb user "" || String.eqb group "" || has_byte ":" group then Err ErrConfigInvalid else
  match parse_uint32 user, parse_uint32 group with
  | Some _, Some _ => Ok runtimeUser
  | _, _ => Err ErrConfigInvalid
  end.

(** ** [config init] *)

Record BootstrapOptions := mkBootstrapOptions {
  o_ConfigDir : string;
  o_HostConfigDir : string;
  o_ControllerImage : string;
  o_RuntimeUser : string;
  o_Development : bool;
  o_RefreshRuntimeTemplates : bool;
}.

Record BootstrapResult := mkBootstrapResult {
  Created : list string;
  Preserved : list string;
  Refreshed : list string;
}.

Record bootstrapFile := mkBootstrapFile {
  bf_path : list string;
  bf_operatorPath : string;
  bf_data : string;
  bf_runtime : bool;
}.

Record bootstrapInput := mkBootstrapInput {
  i_configDir : list string;
  i_hostConfigDir : list string;
  i_controllerImage : string;
  i_runtimeUser : string;
}.

(** The embedded templates, and what the process gets from its environment. *)
Record Templates := mkTemplates {
  defaultPoolsYAML : string;
  defaultRoutingYAML : string;
  defaultComposeYAML : string;
  defaultHostPortsComposeYAML : string;
  defaultNoHostPortsComposeYAML : string;
}.
Record Process := mkProcess { getuid : Z; getgid : Z; rand_bytes : option string }.

Definition poolsRelativePath : string := "secrets/pools.yaml".
Definition bundleRelativePath : string := "secrets/wireguard".
Definition routingRelativePath : string := "config/egress-routing.yaml".
Definition tailscaleStatePath : string := "tailscale/state".
Definition composeFileName : string := "docker-compose.yml".
Definition hostPortsFileName : string := "docker-compose.host-ports.yml".
Definition noHostPortsFileName : string := "docker-compose.no-host-ports.yml".
Definition dotEnvFileName : string := ".env".
Definition dotEnvExampleFileName : string := ".env.example".

Definition result_add (path : string) (created : bool) (r : BootstrapResult) : BootstrapResult :=
  if created then mkBootstrapResult (Created r ++ [path]) (Preserved r) (Refreshed r)
  else mkBootstrapResult (Created r) (Preserved r ++ [path]) (Refreshed r).
Definition result_refreshed (path : string) (r : BootstrapResult) : BootstrapResult :=
  mkBootstrapResult (Created r) (Preserved r) (Refreshed r ++ [path]).

Definition checkedBootstrapInput (proc : Process) (options : BootstrapOptions) : fsM bootstrapInput :=
  configDir ← checkedAbsoluteDirectory (o_ConfigDir options);
  hostConfigDir ← lift (checkedAbsolutePath (o_HostConfigDir options));
  controllerImage ← lift (checkedImageReference (o_ControllerImage options));
  runtimeUser ← lift (checkedRuntimeUser (getuid proc) (getgid proc) (o_RuntimeUser options));
  mret (mkBootstrapInput configDir hostConfigDir controllerImage runtimeUser).

Fixpoint for_all {A} (l : list A) (body : A -> fsM unit) : fsM unit :=
  match l with [] => mret tt | x :: l => _ ← body x; for_all l body end.

Definition bootstrapDirectories (configDir : list string) : list (list string) :=
  [ path_join configDir "secrets"; path_join configDir bundleRelativePath;
    path_join configDir "config"; path_join configDir tailscaleStatePath ].
Definition createBootstrapDirectories (configDir : list string) : fsM unit :=
  for_all (bootstrapDirectories configDir) ensurePrivateDirectory.

Definition bootstrapFiles (t : Templates) (configDir hostConfigDir : list string) : list bootstrapFile :=
  let file rel data runtime :=
    mkBootstrapFile (path_join configDir rel) (path_string (path_join hostConfigDir rel)) data runtime in
  [ file poolsRelativePath (defaultPoolsYAML t) false;
    file routingRelativePath (defaultRoutingYAML t) false;
    file composeFileName (defaultComposeYAML t) true;
    file hostPortsFileName (defaultHostPortsComposeYAML t) true;
    file noHostPortsFileName (defaultNoHostPortsComposeYAML t) true ].

Definition writeBootstrapFile (file : bootstrapFile) (refreshRuntimeTemplates : bool) (r : BootstrapResult) :
    fsM BootstrapResult :=
  if refreshRuntimeTemplates && bf_runtime file then
    _ ← writeRefreshedFile (bf_path file) (bf_data file) bootstrapFileMode;
    mret (result_refreshed (bf_operatorPath file) r)
  else
    created ← writeFileIfAbsent (bf_path file) (bf_data file);
    mret (result_add (bf_operatorPath file) created r).

Fixpoint writeEach (files : list bootstrapFile) (refresh : bool) (r : BootstrapResult) : fsM BootstrapResult :=
  match files with
  | [] => mret r
  | file :: files => r ← writeBootstrapFile file refresh r; writeEach files refresh r
  end.

Definition writeBootstrapFiles (t : Templates) (input : bootstrapInput) (development refresh : bool)
    (r : BootstrapResult) : fsM BootstrapResult :=
  r ← writeEach (bootstrapFiles t (i_configDir input) (i_hostConfigDir input)) refresh r;
  _ ← writeExampleFile (path_join (i_configDir input) dotEnvExampleFileName)
        (renderEnvExample (path_string (i_hostConfigDir input)) (i_controllerImage input)
           (i_runtimeUser input) development);
  mret (result_refreshed (path_string (path_join (i_hostConfigDir input) dotEnvExampleFileName)) r).

(** The last part of [BootstrapConfig]: the token and the dotenv file. *)
Definition writeDotEnv (proc : Process) (input : bootstrapInput) (development : bool) (r : BootstrapResult) :
    fsM BootstrapResult :=
  token ← lift (newAPIToken (rand_bytes proc));
  let envPath := path_join (i_configDir input) dotEnvFileName in
  created ← writeFileIfAbsent envPath
    (renderEnvFile (path_string (i_hostConfigDir input)) (i_controllerImage input) (i_runtimeUser input)
       token development);
  _ ← (if created : bool then mret tt else upsertDotEnvValue envPath runtimeUserEnvName (i_runtimeUser input));
  mret (result_add (path_string (path_join (i_hostConfigDir input) dotEnvFileName)) created r).

Definition BootstrapConfig (t : Templates) (proc : Process) (options : BootstrapOptions) : fsM BootstrapResult :=
  input ← checkedBootstrapInput proc options;
  _ ← createBootstrapDirectories (i_configDir input);
  r ← writeBootstrapFiles t input (o_Development options) (o_RefreshRuntimeTemplates options)
        (mkBootstrapResult [] [] []);
  writeDotEnv proc input (o_Development options) r.

(** [CheckConfig]: what the YAML files and the bundle directory hold is read by
    the loaders of [Pools] and [Routing]. *)
Definition CheckConfig `{GoUnicode} `{MapOrder} (configDir : string) (pools : option poolsFile)
    (bundle : option (list dirEntry)) (routing : option routingFile) : fsM unit :=
  dir ← checkedExistingDirectory configDir;
  contents ← read_file (path_join dir dotEnvFileName);
  _ ← lift (loadAPITokenFromDotEnv contents);
  '(specs, knownPools) ← lift (LoadPoolSpecs pools bundle);
  if Nat.eqb (size specs) 0 then throw ErrConfigInvalid else
  _ ← lift (LoadRouter routing "" knownPools);
  mret tt.

(** ** The commands ([cmd/commands.go]) *)

(** The defaults of the flags of [config init]. *)
Definition configInitDefaults : BootstrapOptions :=
  mkBootstrapOptions "/config" "" "psyb0t/pr0xteus:latest" "" false false.

(** [config init]: the lines it prints. *)
Definition initializeConfig (t : Templates) (proc : Process) (options : BootstrapOptions) : fsM (list string) :=
  result ← BootstrapConfig t proc options;
  mret (((fun p => "created " +:+ p) <$> Created result) ++ ((fun p => "preserved " +:+ p) <$> Preserved result) ++
        ((fun p => "refreshed " +:+ p) <$> Refreshed result) ++
        ["add an authorized WireGuard .conf, update pools.yaml, then run config check"]).

(** [config check]. *)
Definition checkCommand `{GoUnicode} `{MapOrder} (configDir : string) (pools : option poolsFile)
    (bundle : option (list dirEntry)) (routing : option routingFile) : fsM (list string) :=
  _ ← CheckConfig configDir pools bundle routing;
  mret ["configuration is valid"].

Lemma looks_validate p : looks (validateExamplePath p).
Proof. unfold validateExamplePath. looking. Qed.
#[local] Hint Resolve looks_validate : fs.
Lemma looks_readRegular p : looks (readRegularDotEnv p).
Proof. unfold readRegularDotEnv. looking. Qed.
#[local] Hint Resolve looks_readRegular : fs.

Lemma ensurePrivateDirectory_touches p : touches (ensurePrivateDirectory p) nothing.
Proof.
  unfold ensurePrivateDirectory. apply touches_bind; [apply touches_looks, looks_lstat|]. intros [n|].
  - apply touches_looks. destruct (is_dir n); auto with fs.
  - eapply spec_bind with (R2 := fun _ => fun n r n' => _);
      [apply mkdirs_spec|intros _; apply chmod_alters|by intros ??? [? _]|].
    simpl. intros n a n' r n'' [Hk Hd] [[_ ->]|[_ ->]]; [|done].
    destruct (Hd a eq_refl p) as [m Hm]; [apply elem_of_app; right; by apply list_elem_of_singleton|].
    eapply keeps_trans; [exact Hk|by eapply keeps_chmod_dir].
Qed.

(** A file that is there is never opened for writing. *)
Lemma writeFileIfAbsent_touches p contents : touches (writeFileIfAbsent p contents) nothing.
Proof.
  unfold writeFileIfAbsent. apply touches_bind; [apply touches_looks, looks_lstat|]. intros [n|].
  - apply touches_looks. destruct (is_regular n); auto with fs.
  - eapply spec_bind with (R2 := fun b n r n' => keeps (fun q => b = true /\ q = p) n n');
      [apply create_excl_spec| | |].
    + intros [|]; [|apply touches_looks; auto with fs]. simpl.
      apply touches_bind; [|intros w; apply touches_looks; looking; apply looks_close].
      intros d. unfold catch. pose proof (write_alters p contents d) as Hw. destruct (write p contents d) as [r d'].
      simpl in *. assert (Ha : forall f, (forall x, is_dir (f x) = is_dir x) ->
        keeps (fun q => true = true /\ q = p) (nodes d) (alter f p (nodes d))).
      { intros f Hf. eapply keeps_mono; [|by apply keeps_alter]. by intros ? ->. }
      destruct Hw as [[_ ->]|[_ [k ->]]]; apply Ha; by intros [].
    + intros n e n' [[? _]|[_ ->]]; [done|apply keeps_refl].
    + intros n b n' r n'' [(Hb & Hp & m & ->)|[Hb ->]] Hk.
      * injection Hb as ->. pose proof (keeps_insert_new n p (Regular "" m) Hp) as [F D].
        destruct Hk as [F' D']. split.
        -- intros q x Hq Hd _. apply F'; [apply F; [exact Hq|exact Hd|by intros []]|done|]. intros [_ ->]. congruence.
        -- intros q mode Hq. apply D in Hq as [mode' Hq]. by eapply D'.
      * eapply keeps_mono; [|exact Hk]. intros q [Hq _]. apply Hb. by rewrite Hq.
Qed.

(** Through an existing temporary file the target is either not changed or has
    exactly the new contents and mode. *)
Lemma replaceThrough_spec tmp p contents mode m0 d r d' :
  replaceThrough tmp p contents mode d = (r, d') ->
  nodes d !! tmp = Some (Regular "" m0) -> tmp <> p ->
  r = Ok tt /\ nodes d' = <[p := Regular contents mode]> (delete tmp (nodes d)) /\
    (forall m, nodes d !! p <> Some (Directory m)) \/
  r = Err ErrForeign /\ exists c m, nodes d' = <[tmp := Regular c m]> (nodes d).
Proof.
  intros E Ht Hne.
  assert (Hsame : exists c m, nodes d = <[tmp := Regular c m]> (nodes d)).
  { exists "", m0. by rewrite insert_id. }
  unfold replaceThrough, mbind, fs_mbind, catch at 1 in E. pose proof (chmod_alters tmp mode d) as Hc.
  destruct (chmod tmp mode d) as [rc d1]; simpl in Hc. destruct Hc as [[-> Hn1]|[-> Hn1]]; cbn in E.
  2:{ destruct (catch_close d1) as (x & d2 & Hcl & Hl). rewrite Hcl in E. injection E as <- <-.
      right. rewrite Hl, Hn1. eauto. }
  assert (H1 : nodes d1 = <[tmp := Regular "" mode]> (nodes d)).
  { rewrite Hn1. apply map_eq. intros q. destruct (decide (q = tmp)) as [->|Hq].
    - by rewrite lookup_alter_eq, Ht, lookup_insert_eq.
    - by rewrite lookup_alter_ne, lookup_insert_ne by congruence. }
  assert (Happ : forall data, alter (append_contents data) tmp (nodes d1) = <[tmp := Regular data mode]> (nodes d)).
  { intros data. rewrite H1. apply map_eq. intros q. destruct (decide (q = tmp)) as [->|Hq].
    - by rewrite lookup_alter_eq, !lookup_insert_eq.
    - by rewrite lookup_alter_ne, !lookup_insert_ne by congruence. }
  unfold catch at 1 in E. pose proof (write_alters tmp contents d1) as Hw.
  destruct (write tmp contents d1) as [rw d2]; simpl in Hw.
  destruct Hw as [[-> Hn2]|[-> [k Hn2]]]; rewrite Happ in Hn2; cbn in E.
  2:{ destruct (catch_close d2) as (x & d3 & Hcl & Hl). rewrite Hcl in E. injection E as <- <-.
      right. rewrite Hl, Hn2. eauto. }
  unfold close in E. destruct (attempt_cases d2) as (d3 & Hn3 & _ & [Ha|Ha]); rewrite Ha in E.
  2:{ injection E as <- <-. right. rewrite Hn3, Hn2. eauto. }
  unfold rename, mbind, fs_mbind in E. destruct (attempt_cases d3) as (d4 & Hn4 & _ & [Ha'|Ha']); rewrite Ha' in E.
  2:{ injection E as <- <-. right. rewrite Hn4, Hn3, Hn2. eauto. }
  cbn in E. rewrite Hn4, Hn3, Hn2, lookup_insert_eq, lookup_insert_ne in E by done.
  destruct (nodes d !! p) as [[]|] eqn:Hp; cbn in E; injection E as <- <-;
    rewrite ?Hn4, ?Hn3, ?Hn2; try (right; by eauto); left; cbn;
    (split; [done|]); rewrite Hn4, Hn3, Hn2, delete_insert_eq; done.
Qed.

(** A path that is never a temporary one. *)
Definition no_temp (p : list string) : Prop := forall k, p <> temp_path (removelast p) k.

(** Whatever fails, nothing but the target changes, and the target changes at
    once to the new contents or not at all. *)
Lemma writeRefreshedFile_spec p contents mode d r d' :
  writeRefreshedFile p contents mode d = (r, d') -> no_temp p ->
  keeps (fun q => q = p) (nodes d) (nodes d') /\
  (nodes d' !! p = nodes d !! p \/ nodes d' !! p = Some (Regular contents mode)) /\
  (r = Ok tt -> nodes d' !! p = Some (Regular contents mode)).
Proof.
  intros E Hno. unfold writeRefreshedFile, mbind, fs_mbind in E.
  pose proof (looks_validate p d) as Hv. destruct (validateExamplePath p d) as [[[]|e] d1]; unfold same in Hv; simpl in Hv.
  2:{ injection E as <- <-. rewrite Hv. split_and!; [apply keeps_refl|by left|done]. }
  pose proof (create_temp_spec (N.to_nat 10000) (removelast p) d1) as Hc. unfold createTemp in E.
  destruct (create_temp _ (removelast p) d1) as [rt d2]; simpl in Hc. rewrite Hv in Hc.
  destruct Hc as [(k & m & -> & Hfree & Hn2)|[[e ->] Hn2]].
  2:{ injection E as <- <-. rewrite Hn2. split_and!; [apply keeps_refl|by left|done]. }
  set (tmp := temp_path (removelast p) k) in *. assert (Hne : tmp <> p) by (intros He; by apply (Hno k)).
  unfold finally in E. destruct (replaceThrough tmp p contents mode d2) as [rr d3] eqn:Hr. injection E as <- <-.
  assert (H2 : nodes d2 !! tmp = Some (Regular "" m)) by (by rewrite Hn2, lookup_insert_eq).
  destruct (replaceThrough_spec _ _ _ _ _ _ _ _ Hr H2 Hne) as [(-> & H3 & Hd)|(-> & c & m' & H3)]; clear Hr;
    pose proof (remove_spec tmp d3) as Hrm; destruct (remove tmp d3) as [ru d4]; simpl in Hrm |- *.
  - assert (H4 : nodes d4 = <[p := Regular contents mode]> (nodes d)).
    { assert (Hd3 : nodes d3 = <[p := Regular contents mode]> (nodes d)).
      { rewrite H3, Hn2, delete_insert_id by done. done. }
      destruct Hrm as [->|(c & m' & Ht & _)]; [done|].
      rewrite Hd3, lookup_insert_ne, Hfree in Ht by done. done. }
    rewrite H4. rewrite lookup_insert_eq. split_and!; [|by right|done]. split.
    + intros q x Hq _ Hqp. by rewrite lookup_insert_ne by congruence.
    + intros q mode' Hq. destruct (decide (q = p)) as [->|Hqp].
      * exfalso. apply (Hd mode'). by rewrite Hn2, lookup_insert_ne.
      * exists mode'. by rewrite lookup_insert_ne by congruence.
  - assert (Hk : forall q, q <> tmp -> nodes d4 !! q = nodes d !! q).
    { intros q Hq. destruct Hrm as [->|(? & ? & _ & ->)]; rewrite ?lookup_delete_ne by congruence;
        by rewrite H3, Hn2, !lookup_insert_ne by congruence. }
    split_and!; [|left; by apply Hk|done]. split.
    + intros q x Hq _ _. rewrite Hk; [done|]. congruence.
    + intros q mode' Hq. exists mode'. rewrite Hk; [done|]. congruence.
Qed.

Lemma writeRefreshedFile_touches p contents mode :
  no_temp p -> touches (writeRefreshedFile p contents mode) (fun q => q = p).
Proof.
  intros Hno d. destruct (writeRefreshedFile p contents mode d) as [r d'] eqn:E. simpl.
  by apply (writeRefreshedFile_spec _ _ _ _ _ _ E).
Qed.

(** *** The dotenv file *)

Lemma readRegular_spec p :
  spec (readRegularDotEnv p) (fun n r n' => n' = n /\ forall c, r = Ok c -> exists m, n !! p = Some (Regular c m)).
Proof.
  unfold readRegularDotEnv.
  apply (spec_bind _ _ (fun n r n' => n' = n /\ forall x, r = Ok (Some x) -> n !! p = Some x)
    (fun x n r n' => n' = n /\ forall c, r = Ok c -> match x with Some y => is_regular y = true | None => False end /\
       ((exists m, n !! p = Some (Regular c m)) \/ n !! p = Some (Symlink (Some c)))));
    [apply lstat_spec| |by intros n e n' [-> _]|].
  - intros [x|]; [|by intros d]. destruct (is_regular x) eqn:Hx; [|by intros d].
    eapply spec_impl; [apply read_file_spec|]. intros n r n' [-> Hc]. split; [done|]. intros c Hr. split; [done|by apply Hc].
  - intros n x n' r n'' [-> Hx] [-> Hc]. split; [done|]. intros c Hr. destruct (Hc c Hr) as [Hreg [?|Hl]]; [done|].
    destruct x as [x|]; [|done]. specialize (Hx x eq_refl). rewrite Hl in Hx. by injection Hx as <-.
Qed.

Lemma upsertDotEnvValue_spec p key value d r d' :
  upsertDotEnvValue p key value d = (r, d') -> no_temp p ->
  keeps (fun q => q = p) (nodes d) (nodes d') /\
  (nodes d' !! p = nodes d !! p \/
   exists c m, nodes d !! p = Some (Regular c m) /\
     nodes d' !! p = Some (Regular (replaceDotEnvValue c key value) bootstrapFileMode)).
Proof.
  intros E Hno. unfold upsertDotEnvValue, mbind, fs_mbind in E. pose proof (readRegular_spec p d) as [Hn Hc].
  destruct (readRegularDotEnv p d) as [[c|e] d1]; simpl in Hn, Hc.
  2:{ injection E as <- <-. rewrite Hn. split; [apply keeps_refl|by left]. }
  destruct (Hc c eq_refl) as [m Hp]. destruct (String.eqb _ c).
  { injection E as <- <-. simpl. rewrite Hn. split; [apply keeps_refl|by left]. }
  destruct (writeRefreshedFile_spec _ _ _ _ _ _ E Hno) as (Hk & Hp' & _). rewrite Hn in Hk, Hp'.
  split; [done|]. destruct Hp' as [Hp'|Hp']; [by left|]. right. eauto.
Qed.

Lemma writeFileIfAbsent_created p contents d d' :
  writeFileIfAbsent p contents d = (Ok true, d') -> nodes d !! p = None.
Proof.
  intros E. unfold writeFileIfAbsent, mbind, fs_mbind in E. pose proof (looks_lstat p d) as Hl.
  destruct (lstat p d) as [[[x|]|e] d1]; unfold same in Hl; simpl in Hl; [by destruct (is_regular x)| |done].
  pose proof (create_excl_spec p bootstrapFileMode d1) as Hc.
  destruct (create_excl p bootstrapFileMode d1) as [[[|]|e] d2]; simpl in Hc; [|done|done].
  rewrite Hl in Hc. by destruct Hc as [(_ & ? & _)|[? _]].
Qed.

Lemma checkedAbsolutePath_plain value dir : checkedAbsolutePath value = Ok dir -> Forall plain_part dir.
Proof.
  unfold checkedAbsolutePath. destruct (_ || _); [done|]. destruct (contains_any _ _); [done|].
  intros [= <-]. apply normalize_plain.
Qed.

(** A name in the configuration directory that no temporary file has. *)
Definition stable_name (name : string) : bool := negb (has_prefix ".env.example-" name).

Lemma no_temp_app dir name : stable_name name = true -> no_temp (dir ++ [name]).
Proof.
  intros Hs k He. unfold temp_path in He. rewrite removelast_last in He. apply app_inv_head in He.
  injection He as ->. unfold stable_name in Hs. apply negb_true_iff in Hs.
  assert (has_prefix ".env.example-" (".env.example-" +:+ pretty k) = true) by (apply has_prefix_spec; eauto).
  congruence.
Qed.

Lemma no_temp_name dir name :
  Forall plain_part dir -> split name "/" = [name] -> stable_name name = true ->
  forallb (fun c => negb (String.eqb c "") && negb (String.eqb c ".") && negb (String.eqb c "..")) [name] = true ->
  no_temp (path_join dir name).
Proof. intros Hd Hs Hn Hp. rewrite path_join_name by done. by apply no_temp_app. Qed.

(** ** Operator files survive *)

(** The paths [config init] may rewrite: the dotenv file, its example and, on
    request, the Compose templates. *)
Definition rewritten_templates (dir : list string) (refresh : bool) : list (list string) :=
  path_join dir dotEnvExampleFileName ::
  if refresh then path_join dir <$> [composeFileName; hostPortsFileName; noHostPortsFileName] else [].
Definition rewritten (dir : list string) (refresh : bool) : list (list string) :=
  path_join dir dotEnvFileName :: rewritten_templates dir refresh.

Lemma env_not_template dir refresh :
  Forall plain_part dir -> path_join dir dotEnvFileName ∉ rewritten_templates dir refresh.
Proof.
  intros Hd. unfold rewritten_templates.
  assert (Hne : forall name, split name "/" = [name] -> String.eqb name dotEnvFileName = false ->
    forallb (fun c => negb (String.eqb c "") && negb (String.eqb c ".") && negb (String.eqb c "..")) [name] = true ->
    path_join dir dotEnvFileName <> path_join dir name).
  { intros name Hs Hn Hp He. rewrite !path_join_name in He by done. apply app_inv_head in He.
    injection He as <-. by rewrite String.eqb_refl in Hn. }
  intros [He|Hin]%elem_of_cons; [by eapply Hne; [..|exact He]|]. destruct refresh; [|by apply elem_of_nil in Hin].
  rewrite !fmap_cons, !elem_of_cons in Hin.
  destruct Hin as [He|[He|[He|Hin]]]; [by eapply Hne; [..|exact He]..|by apply elem_of_nil in Hin].
Qed.

Lemma checkedBootstrapInput_spec proc options d r d' :
  checkedBootstrapInput proc options d = (r, d') ->
  keeps nothing (nodes d) (nodes d') /\
  (forall input, r = Ok input ->
     checkedAbsolutePath (o_ConfigDir options) = Ok (i_configDir input) /\
     checkedAbsolutePath (o_HostConfigDir options) = Ok (i_hostConfigDir input) /\
     checkedImageReference (o_ControllerImage options) = Ok (i_controllerImage input) /\
     checkedRuntimeUser (getuid proc) (getgid proc) (o_RuntimeUser options) = Ok (i_runtimeUser input)).
Proof.
  intros E. unfold checkedBootstrapInput, checkedAbsoluteDirectory, mbind, fs_mbind, lift in E.
  destruct (checkedAbsolutePath (o_ConfigDir options)) as [dir|e] eqn:Hdir.
  2:{ injection E as <- <-. split; [apply keeps_refl|done]. }
  pose proof (ensurePrivateDirectory_touches dir d) as Hk.
  destruct (ensurePrivateDirectory dir d) as [[[]|e] d1]; simpl in Hk, E.
  2:{ injection E as <- <-. split; [done|done]. }
  destruct (checkedAbsolutePath (o_HostConfigDir options)) as [host|e]; [|injection E as <- <-; done].
  destruct (checkedImageReference (o_ControllerImage options)) as [image|e]; [|injection E as <- <-; done].
  destruct (checkedRuntimeUser _ _ (o_RuntimeUser options)) as [user|e]; injection E as <- <-; [|done].
  split; [done|]. by intros ? [= <-].
Qed.

Lemma for_all_touches {A} (l : list A) (body : A -> fsM unit) T :
  (forall x, touches (body x) T) -> touches (for_all l body) T.
Proof.
  intros Hb. induction l as [|x l IH]; [apply touches_looks, looks_pure|]. cbn [for_all].
  apply touches_bind; [apply Hb|]. by intros [].
Qed.

Lemma writeEach_touches files refresh T r :
  (forall f, f ∈ files -> refresh && bf_runtime f = true -> no_temp (bf_path f) /\ T (bf_path f)) ->
  touches (writeEach files refresh r) T.
Proof.
  revert r. induction files as [|f files IH]; intros r Hf; [apply touches_looks, looks_pure|]. cbn [writeEach].
  apply touches_bind; [|intros r'; apply IH; intros f' Hin; apply Hf; by right].
  unfold writeBootstrapFile. destruct (refresh && bf_runtime f) eqn:Hr.
  - destruct (Hf f ltac:(left) Hr) as [Hno HT]. apply touches_bind; [|intros; apply touches_looks, looks_pure].
    eapply touches_mono; [|by apply writeRefreshedFile_touches]. by intros ? ->.
  - apply touches_bind; [|intros; apply touches_looks, looks_pure].
    eapply touches_mono; [|apply writeFileIfAbsent_touches]. by intros ? [].
Qed.

Lemma writeBootstrapFiles_touches t input development refresh r :
  Forall plain_part (i_configDir input) ->
  touches (writeBootstrapFiles t input development refresh r)
    (fun p => p ∈ rewritten_templates (i_configDir input) refresh).
Proof.
  intros Hd. unfold writeBootstrapFiles. apply touches_bind; [|intros r'; apply touches_bind].
  - apply writeEach_touches. intros f Hf Hr. apply andb_true_iff in Hr as [-> Hr]. unfold rewritten_templates.
    unfold bootstrapFiles in Hf. rewrite !elem_of_cons in Hf.
    destruct Hf as [->|[->|[->|[->|[->|Hf]]]]]; [done|done| | | |by apply elem_of_nil in Hf];
      cbn [bf_path]; (split; [by apply no_temp_name|rewrite !fmap_cons; set_solver]).
  - eapply touches_mono; [|apply writeRefreshedFile_touches; by apply no_temp_name].
    intros p ->. unfold rewritten_templates. by left.
  - intros _. apply touches_looks, looks_pure.
Qed.

Lemma writeDotEnv_spec proc input development r0 d r d' :
  writeDotEnv proc input development r0 d = (r, d') -> Forall plain_part (i_configDir input) ->
  let env := path_join (i_configDir input) dotEnvFileName in
  keeps (fun q => q = env) (nodes d) (nodes d') /\
  (forall x, nodes d !! env = Some x -> is_dir x = false ->
     nodes d' !! env = Some x \/
     exists c m, x = Regular c m /\
       nodes d' !! env =
         Some (Regular (replaceDotEnvValue c runtimeUserEnvName (i_runtimeUser input)) bootstrapFileMode)).
Proof.
  intros E Hd env. assert (Hno : no_temp env) by by apply no_temp_name.
  unfold writeDotEnv, mbind, fs_mbind, lift in E. fold env in E.
  destruct (newAPIToken (rand_bytes proc)) as [token|e].
  2:{ injection E as <- <-. split; [apply keeps_refl|by left]. }
  pose proof (writeFileIfAbsent_touches env (renderEnvFile (path_string (i_hostConfigDir input))
    (i_controllerImage input) (i_runtimeUser input) token development) d) as Hk.
  destruct (writeFileIfAbsent env _ d) as [[created|e] d1] eqn:Hw; simpl in Hk.
  2:{ injection E as <- <-. split; [eapply keeps_mono; [|exact Hk]; by intros ? []|].
      intros x Hx Hnd. left. apply (proj1 Hk); [done|done|by intros []]. }
  destruct created.
  { injection E as <- <-. apply writeFileIfAbsent_created in Hw. split; [eapply keeps_mono; [|exact Hk]; by intros ? []|].
    intros x Hx. congruence. }
  destruct (upsertDotEnvValue env runtimeUserEnvName (i_runtimeUser input) d1) as [ru d2] eqn:Hu.
  assert (d' = d2) as -> by (destruct ru; by injection E as <- <-).
  destruct (upsertDotEnvValue_spec _ _ _ _ _ _ Hu Hno) as [Hk2 Hp]. split.
  - eapply keeps_trans; [|exact Hk2]. eapply keeps_mono; [|exact Hk]. by intros ? [].
  - intros x Hx Hnd. assert (H1 : nodes d1 !! env = Some x) by (apply (proj1 Hk); [done|done|by intros []]).
    rewrite H1 in Hp. destruct Hp as [Hp|(c & m & [= ->] & Hp)]; [by left|right; eauto].
Qed.

(** C32. Running [config init] never damages what the operator owns, whichever
    calls to the operating system fail and wherever the run stops: every file,
    link or device outside the generated paths is exactly as before, every
    directory is still there, and an existing dotenv file is either untouched
    or the same file with only the runtime user replaced. *)
Theorem BootstrapConfig_preserves t proc options dir d r d' :
  checkedAbsolutePath (o_ConfigDir options) = Ok dir ->
  BootstrapConfig t proc options d = (r, d') ->
  let env := path_join dir dotEnvFileName in
  keeps (fun p => p ∈ rewritten dir (o_RefreshRuntimeTemplates options)) (nodes d) (nodes d') /\
  (forall x, nodes d !! env = Some x -> is_dir x = false ->
     nodes d' !! env = Some x \/
     exists c m user, x = Regular c m /\
       checkedRuntimeUser (getuid proc) (getgid proc) (o_RuntimeUser options) = Ok user /\
       nodes d' !! env = Some (Regular (replaceDotEnvValue c runtimeUserEnvName user) bootstrapFileMode)).
Proof.
  intros Hdir E env. pose proof (checkedAbsolutePath_plain _ _ Hdir) as Hp.
  unfold BootstrapConfig, mbind, fs_mbind in E.
  assert (Hstop : forall n', keeps (fun p => p ∈ rewritten_templates dir (o_RefreshRuntimeTemplates options)) (nodes d) n' ->
    keeps (fun p => p ∈ rewritten dir (o_RefreshRuntimeTemplates options)) (nodes d) n' /\
    forall x, nodes d !! env = Some x -> is_dir x = false -> n' !! env = Some x).
  { intros n' Hk. split; [eapply keeps_mono; [|exact Hk]; intros p Hin; by right|].
    intros x Hx Hnd. apply (proj1 Hk); [done|done|]. apply env_not_template, Hp. }
  destruct (checkedBootstrapInput proc options d) as [[input|e] d1] eqn:Hi;
    destruct (checkedBootstrapInput_spec _ _ _ _ _ Hi) as [K1 Hin].
  2:{ injection E as <- <-. destruct (Hstop (nodes d1)); [eapply keeps_mono; [|exact K1]; by intros ? []|]. eauto 10. }
  destruct (Hin input eq_refl) as (Hdir' & _ & _ & Huser). rewrite Hdir in Hdir'. injection Hdir' as Hdir'.
  rewrite <- Hdir' in E.
  pose proof (for_all_touches (bootstrapDirectories dir) ensurePrivateDirectory nothing
    ensurePrivateDirectory_touches d1) as K2. unfold createBootstrapDirectories in E.
  destruct (for_all (bootstrapDirectories dir) ensurePrivateDirectory d1) as [[[]|e] d2]; simpl in K2;
    pose proof (keeps_trans _ _ _ _ K1 K2) as K12; clear K1 K2.
  2:{ injection E as <- <-. destruct (Hstop (nodes d2)); [eapply keeps_mono; [|exact K12]; by intros ? []|]. eauto 10. }
  assert (Hpi : Forall plain_part (i_configDir input)) by (by rewrite <- Hdir').
  pose proof (writeBootstrapFiles_touches t input (o_Development options) (o_RefreshRuntimeTemplates options)
    (mkBootstrapResult [] [] []) Hpi d2) as K3. rewrite <- Hdir' in K3.
  apply (keeps_mono _ (fun p => p ∈ rewritten_templates dir (o_RefreshRuntimeTemplates options))) in K12; [|by intros ? []].
  destruct (writeBootstrapFiles t input _ _ _ d2) as [[r3|e] d3]; simpl in K3;
    pose proof (keeps_trans _ _ _ _ K12 K3) as K13; destruct (Hstop (nodes d3) K13) as [H3 Henv].
  2:{ injection E as <- <-. eauto 10. }
  destruct (writeDotEnv_spec _ _ _ _ _ _ _ E Hpi) as [K4 Hfin]. rewrite <- Hdir' in K4, Hfin. split.
  - eapply keeps_trans; [exact H3|]. eapply keeps_mono; [|exact K4]. intros p ->. by left.
  - intros x Hx Hnd. destruct (Hfin x (Henv x Hx Hnd) Hnd) as [|(c & m & -> & Hc)]; [by left|right; eauto 10].
Qed.


(** ** Checking *)

Lemma looks_existing value : looks (checkedExistingDirectory value).
Proof. unfold checkedExistingDirectory. looking. Qed.
#[local] Hint Resolve looks_existing : fs.

(** [config check] changes nothing, whatever it finds and whichever call
    fails; and when it accepts, the directory is a real directory, the dotenv
    file holds a valid token, and the pools and the routes are ones the
    controller accepts. *)
Theorem CheckConfig_sound `{GoUnicode} `{MapOrder} configDir pools bundle routing d r d' :
  CheckConfig configDir pools bundle routing d = (r, d') ->
  nodes d' = nodes d /\
  (r = Ok tt ->
   exists dir mode contents token specs known router,
     checkedAbsolutePath configDir = Ok dir /\ nodes d !! dir = Some (Directory mode) /\
     ((exists m, nodes d !! path_join dir dotEnvFileName = Some (Regular contents m)) \/
      nodes d !! path_join dir dotEnvFileName = Some (Symlink (Some contents))) /\
     loadAPITokenFromDotEnv contents = Ok token /\
     LoadPoolSpecs pools bundle = Ok (specs, known) /\ specs <> ∅ /\ LoadRouter routing "" known = Ok router).
Proof.
  intros E. unfold CheckConfig, checkedExistingDirectory in E. unfold mbind, fs_mbind, lift in E.
  destruct (checkedAbsolutePath configDir) as [dir|e] eqn:Hdir; [|by injection E as <- <-].
  pose proof (lstat_spec dir d) as [Hn1 Hx]. destruct (lstat dir d) as [[[x|]|e] d1]; simpl in Hn1, Hx.
  2,3: injection E as <- <-; by rewrite Hn1.
  destruct (is_dir x) eqn:Hdx; [|injection E as <- <-; cbn; by rewrite Hn1].
  cbn [mret fs_mret] in E. destruct x as [|mode| |]; try done. specialize (Hx _ eq_refl).
  pose proof (read_file_spec (path_join dir dotEnvFileName) d1) as [Hn2 Hc].
  destruct (read_file (path_join dir dotEnvFileName) d1) as [[contents|e] d2]; simpl in Hn2, Hc.
  2: injection E as <- <-; by rewrite Hn2, Hn1.
  specialize (Hc _ eq_refl). rewrite Hn1 in Hc, Hn2.
  destruct (loadAPITokenFromDotEnv contents) as [token|e] eqn:Htok; [|injection E as <- <-; by rewrite Hn2].
  destruct (LoadPoolSpecs pools bundle) as [[specs known]|e] eqn:Hpools; [|injection E as <- <-; by rewrite Hn2].
  destruct (Nat.eqb_spec (size specs) 0) as [Hz|Hz]; [injection E as <- <-; cbn; by rewrite Hn2|].
  destruct (LoadRouter routing "" known) as [router|e] eqn:Hrt; injection E as <- <-; (split; [exact Hn2|]); [|done].
  intros _. exists dir, mode, contents, token, specs, known, router. split_and!; try done.
  intros ->. by rewrite map_size_empty in Hz.
Qed.
