(* ===== verification/BootstrapRun.v ===== *)
(** * A complete run of [config init]

    When no call to the operating system fails, [BootstrapConfig] succeeds and
    leaves a complete configuration whose token can be read back. *)

From S2P Require Import Prelude GoStrings UrlParse Types Config Pools Routing DotEnv FileSystem Bootstrap.

(** No more failures to come, and the rest of the environment as in [d]. *)
Definition calm (d d' : Disk) : Prop := faults d' = [] /\ umask d' = umask d.

(** Only paths of [S] differ. *)
Definition only (S : list (list string)) (n n' : gmap (list string) node) : Prop :=
  forall q, q ∉ S -> n' !! q = n !! q.

Lemma attempt_calm d : faults d = [] -> attempt d = (Ok tt, d).
Proof. intros Hf. unfold attempt, mbind, fs_mbind, syscall. by rewrite Hf. Qed.

Lemma lstat_calm p d :
  faults d = [] -> reach (nodes d) p <> Blocked ->
  lstat p d = (Ok (match reach (nodes d) p with Reachable => nodes d !! p | _ => None end), d).
Proof.
  intros Hf Hr. unfold lstat, mbind, fs_mbind. rewrite attempt_calm by done. cbn. by destruct (reach (nodes d) p).
Qed.

Lemma parents_snoc p c : parents (p ++ [c]) = parents p ++ [p].
Proof.
  unfold parents. rewrite length_app, seq_app, fmap_app. f_equal.
  - apply list_fmap_ext. intros i x Hx%lookup_seq. apply take_app_le. lia.
  - cbn. rewrite take_app_length. done.
Qed.

Definition is_directory (n : gmap (list string) node) (q : list string) : Prop := exists m, n !! q = Some (Directory m).
Definition vacant (n : gmap (list string) node) (q : list string) : Prop := n !! q = None \/ is_directory n q.

Lemma reach_dirs n l : (forall q, q ∈ l -> is_directory n q) <-> reach_in n l = Reachable.
Proof.
  induction l as [|q l IH]; cbn [reach_in]; [split; [done|by intros _ q ?%elem_of_nil]|]. split.
  - intros Hl. destruct (Hl q ltac:(left)) as [m ->]. apply IH. intros q' Hq. apply Hl. by right.
  - destruct (n !! q) as [[]|] eqn:Hq; try done. intros Hr q' [->|Hin]%elem_of_cons; [by eexists|].
    by apply IH.
Qed.

Lemma reach_vacant n l : (forall q, q ∈ l -> vacant n q) -> reach_in n l <> Blocked.
Proof.
  induction l as [|q l IH]; intros Hl; [done|]. cbn [reach_in].
  destruct (Hl q ltac:(left)) as [->|[m ->]]; [done|]. apply IH. intros q' Hq. apply Hl. by right.
Qed.

Lemma mkdirs_calm l mode d :
  faults d = [] -> (forall q, q ∈ l -> vacant (nodes d) q) ->
  exists d', mkdirs l mode d = (Ok tt, d') /\ calm d d' /\ randoms d' = randoms d /\
    only l (nodes d) (nodes d') /\ (forall q, q ∈ l -> is_directory (nodes d') q).
Proof.
  revert d. induction l as [|q l IH]; intros d Hf Hl.
  { exists d. split_and!; try done. by intros q ?%elem_of_nil. }
  rewrite mkdirs_step, attempt_calm by done.
  destruct (Hl q ltac:(left)) as [Hq|[m Hq]]; rewrite Hq.
  - set (d1 := set_nodes _ d). destruct (IH d1) as (d' & He & [Hf' Hu] & Hr & Ho & Hd); [done| |].
    { intros q' Hin. unfold vacant, is_directory. cbn. destruct (decide (q' = q)) as [->|Hne].
      - right. rewrite lookup_insert_eq. eauto.
      - rewrite lookup_insert_ne by congruence. apply Hl. by right. }
    exists d'. split_and!; [done|done|done| |].
    + intros q' Hni. apply not_elem_of_cons in Hni as [Hne Hni]. rewrite Ho by done. cbn.
      by rewrite lookup_insert_ne by congruence.
    + intros q' [->|Hin]%elem_of_cons; [|by apply Hd].
      pose proof (mkdirs_spec l mode d1) as [[_ Hk] _]. rewrite He in Hk. eapply Hk. cbn. apply lookup_insert_eq.
  - destruct (IH d) as (d' & He & Hc & Hr & Ho & Hd); [done|intros q' Hin; apply Hl; by right|].
    exists d'. split_and!; [done|done|done| |].
    + intros q' Hni. apply not_elem_of_cons in Hni as [Hne Hni]. by apply Ho.
    + intros q' [->|Hin]%elem_of_cons; [|by apply Hd].
      pose proof (mkdirs_spec l mode d) as [[_ Hk] _]. rewrite He in Hk. by eapply Hk.
Qed.

Lemma ensurePrivateDirectory_calm p d :
  faults d = [] -> (forall q, q ∈ parents p ++ [p] -> vacant (nodes d) q) ->
  exists d', ensurePrivateDirectory p d = (Ok tt, d') /\ calm d d' /\ randoms d' = randoms d /\
    only (parents p ++ [p]) (nodes d) (nodes d') /\ (forall q, q ∈ parents p ++ [p] -> is_directory (nodes d') q).
Proof.
  intros Hf Hl. unfold ensurePrivateDirectory, mbind, fs_mbind.
  rewrite lstat_calm; [|done|apply reach_vacant; intros q Hq; apply Hl, elem_of_app; by left].
  assert (Hmk : exists d', match mkdirAll p bootstrapDirectoryMode d with
     | (Ok _, d1) => chmod p bootstrapDirectoryMode d1 | (Err e, d1) => (Err e, d1) end = (Ok tt, d') /\
     calm d d' /\ randoms d' = randoms d /\ only (parents p ++ [p]) (nodes d) (nodes d') /\
     (forall q, q ∈ parents p ++ [p] -> is_directory (nodes d') q)).
  { destruct (mkdirs_calm (parents p ++ [p]) bootstrapDirectoryMode d Hf Hl) as (d1 & He & [Hf1 Hu] & Hr & Ho & Hd).
    unfold mkdirAll. rewrite He. unfold chmod, mbind, fs_mbind. rewrite attempt_calm by done.
    destruct (Hd p) as [m Hm]; [apply elem_of_app; right; by apply list_elem_of_singleton|].
    eexists. split; [reflexivity|]. cbn. split_and!; [done|done| |].
    - intros q Hq. rewrite lookup_alter_ne; [by apply Ho|]. intros ->. apply Hq, elem_of_app. right.
      by apply list_elem_of_singleton.
    - intros q Hq. destruct (Hd q Hq) as [m' Hm']. by eapply (proj2 (keeps_chmod_dir _ _ _ _ Hm)). }
  destruct (reach (nodes d) p) eqn:Hr; [|exact Hmk|exact Hmk].
  destruct (nodes d !! p) as [x|] eqn:Hp; [|exact Hmk].
  destruct (Hl p) as [Hn|[m Hm]]; [apply elem_of_app; right; by apply list_elem_of_singleton|congruence|].
  assert (x = Directory m) as -> by congruence. cbn. exists d. split_and!; [done|done|done|done|].
  intros q [Hq|Hq%list_elem_of_singleton]%elem_of_app; [|subst q; by exists m].
  by eapply (proj2 (reach_dirs _ _) Hr).
Qed.

(** ** Files *)

Lemma create_excl_calm p mode d :
  faults d = [] -> reach (nodes d) p = Reachable -> nodes d !! p = None ->
  create_excl p mode d = (Ok true, set_nodes (<[p := Regular "" (Z.ldiff mode (umask d))]>) d).
Proof.
  intros Hf Hr Hp. unfold create_excl, mbind, fs_mbind. rewrite attempt_calm by done. cbn. by rewrite Hr, Hp.
Qed.

Lemma write_calm p data d :
  faults d = [] -> write p data d = (Ok tt, set_nodes (alter (append_contents data) p) d).
Proof. intros Hf. unfold write, mbind, fs_mbind, syscall. by rewrite Hf. Qed.

(** What an absent file becomes, and an existing one stays. *)
Definition seeded (n : gmap (list string) node) (mask : Z) (p : list string) (data : string) : gmap (list string) node :=
  match n !! p with None => <[p := Regular data (Z.ldiff bootstrapFileMode mask)]> n | Some _ => n end.

Definition file_or_absent (n : gmap (list string) node) (p : list string) : Prop :=
  n !! p = None \/ exists c m, n !! p = Some (Regular c m).

Definition absent (n : gmap (list string) node) (p : list string) : bool :=
  match n !! p with None => true | Some _ => false end.

Lemma writeFileIfAbsent_calm p contents d :
  faults d = [] -> reach (nodes d) p = Reachable -> file_or_absent (nodes d) p ->
  exists d', writeFileIfAbsent p contents d = (Ok (absent (nodes d) p), d') /\ calm d d' /\
    randoms d' = randoms d /\ nodes d' = seeded (nodes d) (umask d) p contents.
Proof.
  intros Hf Hr Hp. unfold writeFileIfAbsent, mbind, fs_mbind, absent, seeded.
  rewrite lstat_calm by (done || congruence). rewrite Hr.
  destruct Hp as [Hp|(c & m & Hp)]; rewrite Hp.
  - rewrite create_excl_calm by done. cbn [negb]. unfold catch. rewrite write_calm by done.
    unfold close. rewrite attempt_calm by done. eexists. split; [reflexivity|]. split; [done|]. split; [done|]. cbn.
    apply map_eq. intros q. destruct (decide (q = p)) as [->|Hq].
    + by rewrite lookup_alter_eq, !lookup_insert_eq.
    + by rewrite lookup_alter_ne, !lookup_insert_ne by congruence.
  - cbn. exists d. done.
Qed.

(** Names for temporary files that are not taken. *)
Definition temps_free (dir : list string) (n : gmap (list string) node) (ks : list N) : Prop :=
  forall k, k ∈ ks -> n !! temp_path dir k = None.

Lemma writeRefreshedFile_calm dir name contents mode d k rest :
  let p := dir ++ [name] in
  faults d = [] -> reach (nodes d) p = Reachable -> file_or_absent (nodes d) p -> no_temp p ->
  randoms d = k :: rest -> nodes d !! temp_path dir k = None ->
  exists d', writeRefreshedFile p contents mode d = (Ok tt, d') /\ calm d d' /\ randoms d' = rest /\
    nodes d' = <[p := Regular contents mode]> (nodes d).
Proof.
  intros p Hf Hr Hp Hno Hk Hfree.
  assert (Hrt : reach (nodes d) (temp_path dir k) = Reachable).
  { unfold reach, temp_path in *. unfold p in Hr. by rewrite parents_snoc in *. }
  assert (Hlast : removelast p = dir) by (unfold p; apply removelast_last).
  assert (Hne : temp_path dir k <> p) by (intros He; apply (Hno k); by rewrite Hlast).
  set (tmp := temp_path dir k) in *.
  unfold writeRefreshedFile, mbind, fs_mbind, validateExamplePath. unfold mbind, fs_mbind.
  rewrite lstat_calm by (done || congruence). rewrite Hr.
  assert (Hv : match nodes d !! p with
    | Some n => if is_regular n then mret tt else throw ErrConfigInvalid | None => mret tt end d = (Ok tt, d)).
  { by destruct Hp as [-> | (c & m & ->)]. }
  rewrite Hv, Hlast. unfold createTemp.
  assert (Hc : create_temp (N.to_nat 10000) dir d =
    (Ok tmp, mkDisk (<[tmp := Regular "" (Z.ldiff 384 (umask d))]> (nodes d)) (umask d) [] rest)).
  { assert (Hs : exists t, N.to_nat 10000 = S t) by (exists (Nat.pred (N.to_nat 10000)); lia).
    destruct Hs as [t ->]. cbn [create_temp]. unfold mbind, fs_mbind, next_random. rewrite Hk.
    fold tmp. rewrite create_excl_calm by done. cbn. unfold set_nodes. cbn. by rewrite Hf. }
  rewrite Hc. clear Hc. set (d1 := mkDisk _ _ _ _).
  assert (H1 : faults d1 = []) by done. unfold finally.
  assert (Ht : replaceThrough tmp p contents mode d1 =
    (Ok tt, mkDisk (<[p := Regular contents mode]> (nodes d)) (umask d) [] rest)).
  { unfold replaceThrough, mbind, fs_mbind, catch, chmod. unfold mbind, fs_mbind. rewrite attempt_calm by done.
    cbn [update is_ok negb]. rewrite write_calm by done. cbn [is_ok negb]. unfold close. rewrite attempt_calm by done.
    unfold rename, mbind, fs_mbind. rewrite attempt_calm by done. cbn.
    rewrite !lookup_alter_eq, lookup_insert_eq. rewrite !lookup_alter_ne, lookup_insert_ne by done.
    assert (He : <[p := Regular contents mode]>
        (delete tmp (alter (append_contents contents) tmp
          (alter (set_mode mode) tmp (<[tmp := Regular "" (Z.ldiff 384 (umask d))]> (nodes d))))) =
      <[p := Regular contents mode]> (nodes d)).
    { f_equal. apply map_eq. intros q. destruct (decide (q = tmp)) as [->|Hq].
      - by rewrite lookup_delete_eq, Hfree.
      - by rewrite lookup_delete_ne, !lookup_alter_ne, lookup_insert_ne by congruence. }
    destruct Hp as [-> | (c & m & ->)]; cbn; unfold set_nodes; cbn; by rewrite <- He. }
  rewrite Ht. set (d2 := mkDisk _ _ _ _).
  assert (Hrm : (remove tmp d2).2 = d2).
  { unfold remove, mbind, fs_mbind. rewrite attempt_calm by done. cbn.
    rewrite lookup_insert_ne by congruence. by rewrite Hfree. }
  rewrite Hrm. exists d2. split_and!; done.
Qed.

(** ** The directories *)

Lemma for_all_dirs_calm L ps d :
  faults d = [] -> (forall p q, p ∈ ps -> q ∈ parents p ++ [p] -> q ∈ L) ->
  (forall q, q ∈ L -> vacant (nodes d) q) ->
  exists d', for_all ps ensurePrivateDirectory d = (Ok tt, d') /\ calm d d' /\ randoms d' = randoms d /\
    only L (nodes d) (nodes d') /\
    (forall p q, p ∈ ps -> q ∈ parents p ++ [p] -> is_directory (nodes d') q) /\
    (forall q, is_directory (nodes d) q -> is_directory (nodes d') q).
Proof.
  revert d. induction ps as [|p ps IH]; intros d Hf Hsub Hv.
  { exists d. split_and!; try done. by intros ?? ?%elem_of_nil. }
  destruct (ensurePrivateDirectory_calm p d Hf) as (d1 & He & [Hf1 Hu1] & Hr1 & Ho1 & Hd1).
  { intros q Hq. apply Hv. apply (Hsub p); [left|done]. }
  destruct (IH d1 Hf1) as (d2 & He2 & [Hf2 Hu2] & Hr2 & Ho2 & Hd2 & Hk2).
  { intros p' q Hp Hq. apply (Hsub p'); [by right|done]. }
  { intros q Hq. destruct (decide (q ∈ parents p ++ [p])) as [Hin|Hin]; [right; by apply Hd1|].
    unfold vacant, is_directory. rewrite Ho1 by done. by apply Hv. }
  exists d2. cbn [for_all]. unfold mbind, fs_mbind. rewrite He, He2. split; [done|]. split; [split; congruence|].
  split; [congruence|]. split_and!.
  - intros q Hq. rewrite Ho2 by done. apply Ho1. intros Hin. apply Hq, (Hsub p); [left|done].
  - intros p' q [->|Hp]%elem_of_cons Hq; [apply Hk2, Hd1, Hq|by eapply Hd2].
  - intros q Hq. apply Hk2. pose proof (ensurePrivateDirectory_touches p d) as [_ Hk]. rewrite He in Hk.
    destruct Hq as [m Hq]. by eapply Hk.
Qed.

(** ** The generated files *)

(** What a generated file is after the run. *)
Definition expected (n : gmap (list string) node) (mask : Z) (refresh : bool) (f : bootstrapFile) : node :=
  if refresh && bf_runtime f then Regular (bf_data f) bootstrapFileMode
  else match n !! bf_path f with
       | Some x => x
       | None => Regular (bf_data f) (Z.ldiff bootstrapFileMode mask)
       end.

Definition report (n : gmap (list string) node) (refresh : bool) (r : BootstrapResult) (f : bootstrapFile) :
    BootstrapResult :=
  if refresh && bf_runtime f then result_refreshed (bf_operatorPath f) r
  else result_add (bf_operatorPath f) (absent n (bf_path f)) r.

Lemma fold_report_ext n n' refresh files r :
  (forall f, f ∈ files -> n !! bf_path f = n' !! bf_path f) ->
  fold_left (report n refresh) files r = fold_left (report n' refresh) files r.
Proof.
  revert r. induction files as [|f files IH]; intros r Hs; [done|]. cbn [fold_left].
  assert (report n refresh r f = report n' refresh r f) as ->.
  { unfold report, absent. by rewrite (Hs f) by left. }
  apply IH. intros g Hg. apply Hs. by right.
Qed.

Lemma only_dirs S n n' q :
  only S n n' -> (forall p, p ∈ S -> file_or_absent n p) -> is_directory n q -> is_directory n' q.
Proof.
  intros Ho Hs [m Hq]. exists m. rewrite Ho; [done|]. intros Hin. destruct (Hs q Hin) as [?|(c & m' & ?)]; congruence.
Qed.

Lemma only_reach S n n' p :
  only S n n' -> (forall p, p ∈ S -> file_or_absent n p) -> reach n p = Reachable -> reach n' p = Reachable.
Proof.
  unfold reach. rewrite <- !reach_dirs. intros Ho Hs Hr q Hq. eapply only_dirs; [exact Ho|exact Hs|by apply Hr].
Qed.

(** The files one run deals with, and their surroundings. *)
Record placed (dir : list string) (refresh : bool) (d : Disk) (files : list bootstrapFile) : Prop := {
  placed_calm : faults d = [];
  placed_reach : forall f, f ∈ files -> reach (nodes d) (bf_path f) = Reachable;
  placed_file : forall f, f ∈ files -> file_or_absent (nodes d) (bf_path f);
  placed_notemp : forall f k, f ∈ files -> bf_path f <> temp_path dir k;
  placed_here : forall f, f ∈ files -> refresh && bf_runtime f = true -> exists name, bf_path f = dir ++ [name];
  placed_nodup : NoDup (bf_path <$> files);
  placed_temps : temps_free dir (nodes d) (randoms d);
}.

Lemma writeBootstrapFile_calm dir refresh d f files r :
  placed dir refresh d (f :: files) -> randoms d <> [] ->
  exists d', writeBootstrapFile f refresh r d = (Ok (report (nodes d) refresh r f), d') /\ calm d d' /\
    (randoms d' = randoms d \/ randoms d' = tail (randoms d)) /\ only [bf_path f] (nodes d) (nodes d') /\
    nodes d' !! bf_path f = Some (expected (nodes d) (umask d) refresh f).
Proof.
  intros [Hf Hr Hp Hnt Hh _ Ht] Hne. unfold writeBootstrapFile, report, expected.
  specialize (Hr f ltac:(left)). specialize (Hp f ltac:(left)). specialize (fun k => Hnt f k ltac:(left)).
  destruct (refresh && bf_runtime f) eqn:Hrf.
  - destruct (Hh f ltac:(left) Hrf) as [name Hname]. destruct (randoms d) as [|k rest] eqn:Hk; [done|].
    rewrite Hname in *.
    destruct (writeRefreshedFile_calm dir name (bf_data f) bootstrapFileMode d k rest) as (d' & He & Hc & Hr' & Hn'); try done.
    { intros k'. rewrite removelast_last. apply Hnt. }
    { apply Ht. by left. }
    exists d'. unfold mbind, fs_mbind. rewrite He. split_and!; [done|done|by right| |].
    + intros q Hq. rewrite Hn', lookup_insert_ne; [done|]. intros <-. apply Hq. by left.
    + by rewrite Hn', lookup_insert_eq.
  - destruct (writeFileIfAbsent_calm (bf_path f) (bf_data f) d Hf Hr Hp) as (d' & He & Hc & Hr' & Hn').
    exists d'. unfold mbind, fs_mbind. rewrite He. split_and!; [done|done|by left| |]; rewrite Hn'; unfold seeded.
    + intros q Hq. destruct (nodes d !! bf_path f) eqn:E; [done|]. rewrite lookup_insert_ne; [done|].
      intros <-. apply Hq. by left.
    + destruct (nodes d !! bf_path f) eqn:E; [done|]. by rewrite lookup_insert_eq.
Qed.

Lemma placed_tail dir refresh d d' f files :
  placed dir refresh d (f :: files) -> calm d d' ->
  (randoms d' = randoms d \/ randoms d' = tail (randoms d)) -> only [bf_path f] (nodes d) (nodes d') ->
  placed dir refresh d' files /\ (forall g, g ∈ files -> nodes d' !! bf_path g = nodes d !! bf_path g).
Proof.
  intros [Hf Hr Hp Hnt Hh Hnd Ht] [Hf' Hu] Hrand Ho.
  rewrite fmap_cons in Hnd. apply NoDup_cons in Hnd as [Hni Hnd].
  assert (Hsame : forall g, g ∈ files -> nodes d' !! bf_path g = nodes d !! bf_path g).
  { intros g Hg. apply Ho. intros Heq%list_elem_of_singleton. apply Hni. rewrite <- Heq. by apply list_elem_of_fmap_2. }
  assert (Hs : forall p, p ∈ [bf_path f] -> file_or_absent (nodes d) p).
  { intros p ->%list_elem_of_singleton. apply Hp. left. }
  split; [|done]. constructor; [done|..].
  - intros g Hg. eapply only_reach; [exact Ho|exact Hs|apply Hr; by right].
  - intros g Hg. unfold file_or_absent. rewrite Hsame by done. apply Hp. by right.
  - intros g k Hg. apply Hnt. by right.
  - intros g Hg. apply Hh. by right.
  - done.
  - intros k Hk. rewrite Ho.
    + apply Ht. destruct Hrand as [<-|Hrand]; [done|]. rewrite Hrand in Hk. destruct (randoms d); [done|by right].
    + intros Heq%list_elem_of_singleton. by apply (Hnt f k ltac:(left)).
Qed.

Lemma writeEach_calm dir refresh files d r :
  placed dir refresh d files -> length files < length (randoms d) ->
  exists d', writeEach files refresh r d = (Ok (fold_left (report (nodes d) refresh) files r), d') /\ calm d d' /\
    only (bf_path <$> files) (nodes d) (nodes d') /\
    (forall f, f ∈ files -> nodes d' !! bf_path f = Some (expected (nodes d) (umask d) refresh f)) /\
    temps_free dir (nodes d') (randoms d') /\ length (randoms d) <= length (randoms d') + length files.
Proof.
  revert d r. induction files as [|f files IH]; intros d r Hpl Hlen.
  { exists d. split_and!; [done|split; [apply Hpl|done]|done|by intros f ?%elem_of_nil|apply Hpl|lia]. }
  cbn [length] in Hlen.
  destruct (writeBootstrapFile_calm dir refresh d f files r Hpl) as (d1 & He & Hc & Hr & Ho & Hx).
  { intros E. rewrite E in Hlen. simpl in Hlen. lia. }
  destruct (placed_tail _ _ _ _ _ _ Hpl Hc Hr Ho) as [Hpl1 Hsame].
  assert (Hl1 : length (randoms d) <= S (length (randoms d1))).
  { destruct Hr as [-> | ->]; [lia|]. destruct (randoms d); simpl; lia. }
  destruct (IH d1 (report (nodes d) refresh r f) Hpl1) as (d2 & He2 & Hc2 & Ho2 & Hx2 & Ht2 & Hl2); [lia|].
  destruct Hc as [_ Hu1]. destruct Hc2 as [Hf2 Hu2].
  exists d2. cbn [writeEach]. unfold mbind, fs_mbind. rewrite He, He2. split; [|split; [split; congruence|split_and!]].
  - cbn [fold_left]. by rewrite (fold_report_ext (nodes d1) (nodes d)).
  - intros q Hq. rewrite fmap_cons in Hq. apply not_elem_of_cons in Hq as [Hq1 Hq2]. rewrite Ho2 by done. apply Ho.
    intros Heq%list_elem_of_singleton. done.
  - intros g [->|Hg]%elem_of_cons.
    + rewrite Ho2; [done|]. destruct Hpl as [_ _ _ _ _ Hnd _]. rewrite fmap_cons in Hnd. by apply NoDup_cons in Hnd as [? _].
    + rewrite Hx2 by done. unfold expected. by rewrite Hsame, Hu1.
  - done.
  - cbn [length]. lia.
Qed.

(** ** The layout of a configuration directory *)

#[local] Ltac decided := refine (bool_decide_unpack _ _); vm_compute; exact I.

Definition subdirs : list (list string) :=
  [["secrets"]; ["secrets"; "wireguard"]; ["config"]; ["tailscale"]; ["tailscale"; "state"]].
Definition layout (dir : list string) : list (list string) :=
  (parents dir ++ [dir]) ++ (app dir <$> subdirs).

Definition template_parts : list (list string) :=
  [["secrets"; "pools.yaml"]; ["config"; "egress-routing.yaml"];
   [composeFileName]; [hostPortsFileName]; [noHostPortsFileName]].
Definition file_parts : list (list string) := template_parts ++ [[dotEnvExampleFileName]; [dotEnvFileName]].

Lemma below_not_layout dir x : x <> [] -> x ∉ subdirs -> dir ++ x ∉ layout dir.
Proof.
  intros Hx Hs [[Hin|Hin%list_elem_of_singleton]%elem_of_app|Hin]%elem_of_app.
  - unfold parents in Hin. apply list_elem_of_fmap in Hin as (n & He & _).
    apply (f_equal length) in He. rewrite length_app, length_take in He. destruct x; [done|simpl in He; lia].
  - apply (f_equal length) in Hin. rewrite length_app in Hin. destruct x; [done|simpl in Hin; lia].
  - apply list_elem_of_fmap in Hin as (y & He & Hy). apply app_inv_head in He. by subst.
Qed.

Lemma file_not_layout dir x : x ∈ file_parts -> dir ++ x ∉ layout dir.
Proof.
  intros Hx. apply below_not_layout; [intros ->; revert Hx; change ([] ∉ file_parts); decided|].
  intros Hs. assert (Hd : forall y, y ∈ file_parts -> y ∉ subdirs); [|by apply (Hd x)].
  apply Forall_forall. decided.
Qed.

Lemma below_not_temp dir x k : x ∈ file_parts -> dir ++ x <> temp_path dir k.
Proof.
  intros Hx He. unfold temp_path in He. apply app_inv_head in He.
  assert (Hd : forall y, y ∈ file_parts -> match y with [name] => stable_name name = true | _ => True end).
  { apply Forall_forall. unfold file_parts, template_parts. cbn [app]. repeat constructor. }
  specialize (Hd x Hx). rewrite He in Hd. unfold stable_name in Hd.
  assert (has_prefix ".env.example-" (".env.example-" +:+ pretty k) = true) as Hp by (apply has_prefix_spec; eauto).
  by rewrite Hp in Hd.
Qed.

Lemma layout_parents dir x q :
  x ∈ file_parts ++ subdirs -> q ∈ parents (dir ++ x) -> q ∈ layout dir.
Proof.
  intros Hx Hq. unfold layout.
  assert (Hd : forall y, y ∈ file_parts ++ subdirs ->
    match y with [_] => True | [a; _] => [a] ∈ subdirs | _ => False end).
  { apply Forall_forall. unfold file_parts, template_parts, subdirs. cbn [app].
    repeat (apply Forall_cons; split; [first [exact I | decided]|]). apply Forall_nil_2. }
  specialize (Hd x Hx). destruct x as [|a [|b [|]]]; try done.
  - rewrite parents_snoc in Hq. apply elem_of_app. by left.
  - assert (Ha : dir ++ [a; b] = (dir ++ [a]) ++ [b]) by (by rewrite <- app_assoc).
    rewrite Ha, parents_snoc, parents_snoc in Hq. apply elem_of_app in Hq as [Hq|Hq%list_elem_of_singleton].
    + apply elem_of_app. by left.
    + apply elem_of_app. right. subst q. by apply list_elem_of_fmap_2.
Qed.

Lemma directories_in_layout dir p q :
  Forall plain_part dir -> p ∈ bootstrapDirectories dir -> q ∈ parents p ++ [p] -> q ∈ layout dir.
Proof.
  intros Hd Hp Hq.
  assert (Hx : exists x, x ∈ subdirs /\ p = dir ++ x).
  { unfold bootstrapDirectories in Hp. rewrite !elem_of_cons in Hp.
    destruct Hp as [->|[->|[->|[->|Hp]]]]; [| | | |by apply elem_of_nil in Hp].
    - exists ["secrets"]. split; [decided|]. apply path_join_parts; [done|by apply plain_parts|done].
    - exists ["secrets"; "wireguard"]. split; [decided|]. apply path_join_parts; [done|by apply plain_parts|done].
    - exists ["config"]. split; [decided|]. apply path_join_parts; [done|by apply plain_parts|done].
    - exists ["tailscale"; "state"]. split; [decided|]. apply path_join_parts; [done|by apply plain_parts|done]. }
  destruct Hx as (x & Hx & ->). apply elem_of_app in Hq as [Hq|Hq%list_elem_of_singleton].
  - eapply layout_parents; [apply elem_of_app; by right|exact Hq].
  - subst q. apply elem_of_app. right. by apply list_elem_of_fmap_2.
Qed.

(** All the directories are made by the four calls. *)
Lemma layout_covered dir q :
  Forall plain_part dir -> q ∈ layout dir ->
  exists p, p ∈ bootstrapDirectories dir /\ q ∈ parents p ++ [p].
Proof.
  intros Hd Hq.
  assert (Hj : forall rel parts, split rel "/" = parts -> Forall plain_part parts -> path_join dir rel = dir ++ parts)
    by (intros; by apply path_join_parts).
  assert (Hs : path_join dir "secrets" = dir ++ ["secrets"]) by (apply Hj; [done|by apply plain_parts]).
  assert (Hw : path_join dir bundleRelativePath = dir ++ ["secrets"; "wireguard"]) by (apply Hj; [done|by apply plain_parts]).
  assert (Hc : path_join dir "config" = dir ++ ["config"]) by (apply Hj; [done|by apply plain_parts]).
  assert (Ht : path_join dir tailscaleStatePath = dir ++ ["tailscale"; "state"]) by (apply Hj; [done|by apply plain_parts]).
  unfold bootstrapDirectories. rewrite Hs, Hw, Hc, Ht. apply elem_of_app in Hq as [Hq|Hq].
  - exists (dir ++ ["secrets"]). split; [left|]. rewrite parents_snoc. apply elem_of_app. by left.
  - apply list_elem_of_fmap in Hq as (x & -> & Hx). unfold subdirs in Hx. rewrite !elem_of_cons in Hx.
    assert (Hself : forall p : list string, p ∈ parents p ++ [p]) by (intros p; apply elem_of_app; right; by apply list_elem_of_singleton).
    destruct Hx as [->|[->|[->|[->|[->|Hx]]]]]; [..|by apply elem_of_nil in Hx].
    + eexists. split; [|apply Hself]. set_solver.
    + eexists. split; [|apply Hself]. set_solver.
    + eexists. split; [|apply Hself]. set_solver.
    + exists (dir ++ ["tailscale"; "state"]). split; [set_solver|].
      assert (Ha : dir ++ ["tailscale"; "state"] = (dir ++ ["tailscale"]) ++ ["state"]) by (by rewrite <- app_assoc).
      rewrite Ha, parents_snoc. set_solver.
    + eexists. split; [|apply Hself]. set_solver.
Qed.

(** ** Checked settings fit on one line *)

Lemma contains_any_has s chars c : contains_any s chars = false -> has_byte c chars = true -> has_byte c s = false.
Proof.
  intros Hs Hc. induction s as [|x s IH]; [done|]. simpl in Hs |- *. apply orb_false_iff in Hs as [Hx Hs].
  rewrite (IH Hs), orb_false_r. destruct (byte_eqb x c) eqn:E; [|done]. apply byte_eqb_true in E as ->. congruence.
Qed.

Lemma split_no_byte b c s : has_byte c s = false -> Forall (fun x => has_byte c x = false) (split s b).
Proof.
  induction s as [|x s IH]; intros Hs; [by repeat constructor|]. simpl in Hs |- *. apply orb_false_iff in Hs as [Hx Hs].
  destruct (byte_eqb x b); [by constructor; auto|]. specialize (IH Hs).
  destruct (split s b) as [|y ys]; [repeat constructor; simpl; by rewrite Hx|].
  apply Forall_cons in IH as [Hy ?]. constructor; [|done]. simpl. by rewrite Hx.
Qed.

Lemma normalize_forall (P : string -> Prop) l : Forall P l -> Forall P (normalize l).
Proof.
  unfold normalize. intros Hl. assert (Hg : forall s, Forall P s -> Forall P (fold_left clean_step l s)); [|by apply Hg].
  induction Hl as [|c l Hc _ IH]; intros s Hs; [done|]. cbn [fold_left]. apply IH. unfold clean_step.
  destruct (_ || _); [done|]. destruct (String.eqb c "..").
  - destruct (last s) as [x|] eqn:Hx; [|by apply last_None in Hx as ->].
    rewrite (removelast_snoc _ _ Hx) in Hs. by apply Forall_app in Hs as [? _].
  - apply Forall_app. split; [done|]. by repeat constructor.
Qed.

Lemma join_no_byte c l sep :
  has_byte c sep = false -> Forall (fun x => has_byte c x = false) l -> has_byte c (join l sep) = false.
Proof.
  intros Hs Hl. induction Hl as [|x l Hx Hl IH]; [done|]. destruct l as [|y l]; [done|].
  rewrite join_cons, !has_byte_app, Hx, Hs. done.
Qed.

Lemma checkedAbsolutePath_line value p :
  checkedAbsolutePath value = Ok p -> has_byte newline (path_string p) = false.
Proof.
  unfold checkedAbsolutePath. destruct (_ || _); [done|]. destruct (contains_any _ _) eqn:Hc; [done|]. intros [= <-].
  assert (Hn : has_byte newline (trim_space value) = false) by (by eapply contains_any_has).
  unfold path_string. rewrite has_byte_app. apply orb_false_iff. split; [done|].
  apply join_no_byte; [done|]. unfold path_clean. by apply normalize_forall, split_no_byte.
Qed.

Lemma checkedImageReference_line value image :
  checkedImageReference value = Ok image -> has_byte newline image = false.
Proof.
  unfold checkedImageReference. destruct (String.eqb _ _); [done|]. cbn [orb].
  destruct (contains_any _ _) eqn:Hc; [done|]. intros [= <-]. by eapply contains_any_has.
Qed.

Lemma parse_uint32_digits s v : parse_uint32 s = Some v -> string_forallb is_digit s = true.
Proof.
  unfold parse_uint32, nonempty_digits. intros Hp. apply bind_Some in Hp as (z & Hz & _). destruct s as [|c s]; [done|].
  revert Hz. generalize (String c s) as t, 0%Z as acc. clear. intros t. revert z. induction t as [|c t IH]; intros z acc; [done|].
  cbn [digits_val string_forallb]. destruct (is_digit c); [|done]. apply IH.
Qed.

Lemma checkedRuntimeUser_line uid gid value user :
  checkedRuntimeUser uid gid value = Ok user -> has_byte newline user = false.
Proof.
  unfold checkedRuntimeUser. destruct (String.eqb _ "").
  - intros [= <-]. rewrite !has_byte_app. apply orb_false_iff.
    split; [|apply orb_false_iff; split; [done|]]; (eapply forallb_no_byte; [|apply itoa_bytes]; reflexivity).
  - destruct (cut (trim_space value) ":") as [[u g] found] eqn:Hc. destruct found; [|done]. cbn [negb orb].
    destruct (_ || _); [done|]. destruct (parse_uint32 u) eqn:Hu; [|done]. destruct (parse_uint32 g) eqn:Hg; [|done].
    intros [= <-]. apply cut_spec in Hc as [-> _]. apply parse_uint32_digits in Hu, Hg.
    rewrite has_byte_app. apply orb_false_iff. split; [by eapply forallb_no_byte; [|exact Hu]|].
    simpl. by eapply forallb_no_byte; [|exact Hg].
Qed.

(** ** The whole run *)

Section run.
Context (t : Templates) (proc : Process) (options : BootstrapOptions) (d : Disk).
Context (dir host : list string) (image user bytes : string).

(** Everything [config init] needs from its surroundings. *)
Record bootable : Prop := {
  boot_calm : faults d = [];
  boot_dir : checkedAbsolutePath (o_ConfigDir options) = Ok dir;
  boot_host : checkedAbsolutePath (o_HostConfigDir options) = Ok host;
  boot_image : checkedImageReference (o_ControllerImage options) = Ok image;
  boot_user : checkedRuntimeUser (getuid proc) (getgid proc) (o_RuntimeUser options) = Ok user;
  boot_bytes : rand_bytes proc = Some bytes /\ String.length bytes = randomTokenBytes;
  boot_sizes : (Z.of_nat (String.length (path_string host)) < 65000 /\
    Z.of_nat (String.length image) < 65000 /\ Z.of_nat (String.length user) < 65000)%Z;
  boot_dirs : forall q, q ∈ layout dir -> vacant (nodes d) q;
  boot_files : forall x, x ∈ file_parts -> file_or_absent (nodes d) (dir ++ x);
  boot_randoms : 8 <= length (randoms d);
  boot_temps : temps_free dir (nodes d) (randoms d);
}.

Definition run_files : list bootstrapFile := bootstrapFiles t dir host.
Definition run_input : bootstrapInput := mkBootstrapInput dir host image user.

Lemma run_file_paths : Forall plain_part dir -> bf_path <$> run_files = app dir <$> template_parts.
Proof.
  intros Hd. unfold run_files, bootstrapFiles, template_parts. rewrite !fmap_cons. cbn [bf_path].
  rewrite (path_join_parts dir poolsRelativePath ["secrets"; "pools.yaml"]) by (done || by apply plain_parts).
  rewrite (path_join_parts dir routingRelativePath ["config"; "egress-routing.yaml"]) by (done || by apply plain_parts).
  by rewrite !path_join_name by done.
Qed.

Lemma run_file_parts f :
  Forall plain_part dir -> f ∈ run_files ->
  exists x, x ∈ template_parts /\ bf_path f = dir ++ x /\ (bf_runtime f = true -> exists name, x = [name]).
Proof.
  intros Hd Hf. unfold run_files, bootstrapFiles in Hf. rewrite !elem_of_cons in Hf.
  assert (Hj : forall rel parts, split rel "/" = parts -> Forall plain_part parts -> path_join dir rel = dir ++ parts)
    by (intros; by apply path_join_parts).
  destruct Hf as [->|[->|[->|[->|[->|Hf]]]]]; [..|by apply elem_of_nil in Hf]; eexists;
    (split; [|split; [cbn [bf_path]; apply Hj; [reflexivity|by apply plain_parts]|]]);
    try decided; cbn [bf_runtime]; try done; intros _; eexists; reflexivity.
Qed.

Lemma boot_plain : bootable -> Forall plain_part dir.
Proof. intros B. by apply (checkedAbsolutePath_plain (o_ConfigDir options)), boot_dir. Qed.

Lemma run_directories :
  bootable ->
  exists d1 d2, checkedBootstrapInput proc options d = (Ok run_input, d1) /\
    createBootstrapDirectories dir d1 = (Ok tt, d2) /\ calm d d2 /\ randoms d2 = randoms d /\
    only (layout dir) (nodes d) (nodes d2) /\ (forall q, q ∈ layout dir -> is_directory (nodes d2) q).
Proof.
  intros B. pose proof (boot_plain B) as Hp. destruct B as [Hf Hdir Hhost Himage Huser _ _ Hv _ _ _].
  assert (Hself : forall q, q ∈ parents dir ++ [dir] -> q ∈ layout dir) by (intros q Hq; apply elem_of_app; by left).
  destruct (ensurePrivateDirectory_calm dir d Hf) as (d1 & He1 & [Hf1 Hu1] & Hr1 & Ho1 & Hd1); [by auto|].
  destruct (for_all_dirs_calm (layout dir) (bootstrapDirectories dir) d1 Hf1)
    as (d2 & He2 & [Hf2 Hu2] & Hr2 & Ho2 & Hd2 & _).
  { intros p q Hin Hq. by eapply directories_in_layout. }
  { intros q Hq. destruct (decide (q ∈ parents dir ++ [dir])); [right; by apply Hd1|].
    unfold vacant, is_directory. rewrite Ho1 by done. by apply Hv. }
  exists d1, d2. split_and!; [|exact He2|split; congruence|congruence| |].
  - unfold checkedBootstrapInput, checkedAbsoluteDirectory, mbind, fs_mbind, lift.
    rewrite Hdir, He1. cbn. by rewrite Hhost, Himage, Huser.
  - intros q Hq. rewrite Ho2 by done. apply Ho1. auto.
  - intros q Hq. destruct (layout_covered dir q Hp Hq) as (p & Hin & Hqp). by eapply Hd2.
Qed.

(** The surroundings hold after the directories have been made. *)
Lemma run_reach n x :
  (forall q, q ∈ layout dir -> is_directory n q) -> x ∈ file_parts -> reach n (dir ++ x) = Reachable.
Proof.
  intros Hd Hx. apply reach_dirs. intros q Hq. apply Hd. eapply layout_parents; [|exact Hq]. apply elem_of_app. by left.
Qed.

Lemma template_file x : x ∈ template_parts -> x ∈ file_parts.
Proof. intros Hx. apply elem_of_app. by left. Qed.

Lemma temp_not_layout k : temp_path dir k ∉ layout dir.
Proof.
  unfold temp_path. apply below_not_layout; [done|]. unfold subdirs. rewrite !elem_of_cons.
  intros [He|[He|[He|[He|[He|He]]]]]; try discriminate He. by apply elem_of_nil in He.
Qed.

Lemma run_placed d2 :
  bootable -> calm d d2 -> randoms d2 = randoms d -> only (layout dir) (nodes d) (nodes d2) ->
  (forall q, q ∈ layout dir -> is_directory (nodes d2) q) ->
  placed dir (o_RefreshRuntimeTemplates options) d2 run_files.
Proof.
  intros B [Hf2 _] Hr Ho Hd. pose proof (boot_plain B) as Hp. constructor; [done|..].
  - intros f Hin. destruct (run_file_parts f Hp Hin) as (x & Hx & -> & _). by apply run_reach, template_file.
  - intros f Hin. destruct (run_file_parts f Hp Hin) as (x & Hx%template_file & -> & _).
    unfold file_or_absent. rewrite Ho by (by apply file_not_layout). by apply B.
  - intros f k Hin. destruct (run_file_parts f Hp Hin) as (x & Hx%template_file & -> & _). by apply below_not_temp.
  - intros f Hin [_ Hr']%andb_true_iff. destruct (run_file_parts f Hp Hin) as (x & _ & Hpath & Hrt).
    destruct (Hrt Hr') as [name ->]. eauto.
  - rewrite run_file_paths by done. apply NoDup_fmap_2; [intros x y; apply app_inv_head|]. decided.
  - intros k Hk. rewrite Ho by apply temp_not_layout. apply B. by rewrite <- Hr.
Qed.

(** The dotenv file at the end. *)
Lemma run_dotenv dev r d4 :
  bootable -> calm d d4 -> (forall q, q ∈ layout dir -> is_directory (nodes d4) q) ->
  file_or_absent (nodes d4) (dir ++ [dotEnvFileName]) ->
  temps_free dir (nodes d4) (randoms d4) -> 0 < length (randoms d4) ->
  exists d5 c m, writeDotEnv proc run_input dev r d4 =
      (Ok (result_add (path_string (path_join host dotEnvFileName)) (absent (nodes d4) (dir ++ [dotEnvFileName])) r), d5) /\
    only [dir ++ [dotEnvFileName]] (nodes d4) (nodes d5) /\
    nodes d5 !! (dir ++ [dotEnvFileName]) = Some (Regular c m) /\
    match nodes d4 !! (dir ++ [dotEnvFileName]) with
    | Some (Regular c0 _) => c = replaceDotEnvValue c0 runtimeUserEnvName user
    | _ => loadAPITokenFromDotEnv c = newAPIToken (Some bytes)
    end.
Proof.
  intros B [Hf4 Hu4] Hd Hfile Ht Hlen. pose proof (boot_plain B) as Hp.
  set (env := dir ++ [dotEnvFileName]) in *. destruct (boot_bytes B) as [Hb Hbl].
  destruct (newAPIToken_hex bytes Hbl) as (token & Htok & Hhex & _).
  unfold writeDotEnv, lift, mbind, fs_mbind. rewrite Hb, Htok. cbn [i_configDir i_hostConfigDir i_controllerImage i_runtimeUser run_input].
  rewrite !(path_join_name dir dotEnvFileName) by done. fold env.
  set (rendered := renderEnvFile _ _ _ _ _).
  assert (Hreach : reach (nodes d4) env = Reachable) by (apply run_reach; [done|decided]).
  destruct (writeFileIfAbsent_calm env rendered d4 Hf4 Hreach Hfile) as (d5 & He & [Hf5 Hu5] & Hr5 & Hn5). rewrite He.
  unfold absent, seeded in *. destruct Hfile as [Hnone|(c0 & m0 & Hold)].
  - rewrite Hnone in *. eexists d5, rendered, _. split_and!; [reflexivity| |by rewrite Hn5, lookup_insert_eq|].
    + intros q Hq. rewrite Hn5, lookup_insert_ne; [done|]. intros <-. apply Hq. by left.
    + destruct (boot_sizes B) as (Hs1 & Hs2 & Hs3). apply load_rendered; [..|done]; split; try done.
      * eapply checkedAbsolutePath_line, B.
      * eapply checkedImageReference_line, B.
      * eapply checkedRuntimeUser_line, B.
  - rewrite Hold in *. unfold upsertDotEnvValue, readRegularDotEnv, mbind, fs_mbind.
    assert (Hread : lstat env d5 = (Ok (Some (Regular c0 m0)), d5)).
    { rewrite lstat_calm by (done || (rewrite Hn5; congruence)). by rewrite Hn5, Hreach, Hold. }
    assert (Hcont : read_file env d5 = (Ok c0, d5)).
    { unfold read_file, mbind, fs_mbind. rewrite attempt_calm by done. cbn. by rewrite Hn5, Hreach, Hold. }
    rewrite Hread. cbn [is_regular]. rewrite Hcont.
    destruct (String.eqb_spec (replaceDotEnvValue c0 runtimeUserEnvName user) c0) as [Heq|Hne].
    + exists d5, c0, m0. split_and!; [reflexivity|by rewrite Hn5|by rewrite Hn5|done].
    + destruct (randoms d4) as [|k rest] eqn:Hk; [simpl in Hlen; lia|].
      destruct (writeRefreshedFile_calm dir dotEnvFileName (replaceDotEnvValue c0 runtimeUserEnvName user)
        bootstrapFileMode d5 k rest) as (d6 & He6 & _ & _ & Hn6).
      { done. } { by rewrite Hn5. } { right. rewrite Hn5. eauto. } { by apply no_temp_app. } { by rewrite Hr5. }
      { rewrite Hn5. apply Ht. by left. }
      fold env in He6, Hn6. rewrite He6. eexists d6, _, _. split_and!; [reflexivity| |by rewrite Hn6, lookup_insert_eq|done].
      intros q Hq. rewrite Hn6, lookup_insert_ne; [by rewrite Hn5|]. intros <-. apply Hq. by left.
Qed.

(** The Compose templates, the operator files and the example. *)
Lemma run_templates d2 :
  bootable -> calm d d2 -> randoms d2 = randoms d -> only (layout dir) (nodes d) (nodes d2) ->
  (forall q, q ∈ layout dir -> is_directory (nodes d2) q) ->
  exists d4, writeBootstrapFiles t run_input (o_Development options) (o_RefreshRuntimeTemplates options)
      (mkBootstrapResult [] [] []) d2 =
      (Ok (result_refreshed (path_string (path_join host dotEnvExampleFileName))
         (fold_left (report (nodes d2) (o_RefreshRuntimeTemplates options)) run_files (mkBootstrapResult [] [] []))), d4) /\
    calm d d4 /\ only ((bf_path <$> run_files) ++ [dir ++ [dotEnvExampleFileName]]) (nodes d2) (nodes d4) /\
    (forall f, f ∈ run_files ->
       nodes d4 !! bf_path f = Some (expected (nodes d2) (umask d) (o_RefreshRuntimeTemplates options) f)) /\
    temps_free dir (nodes d4) (randoms d4) /\ 0 < length (randoms d4).
Proof.
  intros B Hc Hr Ho Hd. pose proof (boot_plain B) as Hp.
  pose proof (run_placed d2 B Hc Hr Ho Hd) as Hpl. destruct Hc as [Hf2 Hu2].
  set (example := dir ++ [dotEnvExampleFileName]).
  assert (Hex : example ∉ bf_path <$> run_files).
  { rewrite run_file_paths by done. intros (x & Hx & Hin)%list_elem_of_fmap. apply app_inv_head in Hx. subst x.
    revert Hin. change ([dotEnvExampleFileName] ∉ template_parts). decided. }
  assert (Hfiles : forall p, p ∈ bf_path <$> run_files -> file_or_absent (nodes d2) p).
  { intros p (f & -> & Hin)%list_elem_of_fmap. by apply Hpl. }
  destruct (writeEach_calm dir (o_RefreshRuntimeTemplates options) run_files d2 (mkBootstrapResult [] [] []) Hpl)
    as (d3 & He3 & [Hf3 Hu3] & Ho3 & Hx3 & Ht3 & Hl3); [rewrite Hr; pose proof (boot_randoms B); simpl; lia|].
  assert (Hlen : 2 < length (randoms d3)).
  { rewrite Hr in Hl3. pose proof (boot_randoms B). change (length run_files) with 5 in Hl3. lia. }
  destruct (randoms d3) as [|k rest] eqn:Hk; [simpl in Hlen; lia|].
  assert (Hexr : reach (nodes d2) example = Reachable) by (apply run_reach; [done|decided]).
  destruct (writeRefreshedFile_calm dir dotEnvExampleFileName
    (renderEnvExample (path_string host) image user (o_Development options)) bootstrapExampleMode d3 k rest)
    as (d4 & He4 & [Hf4 Hu4] & Hr4 & Hn4); [done| | |by apply no_temp_app|done|apply Ht3; by left|].
  { eapply only_reach; [exact Ho3|exact Hfiles|exact Hexr]. }
  { unfold file_or_absent. fold example. rewrite Ho3 by done. rewrite Ho by (apply file_not_layout; decided).
    apply B. decided. }
  fold example in He4, Hn4. exists d4. unfold writeBootstrapFiles, writeExampleFile, mbind, fs_mbind.
  cbn [i_configDir i_hostConfigDir i_controllerImage i_runtimeUser run_input].
  rewrite !(path_join_name dir dotEnvExampleFileName) by done.
  change (bootstrapFiles t dir host) with run_files. rewrite He3. fold example. rewrite He4.
  split; [done|]. split; [split; congruence|]. split_and!.
  - intros q Hq. apply not_elem_of_app in Hq as [Hq1 Hq2]. rewrite Hn4, lookup_insert_ne; [by apply Ho3|].
    intros <-. apply Hq2. by left.
  - intros f Hin. rewrite Hn4, lookup_insert_ne.
    + rewrite Hx3 by done. by rewrite Hu2.
    + intros He. apply Hex. rewrite He. by apply list_elem_of_fmap_2.
  - intros k' Hk'. rewrite Hn4, lookup_insert_ne.
    + apply Ht3. right. by rewrite <- Hr4.
    + apply below_not_temp. decided.
  - rewrite Hr4. simpl in Hlen. lia.
Qed.

End run.

(** C33. When nothing fails, [config init] leaves a complete configuration: it
    succeeds; all directories exist; each generated file that was missing has
    its template, each existing one is kept, except Compose templates on
    request; a new dotenv file yields exactly the generated token, an existing
    one only has its runtime user replaced, and its token is still the same; the
    report lists what was created, preserved and refreshed. *)
Theorem BootstrapConfig_complete t proc options d dir host image user bytes :
  bootable proc options d dir host image user bytes ->
  exists d' c m,
    BootstrapConfig t proc options d =
      (Ok (result_add (path_string (path_join host dotEnvFileName)) (absent (nodes d) (dir ++ [dotEnvFileName]))
        (result_refreshed (path_string (path_join host dotEnvExampleFileName))
          (fold_left (report (nodes d) (o_RefreshRuntimeTemplates options)) (run_files t dir host)
            (mkBootstrapResult [] [] [])))), d') /\
    (forall q, q ∈ layout dir -> is_directory (nodes d') q) /\
    (forall f, f ∈ run_files t dir host ->
       nodes d' !! bf_path f = Some (expected (nodes d) (umask d) (o_RefreshRuntimeTemplates options) f)) /\
    nodes d' !! (dir ++ [dotEnvFileName]) = Some (Regular c m) /\
    match nodes d !! (dir ++ [dotEnvFileName]) with
    | Some (Regular c0 _) =>
        c = replaceDotEnvValue c0 runtimeUserEnvName user /\
        (Forall short (split c0 newline) -> loadAPITokenFromDotEnv c = loadAPITokenFromDotEnv c0)
    | _ => loadAPITokenFromDotEnv c = newAPIToken (Some bytes)
    end.
Proof.
  intros B. pose proof (boot_plain _ _ _ _ _ _ _ _ B) as Hp.
  destruct (run_directories _ _ _ _ _ _ _ _ B) as (d1 & d2 & He1 & He2 & Hc2 & Hr2 & Ho2 & Hd2).
  destruct (run_templates t _ _ _ _ _ _ _ _ d2 B Hc2 Hr2 Ho2 Hd2) as (d4 & He4 & Hc4 & Ho4 & Hx4 & Ht4 & Hl4).
  assert (Hsame : forall x, x ∈ file_parts -> nodes d2 !! (dir ++ x) = nodes d !! (dir ++ x)).
  { intros x Hx. by apply Ho2, file_not_layout. }
  set (touched := (bf_path <$> run_files t dir host) ++ [dir ++ [dotEnvExampleFileName]]) in *.
  assert (Htouched : forall p, p ∈ touched -> exists x, x ∈ file_parts /\ x <> [dotEnvFileName] /\ p = dir ++ x).
  { intros p [Hin|Hin%list_elem_of_singleton]%elem_of_app.
    - rewrite run_file_paths in Hin by done. apply list_elem_of_fmap in Hin as (x & -> & Hx).
      exists x. split_and!; [by apply template_file| |done]. intros ->. revert Hx.
      change ([dotEnvFileName] ∉ template_parts). decided.
    - exists [dotEnvExampleFileName]. split_and!; [decided|done|done]. }
  assert (Hd4 : forall q, q ∈ layout dir -> is_directory (nodes d4) q).
  { intros q Hq. eapply only_dirs; [exact Ho4| |by apply Hd2]. intros p (x & Hx & _ & ->)%Htouched.
    unfold file_or_absent. rewrite Hsame by done. by apply B. }
  assert (Henv : nodes d4 !! (dir ++ [dotEnvFileName]) = nodes d !! (dir ++ [dotEnvFileName])).
  { rewrite Ho4; [apply Hsame; decided|]. intros (x & _ & Hne & He)%Htouched. apply app_inv_head in He. by subst. }
  destruct (run_dotenv _ _ _ _ _ _ _ _ (o_Development options)
    (result_refreshed (path_string (path_join host dotEnvExampleFileName))
       (fold_left (report (nodes d2) (o_RefreshRuntimeTemplates options)) (run_files t dir host)
          (mkBootstrapResult [] [] []))) d4 B Hc4 Hd4) as (d5 & c & m & He5 & Ho5 & Hn5 & Hm5);
    [unfold file_or_absent; rewrite Henv; apply B; decided|done|done|].
  assert (Hpart : forall f, f ∈ run_files t dir host -> exists x, x ∈ template_parts /\ bf_path f = dir ++ x).
  { intros f Hf. destruct (run_file_parts t dir host f Hp Hf) as (x & ? & ? & _). eauto. }
  exists d5, c, m. split_and!.
  - unfold BootstrapConfig, mbind, fs_mbind. rewrite He1. cbn [i_configDir run_input]. rewrite He2, He4, He5.
    unfold absent. rewrite Henv. do 3 f_equal. f_equal. apply fold_report_ext. intros f Hf.
    destruct (Hpart f Hf) as (x & Hx & ->). by apply Hsame, template_file.
  - intros q Hq. eapply only_dirs; [exact Ho5| |by apply Hd4]. intros p ->%list_elem_of_singleton.
    unfold file_or_absent. rewrite Henv. apply B. decided.
  - intros f Hf. destruct (Hpart f Hf) as (x & Hx & Hpath). rewrite Ho5.
    + rewrite Hx4 by done. unfold expected. rewrite Hpath, Hsame by (by apply template_file). done.
    + rewrite Hpath. intros He%list_elem_of_singleton. apply app_inv_head in He. subst x. revert Hx.
      change ([dotEnvFileName] ∉ template_parts). decided.
  - done.
  - rewrite Henv in Hm5. destruct (nodes d !! (dir ++ [dotEnvFileName])) as [[]|]; try exact Hm5.
    split; [done|]. intros Hs. subst c. rewrite !load_split, replace_lines.
    + apply find_token_edited; [done|done| |done]. unfold short, maxScanTokenSize, assignment.
      rewrite string_app_length. simpl String.length. pose proof (boot_sizes _ _ _ _ _ _ _ _ B). lia.
    + done.
    + eapply checkedRuntimeUser_line, B.
Qed.

(** ** Examples *)

Module BootstrapExamples.
Definition templates : Templates := mkTemplates "P" "R" "C" "H" "N".
Definition proc : Process := mkProcess 1000 1000 (Some (String.concat "" (replicate 32 "k"))).
Definition options : BootstrapOptions :=
  mkBootstrapOptions " /srv/../pr0x//cfg/ " "/host" "img" "" false false.
Definition run (o : BootstrapOptions) (d : Disk) : res BootstrapResult * Disk := BootstrapConfig templates proc o d.
Definition roomy : Disk := mkDisk {[ [] := Directory 493 ]} 18 [] [1; 2; 3; 4; 5; 6; 7; 8]%N.
Definition dir : list string := ["pr0x"; "cfg"].

Lemma fresh_run :
  (run options roomy).1 = Ok (mkBootstrapResult
    ["/host/secrets/pools.yaml"; "/host/config/egress-routing.yaml"; "/host/docker-compose.yml";
     "/host/docker-compose.host-ports.yml"; "/host/docker-compose.no-host-ports.yml"; "/host/.env"]
    [] ["/host/.env.example"]).
Proof. vm_compute. reflexivity. Qed.

Lemma roomy_bootable : bootable proc options roomy dir ["host"] "img" "1000:1000" (String.concat "" (replicate 32 "k")).
Proof.
  constructor; try (vm_compute; reflexivity).
  - split; vm_compute; reflexivity.
  - split_and!; vm_compute; reflexivity.
  - apply Forall_forall. unfold layout, parents, dir, subdirs. cbn.
    repeat (apply Forall_cons; split; [first [left; vm_compute; reflexivity|right; eexists; vm_compute; reflexivity]|]).
    apply Forall_nil_2.
  - apply Forall_forall. unfold file_parts, template_parts. cbn.
    repeat (apply Forall_cons; split; [left; vm_compute; reflexivity|]). apply Forall_nil_2.
  - unfold temps_free. apply Forall_forall.
    repeat (apply Forall_cons; split; [vm_compute; reflexivity|]). apply Forall_nil_2.
Qed.


(** The disk after a first run. *)
Definition configured : Disk := (run options roomy).2.

Lemma BootstrapConfig_complete_witness :
  exists d' c m, (run options roomy).2 = d' /\ nodes d' !! (dir ++ [dotEnvFileName]) = Some (Regular c m) /\
    loadAPITokenFromDotEnv c = newAPIToken (Some (String.concat "" (replicate 32 "k"))).
Proof.
  destruct (BootstrapConfig_complete templates proc options roomy _ _ _ _ _ roomy_bootable)
    as (d' & c & m & He & _ & _ & Henv & Htok).
  exists d', c, m. split; [unfold run; by rewrite He|]. split; [exact Henv|]. exact Htok.
Defined.

Lemma BootstrapConfig_preserves_witness :
  nodes (run options configured).2 !! (dir ++ ["secrets"; "pools.yaml"]) = Some (Regular "P" 384).
Proof.
  destruct (BootstrapConfig_preserves templates proc options dir configured _ _ eq_refl (surjective_pairing _))
    as [[Hfiles _] _].
  apply Hfiles; [vm_compute; reflexivity|reflexivity|]. apply (bool_decide_unpack _). vm_compute. exact I.
Defined.

(** A failing write leaves a shortened file behind, and the next run keeps it:
    the twentieth call writes [pools.yaml]. *)
Definition full_disk : Disk := mkDisk (nodes roomy) 18 (replicate 19 None ++ [Some 0]) [1; 2; 3; 4; 5; 6; 7; 8]%N.

Theorem partial_file_preserved :
  let failed := run options full_disk in
  let again := run options failed.2 in
  failed.1 = Err ErrForeign /\ is_ok again.1 = true /\
  nodes again.2 !! (dir ++ ["secrets"; "pools.yaml"]) = Some (Regular "" 384).
Proof. vm_compute. done. Qed.
End BootstrapExamples.
