(* ===== verification/PoolState.v ===== *)
(** * Runtime state of one pool ([pool.go], [PoolState])

    Every method of [PoolState] runs under its mutex, so each is one function
    from the state to the state and the result: a critical section.  The clock
    reading and the random draw a section makes are arguments.  The sections
    the reaper and the manager open on a pool's mutex themselves ([markReaping],
    [refreshHealthy], [markUnhealthy]) are here too.

    [hotGauge] is the value of [TunnelHotGauge] for the pool, which [setTunnel]
    writes inside the critical section. *)

From S2P Require Import Prelude GoStrings Expiring Types.

Record PoolState := mkPoolState {
  Spec : PoolSpec;
  tunnel : option Tunnel;
  failed : gmap string Z;
  hotGauge : Z;
}.

Definition NewPoolState (spec : PoolSpec) : PoolState := mkPoolState spec None ∅ 0.

Definition with_tunnel (t : option Tunnel) (p : PoolState) : PoolState :=
  mkPoolState (Spec p) t (failed p) (hotGauge p).
Definition with_failed (f : gmap string Z) (p : PoolState) : PoolState :=
  mkPoolState (Spec p) (tunnel p) f (hotGauge p).

(** [Snapshot]: a copy of the current tunnel. *)
Definition Snapshot (p : PoolState) : PoolState * option Tunnel := (p, tunnel p).

(** [sameURL]: scheme and host. *)
Definition sameURL (a b : URL) : bool :=
  String.eqb (Scheme a) (Scheme b) && String.eqb (Host a) (Host b).

(** ** The failure cache *)

(** [now.Sub(at) > ttl]. *)
Definition failure_expired (now ttl at_ : Z) : bool := (ttl <? time_sub now at_)%Z.

Definition cleanFailed (now ttl : Z) (f : gmap string Z) : gmap string Z :=
  prune (fun now at_ => failure_expired now ttl at_) now f.

Definition cleanFailedLocked (now ttl : Z) (p : PoolState) : PoolState :=
  with_failed (cleanFailed now ttl (failed p)) p.

Definition candidates (p : PoolState) (exclude : gset string) : list string :=
  filter (fun conf => failed p !! conf = None /\ conf ∉ exclude) (Configs (Spec p)).

(** [pickConf]; [draw] is the random source: [rand.IntN n] is [draw mod n]. *)
Definition pickConf (now : Z) (draw : nat) (exclude : gset string) (ttl : Z) (p : PoolState) :
    PoolState * res string :=
  let p := cleanFailedLocked now ttl p in
  let cs := candidates p exclude in
  match cs !! (draw mod (length cs)) with
  | Some conf => (p, Ok conf)
  | None => (p, Err ErrPoolExhausted)
  end.

Definition markFailed (conf : string) (now : Z) (p : PoolState) : PoolState :=
  with_failed (<[conf := now]> (failed p)) p.

Definition RecentlyFailedCount (now ttl : Z) (p : PoolState) : PoolState * nat :=
  let p := cleanFailedLocked now ttl p in (p, size (failed p)).

(** ** The tunnel slot *)

Definition setTunnel (t : option Tunnel) (p : PoolState) : PoolState :=
  mkPoolState (Spec p) t (failed p) (match t with Some _ => 1 | None => 0 end)%Z.

(** The reservation made by both acquire paths: one more in flight, used now. *)
Definition reserve (now : Z) (t : Tunnel) : Tunnel :=
  set_LastUsedAt now (set_InFlight (wrap64 (InFlight t + 1)) t).

Definition is_excluded (excludeProxy : option URL) (t : Tunnel) : bool :=
  match excludeProxy, ProxyURL t with
  | Some e, Some u => sameURL u e
  | _, _ => false
  end.

(** [acquire]. *)
Definition acquire (excludeProxy : option URL) (now : Z) (p : PoolState) :
    PoolState * res Tunnel :=
  match tunnel p with
  | None => (p, Err ErrPoolUnavailable)
  | Some t =>
      if negb (bool_decide (State t = TunnelStateHot)) then (p, Err ErrPoolUnavailable) else
      if is_excluded excludeProxy t then (p, Err ErrPoolExhausted) else
      let t := reserve now t in (with_tunnel (Some t) p, Ok t)
  end.

(** [release]. *)
Definition release (p : PoolState) : PoolState :=
  match tunnel p with
  | None => p
  | Some t => if (InFlight t <=? 0)%Z then p
              else with_tunnel (Some (set_InFlight (wrap64 (InFlight t - 1)) t)) p
  end.

(** [acquireContainer]. *)
Definition acquireContainer (containerID : string) (now : Z) (p : PoolState) :
    PoolState * res Tunnel :=
  match tunnel p with
  | None => (p, Err ErrPoolUnavailable)
  | Some t =>
      if negb (bool_decide (State t = TunnelStateHot)) ||
         negb (String.eqb (ContainerID t) containerID) then (p, Err ErrPoolUnavailable) else
      let t := reserve now t in (with_tunnel (Some t) p, Ok t)
  end.

(** Update the current tunnel when it is still the given container. *)
Definition on_container (containerID : string) (f : Tunnel -> Tunnel) (p : PoolState) :
    PoolState :=
  match tunnel p with
  | Some t => if String.eqb (ContainerID t) containerID then with_tunnel (Some (f t)) p else p
  | None => p
  end.

(** [setLastURL]. *)
Definition setLastURL (containerID value : string) (expiresAt : Z) (p : PoolState) : PoolState :=
  on_container containerID (set_LastURL value expiresAt) p.

(** The section of [Reaper.killTunnel] ([reaper.go]). *)
Definition markReaping (containerID : string) (p : PoolState) : PoolState :=
  on_container containerID (set_State TunnelStateReaping) p.

(** The section of [Reaper.checkHealth] for a healthy probe ([reaper.go]). *)
Definition refreshHealthy (containerID : string) (now : Z) (p : PoolState) : PoolState :=
  on_container containerID (set_HealthyAt now) p.

(** The first section of [Manager.MarkFailed]. *)
Definition markUnhealthy (confName : string) (p : PoolState) : PoolState :=
  match tunnel p with
  | Some t => if String.eqb (ConfName t) confName
              then with_tunnel (Some (set_State TunnelStateUnhealthy t)) p else p
  | None => p
  end.

(** ** Frame facts *)

Lemma Spec_acquire e n p : Spec (acquire e n p).1 = Spec p.
Proof. unfold acquire. repeat case_match; done. Qed.
Lemma Spec_release p : Spec (release p) = Spec p.
Proof. unfold release. repeat case_match; done. Qed.
Lemma Spec_acquireContainer c n p : Spec (acquireContainer c n p).1 = Spec p.
Proof. unfold acquireContainer. repeat case_match; done. Qed.
Lemma Spec_on_container c f p : Spec (on_container c f p) = Spec p.
Proof. unfold on_container. repeat case_match; done. Qed.
Lemma Spec_pickConf n d e t p : Spec (pickConf n d e t p).1 = Spec p.
Proof. unfold pickConf. case_match; done. Qed.
Lemma Spec_markUnhealthy c p : Spec (markUnhealthy c p) = Spec p.
Proof. unfold markUnhealthy. repeat case_match; done. Qed.

#[export] Hint Rewrite Spec_acquire Spec_release Spec_acquireContainer Spec_on_container
  Spec_pickConf Spec_markUnhealthy : pr0x.

(** ** Selection of a configuration *)

Lemma cleanFailed_lookup now ttl f c :
  cleanFailed now ttl f !! c = None <->
  match f !! c with None => True | Some at_ => failure_expired now ttl at_ = true end.
Proof.
  unfold cleanFailed, prune. rewrite map_lookup_filter. destruct (f !! c) as [at_|]; simpl; [|done].
  case_guard; simpl; split; try done; [congruence|].
  intros _. by destruct (failure_expired now ttl at_).
Qed.

Lemma mod_lookup {A} (l : list A) (n : nat) : (l <> []) -> is_Some (l !! (n mod (length l))).
Proof.
  intros Hl. apply lookup_lt_is_Some. apply Nat.mod_upper_bound.
  by destruct l.
Qed.

(** [available p now ttl exclude c]: [c] is a configuration of the pool, did
    not fail within [ttl] of [now], and is not excluded. *)
Definition available (p : PoolState) (now ttl : Z) (exclude : gset string) (c : string) : Prop :=
  c ∈ Configs (Spec p) /\ (c ∉ exclude) /\
  match failed p !! c with None => True | Some at_ => failure_expired now ttl at_ = true end.

Lemma elem_of_candidates p now ttl exclude c :
  c ∈ candidates (cleanFailedLocked now ttl p) exclude <-> available p now ttl exclude c.
Proof.
  unfold candidates, available. rewrite list_elem_of_filter. simpl.
  rewrite cleanFailed_lookup. naive_solver.
Qed.

(** What one call of [pickConf] yields. *)
Lemma pickConf_result now draw exclude ttl p :
  exists r, pickConf now draw exclude ttl p = (cleanFailedLocked now ttl p, r) /\
    match r with
    | Ok c => available p now ttl exclude c
    | Err e => e = ErrPoolExhausted /\ forall c, ~ available p now ttl exclude c
    end.
Proof.
  unfold pickConf. set (cs := candidates (cleanFailedLocked now ttl p) exclude).
  destruct (cs !! (draw mod length cs)) as [c|] eqn:Hl; eexists; (split; [done|]); simpl.
  - apply elem_of_candidates. by eapply list_elem_of_lookup_2.
  - split; [done|]. intros c Hav%elem_of_candidates. fold cs in Hav.
    destruct (mod_lookup cs draw) as [? ?]; [|congruence]. intros Hn. rewrite Hn in Hav.
    by apply elem_of_nil in Hav.
Qed.

(** Selecting a configuration: [pickConf] returns a configuration that is
    available (in the pool, outside the caller's exclusions, and without a
    failure in the last [ttl]); it reports [ErrPoolExhausted] exactly when none
    is available; every available configuration is returned for some random
    draw; and the only state it changes is the expired part of the failure
    cache. *)
Theorem pickConf_correct now draw exclude ttl p :
  (forall c, (pickConf now draw exclude ttl p).2 = Ok c -> available p now ttl exclude c) /\
  ((pickConf now draw exclude ttl p).2 = Err ErrPoolExhausted <->
     (forall c, ~ available p now ttl exclude c)) /\
  (forall c, available p now ttl exclude c ->
     exists draw', (pickConf now draw' exclude ttl p).2 = Ok c) /\
  (pickConf now draw exclude ttl p).1 = cleanFailedLocked now ttl p.
Proof.
  destruct (pickConf_result now draw exclude ttl p) as (r & Hr & Hs). rewrite Hr. simpl.
  split_and!; try done.
  - by intros c ->.
  - destruct r as [c|e]; simpl; [|naive_solver]. split; [done|]. intros Hno. by destruct (Hno c).
  - intros c Hav%elem_of_candidates. apply list_elem_of_lookup_1 in Hav as [i Hi]. exists i.
    unfold pickConf. rewrite Nat.mod_small by (by eapply lookup_lt_Some). by rewrite Hi.
Qed.

(** ** The failure cache as a history

    Dropping expired entries is an optimisation.  [time.Now()] is read outside the
    pool's mutex, so the readings need not be in the order of the sections; when
    they are, the cache answers as if every recorded failure were kept. *)

Lemma failure_expired_mono ttl now now' at_ :
  (now <= now')%Z -> failure_expired now ttl at_ = true -> failure_expired now' ttl at_ = true.
Proof.
  unfold failure_expired. rewrite !Z.ltb_lt. intros Hle Hlt.
  pose proof (time_sub_mono now now' at_ Hle). lia.
Qed.

Inductive failure_op :=
  | FMark (conf : string) (now : Z)    (** [markFailed conf now] *)
  | FClean (now : Z).                  (** the trim of [pickConf] and [RecentlyFailedCount] *)

Definition failure_step (ttl : Z) (p : PoolState) (o : failure_op) : PoolState :=
  match o with
  | FMark conf now => markFailed conf now p
  | FClean now => cleanFailedLocked now ttl p
  end.

Definition failure_exp_op (o : failure_op) : exp_op Z :=
  match o with FMark conf now => EPut conf now now | FClean now => EPrune now end.

Lemma failure_steps_exp ttl ops p :
  failed (foldl (failure_step ttl) p ops) =
  foldl (exp_step (fun now at_ => failure_expired now ttl at_)) (failed p) (failure_exp_op <$> ops).
Proof.
  revert p. induction ops as [|o ops IH]; intros p; simpl; [done|].
  rewrite IH. by destruct o.
Qed.

(** The most recent failure of a configuration, with the clock readings of the
    clean-ups since, latest first. *)
Definition failure_since (ops : list failure_op) (conf : string) : option (Z * list Z) :=
  put_since (failure_exp_op <$> ops) conf.

(** C27. The failure cache refines the history of failures.  After any sequence
    of recordings and clean-ups, with whatever clock readings, the cache trimmed
    at [now] holds for each configuration its most recent failure if none of the
    clean-ups since, this one included, found it older than [ttl], and nothing
    otherwise.  When the readings are in the order of the sections, that is the
    most recent failure exactly if it is not older than [ttl] at [now]: trimming
    early is then invisible to [pickConf] and [RecentlyFailedCount]. *)
Theorem failure_cache_refines ttl spec ops now c :
  let kept := failed (cleanFailedLocked now ttl (foldl (failure_step ttl) (NewPoolState spec) ops)) !! c in
  kept =
    match failure_since ops c with
    | Some (at_, readings) =>
        if existsb (fun t => failure_expired t ttl at_) (now :: readings) then None else Some at_
    | None => None
    end /\
  (StronglySorted Z.le ((exp_time <$> (failure_exp_op <$> ops)) ++ [now]) ->
   kept =
     match last_put (failure_exp_op <$> ops) c with
     | Some at_ => if failure_expired now ttl at_ then None else Some at_
     | None => None
     end).
Proof.
  simpl. rewrite failure_steps_exp. simpl. split.
  - unfold cleanFailed, failure_since. rewrite prune_lookup, expiring_lookup.
    destruct (put_since _ c) as [[at_ l]|]; [|done].
    by destruct (existsb _ l), (failure_expired now ttl at_).
  - intros Hs. apply (expiring_refines (fun now at_ => failure_expired now ttl at_)); [|done].
    apply failure_expired_mono.
Qed.

(** ** Reserving and releasing a tunnel *)

(** [acquire] hands out a tunnel exactly when the slot holds a hot one
    that is not the excluded proxy; the copy returned is the stored tunnel with
    one more reservation and the current time of use.  It fails with
    [ErrPoolExhausted] exactly when the hot tunnel is the excluded proxy, and
    with [ErrPoolUnavailable] otherwise; a failure leaves the pool as it was. *)
Lemma acquire_correct excludeProxy now p :
  match acquire excludeProxy now p with
  | (p', Ok t) =>
      exists t0, tunnel p = Some t0 /\ State t0 = TunnelStateHot /\
        is_excluded excludeProxy t0 = false /\ t = reserve now t0 /\
        p' = with_tunnel (Some t) p
  | (p', Err e) =>
      p' = p /\
      ((e = ErrPoolExhausted /\ exists t0, tunnel p = Some t0 /\ State t0 = TunnelStateHot /\
          is_excluded excludeProxy t0 = true) \/
       (e = ErrPoolUnavailable /\ forall t0, tunnel p = Some t0 -> State t0 <> TunnelStateHot))
  end.
Proof.
  unfold acquire. destruct (tunnel p) as [t|]; [|by eauto 10].
  case_bool_decide as Hh; simpl.
  - destruct (is_excluded excludeProxy t) eqn:He; simpl; eauto 10.
  - split; [done|]. right. split; [done|]. naive_solver.
Qed.

(** A lease's reservation is for the exact hot cell it names. *)
Lemma acquireContainer_correct c now p :
  match acquireContainer c now p with
  | (p', Ok t) =>
      exists t0, tunnel p = Some t0 /\ State t0 = TunnelStateHot /\ ContainerID t0 = c /\
        t = reserve now t0 /\ p' = with_tunnel (Some t) p
  | (p', Err e) =>
      p' = p /\ e = ErrPoolUnavailable /\
      forall t0, tunnel p = Some t0 -> State t0 = TunnelStateHot -> ContainerID t0 <> c
  end.
Proof.
  unfold acquireContainer. destruct (tunnel p) as [t|]; [|naive_solver].
  case_bool_decide as Hh; simpl; [|naive_solver].
  destruct (String.eqb_spec (ContainerID t) c); simpl; naive_solver.
Qed.

Definition in_flight (p : PoolState) : Z :=
  match tunnel p with Some t => InFlight t | None => 0 end.

(** Releasing undoes an acquisition: as long as the count of reservations
    stays below the largest [int], a successful [acquire] followed by
    [release] restores the pool except for the time of last use. *)
Theorem release_acquire excludeProxy now p p' t :
  acquire excludeProxy now p = (p', Ok t) ->
  (0 <= in_flight p < max_int64)%Z ->
  release p' = with_tunnel (set_LastUsedAt now <$> tunnel p) p /\
  in_flight (release p') = in_flight p.
Proof.
  intros Ha. pose proof (acquire_correct excludeProxy now p) as Hc. rewrite Ha in Hc.
  destruct Hc as (t0 & Ht & _ & _ & -> & ->). unfold in_flight, release. rewrite Ht. simpl.
  unfold max_int64. intros Hr.
  assert (wrap64 (InFlight t0 + 1) = InFlight t0 + 1)%Z as Hw
    by (apply wrap64_id; unfold min_int64, max_int64; lia).
  rewrite Hw. destruct (Z.leb_spec (InFlight t0 + 1) 0); [lia|].
  replace (InFlight t0 + 1 - 1)%Z with (InFlight t0) by lia.
  rewrite wrap64_id by (unfold min_int64, max_int64; lia).
  split; [|done]. unfold with_tunnel, reserve. done.
Qed.

(** ** Invariant of a pool *)

(** What holds of a pool at every moment: the tunnel in the slot belongs to
    the pool and was spawned from one of its configurations, the reservation
    count lies between zero and [bound], and the gauge tells whether the slot is
    occupied. *)
Record pool_wf (bound : Z) (p : PoolState) : Prop := {
  pw_pool : forall t, tunnel p = Some t -> Pool t = Name (Spec p);
  pw_conf : forall t, tunnel p = Some t -> ConfName t ∈ Configs (Spec p);
  pw_flight : (0 <= in_flight p <= bound)%Z;
  pw_gauge : hotGauge p = match tunnel p with Some _ => 1%Z | None => 0%Z end;
}.

Lemma pool_wf_mono b b' p : (b <= b')%Z -> pool_wf b p -> pool_wf b' p.
Proof. intros ? []. constructor; try done. lia. Qed.

(** An update of the tunnel that keeps its identity and count. *)
Lemma pool_wf_update b p t f :
  tunnel p = Some t ->
  Pool (f t) = Pool t -> ConfName (f t) = ConfName t ->
  (0 <= InFlight (f t) <= b)%Z ->
  pool_wf b p -> pool_wf b (with_tunnel (Some (f t)) p).
Proof.
  intros Ht Hp Hc Hf [H1 H2 H3 H4]. constructor; simpl; try done.
  - intros ? [= <-]. rewrite Hp. by apply H1.
  - intros ? [= <-]. rewrite Hc. by apply H2.
  - by rewrite H4, Ht.
Qed.

Lemma pool_wf_init spec b : (0 <= b)%Z -> pool_wf b (NewPoolState spec).
Proof. intros ?. by constructor. Qed.

Lemma pool_wf_clear b p : (0 <= b)%Z -> pool_wf b (setTunnel None p).
Proof. intros ?. by constructor. Qed.

Lemma pool_wf_publish b p t :
  Pool t = Name (Spec p) -> ConfName t ∈ Configs (Spec p) -> (0 <= InFlight t <= b)%Z ->
  pool_wf b (setTunnel (Some t) p).
Proof. intros ???. constructor; simpl; try done; intros t' Ht'; by simplify_eq. Qed.

Lemma pool_wf_failed b p f : pool_wf b p -> pool_wf b (with_failed f p).
Proof. intros []. by constructor. Qed.

Lemma pool_wf_on_container b p c f :
  (forall t, Pool (f t) = Pool t /\ ConfName (f t) = ConfName t /\ InFlight (f t) = InFlight t) ->
  pool_wf b p -> pool_wf b (on_container c f p).
Proof.
  intros Hf Hp. unfold on_container. destruct (tunnel p) as [t|] eqn:Ht; [|done].
  case_match; [|done]. destruct (Hf t) as (? & ? & Hi). eapply pool_wf_update; try done.
  rewrite Hi. destruct Hp as [_ _ H3 _]. unfold in_flight in H3. by rewrite Ht in H3.
Qed.

Lemma pool_wf_reserve b p t now :
  (b < max_int64)%Z -> tunnel p = Some t -> pool_wf b p ->
  pool_wf (b + 1) (with_tunnel (Some (reserve now t)) p).
Proof.
  intros Hb Ht Hp. pose proof Hp as [_ _ H3 _]. unfold in_flight in H3. rewrite Ht in H3.
  apply (pool_wf_update (b + 1) p t (reserve now)); try done.
  - simpl. rewrite wrap64_id; unfold min_int64, max_int64 in *; lia.
  - apply (pool_wf_mono b); [lia|done].
Qed.

Lemma pool_wf_acquire b p e now :
  (b < max_int64)%Z -> pool_wf b p -> pool_wf (b + 1) (acquire e now p).1.
Proof.
  intros Hb Hp. unfold acquire. destruct (tunnel p) as [t|] eqn:Ht;
    [|apply (pool_wf_mono b); [lia|done]].
  repeat case_match; simpl; try (apply (pool_wf_mono b); [lia|done]).
  by apply pool_wf_reserve.
Qed.

Lemma pool_wf_acquireContainer b p c now :
  (b < max_int64)%Z -> pool_wf b p -> pool_wf (b + 1) (acquireContainer c now p).1.
Proof.
  intros Hb Hp. unfold acquireContainer. destruct (tunnel p) as [t|] eqn:Ht;
    [|apply (pool_wf_mono b); [lia|done]].
  repeat case_match; simpl; try (apply (pool_wf_mono b); [lia|done]).
  by apply pool_wf_reserve.
Qed.

Lemma pool_wf_release b p : (b <= max_int64)%Z -> pool_wf b p -> pool_wf b (release p).
Proof.
  intros Hb Hp. unfold release. destruct (tunnel p) as [t|] eqn:Ht; [|done].
  destruct (Z.leb_spec (InFlight t) 0); [done|].
  pose proof Hp as [_ _ H3 _]. unfold in_flight in H3. rewrite Ht in H3.
  eapply (pool_wf_update b p t (set_InFlight _)); try done. simpl.
  rewrite wrap64_id; unfold min_int64, max_int64 in *; lia.
Qed.

Lemma pool_wf_pickConf b p now d e ttl : pool_wf b p -> pool_wf b (pickConf now d e ttl p).1.
Proof.
  intros Hp. unfold pickConf. case_match; simpl; by apply pool_wf_failed.
Qed.

Lemma pool_wf_markUnhealthy b p c : pool_wf b p -> pool_wf b (markUnhealthy c p).
Proof.
  intros Hp. unfold markUnhealthy. destruct (tunnel p) as [t|] eqn:Ht; [|done].
  case_match; [|done]. eapply (pool_wf_update b p t (set_State _)); try done. simpl.
  destruct Hp as [_ _ H3 _]. unfold in_flight in H3. by rewrite Ht in H3.
Qed.

#[export] Hint Resolve pool_wf_init pool_wf_clear pool_wf_publish pool_wf_failed
  pool_wf_release pool_wf_pickConf pool_wf_markUnhealthy : pr0x.

(** ** Witnesses *)

Module PoolExamples.
Definition spec : PoolSpec := mkPoolSpec "us" "" "" ["a.conf"; "b.conf"] ∅ "".
Definition hot : Tunnel :=
  mkTunnel "c1" "a.conf" None "gw" TunnelStateHot "us" "" "" 0 0 0 "" 0 2.
Definition pool : PoolState := setTunnel (Some hot) (NewPoolState spec).

Lemma failure_cache_refines_witness :
  failed (cleanFailedLocked 20 5 (foldl (failure_step 5) (NewPoolState spec)
            [FMark "a.conf" 1; FClean 10; FMark "b.conf" 18])) !! "a.conf" = None /\
  failed (cleanFailedLocked 20 5 (foldl (failure_step 5) (NewPoolState spec)
            [FMark "b.conf" 15; FClean 24; FMark "a.conf" 3; FClean 22])) !! "b.conf" = None.
Proof.
  split.
  - refine (proj2 (failure_cache_refines 5 spec [FMark "a.conf" 1; FClean 10; FMark "b.conf" 18] 20 "a.conf") _).
    repeat constructor; simpl; lia.
  - exact (proj1 (failure_cache_refines 5 spec
             [FMark "b.conf" 15; FClean 24; FMark "a.conf" 3; FClean 22] 20 "b.conf")).
Defined.

Lemma release_acquire_witness :
  let p' := (acquire None 7 pool).1 in
  release p' = with_tunnel (set_LastUsedAt 7 <$> tunnel pool) pool /\ in_flight (release p') = 2%Z.
Proof.
  refine (release_acquire None 7 pool (acquire None 7 pool).1 (reserve 7 hot) _ _).
  - reflexivity.
  - split; [discriminate|reflexivity].
Defined.
End PoolExamples.
