(* ===== verification/Lease.v ===== *)
(** * Proxy leases ([lease.go])

    The registry of short-lived capabilities.  [Issue] and [Lookup] change the
    registry only inside its mutex; those sections are [issue_section] and
    [Lookup].  The SHA-256 digest is the member [sha256] of the class [GoHash],
    on which nothing is assumed; random bytes are arguments. *)

From S2P Require Import Prelude GoStrings Expiring Encoding Types.

Definition proxyLeaseSecretBytes : nat := 32.

Class GoHash := { sha256 : string -> string }.

Record ProxyLease := mkProxyLease { Proxies : ProxyURLs; ExpiresAt : Z }.

Record proxyLeaseRecord := mkLeaseRecord {
  lr_Pool : string;
  lr_ContainerID : string;
  lr_InternalURL : option URL;
  lr_GatewayAddr : string;
  lr_SecretDigest : string;
  lr_ExpiresAt : Z;
}.

Record leaseRegistry := mkLeaseRegistry {
  lg_socksPublicAddr : string;
  lg_httpProxyPublicAddr : string;
  lg_ttl : Z;
  lg_leases : gmap string proxyLeaseRecord;
}.

Definition newLeaseRegistry (socks http : string) (ttl : Z) : leaseRegistry :=
  mkLeaseRegistry socks http ttl ∅.

Definition with_leases (m : gmap string proxyLeaseRecord) (r : leaseRegistry) : leaseRegistry :=
  mkLeaseRegistry (lg_socksPublicAddr r) (lg_httpProxyPublicAddr r) (lg_ttl r) m.

(** [newLeasePart]; [bytes] is the result of reading 32 random bytes. *)
Definition newLeasePart (bytes : option string) : res string :=
  match bytes with Some b => Ok (raw_url_encode b) | None => Err ErrForeign end.

(** The guard of [Issue]: the tunnel an acquisition must carry. *)
Definition issuable (acq : Acquisition) : option Tunnel :=
  match acq_Tunnel acq with
  | None => None
  | Some t =>
      if String.eqb (acq_Pool acq) "" || String.eqb (ContainerID t) "" ||
         bool_decide (ProxyURL t = None) || String.eqb (GatewayAddr t) ""
      then None else Some t
  end.

(** [!now.Before(record.ExpiresAt)]. *)
Definition lease_dead (now : Z) (r : proxyLeaseRecord) : bool :=
  negb (time_before now (lr_ExpiresAt r)).

(** [pruneExpiredLocked]. *)
Definition pruneExpiredLocked (now : Z) (r : leaseRegistry) : leaseRegistry :=
  with_leases (prune lease_dead now (lg_leases r)) r.

Section lease.
Context `{GoHash}.

Definition lease_record (acq : Acquisition) (t : Tunnel) (secret : string) (expiresAt : Z) :
    proxyLeaseRecord :=
  mkLeaseRecord (acq_Pool acq) (ContainerID t) (ProxyURL t) (GatewayAddr t) (sha256 secret)
    expiresAt.

(** The critical section of [Issue]. *)
Definition issue_section (now : Z) (leaseID : string) (record : proxyLeaseRecord)
    (r : leaseRegistry) : leaseRegistry :=
  let r := pruneExpiredLocked now r in with_leases (<[leaseID := record]> (lg_leases r)) r.

(** The URLs and expiry [Issue] returns. *)
Definition issued_lease (r : leaseRegistry) (leaseID secret : string) (expiresAt : Z) : ProxyLease :=
  mkProxyLease
    (mkProxyURLs
       (url_string (mkURL proxySchemeSOCKS5 (Some (leaseID, Some secret)) (lg_socksPublicAddr r)))
       (url_string (mkURL proxySchemeHTTP (Some (leaseID, Some secret)) (lg_httpProxyPublicAddr r))))
    expiresAt.

(** [Issue], with the two random reads and the clock as arguments. *)
Definition Issue (acq : Acquisition) (rand1 rand2 : option string) (now : Z) (r : leaseRegistry) :
    leaseRegistry * res ProxyLease :=
  match issuable acq with
  | None => (r, Err ErrPoolUnavailable)
  | Some t =>
      match newLeasePart rand1 with
      | Err e => (r, Err e)
      | Ok leaseID =>
          match newLeasePart rand2 with
          | Err e => (r, Err e)
          | Ok secret =>
              let expiresAt := time_add now (lg_ttl r) in
              (issue_section now leaseID (lease_record acq t secret expiresAt) r,
               Ok (issued_lease r leaseID secret expiresAt))
          end
      end
  end.

(** [Lookup]: prune, find the identifier, compare digests. *)
Definition Lookup (leaseID secret : string) (now : Z) (r : leaseRegistry) :
    leaseRegistry * option proxyLeaseRecord :=
  let r := pruneExpiredLocked now r in
  (r, match lg_leases r !! leaseID with
      | Some record => if String.eqb (lr_SecretDigest record) (sha256 secret)
                       then Some record else None
      | None => None
      end).

Lemma lease_dead_mono now now' r : (now <= now')%Z -> lease_dead now r = true -> lease_dead now' r = true.
Proof.
  unfold lease_dead, time_before. rewrite !negb_true_iff, !Z.ltb_ge. lia.
Qed.

Lemma Lookup_spec leaseID secret now r record :
  (Lookup leaseID secret now r).2 = Some record <->
  lg_leases r !! leaseID = Some record /\ (now < lr_ExpiresAt record)%Z /\
  lr_SecretDigest record = sha256 secret.
Proof.
  unfold Lookup, pruneExpiredLocked. simpl. rewrite prune_lookup.
  destruct (lg_leases r !! leaseID) as [rc|]; [|naive_solver].
  unfold lease_dead, time_before. destruct (Z.ltb_spec now (lr_ExpiresAt rc)); simpl.
  - destruct (String.eqb_spec (lr_SecretDigest rc) (sha256 secret)); naive_solver lia.
  - split; [done|]. intros ([= <-] & ? & _). lia.
Qed.

(** ** Pruning is invisible *)

Inductive lease_op :=
  | LIssue (leaseID : string) (record : proxyLeaseRecord) (now : Z)
  | LLookup (leaseID secret : string) (now : Z).

Definition lease_time (o : lease_op) : Z :=
  match o with LIssue _ _ now => now | LLookup _ _ now => now end.

Definition lease_step (r : leaseRegistry) (o : lease_op) : leaseRegistry :=
  match o with
  | LIssue leaseID record now => issue_section now leaseID record r
  | LLookup leaseID secret now => (Lookup leaseID secret now r).1
  end.

(** The record issued last under an identifier. *)
Definition last_issued (ops : list lease_op) (leaseID : string) : option proxyLeaseRecord :=
  foldl (fun acc o => match o with
                      | LIssue id record _ => if String.eqb id leaseID then Some record else acc
                      | LLookup _ _ _ => acc
                      end) None ops.

Definition lease_exp_ops (o : lease_op) : list (exp_op proxyLeaseRecord) :=
  match o with
  | LIssue id record now => [EPrune now; EPut id record now]
  | LLookup _ _ now => [EPrune now]
  end.

Lemma lease_steps_exp ops r :
  lg_leases (foldl lease_step r ops) =
  foldl (exp_step lease_dead) (lg_leases r) (ops ≫= lease_exp_ops).
Proof.
  revert r. induction ops as [|o ops IH]; intros r; [done|].
  rewrite bind_cons, foldl_app. simpl. rewrite IH. by destruct o.
Qed.

Lemma last_issued_put ops leaseID :
  last_put (ops ≫= lease_exp_ops) leaseID = last_issued ops leaseID.
Proof.
  unfold last_put, last_issued. generalize (@None proxyLeaseRecord).
  induction ops as [|o ops IH]; intros acc; [done|].
  rewrite bind_cons, foldl_app. simpl. rewrite <- IH. by destruct o.
Qed.

(** The record issued last under an identifier, with the clock readings of the
    critical sections since, latest first. *)
Definition issued_since (ops : list lease_op) (leaseID : string) :
    option (proxyLeaseRecord * list Z) :=
  foldl (fun acc o => match o with
                      | LIssue id record now =>
                          if String.eqb id leaseID then Some (record, [])
                          else (fun e => (e.1, now :: e.2)) <$> acc
                      | LLookup _ _ now => (fun e => (e.1, now :: e.2)) <$> acc
                      end) None ops.

Lemma issued_since_put ops leaseID :
  put_since (ops ≫= lease_exp_ops) leaseID = issued_since ops leaseID.
Proof.
  unfold put_since, issued_since. generalize (@None (proxyLeaseRecord * list Z)).
  induction ops as [|o ops IH]; intros acc; [done|].
  rewrite bind_cons, foldl_app. cbn [foldl]. rewrite <- IH. by destruct o.
Qed.

(** No reading found the record dead. *)
Lemma readings_alive record readings :
  existsb (fun t => lease_dead t record) readings =
  negb (forallb (fun t => t <? lr_ExpiresAt record)%Z readings).
Proof.
  induction readings as [|t l IH]; [done|]. simpl. rewrite IH, negb_andb. done.
Qed.

Lemma lease_times_sorted ops now :
  StronglySorted Z.le ((lease_time <$> ops) ++ [now]) ->
  StronglySorted Z.le ((exp_time <$> (ops ≫= lease_exp_ops)) ++ [now]).
Proof.
  induction ops as [|o ops IH]; intros Hs; [done|].
  rewrite bind_cons, fmap_app, <- app_assoc. rewrite fmap_cons, <- app_comm_cons in Hs.
  inversion Hs as [|? ? Hs' Hf]; subst. specialize (IH Hs').
  assert (Forall (Z.le (lease_time o)) ((exp_time <$> (ops ≫= lease_exp_ops)) ++ [now])) as Hall.
  { rewrite Forall_app in *. destruct Hf as [Hf ?]. split; [|done].
    rewrite Forall_fmap in Hf. rewrite Forall_fmap, Forall_bind. eapply Forall_impl; [exact Hf|].
    intros [] Hle; simpl in *; by repeat constructor. }
  destruct o as [id rc t|id sec t]; simpl in *; repeat constructor; try done; lia.
Qed.

(** C9. A lease is a capability with a lifetime.  After any sequence of issues
    and lookups, with whatever clock readings (each operation reads the clock
    before it takes the mutex, so a later section may carry an earlier reading),
    [Lookup] with an identifier and a secret returns the record issued last under
    that identifier if the secret's digest is the recorded one and no reading of a
    section since the issue, this lookup's included, has reached the expiry, and
    nothing otherwise.  When the readings are in the order of the sections this is
    the answer of a registry that never drops a record: only the expiry at the
    time of the lookup matters. *)
Theorem Lookup_refines socks http ttl ops leaseID secret now :
  let found := (Lookup leaseID secret now (foldl lease_step (newLeaseRegistry socks http ttl) ops)).2 in
  found =
    match issued_since ops leaseID with
    | Some (record, readings) =>
        if forallb (fun t => t <? lr_ExpiresAt record)%Z (now :: readings) &&
           String.eqb (lr_SecretDigest record) (sha256 secret)
        then Some record else None
    | None => None
    end /\
  (StronglySorted Z.le ((lease_time <$> ops) ++ [now]) ->
   found =
     match last_issued ops leaseID with
     | Some record => if (now <? lr_ExpiresAt record)%Z && String.eqb (lr_SecretDigest record) (sha256 secret)
                      then Some record else None
     | None => None
     end).
Proof.
  unfold Lookup, pruneExpiredLocked. simpl. rewrite lease_steps_exp. simpl. split.
  - rewrite prune_lookup, expiring_lookup, issued_since_put.
    destruct (issued_since ops leaseID) as [[rc l]|]; [|done]. rewrite readings_alive.
    unfold lease_dead, time_before.
    destruct (forallb _ l); simpl; by destruct (now <? lr_ExpiresAt rc)%Z.
  - intros Hs%lease_times_sorted.
    rewrite (expiring_refines lease_dead lease_dead_mono _ _ leaseID Hs).
    rewrite last_issued_put. destruct (last_issued ops leaseID) as [rc|]; [|done].
    unfold lease_dead, time_before. by destruct (now <? lr_ExpiresAt rc)%Z.
Qed.

(** ** Issued leases *)

Lemma lookup_issue leaseID secret record now now' r :
  lr_SecretDigest record = sha256 secret -> (now' < lr_ExpiresAt record)%Z ->
  (Lookup leaseID secret now' (issue_section now leaseID record r)).2 = Some record.
Proof.
  intros Hd Hn. apply Lookup_spec. unfold issue_section. simpl.
  rewrite lookup_insert_eq. done.
Qed.

(** The credentials of an issued lease look up its record until it expires. *)
Lemma lookup_issued acq t rand1 rand2 now now' r :
  issuable acq = Some t ->
  (Lookup (raw_url_encode rand1) (raw_url_encode rand2) now'
     (Issue acq (Some rand1) (Some rand2) now r).1).2 =
  if (now' <? now + lg_ttl r)%Z
  then Some (lease_record acq t (raw_url_encode rand2) (now + lg_ttl r)) else None.
Proof.
  intros Ht. unfold Issue. rewrite Ht. cbn [newLeasePart fst]. unfold time_add.
  destruct (Z.ltb_spec now' (now + lg_ttl r)) as [Hlt|Hge]; [by apply lookup_issue|].
  match goal with |- ?l = None => destruct l as [rc|] eqn:Hl; [|done] end.
  apply Lookup_spec in Hl as (Hl & Hx & _). unfold issue_section in Hl. simpl in Hl.
  rewrite lookup_insert_eq in Hl. simplify_eq/=. lia.
Qed.

(** Issuing a lease: [Issue] succeeds exactly for an acquisition that
    names a pool and a cell with an internal URL and a gateway address, when
    both random reads succeed.  The two URLs it returns carry the same
    credentials for the SOCKS5 and the HTTP gateway address, unescaped; at
    every time before the returned expiry those credentials look up the
    record of exactly the acquired pool, cell and internal URL, and from the
    expiry on they look up nothing. *)
Theorem Issue_correct acq t rand1 rand2 now r :
  issuable acq = Some t ->
  let leaseID := raw_url_encode rand1 in
  let secret := raw_url_encode rand2 in
  let (r', result) := Issue acq (Some rand1) (Some rand2) now r in
  result = Ok (mkProxyLease
    (mkProxyURLs
       ("socks5://" +:+ leaseID +:+ ":" +:+ secret +:+ "@" +:+
          url_escape EncodeHost (lg_socksPublicAddr r))
       ("http://" +:+ leaseID +:+ ":" +:+ secret +:+ "@" +:+
          url_escape EncodeHost (lg_httpProxyPublicAddr r)))
    (now + lg_ttl r)%Z) /\
  forall now',
    (Lookup leaseID secret now' r').2 =
    if (now' <? now + lg_ttl r)%Z then
      Some (mkLeaseRecord (acq_Pool acq) (ContainerID t) (ProxyURL t) (GatewayAddr t)
              (sha256 secret) (now + lg_ttl r))
    else None.
Proof.
  intros Ht. cbv zeta. pose proof (fun now' => lookup_issued acq t rand1 rand2 now now' r Ht) as Hl.
  destruct (Issue acq (Some rand1) (Some rand2) now r) as [r' result] eqn:Hi. split; [|exact Hl].
  unfold Issue in Hi. rewrite Ht in Hi. cbn [newLeasePart] in Hi. injection Hi as _ <-.
  unfold issued_lease, url_string, userinfo_string, time_add, proxySchemeSOCKS5, proxySchemeHTTP.
  cbn [fst snd Scheme Host User].
  rewrite !safe_part_escape by apply raw_url_encode_safe.
  rewrite bool_decide_false by done. rewrite !andb_false_r. simpl.
  by rewrite !string_app_assoc.
Qed.
End lease.

(** ** Witnesses *)

Module LeaseExamples.
#[local] Instance plain_hash : GoHash := {| sha256 := fun s => s |}.

Definition cell : Tunnel :=
  mkTunnel "c1" "a.conf" (Some (mkURL "socks5" None "10.0.0.2:1080")) "10.0.0.2:1080"
    TunnelStateHot "us" "" "" 0 0 0 "" 0 1.
Definition acq : Acquisition := mkAcquisition (Some cell) "us".
Definition record (expires : Z) : proxyLeaseRecord := lease_record acq cell "secret" expires.

Definition history : list lease_op :=
  [LIssue "id" (record 20) 10; LLookup "id" "wrong" 15; LIssue "id" (record 40) 25].

(** A section whose clock reading is after the expiry has dropped the lease, and
    a lookup with an earlier reading no longer finds it. *)
Lemma Lookup_refines_witness :
  (Lookup "id" "secret" 30 (foldl lease_step (newLeaseRegistry "s:1" "h:2" 10) history)).2
    = Some (record 40) /\
  (Lookup "id" "secret" 30
     (foldl lease_step (newLeaseRegistry "s:1" "h:2" 10) (history ++ [LLookup "x" "y" 41]))).2 = None.
Proof.
  split.
  - refine (proj2 (Lookup_refines "s:1" "h:2" 10 history "id" "secret" 30) _).
    repeat constructor; simpl; lia.
  - exact (proj1 (Lookup_refines "s:1" "h:2" 10 (history ++ [LLookup "x" "y" 41]) "id" "secret" 30)).
Defined.

Lemma Issue_correct_witness :
  issuable acq = Some cell /\
  let (r', result) := Issue acq (Some "abc") (Some "xyz") 5 (newLeaseRegistry "s:1" "h:2" 10) in
  is_ok result = true /\ (Lookup "YWJj" "eHl6" 14 r').2 = Some (lease_record acq cell "eHl6" 15) /\
  (Lookup "YWJj" "eHl6" 15 r').2 = None.
Proof.
  split; [reflexivity|].
  pose proof (Issue_correct acq cell "abc" "xyz" 5 (newLeaseRegistry "s:1" "h:2" 10) eq_refl) as Hc.
  cbv zeta in Hc. destruct (Issue _ _ _ _ _) as [r' result]. destruct Hc as [-> Hl].
  split; [reflexivity|]. split; [exact (Hl 14%Z) | exact (Hl 15%Z)].
Defined.
End LeaseExamples.
