(* ===== verification/Prog.v ===== *)
(** * Programs with effects

    A Go function that talks to shared state or to the outside is modelled as a
    [prog] over a signature of atomic operations: a tree that ends in a value
    or performs an operation and continues with its response.  Programs are
    inductive, so every modelled function terminates; all loops of the modelled
    handlers are over finite lists. *)

From S2P Require Import Prelude.

Inductive prog (op : Type -> Type) (A : Type) : Type :=
  | Ret (a : A)
  | Op (R : Type) (o : op R) (k : R -> prog op A).
Arguments Ret {op A} a.
Arguments Op {op A R} o k.

Section prog.
Context {op : Type -> Type}.

Fixpoint prog_bind {A B} (f : A -> prog op B) (p : prog op A) : prog op B :=
  match p with
  | Ret a => f a
  | Op o k => Op o (fun r => prog_bind f (k r))
  end.

#[global] Instance prog_mret : MRet (prog op) := fun A a => Ret a.
#[global] Instance prog_mbind : MBind (prog op) := fun A B f p => prog_bind f p.

Definition do_op {R} (o : op R) : prog op R := Op o (fun r => Ret r).

(** A [for] loop over a list, for its effects. *)
Fixpoint for_each {A} (l : list A) (body : A -> prog op unit) : prog op unit :=
  match l with
  | [] => Ret tt
  | x :: l' => _ ← body x; for_each l' body
  end.

(** A loop that accumulates. *)
Fixpoint fold_prog {A S} (body : S -> A -> prog op S) (l : list A) (s : S) : prog op S :=
  match l with
  | [] => Ret s
  | x :: l' => s' ← body s x; fold_prog body l' s'
  end.

(** [returns may p a]: [p] can end with [a] when each operation responds as
    [may] allows. *)
Fixpoint returns (may : forall R, op R -> R -> Prop) {A} (p : prog op A) (a : A) : Prop :=
  match p with
  | Ret a' => a = a'
  | Op o k => exists r, may _ o r /\ returns may (k r) a
  end.

Lemma returns_bind may {A B} (p : prog op A) (f : A -> prog op B) b :
  returns may (p ≫= f) b <-> exists a, returns may p a /\ returns may (f a) b.
Proof.
  induction p as [a|R o k IH]; simpl.
  - split; [intros Hb; by exists a | by intros (? & -> & ?)].
  - split.
    + intros (r & Hm & (a & Ha & Hb)%IH). eauto 10.
    + intros (a & (r & Hm & Ha) & Hb). exists r. split; [done|]. apply IH. eauto.
Qed.
End prog.
