(* ===== verification/System.v ===== *)
(** * The controller's shared state and its atomic operations

    The state the controller's goroutines share ([world]) and the operations
    they perform on it.  Each critical section of the code (a pool's mutex, the
    lease registry's mutex) is one operation; so is each call that leaves the
    process.  Goroutines interleave between operations, never inside one: every
    access to a tunnel slot, a failure cache or the lease map is under its
    mutex, and the tunnel a critical section returns is a copy.

    An operation's outcome depends on the state and on an [answer], what the
    outside responds: the clock, random draws, Docker, the cells' control
    servers.  [op_exec] executes an operation on an answer; [runs] executes a
    whole function alone, and [cstep] interleaves the functions of a list of
    goroutines. *)

From S2P Require Import Prelude GoStrings Types PoolState Lease Prog.

(** ** Effects recorded for the theorems *)

Inductive metric :=
  | TunnelSpawnsTotal (pool outcome : string)
  | TunnelReapsTotal (pool reason : string)
  | TunnelAcquireTotal (pool outcome : string)
  | TunnelSpawnDuration (pool : string) (elapsed : Z).

(** The outcome of dialling a destination through a cell's SOCKS5 listener. *)
Inductive dial_result :=
  | DialSetupFailed
  | DialNoContext
  | DialFailed
  | DialConnected.

Inductive event :=
  | EvSpawn (req : SpawnRequest) (r : res Tunnel)
  | EvKill (containerID : string) (r : option error)
  | EvReapOrphans (keep : gset string) (r : res nat)
  | EvDialled (gateway network address : string) (r : dial_result)
  | EvMetric (m : metric).

(** ** State *)

Record world := mkWorld {
  w_pools : gmap string PoolState;          (** [Manager.pools] *)
  w_leases : leaseRegistry;                 (** [Manager.leases] *)
  w_spawnMu : gmap string (option nat);     (** [Manager.spawnMu]: the holder, if locked *)
  w_events : list event;                    (** effects so far, latest first *)
  w_tick : nat;                             (** operations so far *)
}.

Definition tick (w : world) : world :=
  mkWorld (w_pools w) (w_leases w) (w_spawnMu w) (w_events w) (S (w_tick w)).
Definition put_pool (key : string) (p : PoolState) (w : world) : world :=
  mkWorld (<[key := p]> (w_pools w)) (w_leases w) (w_spawnMu w) (w_events w) (w_tick w).
Definition put_leases (r : leaseRegistry) (w : world) : world :=
  mkWorld (w_pools w) r (w_spawnMu w) (w_events w) (w_tick w).
Definition put_spawnMu (m : gmap string (option nat)) (w : world) : world :=
  mkWorld (w_pools w) (w_leases w) m (w_events w) (w_tick w).
Definition emit (e : event) (w : world) : world :=
  mkWorld (w_pools w) (w_leases w) (w_spawnMu w) (e :: w_events w) (w_tick w).

(** [poolMutexFor]: the lazily created spawn mutex of a pool. *)
Definition poolMutexFor (name : string) (m : gmap string (option nat)) :
    gmap string (option nat) :=
  match m !! name with Some _ => m | None => <[name := None]> m end.

(** ** Operations *)

Inductive op : Type -> Type :=
  | OpNow : op Z
  | OpRandBytes : op (option string)
  | OpLookupPool (key : string) : op (option PoolSpec)
  | OpPools : op (gmap string PoolSpec)
  | OpPool (R : Type) (key : string) (f : Z -> nat -> PoolState -> PoolState * R) : op R
  | OpLeases (R : Type) (f : leaseRegistry -> leaseRegistry * R) : op R
  | OpLock (name : string) : op unit
  | OpUnlock (name : string) : op unit
  | OpSpawn (req : SpawnRequest) : op (res Tunnel)
  | OpKill (containerID : string) : op (option error)
  | OpListChildren : op (res (list CellHandle))
  | OpReapOrphans (keep : gset string) : op (res nat)
  | OpHealthy (base : URL) : op bool
  | OpStatus (base : URL) : op (res Status)
  | OpDial (gateway network address : string) : op dial_result
  | OpWait : op unit
  | OpMetric (m : metric) : op unit.
Arguments OpPool {R} key f.
Arguments OpLeases {R} f.

Abbreviation sys := (prog op).

(** One operation as a program. *)
Definition call {R} (o : op R) : sys R := do_op o.

Record answer := mkAnswer {
  a_now : Z;
  a_draw : nat;
  a_bytes : option string;
  a_spawn : res Tunnel;
  a_kill : option error;
  a_list : res (list CellHandle);
  a_orphans : res nat;
  a_healthy : bool;
  a_status : res Status;
  a_dial : dial_result;
}.

(** One operation by goroutine [tid].  [None]: the operation is blocked (a
    mutex held by another goroutine) or has no meaning (an unknown pool, a
    mutex not held). *)
Definition op_exec (tid : nat) {R} (o : op R) (a : answer) (w : world) : option (R * world) :=
  match o in op R return option (R * world) with
  | OpNow => Some (a_now a, tick w)
  | OpRandBytes => Some (a_bytes a, tick w)
  | OpLookupPool key => Some (Spec <$> w_pools w !! key, tick w)
  | OpPools => Some (Spec <$> w_pools w, tick w)
  | OpPool key f =>
      match w_pools w !! key with
      | Some p => let '(p', r) := f (a_now a) (a_draw a) p in Some (r, tick (put_pool key p' w))
      | None => None
      end
  | OpLeases f => let '(l, r) := f (w_leases w) in Some (r, tick (put_leases l w))
  | OpLock name =>
      let m := poolMutexFor name (w_spawnMu w) in
      match m !! name with
      | Some None => Some (tt, tick (put_spawnMu (<[name := Some tid]> m) w))
      | _ => None
      end
  | OpUnlock name =>
      match w_spawnMu w !! name with
      | Some (Some holder) =>
          if Nat.eqb holder tid
          then Some (tt, tick (put_spawnMu (<[name := None]> (w_spawnMu w)) w)) else None
      | _ => None
      end
  | OpSpawn req => Some (a_spawn a, tick (emit (EvSpawn req (a_spawn a)) w))
  | OpKill id => Some (a_kill a, tick (emit (EvKill id (a_kill a)) w))
  | OpListChildren => Some (a_list a, tick w)
  | OpReapOrphans keep => Some (a_orphans a, tick (emit (EvReapOrphans keep (a_orphans a)) w))
  | OpHealthy _ => Some (a_healthy a, tick w)
  | OpStatus _ => Some (a_status a, tick w)
  | OpDial gateway network address =>
      Some (a_dial a, tick (emit (EvDialled gateway network address (a_dial a)) w))
  | OpWait => Some (tt, tick w)
  | OpMetric m => Some (tt, tick (emit (EvMetric m) w))
  end.

(** ** What a spawner promises

    The interface between the manager and its spawner: which results a spawn
    may have.  [CellSpawner] discharges it. *)
Class SpawnerContract := {
  spawn_may : SpawnRequest -> res Tunnel -> Prop;
  spawn_may_conf : forall req t, spawn_may req (Ok t) -> ConfName t = req_ConfName req;
  spawn_may_url : forall req t, spawn_may req (Ok t) -> is_Some (ProxyURL t);
  spawn_may_gateway : forall req t, spawn_may req (Ok t) -> GatewayAddr t <> "";
  spawn_may_fail : forall req, spawn_may req (Err ErrSpawnFailed);
}.

(** An answer the environment may give to an operation. *)
Definition may_answer `{SpawnerContract} {R} (o : op R) (a : answer) : Prop :=
  match o with
  | OpSpawn req => spawn_may req (a_spawn a)
  | _ => True
  end.

(** ** Interleaved execution *)

Record config := mkSystem { c_world : world; c_threads : list (sys unit) }.

Section interleaving.
Context `{SpawnerContract}.

Definition op_step (tid : nat) {R} (o : op R) (w : world) (r : R) (w' : world) : Prop :=
  exists a, may_answer o a /\ op_exec tid o a w = Some (r, w').

(** [runs tid p w a w']: [p], executed alone from [w], ends with [a] in [w']. *)
Fixpoint runs (tid : nat) {A} (p : sys A) (w : world) (a : A) (w' : world) : Prop :=
  match p with
  | Ret a' => a = a' /\ w' = w
  | Op o k => exists r w1, op_step tid o w r w1 /\ runs tid (k r) w1 a w'
  end.

Lemma runs_bind tid {A B} (p : sys A) (f : A -> sys B) w b w' :
  runs tid (p ≫= f) w b w' <-> exists a w1, runs tid p w a w1 /\ runs tid (f a) w1 b w'.
Proof.
  revert w. induction p as [a|R o k IH]; intros w; simpl.
  - split; [intros Hb; by exists a, w | by intros (? & ? & [-> ->] & ?)].
  - split.
    + intros (r & w1 & Hs & (a & w2 & Ha & Hb)%IH). eauto 10.
    + intros (a & w2 & (r & w1 & Hs & Ha) & Hb). exists r, w1. split; [done|]. apply IH. eauto.
Qed.

Lemma runs_call tid {R} (o : op R) w r w' : runs tid (call o) w r w' <-> op_step tid o w r w'.
Proof.
  simpl. split; [by intros (? & ? & ? & -> & ->) | intros Hs; by exists r, w'].
Qed.

(** A goroutine performs its next operation, or a new goroutine starts one
    of the functions of [handler]. *)
Inductive cstep (handler : sys unit -> Prop) : config -> config -> Prop :=
  | cstep_op w ts tid R (o : op R) k r w' :
      ts !! tid = Some (Op o k) ->
      op_step tid o w r w' ->
      cstep handler (mkSystem w ts) (mkSystem w' (<[tid := k r]> ts))
  | cstep_go w ts p :
      handler p -> cstep handler (mkSystem w ts) (mkSystem w (ts ++ [p])).

Abbreviation csteps handler := (rtc (cstep handler)).

(** *** Invariants

    [safe I Q p]: whatever the other goroutines do in between, as long as
    they keep [I], each operation of [p] keeps [I], and [p] ends with a value
    in [Q]. *)
Fixpoint safe (I : world -> Prop) {A} (Q : A -> Prop) (p : sys A) : Prop :=
  match p with
  | Ret a => Q a
  | Op o k => forall tid w r w', I w -> op_step tid o w r w' -> I w' /\ safe I Q (k r)
  end.

Lemma safe_bind (I : world -> Prop) {A B} (Q : A -> Prop) (Q' : B -> Prop) (p : sys A) (f : A -> sys B) :
  safe I Q p -> (forall a, Q a -> safe I Q' (f a)) -> safe I Q' (p ≫= f).
Proof.
  intros Hp Hf. induction p as [a|R o k IH]; simpl in *; [by apply Hf|].
  intros tid w r w' HI Hs. destruct (Hp tid w r w' HI Hs) as [HI' Hk]. split; [done|].
  by apply IH.
Qed.

Lemma safe_weaken (I : world -> Prop) {A} (Q Q' : A -> Prop) (p : sys A) :
  (forall a, Q a -> Q' a) -> safe I Q p -> safe I Q' p.
Proof.
  intros HQ. induction p as [a|R o k IH]; simpl; [apply HQ|].
  intros Hp tid w r w' HI Hs. destruct (Hp tid w r w' HI Hs). split; [done|]. by apply IH.
Qed.

Lemma safe_op (I : world -> Prop) {R} (Q : R -> Prop) (o : op R) :
  (forall tid w r w', I w -> op_step tid o w r w' -> I w' /\ Q r) -> safe I Q (do_op o).
Proof. done. Qed.

Lemma safe_for_each (I : world -> Prop) {A} (l : list A) (body : A -> sys unit) :
  (forall x, x ∈ l -> safe I (fun _ => True) (body x)) ->
  safe I (fun _ => True) (for_each l body).
Proof.
  induction l as [|x l IH]; intros Hb; [done|]. cbn [for_each].
  eapply safe_bind; [apply Hb; left|]. intros _ _. apply IH. intros; apply Hb. by right.
Qed.

Lemma safe_fold (I : world -> Prop) {A S} (body : S -> A -> sys S) (Q : S -> Prop) l s :
  Q s -> (forall s x, Q s -> x ∈ l -> safe I Q (body s x)) -> safe I Q (fold_prog body l s).
Proof.
  revert s. induction l as [|x l IH]; intros s HQ Hb; [done|]. cbn [fold_prog].
  eapply safe_bind; [apply Hb; [done|left]|]. intros s' HQ'. apply IH; [done|].
  intros; apply Hb; [done|]. by right.
Qed.

(** If every goroutine's function is safe for [I], then [I] holds in every
    reachable state. *)
Lemma cstep_invariant (handler : sys unit -> Prop) (I : world -> Prop) c c' :
  (forall p, handler p -> safe I (fun _ => True) p) ->
  csteps handler c c' ->
  I (c_world c) -> Forall (safe I (fun _ => True)) (c_threads c) ->
  I (c_world c') /\ Forall (safe I (fun _ => True)) (c_threads c').
Proof.
  intros Hh Hs. induction Hs as [c|c1 c2 c3 Hstep Hs IH]; intros HI Ht; [done|].
  apply IH; inversion Hstep as [w ts tid R o k r w' Hl Hop|w ts p Hp]; subst; simpl in *; try done.
  - rewrite Forall_forall in Ht. specialize (Ht _ (list_elem_of_lookup_2 _ _ _ Hl)). simpl in Ht.
    by destruct (Ht tid w r w' HI Hop).
  - apply Forall_insert; [done|]. pose proof Ht as Ht'. rewrite Forall_forall in Ht'.
    specialize (Ht' _ (list_elem_of_lookup_2 _ _ _ Hl)). simpl in Ht'.
    by destruct (Ht' tid w r w' HI Hop).
  - apply Forall_app. split; [done|]. constructor; [|constructor]. by apply Hh.
Qed.

(** *** Executable schedules

    A schedule names, step by step, the goroutine to run and the answer it
    gets; [replay] executes it, stopping where [ok] rejects the answer. *)
Section replay.
Variable ok : forall R, op R -> answer -> bool.
Hypothesis ok_may : forall R (o : op R) a, ok R o a = true -> may_answer o a.

Fixpoint replay (schedule : list (nat * answer)) (c : config) : option config :=
  match schedule with
  | [] => Some c
  | (tid, a) :: rest =>
      match c_threads c !! tid with
      | Some (Op o k) =>
          if ok _ o a then
            match op_exec tid o a (c_world c) with
            | Some (r, w') => replay rest (mkSystem w' (<[tid := k r]> (c_threads c)))
            | None => None
            end
          else None
      | _ => None
      end
  end.

(** A whole function executed alone, with the same answers throughout. *)
Fixpoint run_at (tid : nat) (a : answer) {A} (p : sys A) (w : world) : option (A * world) :=
  match p with
  | Ret x => Some (x, w)
  | Op o k =>
      if ok _ o a then
        match op_exec tid o a w with
        | Some (r, w') => run_at tid a (k r) w'
        | None => None
        end
      else None
  end.

Lemma run_at_bind tid a {A B} (p : sys A) (f : A -> sys B) w x w' :
  run_at tid a p w = Some (x, w') -> run_at tid a (p ≫= f) w = run_at tid a (f x) w'.
Proof.
  revert w. induction p as [y|R o k IH]; intros w He; simpl in *; [by simplify_eq|].
  destruct (ok R o a); [|done]. destruct (op_exec tid o a w) as [[r w1]|]; [|done]. by apply IH.
Qed.

Lemma run_at_runs tid a {A} (p : sys A) w x w' :
  run_at tid a p w = Some (x, w') -> runs tid p w x w'.
Proof.
  revert w. induction p as [y|R o k IH]; intros w He; simpl in *; [by simplify_eq|].
  destruct (ok R o a) eqn:Hok; [|done].
  destruct (op_exec tid o a w) as [[r w1]|] eqn:Ho; [|done].
  exists r, w1. split; [|by apply IH]. exists a. auto.
Qed.

Lemma replay_csteps handler schedule c c' :
  replay schedule c = Some c' -> csteps handler c c'.
Proof.
  revert c. induction schedule as [|[tid a] rest IH]; intros c He; simpl in *.
  { simplify_eq. apply rtc_refl. }
  destruct (c_threads c !! tid) as [[?|R o k]|] eqn:Hl; try done.
  destruct (ok R o a) eqn:Hok; [|done].
  destruct (op_exec tid o a (c_world c)) as [[r w']|] eqn:Ho; [|done].
  eapply rtc_l; [|by apply IH]. destruct c as [w ts].
  econstructor; [done|]. exists a. auto.
Qed.
End replay.
End interleaving.

Abbreviation csteps handler := (rtc (cstep handler)).

(** Inversion of an execution, one call at a time. *)
Ltac rbind H r w H1 := apply runs_bind in H as (r & w & H1 & H).
