(* ===== verification/Manager.v ===== *)
(** * The manager ([pool.go], [Manager])

    Every method of [Manager] as a program over the operations of [System]:
    resolve-or-spawn with its double check under the spawn mutex, the one-hop
    fallback, leases, shutdown and the operator views. *)

From S2P Require Import Prelude GoStrings Encoding UrlParse Types Config Routing PoolState Lease Prog System.

(** ** State *)

(** The immutable part of a [Manager]; the mutable part is the [world]. *)
Record Manager := mkManager {
  m_cfg : Config;
  m_router : Router;
  m_specs : gmap string PoolSpec;
}.

(** A [*PoolState] of the program: the key it is stored under and its
    specification, neither of which changes. *)
Record poolRef := mkRef { ref_key : string; ref_Spec : PoolSpec }.

(** [NewManager]: the manager and the state it starts with. *)
Definition NewManager (cfg : Config) (specs : gmap string PoolSpec) (router : Router) :
    Manager * world :=
  (mkManager cfg router specs,
   mkWorld (NewPoolState <$> specs)
     (newLeaseRegistry (socksPublicAddr cfg) (httpProxyPublicAddr cfg) (proxyLeaseTTL cfg))
     ∅ [] 0).

(** A connection opened through a lease ([releaseConn]): the acquisition its
    first [Close] releases, and whether the [sync.Once] has fired. *)
Record releaseConn := mkReleaseConn { rc_acq : Acquisition; rc_once : bool }.

(** The outcomes of the metrics ([metrics.go]). *)
Definition metricOutcomeSuccess : string := "success".
Definition metricOutcomeTimeout : string := "timeout".
Definition metricOutcomeSpawnFail : string := "spawn_fail".
Definition metricOutcomeOK : string := "ok".

(** ** Operator views *)

Definition tunnelViewOf (t : Tunnel) (now : Z) : TunnelView :=
  mkTunnelView (ConfName t)
    (match ProxyURL t with Some u => url_string u | None => "" end)
    (State t) (ExitCountry t) (ExitIP t) (SpawnedAt t) (HealthyAt t) (LastUsedAt t)
    (time_sub now (LastUsedAt t)).

Definition proxyViewOf (poolName : string) (t : Tunnel) (now : Z) : ProxyView :=
  mkProxyView poolName (ConfName t) (State t) (ExitCountry t) (ExitIP t) (SpawnedAt t)
    (HealthyAt t) (LastUsedAt t) (LastURL t) (LastURLExpiresAt t)
    (time_sub now (LastUsedAt t)).

(** The tunnel a successful spawn publishes, and the copy it returns. *)
Definition hotTunnel (spec : PoolSpec) (now : Z) (t : Tunnel) : Tunnel :=
  let t := set_State TunnelStateHot (set_Pool (Name spec) t) in
  let t := if String.eqb (GatewayAddr t) ""
           then match ProxyURL t with Some u => set_GatewayAddr (Host u) t | None => t end
           else t in
  set_LastUsedAt now (set_InFlight 1 t).

Section manager.
Context `{GoUnicode, GoHash, GoNetip, MapOrder}.
Variable m : Manager.

(** *** Access to a pool's state *)

(** [m.pools[name]]. *)
Definition getPool (name : string) : sys (option poolRef) :=
  spec ← call (OpLookupPool name);
  Ret (match spec with Some spec => Some (mkRef name spec) | None => None end).

(** [for name, state := range m.pools]. *)
Definition allPools : sys (list poolRef) :=
  pools ← call OpPools;
  Ret (map (fun kv => mkRef kv.1 kv.2) (range pools)).

(** The critical sections of [PoolState], opened on a [*PoolState]. *)
Definition section {R} (st : poolRef) (f : Z -> nat -> PoolState -> PoolState * R) : sys R :=
  call (OpPool (ref_key st) f).
Definition write (st : poolRef) (f : PoolState -> PoolState) : sys unit :=
  section st (fun _ _ p => (f p, tt)).
Definition snapshotOf (st : poolRef) : sys (option Tunnel) :=
  section st (fun _ _ p => Snapshot p).
Definition acquireOf (st : poolRef) (excludeProxy : option URL) : sys (res Tunnel) :=
  section st (fun now _ p => acquire excludeProxy now p).

(** *** Acquisition *)

(** [excludeConfsFor]. *)
Definition excludeConfsFor (excludeProxy : option URL) (st : poolRef) : sys (gset string) :=
  match excludeProxy with
  | None => Ret ∅
  | Some e =>
      t ← snapshotOf st;
      Ret (match t with
           | Some t => if is_excluded (Some e) t then {[ ConfName t ]} else ∅
           | None => ∅
           end)
  end.

(** [recordSpawnFailure]. *)
Definition recordSpawnFailure (st : poolRef) (conf : string) (spawnErr : error) : sys error :=
  let outcome := if errors_is spawnErr ErrSpawnTimeout
                 then metricOutcomeTimeout else metricOutcomeSpawnFail in
  _ ← call (OpMetric (TunnelSpawnsTotal (Name (ref_Spec st)) outcome));
  now ← call OpNow;
  _ ← write st (markFailed conf now);
  Ret ErrPoolUnavailable.

Definition spawnRequestFor (st : poolRef) (conf : string) : SpawnRequest :=
  mkSpawnRequest (Name (ref_Spec st)) conf
    (default "" (ExitCountries (ref_Spec st) !! conf)) (BundleDir (m_cfg m)).

(** [spawnFromState]. *)
Definition spawnFromState (st : poolRef) (excludeProxy : option URL) : sys (res Acquisition) :=
  let name := Name (ref_Spec st) in
  now ← call OpNow;
  exclude ← excludeConfsFor excludeProxy st;
  picked ← section st (fun _ draw p => pickConf now draw exclude (FailureCacheTTL (m_cfg m)) p);
  match picked with
  | Err e => Ret (Err e)
  | Ok conf =>
      spawnStart ← call OpNow;
      spawned ← call (OpSpawn (spawnRequestFor st conf));
      match spawned with
      | Err spawnErr => e ← recordSpawnFailure st conf spawnErr; Ret (Err e)
      | Ok t =>
          _ ← call (OpMetric (TunnelSpawnsTotal name metricOutcomeSuccess));
          spawnEnd ← call OpNow;
          _ ← call (OpMetric (TunnelSpawnDuration name (time_sub spawnEnd spawnStart)));
          used ← call OpNow;
          let t := hotTunnel (ref_Spec st) used t in
          _ ← write st (setTunnel (Some t));
          Ret (Ok (mkAcquisition (Some t) name))
      end
  end.

(** [acquireFromState]: the hot tunnel, or a spawn under the pool's mutex
    after a second look. *)
Definition acquireFromState (st : poolRef) (excludeProxy : option URL) : sys (res Acquisition) :=
  let name := Name (ref_Spec st) in
  first ← acquireOf st excludeProxy;
  match first with
  | Ok t => Ret (Ok (mkAcquisition (Some t) name))
  | Err _ =>
      _ ← call (OpLock name);
      second ← acquireOf st excludeProxy;
      result ← match second with
               | Ok t => Ret (Ok (mkAcquisition (Some t) name))
               | Err _ => spawnFromState st excludeProxy
               end;
      _ ← call (OpUnlock name);
      Ret result
  end.

(** [acquireFromPool]: at most one hop to the fallback pool. *)
Definition acquireFromPool (poolName : string) (excludeProxy : option URL) (fallbackOK : bool) :
    sys (res Acquisition) :=
  state ← getPool poolName;
  match state with
  | None => Ret (Err ErrUnknownPool)
  | Some st =>
      acq ← acquireFromState st excludeProxy;
      match acq with
      | Ok a => Ret (Ok a)
      | Err e =>
          let fallback := FallbackPool (ref_Spec st) in
          if negb fallbackOK || String.eqb fallback "" then Ret (Err e) else
          if errors_is e ErrInvalidCountry then Ret (Err e) else
          fallbackState ← getPool fallback;
          match fallbackState with
          | None => Ret (Err ErrUnknownPool)
          | Some st' => acquireFromState st' excludeProxy
          end
      end
  end.

Definition AcquireForCountry (country : string) (excludeProxy : option URL) (fallbackOK : bool) :
    sys (res Acquisition) :=
  match Resolve (m_router m) country with
  | Err e => Ret (Err e)
  | Ok poolName => acquireFromPool poolName excludeProxy fallbackOK
  end.

Definition AcquireForPool (poolName : string) (excludeProxy : option URL) (fallbackOK : bool) :
    sys (res Acquisition) :=
  acquireFromPool poolName excludeProxy fallbackOK.

(** [Release]. *)
Definition Release (acq : Acquisition) : sys unit :=
  state ← getPool (acq_Pool acq);
  match state with
  | None => Ret tt
  | Some st => write st release
  end.

(** *** Leases *)

(** [leaseRegistry.Issue]: two random reads, the clock, the section. *)
Definition issueLease (acq : Acquisition) : sys (res ProxyLease) :=
  match issuable acq with
  | None => Ret (Err ErrPoolUnavailable)
  | Some _ =>
      rand1 ← call OpRandBytes;
      match newLeasePart rand1 with
      | Err e => Ret (Err e)
      | Ok _ =>
          rand2 ← call OpRandBytes;
          match newLeasePart rand2 with
          | Err e => Ret (Err e)
          | Ok _ =>
              now ← call OpNow;
              call (OpLeases (Issue acq rand1 rand2 now))
          end
      end
  end.

(** [leaseRegistry.Lookup]. *)
Definition lookupLease (username password : string) : sys (option proxyLeaseRecord) :=
  now ← call OpNow;
  call (OpLeases (Lookup username password now)).

(** [IssueLease]. *)
Definition IssueLease (acq : Acquisition) : sys (res ProxyLease) :=
  issued ← issueLease acq;
  match issued with
  | Err e => Ret (Err e)
  | Ok lease =>
      state ← getPool (acq_Pool acq);
      match state with
      | None => Ret (Err ErrUnknownPool)
      | Some st =>
          _ ← write st (setLastURL
                          (match acq_Tunnel acq with Some t => ContainerID t | None => "" end)
                          (SOCKS5 (Proxies lease)) (ExpiresAt lease));
          Ret (Ok lease)
      end
  end.

(** [ResolveExcludedProxy]: the cell URL behind an issued or direct URL. *)
Definition ResolveExcludedProxy (raw : string) : sys (res (option URL)) :=
  match parse_request_uri raw with
  | None => Ret (Err ErrInvalidCountry)
  | Some u =>
      if negb (String.eqb (Scheme u) proxySchemeSOCKS5) || String.eqb (Host u) "" ||
         String.eqb (url_port u) "" then Ret (Err ErrInvalidCountry) else
      match User u with
      | None => Ret (Ok (Some u))
      | Some (_, None) => Ret (Err ErrInvalidCountry)
      | Some (username, Some password) =>
          lease ← lookupLease username password;
          Ret (match lease with
               | Some record => Ok (lr_InternalURL record)
               | None => Err ErrInvalidCountry
               end)
      end
  end.

(** [AcquireForLease]. *)
Definition AcquireForLease (username password : string) : sys (res Acquisition) :=
  lease ← lookupLease username password;
  match lease with
  | None => Ret (Err ErrPoolUnavailable)
  | Some record =>
      state ← getPool (lr_Pool record);
      match state with
      | None => Ret (Err ErrPoolUnavailable)
      | Some st =>
          t ← section st (fun now _ p => acquireContainer (lr_ContainerID record) now p);
          Ret (match t with
               | Err e => Err e
               | Ok t => Ok (mkAcquisition (Some t) (lr_Pool record))
               end)
      end
  end.

(** [validLease], and [proxyLeaseCredentials.Valid] of [proxy_gateway.go]. *)
Definition validLease (username password : string) : sys bool :=
  lease ← lookupLease username password;
  Ret (match lease with Some _ => true | None => false end).

(** [dialLease]: every failure after the reservation gives it back. *)
Definition dialLease (username password network address : string) : sys (res releaseConn) :=
  acquired ← AcquireForLease username password;
  match acquired with
  | Err e => Ret (Err e)
  | Ok acq =>
      let gateway := match acq_Tunnel acq with Some t => GatewayAddr t | None => "" end in
      dialled ← call (OpDial gateway network address);
      match dialled with
      | DialConnected => Ret (Ok (mkReleaseConn acq false))
      | DialSetupFailed | DialNoContext | DialFailed =>
          _ ← Release acq; Ret (Err ErrForeign)
      end
  end.

(** [releaseConn.Close]: the first call releases. *)
Definition closeConn (c : releaseConn) : sys releaseConn :=
  if rc_once c then Ret c
  else _ ← Release (rc_acq c); Ret (mkReleaseConn (rc_acq c) true).

(** *** Shutdown and failure reports *)

(** [Close]. *)
Definition Close : sys unit :=
  states ← allPools;
  for_each states (fun st =>
    t ← snapshotOf st;
    match t with
    | None => Ret tt
    | Some t =>
        if String.eqb (ContainerID t) "" then Ret tt else
        _ ← call (OpKill (ContainerID t));
        write st (setTunnel None)
    end).

(** [MarkFailed]. *)
Definition MarkFailed (poolName confName : string) : sys unit :=
  state ← getPool poolName;
  match state with
  | None => Ret tt
  | Some st =>
      _ ← write st (markUnhealthy confName);
      now ← call OpNow;
      write st (markFailed confName now)
  end.

(** *** Views *)

(** [Views]. *)
Definition Views : sys (list PoolView) :=
  now ← call OpNow;
  states ← allPools;
  out ← fold_prog (fun out st =>
    recent ← section st (fun _ _ p => RecentlyFailedCount now (FailureCacheTTL (m_cfg m)) p);
    t ← snapshotOf st;
    let spec := ref_Spec st in
    Ret (out ++ [mkPoolView (ref_key st) (Region spec) (option_map (fun t => tunnelViewOf t now) t)
                   (FallbackPool spec) (length (Configs spec)) recent])) states [];
  Ret (sort_by pv_Name out).

(** [ProxyViews]. *)
Definition ProxyViews : sys (list ProxyView) :=
  now ← call OpNow;
  states ← allPools;
  views ← fold_prog (fun views st =>
    t ← snapshotOf st;
    Ret (match t with
         | Some t => views ++ [proxyViewOf (ref_key st) t now]
         | None => views
         end)) states [];
  Ret (sort_by xv_Pool views).
End manager.
