(* ===== verification/Behaviour.v ===== *)
(** * What the manager's methods do

    The functional behaviour of the manager's methods, executed alone, on every
    branch; and what holds of them under any interference. *)

From S2P Require Import Prelude GoStrings Encoding UrlParse Types Config Routing PoolState Lease Prog System.
From S2P Require Import Manager.

(** The spawns performed so far, latest first. *)
Definition spawned (w : world) : list (SpawnRequest * res Tunnel) :=
  omap (fun e => match e with EvSpawn req r => Some (req, r) | _ => None end) (w_events w).

(** The configurations an exclusion rules out for a pool. *)
Definition excluded_confs (e : option URL) (p : PoolState) : gset string :=
  match tunnel p with
  | Some t => if is_excluded e t then {[ ConfName t ]} else ∅
  | None => ∅
  end.

Lemma ConfName_hotTunnel spec used t : ConfName (hotTunnel spec used t) = ConfName t.
Proof. unfold hotTunnel. repeat case_match; done. Qed.
Lemma Pool_hotTunnel spec used t : Pool (hotTunnel spec used t) = Name spec.
Proof. unfold hotTunnel. repeat case_match; done. Qed.

Section behaviour.
Context `{UC : GoUnicode, HA : GoHash, NI : GoNetip, MO : MapOrder, SC : SpawnerContract}.
Variable m : Manager.

(** ** One operation *)

Lemma step_pool tid {R} key (f : Z -> nat -> PoolState -> PoolState * R) w r w' :
  op_step tid (OpPool key f) w r w' ->
  exists p now draw, w_pools w !! key = Some p /\ r = (f now draw p).2 /\
    w' = tick (put_pool key (f now draw p).1 w).
Proof.
  intros (a & _ & He). simpl in He. destruct (w_pools w !! key) as [p|] eqn:Hk; [|done].
  exists p, (a_now a), (a_draw a). destruct (f (a_now a) (a_draw a) p). by simplify_eq/=.
Qed.

Lemma step_now tid w r w' : op_step tid OpNow w r w' -> w' = tick w.
Proof. intros (a & _ & He). by simplify_eq/=. Qed.

Lemma step_metric tid mt w r w' : op_step tid (OpMetric mt) w r w' -> w' = tick (emit (EvMetric mt) w).
Proof. intros (a & _ & He). by simplify_eq/=. Qed.

Lemma step_spawn tid req w r w' :
  op_step tid (OpSpawn req) w r w' -> spawn_may req r /\ w' = tick (emit (EvSpawn req r) w).
Proof. intros (a & Hm & He). by simplify_eq/=. Qed.

Lemma step_lookup tid key w r w' :
  op_step tid (OpLookupPool key) w r w' -> r = (Spec <$> w_pools w !! key) /\ w' = tick w.
Proof. intros (a & Hm & He). by simplify_eq/=. Qed.

(** Taking or giving back a mutex leaves the rest alone. *)
Lemma step_mutex tid (o : op unit) w r w' :
  match o with OpLock _ | OpUnlock _ => True | _ => False end ->
  op_step tid o w r w' ->
  w_pools w' = w_pools w /\ w_leases w' = w_leases w /\ w_events w' = w_events w.
Proof.
  intros Ho (a & Hm & He). revert Ho He.
  refine (match o in op R return forall r : R,
    match o with OpLock _ | OpUnlock _ => True | _ => False end ->
    op_exec tid o a w = Some (r, w') -> _ with
    | OpLock n => _ | OpUnlock n => _ | _ => _ end r); simpl; try done;
    intros ? _ He; repeat case_match; by simplify_eq.
Qed.

Lemma runs_section tid {R} st (f : Z -> nat -> PoolState -> PoolState * R) w r w' :
  runs tid (section st f) w r w' ->
  exists p now draw, w_pools w !! ref_key st = Some p /\ r = (f now draw p).2 /\
    w' = tick (put_pool (ref_key st) (f now draw p).1 w).
Proof. unfold section. rewrite runs_call. apply step_pool. Qed.

Lemma runs_now tid w r w' : runs tid (call OpNow) w r w' -> w' = tick w.
Proof. rewrite runs_call. apply step_now. Qed.

(** *** Executions up to time

    Two states that agree on pools and leases; the spawns are counted. *)
Record agrees (w w' : world) (new : list (SpawnRequest * res Tunnel)) : Prop := {
  ag_pools : w_pools w' = w_pools w;
  ag_leases : w_leases w' = w_leases w;
  ag_spawned : spawned w' = new ++ spawned w;
}.

Lemma agrees_refl w : agrees w w [].
Proof. done. Qed.
Lemma agrees_trans w1 w2 w3 n1 n2 :
  agrees w1 w2 n1 -> agrees w2 w3 n2 -> agrees w1 w3 (n2 ++ n1).
Proof.
  intros [P1 L1 S1] [P2 L2 S2]. constructor; [congruence|congruence|].
  by rewrite S2, S1, app_assoc.
Qed.
Lemma agrees_tick w : agrees w (tick w) [].
Proof. done. Qed.
Lemma agrees_metric w mt : agrees w (tick (emit (EvMetric mt) w)) [].
Proof. done. Qed.
Lemma agrees_spawn w req r : agrees w (tick (emit (EvSpawn req r) w)) [(req, r)].
Proof. done. Qed.

(** The pool at [key] became [p']; everything else is as before. *)
Record updates (key : string) (p' : PoolState) (new : list (SpawnRequest * res Tunnel))
    (w w' : world) : Prop := {
  up_pools : w_pools w' = <[key := p']> (w_pools w);
  up_leases : w_leases w' = w_leases w;
  up_spawned : spawned w' = new ++ spawned w;
}.

Lemma updates_section key p' w : updates key p' [] w (tick (put_pool key p' w)).
Proof. done. Qed.
Lemma updates_agrees key p' n1 n2 w1 w2 w3 :
  updates key p' n1 w1 w2 -> agrees w2 w3 n2 -> updates key p' (n2 ++ n1) w1 w3.
Proof.
  intros [P1 L1 S1] [P2 L2 S2]. constructor; [congruence|congruence|].
  by rewrite S2, S1, app_assoc.
Qed.
Lemma agrees_updates key p' n1 n2 w1 w2 w3 :
  agrees w1 w2 n1 -> updates key p' n2 w2 w3 -> updates key p' (n2 ++ n1) w1 w3.
Proof.
  intros [P1 L1 S1] [P2 L2 S2]. constructor; [congruence|congruence|].
  by rewrite S2, S1, app_assoc.
Qed.
Lemma updates_updates key p1 p2 n1 n2 w1 w2 w3 :
  updates key p1 n1 w1 w2 -> updates key p2 n2 w2 w3 -> updates key p2 (n2 ++ n1) w1 w3.
Proof.
  intros [P1 L1 S1] [P2 L2 S2]. constructor; [|congruence|].
  - by rewrite P2, P1, insert_insert_eq.
  - by rewrite S2, S1, app_assoc.
Qed.
Lemma updates_lookup key p' n w w' : updates key p' n w w' -> w_pools w' !! key = Some p'.
Proof. intros [-> _ _]. apply lookup_insert_eq. Qed.
Lemma agrees_as_updates key p n w w' :
  w_pools w !! key = Some p -> agrees w w' n -> updates key p n w w'.
Proof. intros Hk [P L S]. constructor; [|done|done]. by rewrite P, insert_id. Qed.

Lemma runs_excludeConfsFor tid e st w r w' p :
  w_pools w !! ref_key st = Some p ->
  runs tid (excludeConfsFor e st) w r w' -> r = excluded_confs e p /\ updates (ref_key st) p [] w w'.
Proof.
  intros Hk Hr. unfold excludeConfsFor in Hr. destruct e as [e|].
  - rbind Hr t w1 Ht. apply runs_section in Ht as (p' & now & draw & Hk' & -> & ->).
    destruct Hr as [-> ->]. simplify_eq. simpl. split; [|apply updates_section].
    unfold excluded_confs. by destruct (tunnel p).
  - destruct Hr as [-> ->]. split.
    + unfold excluded_confs. by destruct (tunnel p) as [t|]; simpl.
    + apply agrees_as_updates; [done|apply agrees_refl].
Qed.

(** ** Spawning *)

(** The outcome of [spawnFromState] from pool state [p]. *)
Definition spawn_outcome (st : poolRef) (e : option URL) (p : PoolState) (w : world)
    (r : res Acquisition) (w' : world) : Prop :=
  let ttl := FailureCacheTTL (m_cfg m) in
  exists now, let p1 := cleanFailedLocked now ttl p in
  let avail := available p now ttl (excluded_confs e p) in
  match r with
  | Ok acq => exists conf t used, avail conf /\
      spawn_may (spawnRequestFor m st conf) (Ok t) /\
      acq = mkAcquisition (Some (hotTunnel (ref_Spec st) used t)) (Name (ref_Spec st)) /\
      updates (ref_key st) (setTunnel (Some (hotTunnel (ref_Spec st) used t)) p1)
        [(spawnRequestFor m st conf, Ok t)] w w'
  | Err err =>
      (err = ErrPoolExhausted /\ (forall c, ~ avail c) /\ updates (ref_key st) p1 [] w w') \/
      (err = ErrPoolUnavailable /\ exists conf e0 at_, avail conf /\
         updates (ref_key st) (markFailed conf at_ p1) [(spawnRequestFor m st conf, Err e0)] w w')
  end.

Lemma runs_recordSpawnFailure tid st conf e0 w r w' p :
  w_pools w !! ref_key st = Some p ->
  runs tid (recordSpawnFailure st conf e0) w r w' ->
  r = ErrPoolUnavailable /\ exists at_, updates (ref_key st) (markFailed conf at_ p) [] w w'.
Proof.
  intros Hk Hr. unfold recordSpawnFailure in Hr.
  rbind Hr u1 w1 H1. apply runs_call, step_metric in H1 as ->.
  rbind Hr at_ w2 H2. apply runs_now in H2 as ->.
  rbind Hr u3 w3 H3. apply runs_section in H3 as (p' & now & draw & Hk' & -> & ->).
  destruct Hr as [-> ->]. simpl in *. simplify_eq. split; [done|]. exists at_. done.
Qed.

Lemma runs_spawnFromState tid st e w r w' p :
  w_pools w !! ref_key st = Some p -> Spec p = ref_Spec st ->
  runs tid (spawnFromState m st e) w r w' -> spawn_outcome st e p w r w'.
Proof.
  intros Hk Hsp Hr. unfold spawnFromState in Hr.
  rbind Hr now w1 H1. apply runs_now in H1 as ->.
  rbind Hr exclude w2 H2. apply (runs_excludeConfsFor _ _ _ _ _ _ p) in H2 as [-> U2]; [|done].
  rbind Hr picked w3 H3. apply runs_section in H3 as (p' & now' & draw & Hk2 & -> & ->).
  rewrite (updates_lookup _ _ _ _ _ U2) in Hk2. simplify_eq.
  destruct (pickConf_result now draw (excluded_confs e p') (FailureCacheTTL (m_cfg m)) p')
    as (rp & Hp & Hs). rewrite Hp in Hr. cbn [fst snd] in Hr. exists now.
  set (p1 := cleanFailedLocked now (FailureCacheTTL (m_cfg m)) p') in *.
  pose proof (agrees_updates _ _ _ _ _ _ _ (agrees_tick w) U2) as U2'.
  pose proof (updates_updates _ _ _ _ _ _ _ _ U2' (updates_section (ref_key st) p1 w2)) as U3.
  destruct rp as [conf|err].
  - rbind Hr t0 w4 H4. apply runs_now in H4 as ->.
    rbind Hr spn w5 H5. apply runs_call, step_spawn in H5 as [Hmay ->].
    pose proof (updates_agrees _ _ _ _ _ _ _ U3 (agrees_trans _ _ _ _ _ (agrees_tick _)
      (agrees_spawn (tick (tick (put_pool (ref_key st) p1 w2))) (spawnRequestFor m st conf) spn))) as U5.
    destruct spn as [t|e0].
    + rbind Hr u6 w6 H6. apply runs_call, step_metric in H6 as ->.
      rbind Hr u7 w7 H7. apply runs_now in H7 as ->.
      rbind Hr u8 w8 H8. apply runs_call, step_metric in H8 as ->.
      rbind Hr used w9 H9. apply runs_now in H9 as ->.
      rbind Hr u10 w10 H10. apply runs_section in H10 as (p10 & n10 & d10 & Hk10 & -> & ->).
      destruct Hr as [-> ->]. simpl in Hk10. rewrite lookup_insert_eq in Hk10. simplify_eq.
      exists conf, t, used. split_and!; try done.
      eapply (updates_updates _ _ _ _ [] _ _ _ U5). done.
    + rbind Hr err w6 H6.
      apply (runs_recordSpawnFailure _ _ _ _ _ _ _ p1) in H6 as [-> (at_ & U6)];
        [|simpl; by rewrite lookup_insert_eq].
      destruct Hr as [-> ->]. right. split; [done|]. exists conf, e0, at_. split; [done|].
      exact (updates_updates _ _ _ _ _ _ _ _ U5 U6).
  - destruct Hr as [-> ->]. left. naive_solver.
Qed.

(** ** Acquisition from one pool *)

(** The tunnel in the slot can be handed out. *)
Definition usable (e : option URL) (p : PoolState) (t : Tunnel) : Prop :=
  tunnel p = Some t /\ State t = TunnelStateHot /\ is_excluded e t = false.

Lemma runs_acquireOf tid st e w r w' p :
  w_pools w !! ref_key st = Some p ->
  runs tid (acquireOf st e) w r w' ->
  exists now,
    match r with
    | Ok t => exists t0, usable e p t0 /\ t = reserve now t0 /\
                updates (ref_key st) (with_tunnel (Some t) p) [] w w'
    | Err _ => (forall t0, ~ usable e p t0) /\ updates (ref_key st) p [] w w'
    end.
Proof.
  intros Hk Hr. apply runs_section in Hr as (p' & now & draw & Hk' & -> & ->).
  rewrite Hk in Hk'. injection Hk' as <-.
  exists now. pose proof (acquire_correct e now p) as Ha. unfold usable.
  destruct (acquire e now p) as [q [t|err]]; simpl.
  - destruct Ha as (t0 & ? & ? & ? & ? & ->). exists t0. split_and!; try done.
  - destruct Ha as [-> Ha]. split; [|apply updates_section].
    intros t0 (Ht & Hhot & Hex). destruct Ha as [(_ & t1 & Ht1 & _ & Hex1)|[_ Hn]].
    + congruence.
    + by eapply Hn.
Qed.

(** The outcome of [acquireFromState]. *)
Definition acquire_outcome (st : poolRef) (e : option URL) (p : PoolState) (w : world)
    (r : res Acquisition) (w' : world) : Prop :=
  (exists t now, usable e p t /\
     r = Ok (mkAcquisition (Some (reserve now t)) (Name (ref_Spec st))) /\
     updates (ref_key st) (with_tunnel (Some (reserve now t)) p) [] w w') \/
  ((forall t, ~ usable e p t) /\ spawn_outcome st e p w r w').

Lemma spawn_outcome_frame st e p w0 w1 r w' w'' :
  updates (ref_key st) p [] w0 w1 -> agrees w' w'' [] ->
  spawn_outcome st e p w1 r w' -> spawn_outcome st e p w0 r w''.
Proof.
  intros U0 A (now & Ho). exists now. cbv zeta in *.
  assert (forall q n, updates (ref_key st) q n w1 w' -> updates (ref_key st) q n w0 w'') as Hu.
  { intros q n Hu. pose proof (updates_updates _ _ _ _ _ _ _ _ U0 Hu) as Hu'.
    rewrite app_nil_r in Hu'. exact (updates_agrees _ _ _ [] _ _ _ Hu' A). }
  destruct r as [acq|err].
  - destruct Ho as (conf & t & used & ? & ? & ? & ?). exists conf, t, used. auto.
  - destruct Ho as [(? & ? & ?)|(? & conf & e0 & at_ & ? & ?)]; [left; auto|right].
    split; [done|]. exists conf, e0, at_. auto.
Qed.

Lemma agrees_mutex tid (o : op unit) w r w' :
  match o with OpLock _ | OpUnlock _ => True | _ => False end ->
  op_step tid o w r w' -> agrees w w' [].
Proof.
  intros Ho Hs. destruct (step_mutex tid o w r w' Ho Hs) as (? & ? & He). constructor; try done.
  unfold spawned. by rewrite He.
Qed.

Lemma runs_acquireFromState tid st e w r w' p :
  w_pools w !! ref_key st = Some p -> Spec p = ref_Spec st ->
  runs tid (acquireFromState m st e) w r w' -> acquire_outcome st e p w r w'.
Proof.
  intros Hk Hsp Hr. unfold acquireFromState in Hr.
  rbind Hr attempt w1 H1. apply (runs_acquireOf _ _ _ _ _ _ p) in H1 as [now H1]; [|done].
  destruct attempt as [t|err].
  { destruct H1 as (t0 & ? & -> & ?). destruct Hr as [-> ->]. left. eauto 10. }
  destruct H1 as [Hno U1]. right. split; [done|].
  rbind Hr u2 w2 H2. apply runs_call, (agrees_mutex _ (OpLock _) _ _ _ I) in H2.
  pose proof (updates_agrees _ _ _ [] _ _ _ U1 H2) as U2.
  rbind Hr again w3 H3.
  apply (runs_acquireOf _ _ _ _ _ _ p) in H3 as [now' H3]; [|by eapply updates_lookup].
  destruct again as [t|err'].
  { destruct H3 as (t0 & Hu & _). by apply Hno in Hu. }
  destruct H3 as [_ U3]. rbind Hr final w4 H4.
  apply (runs_spawnFromState _ _ _ _ _ _ p) in H4; [|by eapply updates_lookup|done].
  rbind Hr u5 w5 H5. apply runs_call, (agrees_mutex _ (OpUnlock _) _ _ _ I) in H5.
  destruct Hr as [-> ->].
  eapply (spawn_outcome_frame st e p w w3 _ w4); [|exact H5|exact H4].
  exact (updates_updates _ _ _ [] [] _ _ _ U2 U3).
Qed.
End behaviour.

(** C4. Acquiring from one pool, alone: a hot tunnel that is not the excluded
    proxy is reserved and returned without a spawn.  Otherwise exactly one of
    three things happens, under the pool's mutex: no configuration is available
    and the answer is [ErrPoolExhausted]; an available configuration is spawned,
    the new hot tunnel with one reservation fills the slot and is returned; or
    the spawn fails, that configuration enters the failure cache, the slot stays
    as it was and the answer is [ErrPoolUnavailable].  No other pool and no lease
    changes. *)
Theorem acquireFromState_correct `{GoUnicode, GoHash, GoNetip, MapOrder, SpawnerContract}
    m tid st e w r w' p :
  w_pools w !! ref_key st = Some p -> Spec p = ref_Spec st ->
  runs tid (acquireFromState m st e) w r w' ->
  acquire_outcome m st e p w r w'.
Proof. apply runs_acquireFromState. Qed.

(** A retry gets another exit: when a caller excludes the proxy in the
    slot, a successful acquisition returns a tunnel of the same pool from a
    different configuration. *)
Theorem excluded_exit_not_reused `{GoUnicode, GoHash, GoNetip, MapOrder, SpawnerContract}
    m tid st e w acq w' p t t' :
  w_pools w !! ref_key st = Some p -> Spec p = ref_Spec st ->
  tunnel p = Some t -> is_excluded e t = true ->
  runs tid (acquireFromState m st e) w (Ok acq) w' ->
  acq_Tunnel acq = Some t' ->
  ConfName t' <> ConfName t /\ ConfName t' ∈ Configs (Spec p) /\ Pool t' = Name (Spec p).
Proof.
  intros Hk Hsp Ht He Hr Ht'.
  destruct (runs_acquireFromState m tid st e w _ w' p Hk Hsp Hr) as [(t0 & now & Hu & _)|[_ Ho]].
  { destruct Hu as (Ht0 & _ & Hex). simplify_eq. congruence. }
  destruct Ho as (now & conf & t0 & used & (Hin & Hne & _) & Hmay & -> & _).
  cbn [acq_Tunnel] in Ht'. injection Ht' as <-. apply spawn_may_conf in Hmay. simpl in Hmay.
  rewrite ConfName_hotTunnel, Pool_hotTunnel, Hmay.
  rewrite Hsp in *. unfold excluded_confs in Hne. rewrite Ht, He in Hne. set_solver.
Qed.
