(* ===== verification/Reaper.v ===== *)
(** * The reaper and health monitor ([reaper.go])

    One pass of each of the three loops.  The loops themselves repeat the pass
    on a ticker until shutdown; in the interleaving semantics every pass is a
    goroutine of its own, started at any time. *)

From S2P Require Import Prelude GoStrings Types PoolState Lease Prog System Manager.

Definition reasonIdle : string := "idle".
Definition reasonUnhealthy : string := "unhealthy".

(** [if handle.ControlURL != nil { urls[handle.ContainerID] = ... }], in order. *)
Definition controlURLsOf (handles : list CellHandle) : gmap string URL :=
  foldl (fun urls h => match h_ControlURL h with
                       | Some u => <[h_ContainerID h := u]> urls
                       | None => urls
                       end) ∅ handles.

Section reaper.
Context `{MapOrder}.
Variable m : Manager.

(** [childControlURLs]: nil (no entry) when the listing fails. *)
Definition childControlURLs : sys (gmap string URL) :=
  handles ← call OpListChildren;
  Ret (match handles with Ok hs => controlURLsOf hs | Err _ => ∅ end).

(** [probeHealthy]. *)
Definition probeHealthy (t : Tunnel) (controlURL : option URL) : sys bool :=
  match controlURL with
  | Some u => call (OpHealthy u)
  | None =>
      now ← call OpNow;
      Ret (time_sub now (HealthyAt t) <=? HealthHandshakeMaxAge (m_cfg m))%Z
  end.

(** [hasLiveConnections]. *)
Definition hasLiveConnections (controlURL : option URL) : sys bool :=
  match controlURL with
  | None => Ret false
  | Some u =>
      status ← call (OpStatus u);
      Ret (match status with Ok s => (0 <? st_Active (Traffic s))%Z | Err _ => false end)
  end.

(** [killTunnel]. *)
Definition killTunnel (st : poolRef) (t : Tunnel) (reason : string) : sys unit :=
  _ ← write st (markReaping (ContainerID t));
  _ ← call (OpKill (ContainerID t));
  _ ← write st (setTunnel None);
  call (OpMetric (TunnelReapsTotal (ref_key st) reason)).

(** The body of the loop of [reapIdle]. *)
Definition reapIdleOne (now : Z) (controlURLs : gmap string URL) (st : poolRef) : sys unit :=
  t ← snapshotOf st;
  match t with
  | None => Ret tt
  | Some t =>
      if (time_sub now (LastUsedAt t) <? IdleTimeout (m_cfg m))%Z then Ret tt else
      if (0 <? InFlight t)%Z then Ret tt else
      live ← hasLiveConnections (controlURLs !! ContainerID t);
      if (live : bool) then Ret tt else killTunnel st t reasonIdle
  end.

(** [reapIdle]. *)
Definition reapIdle : sys unit :=
  now ← call OpNow;
  controlURLs ← childControlURLs;
  states ← allPools;
  for_each states (reapIdleOne now controlURLs).

(** The body of the loop of [checkHealth]. *)
Definition checkHealthOne (controlURLs : gmap string URL) (st : poolRef) : sys unit :=
  t ← snapshotOf st;
  match t with
  | None => Ret tt
  | Some t =>
      if negb (bool_decide (State t = TunnelStateHot)) then Ret tt else
      healthy ← probeHealthy t (controlURLs !! ContainerID t);
      if (healthy : bool)
      then section st (fun now _ p => (refreshHealthy (ContainerID t) now p, tt))
      else
        now ← call OpNow;
        _ ← write st (markFailed (ConfName t) now);
        killTunnel st t reasonUnhealthy
  end.

(** [checkHealth]. *)
Definition checkHealth : sys unit :=
  controlURLs ← childControlURLs;
  states ← allPools;
  for_each states (checkHealthOne controlURLs).

(** [reapOrphans], with the spawner a [CellSpawner]: everything but the
    containers of the occupied slots is up for removal. *)
Definition reapOrphans : sys (res nat) :=
  states ← allPools;
  keep ← fold_prog (fun keep st =>
    t ← snapshotOf st;
    Ret (match t with
         | Some t => if String.eqb (ContainerID t) "" then keep else {[ ContainerID t ]} ∪ keep
         | None => keep
         end)) states (∅ : gset string);
  call (OpReapOrphans keep).
End reaper.
