(* ===== verification/Cells.v ===== *)
(** * Live cells ([cells.go])

    Listing, inspecting and destroying the cells Docker reports as this
    controller's children. *)

From S2P Require Import Prelude GoStrings Types Pools PoolState Prog System Manager Float64.

(** [cv_UptimeSeconds] is zero and [cv_Traffic] nil without a status. *)
Record CellView := mkCellView {
  cv_ContainerID : string;
  cv_ParentID : string;
  cv_Pool : string;
  cv_ConfName : string;
  cv_State : string;
  cv_ExitCountry : string;
  cv_CreatedAt : Z;
  cv_UptimeSeconds : float64;
  cv_Traffic : option Stats;
  cv_StatusError : option error;
}.

(** [exitCountryFromConf] ([spawner.go]): the part before the first dash. *)
Definition exitCountryFromConf `{GoUnicode} (conf : string) : string :=
  match index_byte conf "-" with
  | Some (S i) => to_upper (string_take (S i) conf)
  | _ => ""
  end.

Definition containsCell (handles : list CellHandle) (containerID : string) : bool :=
  existsb (fun h => String.eqb (h_ContainerID h) containerID) handles.

Section cells.
Context `{GoUnicode, MapOrder}.
Variable m : Manager.

(** [exitCountryFor]: the configured country, or the name's prefix. *)
Definition exitCountryFor (pool conf : string) : string :=
  let configured := match m_specs m !! pool with
                    | Some spec => default "" (ExitCountries spec !! conf)
                    | None => ""
                    end in
  if String.eqb configured "" then exitCountryFromConf conf else configured.

(** [cellView]. *)
Definition cellView (h : CellHandle) : sys CellView :=
  let base := mkCellView (h_ContainerID h) "" (h_Pool h) (h_ConfName h) (h_State h)
                (exitCountryFor (h_Pool h) (h_ConfName h)) (h_CreatedAt h) fzero None in
  match h_ControlURL h with
  | None => Ret (base None)
  | Some u =>
      status ← call (OpStatus u);
      Ret (match status with
           | Err e => base (Some e)
           | Ok s => mkCellView (h_ContainerID h) (ParentID s) (h_Pool h) (h_ConfName h)
                       (h_State h) (exitCountryFor (h_Pool h) (h_ConfName h)) (h_CreatedAt h)
                       (UptimeSeconds s) (Some (Traffic s)) None
           end)
  end.

(** [Cells]. *)
Definition CellViews : sys (res (list CellView)) :=
  handles ← call OpListChildren;
  match handles with
  | Err e => Ret (Err e)
  | Ok hs =>
      views ← fold_prog (fun views h => v ← cellView h; Ret (views ++ [v])) hs [];
      Ret (Ok (sort_by cv_ContainerID views))
  end.

(** [CellByID]: the first handle with the identifier. *)
Definition CellByID (containerID : string) : sys (res (option CellView)) :=
  handles ← call OpListChildren;
  match handles with
  | Err e => Ret (Err e)
  | Ok hs =>
      match find (fun h => String.eqb (h_ContainerID h) containerID) hs with
      | Some h => v ← cellView h; Ret (Ok (Some v))
      | None => Ret (Ok None)
      end
  end.

(** [stateForContainer]: the first pool whose slot holds the container; the
    remaining pools are not looked at. *)
Fixpoint stateForContainer (states : list poolRef) (containerID : string) : sys (option poolRef) :=
  match states with
  | [] => Ret None
  | st :: rest =>
      t ← snapshotOf st;
      match t with
      | Some t => if String.eqb (ContainerID t) containerID then Ret (Some st)
                  else stateForContainer rest containerID
      | None => stateForContainer rest containerID
      end
  end.

(** [DestroyCell]. *)
Definition DestroyCell (containerID : string) : sys (res unit) :=
  handles ← call OpListChildren;
  match handles with
  | Err e => Ret (Err e)
  | Ok hs =>
      if negb (containsCell hs containerID) then Ret (Err ErrNotFound) else
      killErr ← call (OpKill containerID);
      states ← allPools;
      state ← stateForContainer states containerID;
      _ ← match state with Some st => write st (setTunnel None) | None => Ret tt end;
      Ret (match killErr with Some e => Err e | None => Ok tt end)
  end.
End cells.
