(* ===== verification/Socks.v ===== *)
(** * SOCKS5 on the wire ([vendor/golang.org/x/net/internal/socks], [vendor/github.com/things-go/go-socks5])

    The two ends of every proxied connection: the dialer of [x/net/proxy], with
    which the client library reaches the gateway and the gateway reaches a cell,
    and the server of [go-socks5], which the gateway and the cell run.  Both are
    programs over reads and writes of bytes; the server also asks for
    credentials to be checked, names to be looked up and connections to be
    dialled.  Contexts and deadlines only make a read or a write fail, which any
    of them may.  UDP association is one operation. *)

From S2P Require Import Prelude GoStrings Types Prog.

(** ** Bytes and addresses *)

Definition byte (z : Z) : ascii := ascii_of_N (Z.to_N (z mod 256)).
Definition unbyte (c : ascii) : Z := Z.of_N (byte_val c).

Fixpoint bytes (l : list Z) : string :=
  match l with
  | [] => ""
  | z :: l => String (byte z) (bytes l)
  end.

(** The byte at an index of a slice that is long enough. *)
Definition byte_at (i : nat) (s : string) : Z :=
  match string_drop i s with
  | String c _ => unbyte c
  | EmptyString => 0
  end.

(** [byte(port>>8), byte(port)] and back. *)
Definition port_bytes (port : Z) : string := bytes [Z.shiftr port 8; port]%Z.
Definition port_of (hi lo : Z) : Z := Z.lor (Z.shiftl hi 8) lo.

(** [net.IP] is a slice of 4 or 16 bytes, or nil; its textual form is the
    library's. *)
Class GoIP := {
  parse_ip : string -> option string;
  ip_string : string -> string;
}.

Definition v4_prefix : string := bytes [0; 0; 0; 0; 0; 0; 0; 0; 0; 0; 255; 255]%Z.

(** [IP.To4], [IP.To16]. *)
Definition To4 (ip : string) : option string :=
  if Nat.eqb (String.length ip) 4 then Some ip
  else if Nat.eqb (String.length ip) 16 && has_prefix v4_prefix ip then Some (string_drop 12 ip)
  else None.
Definition To16 (ip : string) : option string :=
  if Nat.eqb (String.length ip) 4 then Some (v4_prefix +:+ ip)
  else if Nat.eqb (String.length ip) 16 then Some ip
  else None.

Definition Version5 : Z := 5.
Definition AddrTypeIPv4 : Z := 1.
Definition AddrTypeFQDN : Z := 3.
Definition AddrTypeIPv6 : Z := 4.
Definition AuthMethodNotRequired : Z := 0.
Definition AuthMethodUsernamePassword : Z := 2.
Definition AuthMethodNoAcceptableMethods : Z := 255.

(** ** Operations *)

(** [io.ReadFull] of [n] bytes, and a write; the error is its text. *)
Inductive iop : Type -> Type :=
  | IRead (n : nat) : iop (result string string)
  | IWrite (b : string) : iop (option string).

(** ** The dialer ([client.go], [socks.go]) *)

Definition dialing := prog iop.

(** [b, err := io.ReadFull(...)] and [_, err := c.Write(...)], with the early
    return. *)
Definition cread {A} (n : nat) (k : string -> dialing (result string A)) : dialing (result string A) :=
  r ← do_op (IRead n); match r with Err e => Ret (Err e) | Ok b => k b end.
Definition cwrite {A} (b : string) (k : dialing (result string A)) : dialing (result string A) :=
  r ← do_op (IWrite b); match r with Some e => Ret (Err e) | None => k end.

(** [splitHostPort]. *)
Definition splitHostPort (address : string) : result string (string * Z) :=
  match split_host_port address with
  | None => Err "malformed address"
  | Some (host, port) =>
      match atoi port with
      | None => Err "invalid syntax"
      | Some portnum => if (portnum <? 1)%Z || (65535 <? portnum)%Z then Err ("port number out of range " +:+ port)
                        else Ok (host, portnum)
      end
  end.

Record socksAddr := mkSocksAddr { sa_Name : string; sa_IP : string; sa_Port : Z }.

Section dialer.
Context `{GoIP}.

(** [UsernamePassword.Authenticate], then [k]. *)
Definition upAuthenticate {A} (up : string * string) (am : Z) (k : dialing (result string A)) : dialing (result string A) :=
  let '(username, password) := up in
  if (am =? AuthMethodNotRequired)%Z then k
  else if (am =? AuthMethodUsernamePassword)%Z then
    if Nat.eqb (String.length username) 0 || Nat.ltb 255 (String.length username) || Nat.ltb 255 (String.length password)
    then Ret (Err "invalid username/password")
    else
      cwrite (bytes [1; Z.of_nat (String.length username)]%Z +:+ username +:+
              bytes [Z.of_nat (String.length password)]%Z +:+ password)
        (cread 2 (fun b =>
          if negb (byte_at 0 b =? 1)%Z then Ret (Err "invalid username/password version")
          else if negb (byte_at 1 b =? 0)%Z then Ret (Err "username/password authentication failed")
          else k))
  else Ret (Err ("unsupported authentication method " +:+ itoa am)).

(** The address of a request: type and bytes. *)
Definition target_bytes (host : string) : result string string :=
  match parse_ip host with
  | Some ip =>
      match To4 ip, To16 ip with
      | Some ip4, _ => Ok (bytes [AddrTypeIPv4]%Z +:+ ip4)
      | None, Some ip6 => Ok (bytes [AddrTypeIPv6]%Z +:+ ip6)
      | None, None => Err "unknown address type"
      end
  | None =>
      if Nat.ltb 255 (String.length host) then Err "FQDN too long"
      else Ok (bytes [AddrTypeFQDN; Z.of_nat (String.length host)]%Z +:+ host)
  end.

(** The bound address of a reply, after its address type. *)
Definition read_bound (atyp : Z) : dialing (result string socksAddr) :=
  let finish name_len ip_len b :=
    let port := port_of (byte_at (String.length b - 2) b) (byte_at (String.length b - 1) b) in
    Ret (Ok (mkSocksAddr (string_take name_len b) (string_take ip_len b) port)) in
  if (atyp =? AddrTypeIPv4)%Z then cread 6 (finish 0 4)
  else if (atyp =? AddrTypeIPv6)%Z then cread 18 (finish 0 16)
  else if (atyp =? AddrTypeFQDN)%Z then
    cread 1 (fun l => let n := Z.to_nat (byte_at 0 l) in cread (n + 2) (finish n 0))
  else Ret (Err ("unknown address type " +:+ itoa atyp)).

(** [Reply.String] of [socks.go]. *)
Definition replyString (code : Z) : string :=
  match code with
  | 0 => "succeeded"
  | 1 => "general SOCKS server failure"
  | 2 => "connection not allowed by ruleset"
  | 3 => "network unreachable"
  | 4 => "host unreachable"
  | 5 => "connection refused"
  | 6 => "TTL expired"
  | 7 => "command not supported"
  | 8 => "address type not supported"
  | _ => "unknown code: " +:+ itoa code
  end%Z.

(** The end of [Dialer.connect]: the reply to the request. *)
Definition connectReply : dialing (result string socksAddr) :=
  cread 4 (fun b =>
    if negb (byte_at 0 b =? Version5)%Z then Ret (Err ("unexpected protocol version " +:+ itoa (byte_at 0 b)))
    else if negb (byte_at 1 b =? 0)%Z then Ret (Err ("unknown error " +:+ replyString (byte_at 1 b)))
    else if negb (byte_at 2 b =? 0)%Z then Ret (Err "non-zero reserved field")
    else read_bound (byte_at 3 b)).

(** The second half of [Dialer.connect]: the request and its reply. *)
Definition connectRequest (host : string) (port : Z) : dialing (result string socksAddr) :=
  match target_bytes host with
  | Err e => Ret (Err e)
  | Ok target =>
      cwrite (bytes [Version5; 1; 0]%Z +:+ target +:+ port_bytes port) connectReply
  end.

(** [Dialer.connect] of a dialer made by [proxy.SOCKS5], with its credentials. *)
Definition connect (auth : option (string * string)) (address : string) : dialing (result string socksAddr) :=
  match splitHostPort address with
  | Err e => Ret (Err e)
  | Ok (host, port) =>
      let methods := match auth with
                     | None => bytes [Version5; 1; AuthMethodNotRequired]%Z
                     | Some _ => bytes [Version5; 2; AuthMethodNotRequired; AuthMethodUsernamePassword]%Z
                     end in
      cwrite methods (cread 2 (fun b =>
        if negb (byte_at 0 b =? Version5)%Z then Ret (Err ("unexpected protocol version " +:+ itoa (byte_at 0 b)))
        else
          let am := byte_at 1 b in
          if (am =? AuthMethodNoAcceptableMethods)%Z then Ret (Err "no acceptable authentication methods")
          else
            match auth with
            | None => connectRequest host port
            | Some up => upAuthenticate up am (connectRequest host port)
            end))
  end.
End dialer.

(** ** The server ([server.go], [handle.go], [auth.go], [statute]) *)

Inductive sop : Type -> Type :=
  | SRead (n : nat) : sop (result string string)
  | SWrite (b : string) : sop (option string)
  | SValid (username password : string) : sop bool
  | SLookup (name : string) : sop (result string string)
  | SDial (network address : string) (auth : option (string * string)) : sop (result string (option (string * Z)))
  | SRelay : sop (option string)
  | SCloseTarget : sop unit
  | SAssociate : sop (option string).

Definition serving := prog sop.

Definition sread {A} (n : nat) (k : string -> serving (result string A)) : serving (result string A) :=
  r ← do_op (SRead n); match r with Err e => Ret (Err e) | Ok b => k b end.
Definition swrite {A} (b : string) (k : serving (result string A)) : serving (result string A) :=
  r ← do_op (SWrite b); match r with Some e => Ret (Err e) | None => k end.

Definition MethodNoAuth : Z := 0.
Definition MethodUserPassAuth : Z := 2.
Definition MethodNoAcceptable : Z := 255.
Definition CommandConnect : Z := 1.
Definition CommandBind : Z := 2.
Definition CommandAssociate : Z := 3.
Definition ATYPIPv4 : Z := 1.
Definition ATYPDomain : Z := 3.
Definition ATYPIPv6 : Z := 4.
Definition RepSuccess : Z := 0.
Definition RepRuleFailure : Z := 2.
Definition RepNetworkUnreachable : Z := 3.
Definition RepHostUnreachable : Z := 4.
Definition RepConnectionRefused : Z := 5.
Definition RepCommandNotSupported : Z := 7.
Definition RepAddrTypeNotSupported : Z := 8.

Record AddrSpec := mkAddrSpec { FQDN : string; as_IP : string; as_Port : Z; AddrType : Z }.

(** How a server resolves names: with the system's resolver, or (the resolver of
    the gateway) not at all. *)
Inductive resolver := DNSResolver | CellResolver.

(** What [NewServer] makes of its options: whether there are credentials, the
    resolver and the [PermitCommand]. *)
Record socksServer := mkSocksServer {
  sv_credentials : bool;
  sv_resolver : resolver;
  EnableConnect : bool;
  EnableBind : bool;
  EnableAssociate : bool;
}.

Section server.
Context `{GoIP}.
Variable sf : socksServer.

(** [AddrSpec.String]. *)
Definition addrString (a : AddrSpec) : string :=
  if negb (Nat.eqb (String.length (as_IP a)) 0) then join_host_port (ip_string (as_IP a)) (itoa (as_Port a))
  else join_host_port (FQDN a) (itoa (as_Port a)).

(** [statute.ParseMethodRequest]: the version and the methods. *)
Definition ParseMethodRequest : serving (result string (Z * string)) :=
  sread 1 (fun v => sread 1 (fun n => sread (Z.to_nat (byte_at 0 n)) (fun methods => Ret (Ok (byte_at 0 v, methods))))).

(** [statute.ParseUserPassRequest]. *)
Definition ParseUserPassRequest : serving (result string (string * string)) :=
  sread 2 (fun b =>
    if negb (byte_at 0 b =? 1)%Z then Ret (Err ("unsupported auth version: " +:+ itoa (byte_at 0 b)))
    else sread (Z.to_nat (byte_at 1 b)) (fun user =>
      sread 1 (fun l => sread (Z.to_nat (byte_at 0 l)) (fun pass => Ret (Ok (user, pass)))))).

(** The [Authenticate] of the server's one method: the payload of the
    [AuthContext]. *)
Definition Authenticate : serving (result string (option (string * string))) :=
  if sv_credentials sf then
    swrite (bytes [5; MethodUserPassAuth]%Z)
      (nup ← ParseUserPassRequest;
       match nup with
       | Err e => Ret (Err e)
       | Ok (user, pass) =>
           valid ← do_op (SValid user pass);
           if negb valid then swrite (bytes [1; 1]%Z) (Ret (Err "user authentication failed"))
           else swrite (bytes [1; 0]%Z) (Ret (Ok (Some (user, pass))))
       end)
  else swrite (bytes [5; MethodNoAuth]%Z) (Ret (Ok None)).

Definition GetCode : Z := if sv_credentials sf then MethodUserPassAuth else MethodNoAuth.

(** [Server.authenticate]; the error of the last write is ignored. *)
Definition authenticate (methods : string) : serving (result string (option (string * string))) :=
  if has_byte (byte GetCode) methods then Authenticate
  else _ ← do_op (SWrite (bytes [5; MethodNoAcceptable]%Z)); Ret (Err "no supported authentication mechanism").

(** [statute.ParseRequest]: the command and the destination, or an error and
    whether it is [ErrUnrecognizedAddrType]. *)
Definition spec_port (b : string) : Z := port_of (byte_at 0 b) (byte_at 1 b).

Definition rread {A} (prefix : string) (n : nat) (k : string -> serving (result (string * bool) A)) :
    serving (result (string * bool) A) :=
  r ← do_op (SRead n); match r with Err e => Ret (Err (prefix +:+ e, false)) | Ok b => k b end.

Definition ParseRequest : serving (result (string * bool) (Z * AddrSpec)) :=
  rread "failed to get request version and command, " 2 (fun b =>
    let command := byte_at 1 b in
    if negb (byte_at 0 b =? 5)%Z then Ret (Err ("unrecognized SOCKS version[" +:+ itoa (byte_at 0 b) +:+ "]", false))
    else rread "failed to get request RSV and address type, " 2 (fun b =>
      let atyp := byte_at 1 b in
      if (atyp =? ATYPIPv4)%Z then
        rread "failed to get request, " 6 (fun a =>
          Ret (Ok (command, mkAddrSpec "" (v4_prefix +:+ string_take 4 a) (spec_port (string_drop 4 a)) atyp)))
      else if (atyp =? ATYPIPv6)%Z then
        rread "failed to get request, " 18 (fun a =>
          Ret (Ok (command, mkAddrSpec "" (string_take 16 a) (spec_port (string_drop 16 a)) atyp)))
      else if (atyp =? ATYPDomain)%Z then
        rread "failed to get request, " 1 (fun l =>
          let n := Z.to_nat (byte_at 0 l) in
          rread "failed to get request, " (n + 2) (fun a =>
            Ret (Ok (command, mkAddrSpec (string_take n a) "" (spec_port (string_drop n a)) atyp))))
      else Ret (Err ("unrecognized address type", true)))).

(** [Reply.Bytes] of the replies [SendReply] makes: an IPv4 or IPv6 address. *)
Definition reply_bytes (response : Z) (bnd : AddrSpec) : string :=
  let addr := if (AddrType bnd =? ATYPIPv4)%Z then default "" (To4 (as_IP bnd))
              else if (AddrType bnd =? ATYPIPv6)%Z then default "" (To16 (as_IP bnd))
              else FQDN bnd in
  bytes [5; response; 0; AddrType bnd]%Z +:+
  (if (AddrType bnd =? ATYPDomain)%Z then bytes [Z.of_nat (String.length (FQDN bnd))]%Z else "") +:+
  addr +:+ port_bytes (as_Port bnd).

(** [SendReply]; [bindAddr] is the address of a TCP or UDP connection. *)
Definition SendReply (rep : Z) (bindAddr : option (string * Z)) : string :=
  let zero := mkAddrSpec "" (v4_prefix +:+ bytes [0; 0; 0; 0]%Z) 0 ATYPIPv4 in
  if (rep =? RepSuccess)%Z then
    match bindAddr with
    | None => reply_bytes RepAddrTypeNotSupported zero
    | Some (ip, port) =>
        let atyp := match To4 ip, To16 ip with
                    | Some _, _ => ATYPIPv4
                    | None, Some _ => ATYPIPv6
                    | None, None => ATYPIPv4
                    end in
        reply_bytes rep (mkAddrSpec "" ip port atyp)
    end
  else reply_bytes rep zero.

(** A reply of failure, and the error to return when it was sent. *)
Definition refuse {A} (rep : Z) (msg : string) : serving (result string A) :=
  w ← do_op (SWrite (SendReply rep None));
  Ret (Err (match w with Some e => "failed to send reply, " +:+ e | None => msg end)).

(** The two copying goroutines of [handleConnect], and the deferred close. *)
Definition relaying : serving (result string unit) :=
  err ← do_op SRelay;
  _ ← do_op SCloseTarget;
  Ret (match err with Some e => Err e | None => Ok tt end).

(** [handleConnect]; the dial callback of the gateway sees the payload of the
    [AuthContext]. *)
Definition handleConnect (auth : option (string * string)) (dest : AddrSpec) : serving (result string unit) :=
  target ← do_op (SDial "tcp" (addrString dest) auth);
  match target with
  | Err msg =>
      let resp := if contains msg "refused" then RepConnectionRefused
                  else if contains msg "network is unreachable" then RepNetworkUnreachable
                  else RepHostUnreachable in
      refuse resp ("connect to " +:+ addrString dest +:+ " failed, " +:+ msg)
  | Ok localAddr =>
      w ← do_op (SWrite (SendReply RepSuccess localAddr));
      match w with
      | Some e => _ ← do_op SCloseTarget; Ret (Err ("failed to send reply, " +:+ e))
      | None => relaying
      end
  end.

(** [PermitCommand.Allow]. *)
Definition Allow (command : Z) : bool :=
  if (command =? CommandConnect)%Z then EnableConnect sf
  else if (command =? CommandBind)%Z then EnableBind sf
  else if (command =? CommandAssociate)%Z then EnableAssociate sf
  else false.

(** [handleRequest]. *)
Definition handleRequest (auth : option (string * string)) (command : Z) (raw : AddrSpec) : serving (result string unit) :=
  let proceed dest :=
    if negb (Allow command) then refuse RepRuleFailure ("bind to " +:+ addrString dest +:+ " blocked by rules")
    else if (command =? CommandConnect)%Z then handleConnect auth dest
    else if (command =? CommandBind)%Z then
      w ← do_op (SWrite (SendReply RepCommandNotSupported None));
      Ret (match w with Some e => Err ("failed to send reply: " +:+ e) | None => Ok tt end)
    else err ← do_op SAssociate; Ret (match err with Some e => Err e | None => Ok tt end) in
  if String.eqb (FQDN raw) "" then proceed raw
  else
    match sv_resolver sf with
    | CellResolver => proceed (mkAddrSpec (FQDN raw) "" (as_Port raw) (AddrType raw))
    | DNSResolver =>
        ip ← do_op (SLookup (FQDN raw));
        match ip with
        | Err e => refuse RepHostUnreachable ("failed to resolve destination[" +:+ FQDN raw +:+ "], " +:+ e)
        | Ok ip => proceed (mkAddrSpec (FQDN raw) ip (as_Port raw) (AddrType raw))
        end
    end.

(** [ServeConn] once the connection is authenticated. *)
Definition serveRequest (auth : option (string * string)) : serving (result string unit) :=
  request ← ParseRequest;
  match request with
  | Err (e, true) =>
      w ← do_op (SWrite (SendReply RepAddrTypeNotSupported None));
      Ret (Err (match w with
                | Some we => "failed to send reply " +:+ we
                | None => "failed to read destination address, " +:+ e
                end))
  | Err (e, false) => Ret (Err ("failed to read destination address, " +:+ e))
  | Ok (command, dest) =>
      if negb (command =? CommandConnect)%Z && negb (command =? CommandBind)%Z && negb (command =? CommandAssociate)%Z
      then refuse RepCommandNotSupported ("unrecognized command[" +:+ itoa command +:+ "]")
      else handleRequest auth command dest
  end.

(** [ServeConn]. *)
Definition ServeConn : serving (result string unit) :=
  mr ← ParseMethodRequest;
  match mr with
  | Err e => Ret (Err e)
  | Ok (ver, methods) =>
      if negb (ver =? 5)%Z then Ret (Err "not support version") else
      authContext ← authenticate methods;
      match authContext with
      | Err e => Ret (Err ("failed to authenticate: " +:+ e))
      | Ok auth => serveRequest auth
      end
  end.
End server.

(** The message [Serve] logs for a connection. *)
Definition logged (r : result string unit) : option string :=
  match r with Err e => Some ("server: " +:+ e) | Ok _ => None end.
