(* ===== verification/Sessions.v ===== *)
(** * Two ends of a SOCKS5 connection, run against each other

    A dialer and a server of [Socks], joined by two byte streams, each running
    at its own pace.  What the server asks of its surroundings is answered by an
    [answers] and recorded.  The order in which the two ends run does not
    matter ([session_confluent]), so a handshake has one outcome. *)

From S2P Require Import Prelude GoStrings Types Prog Socks.

(** ** Sessions *)

Inductive scall :=
  | AskedValid (username password : string)
  | AskedLookup (name : string)
  | AskedDial (network address : string) (auth : option (string * string)).

#[global] Instance scall_eq_dec : EqDecision scall.
Proof. solve_decision. Defined.

Record answers := mkAnswers {
  ans_valid : string -> string -> bool;
  ans_lookup : string -> result string string;
  ans_dial : string -> string -> option (string * string) -> result string (option (string * Z));
}.

Record session := mkSession {
  ss_dialer : dialing (result string socksAddr);
  ss_server : serving (result string unit);
  ss_up : string;
  ss_down : string;
  ss_calls : list scall;
}.

Definition start (d : dialing (result string socksAddr)) (s : serving (result string unit)) : session :=
  mkSession d s "" "" [].

(** A dialer closes the connection when [connect] fails, a server when
    [ServeConn] returns. *)
Definition dialer_gone (x : session) : bool := match ss_dialer x with Ret (Err _) => true | _ => false end.
Definition server_gone (x : session) : bool := match ss_server x with Ret _ => true | _ => false end.

(** [io.ReadFull] of [n] bytes on what has arrived: the answer and the rest, or
    nothing yet. *)
Definition read_full (n : nat) (arrived : string) (ended : bool) : option (result string string * string) :=
  if Nat.leb n (String.length arrived) then Some (Ok (string_take n arrived), string_drop n arrived)
  else if ended then Some (Err (if String.eqb arrived "" then "EOF" else "unexpected EOF"), "")
  else None.

Definition dialer_step (x : session) : option session :=
  match ss_dialer x with
  | Ret _ => None
  | @Op _ _ R o k =>
      match o in iop R return (R -> dialing (result string socksAddr)) -> option session with
      | IRead n => fun k =>
          match read_full n (ss_down x) (server_gone x) with
          | Some (r, rest) => Some (mkSession (k r) (ss_server x) (ss_up x) rest (ss_calls x))
          | None => None
          end
      | IWrite b => fun k => Some (mkSession (k None) (ss_server x) (ss_up x +:+ b) (ss_down x) (ss_calls x))
      end k
  end.

Section sessions.
Variable a : answers.

(** The relay of a connection is not part of its handshake. *)
Definition server_step (x : session) : option session :=
  match ss_server x with
  | Ret _ => None
  | @Op _ _ R o k =>
      match o in sop R return (R -> serving (result string unit)) -> option session with
      | SRead n => fun k =>
          match read_full n (ss_up x) (dialer_gone x) with
          | Some (r, rest) => Some (mkSession (ss_dialer x) (k r) rest (ss_down x) (ss_calls x))
          | None => None
          end
      | SWrite b => fun k => Some (mkSession (ss_dialer x) (k None) (ss_up x) (ss_down x +:+ b) (ss_calls x))
      | SValid u p => fun k =>
          Some (mkSession (ss_dialer x) (k (ans_valid a u p)) (ss_up x) (ss_down x) (ss_calls x ++ [AskedValid u p]))
      | SLookup name => fun k =>
          Some (mkSession (ss_dialer x) (k (ans_lookup a name)) (ss_up x) (ss_down x) (ss_calls x ++ [AskedLookup name]))
      | SDial network address auth => fun k =>
          Some (mkSession (ss_dialer x) (k (ans_dial a network address auth)) (ss_up x) (ss_down x)
                  (ss_calls x ++ [AskedDial network address auth]))
      | SCloseTarget => fun k => Some (mkSession (ss_dialer x) (k tt) (ss_up x) (ss_down x) (ss_calls x))
      | SRelay | SAssociate => fun _ => None
      end k
  end.

Definition session_step (x y : session) : Prop := dialer_step x = Some y \/ server_step x = Some y.

(** ** The schedule does not matter *)

Lemma string_drop_app_le n s t : n <= String.length s -> string_drop n (s +:+ t) = string_drop n s +:+ t.
Proof. revert s. induction n as [|n IH]; intros [|c s] Hn; simpl in *; [done..|lia|]. apply IH. lia. Qed.
Lemma string_take_app_le n s t : n <= String.length s -> string_take n (s +:+ t) = string_take n s.
Proof. revert s. induction n as [|n IH]; intros [|c s] Hn; simpl in *; [done..|lia|]. f_equal. apply IH. lia. Qed.

(** More bytes do not change a read that has its bytes. *)
Lemma read_full_more n s t r rest :
  read_full n s false = Some (r, rest) -> forall e, read_full n (s +:+ t) e = Some (r, rest +:+ t).
Proof.
  unfold read_full. destruct (Nat.leb_spec n (String.length s)) as [Hn|]; [|done]. intros [= <- <-] e.
  destruct (Nat.leb_spec n (String.length (s +:+ t))) as [_|Hl]; [|rewrite string_app_length in Hl; lia].
  by rewrite string_take_app_le, string_drop_app_le by done.
Qed.

Lemma read_full_open n s r rest e : read_full n s false = Some (r, rest) -> read_full n s e = Some (r, rest).
Proof. unfold read_full. by destruct (Nat.leb n (String.length s)). Qed.

(** A read of the server from a dialer still running, and conversely, does not
    rely on the end of the stream. *)
Lemma session_diamond x y z :
  dialer_step x = Some y -> server_step x = Some z ->
  exists w, server_step y = Some w /\ dialer_step z = Some w.
Proof.
  destruct x as [d s up down calls]. unfold dialer_step, server_step, dialer_gone, server_gone. cbn.
  destruct d as [|R o k]; [done|]. destruct s as [|R' o' k']; [done|]. intros Hd Hs.
  destruct o as [n|b]; cbn in *.
  - destruct (read_full n down false) as [[r rest]|] eqn:Hr; [|done]. injection Hd as <-. cbn.
    destruct o' as [m|b'|u p|name|net addr au| | |]; cbn in *; try done.
    + destruct (read_full m up false) as [[r' rest']|] eqn:Hr'; [|done]. injection Hs as <-. cbn.
      rewrite (read_full_open _ _ _ _ _ Hr'), (read_full_open _ _ _ _ _ Hr). eauto.
    + injection Hs as <-. cbn. rewrite (read_full_more _ _ b' _ _ Hr). eauto.
    + injection Hs as <-. cbn. rewrite (read_full_open _ _ _ _ _ Hr). eauto.
    + injection Hs as <-. cbn. rewrite (read_full_open _ _ _ _ _ Hr). eauto.
    + injection Hs as <-. cbn. rewrite (read_full_open _ _ _ _ _ Hr). eauto.
    + injection Hs as <-. cbn. rewrite (read_full_open _ _ _ _ _ Hr). eauto.
  - injection Hd as <-. cbn.
    destruct o' as [m|b'|u p|name|net addr au| | |]; cbn in *; try done; try (injection Hs as <-; cbn; eauto).
    destruct (read_full m up false) as [[r' rest']|] eqn:Hr'; [|done]. injection Hs as <-. cbn.
    rewrite (read_full_more _ _ b _ _ Hr'). eauto.
Qed.

Lemma session_confluent : confluent session_step.
Proof.
  apply rtc_confluent. intros x y1 y2 [H1|H1] [H2|H2].
  - left. congruence.
  - right. destruct (session_diamond _ _ _ H1 H2) as (w & ? & ?). exists w. by split; [right|left].
  - right. destruct (session_diamond _ _ _ H2 H1) as (w & ? & ?). exists w. by split; [left|right].
  - left. congruence.
Qed.

(** A session that can end somewhere ends there, whatever the schedule. *)
Definition settles (x f : session) : Prop :=
  rtc session_step x f /\ nf session_step f /\ forall y, rtc session_step x y -> rtc session_step y f.

Lemma settles_intro x f : rtc session_step x f -> nf session_step f -> settles x f.
Proof.
  intros Hr Hn. split_and!; [done..|]. intros y Hy.
  destruct (session_confluent _ _ _ Hr Hy) as (z & Hz & Hyz).
  by rewrite (rtc_nf _ _ Hz Hn) in *.
Qed.
End sessions.
