(* ===== verification/Handshake.v ===== *)
(** * The SOCKS5 handshake

    What the dialer of [x/net/proxy] and the server of [go-socks5] do to each
    other: every field one end writes is the field the other end reads, the
    streams are empty when the relay starts, and the server asks its
    surroundings exactly what the target and the credentials call for. *)

From S2P Require Import Prelude GoStrings Encoding Types Prog Socks Sessions.

(** ** Bytes *)

Lemma unbyte_byte z : (0 <= z < 256)%Z -> unbyte (byte z) = z.
Proof.
  intros Hz. unfold unbyte, byte, byte_val. rewrite Z.mod_small by done.
  rewrite Stdlib.Strings.Ascii.N_ascii_embedding by lia. lia.
Qed.

Lemma unbyte_mod z : unbyte (byte z) = (z mod 256)%Z.
Proof.
  pose proof (Z.mod_pos_bound z 256 ltac:(done)). rewrite <- (unbyte_byte (z mod 256)) by done.
  unfold byte. by rewrite Z.mod_mod by done.
Qed.

(** A length in one byte. *)
Lemma byte_length s : String.length s <= 255 -> String.length s = Z.to_nat (unbyte (byte (Z.of_nat (String.length s)))).
Proof. intros Hs. rewrite unbyte_byte by lia. lia. Qed.

Lemma port_round_trip port :
  (0 <= port < 65536)%Z -> port_of (unbyte (byte (Z.shiftr port 8))) (unbyte (byte port)) = port.
Proof.
  intros Hp. rewrite !unbyte_mod. unfold port_of.
  rewrite Z.shiftr_div_pow2, Z.shiftl_mul_pow2 by lia. change (2 ^ 8)%Z with 256%Z.
  rewrite (Z.mod_small (port / 256)) by (split; [apply Z.div_pos; lia|apply Z.div_lt_upper_bound; lia]).
  rewrite <- Z.add_nocarry_lor; [pose proof (Z.div_mod port 256); lia|].
  apply Z.bits_inj'. intros i Hi. rewrite Z.land_spec, Z.bits_0. change 256%Z with (2 ^ 8)%Z.
  destruct (Z.lt_ge_cases i 8).
  - by rewrite Z.mul_pow2_bits_low.
  - rewrite Z.mod_pow2_bits_high by lia. apply andb_false_r.
Qed.

(** ** Steps of a session *)

Section handshake.
Context `{GoIP}.
Variable a : answers.

Lemma string_take_length s t n : String.length s = n -> string_take n (s +:+ t) = s.
Proof. intros <-. apply string_take_app. Qed.
Lemma string_drop_length s t n : String.length s = n -> string_drop n (s +:+ t) = t.
Proof. intros <-. apply string_drop_app. Qed.

Lemma read_full_exact n b rest e : String.length b = n -> read_full n (b +:+ rest) e = Some (Ok b, rest).
Proof.
  intros Hb. unfold read_full.
  destruct (Nat.leb_spec n (String.length (b +:+ rest))) as [_|Hl]; [|rewrite string_app_length in Hl; lia].
  by rewrite string_take_length, string_drop_length.
Qed.

Notation "x '⟶' y" := (rtc (session_step a) x y) (at level 70).

(** One end reads or writes, then the session goes on. *)
Lemma dialer_writes b (k : dialing (result string socksAddr)) s up down calls f :
  mkSession k s (up +:+ b) down calls ⟶ f -> mkSession (cwrite b k) s up down calls ⟶ f.
Proof. intros Hf. eapply rtc_l; [|exact Hf]. by left. Qed.

Lemma dialer_reads n b rest (k : string -> dialing (result string socksAddr)) s up calls f :
  String.length b = n ->
  mkSession (k b) s up rest calls ⟶ f -> mkSession (cread n k) s up (b +:+ rest) calls ⟶ f.
Proof.
  intros Hb Hf. eapply rtc_l; [|exact Hf]. left. unfold dialer_step. cbn. by rewrite read_full_exact.
Qed.

Lemma server_writes b d (k : option string -> serving (result string unit)) up down calls f :
  mkSession d (k None) up (down +:+ b) calls ⟶ f -> mkSession d (Op (SWrite b) k) up down calls ⟶ f.
Proof. intros Hf. eapply rtc_l; [|exact Hf]. by right. Qed.

Lemma server_reads n b rest d (k : result string string -> serving (result string unit)) down calls f :
  String.length b = n ->
  mkSession d (k (Ok b)) rest down calls ⟶ f -> mkSession d (Op (SRead n) k) (b +:+ rest) down calls ⟶ f.
Proof.
  intros Hb Hf. eapply rtc_l; [|exact Hf]. right. unfold server_step. cbn. by rewrite read_full_exact.
Qed.

(** The server asks, and is answered. *)
Lemma server_validates u p d (k : bool -> serving (result string unit)) up down calls f :
  mkSession d (k (ans_valid a u p)) up down (calls ++ [AskedValid u p]) ⟶ f ->
  mkSession d (Op (SValid u p) k) up down calls ⟶ f.
Proof. intros Hf. eapply rtc_l; [|exact Hf]. by right. Qed.

Lemma server_looks_up name d (k : result string string -> serving (result string unit)) up down calls f :
  mkSession d (k (ans_lookup a name)) up down (calls ++ [AskedLookup name]) ⟶ f ->
  mkSession d (Op (SLookup name) k) up down calls ⟶ f.
Proof. intros Hf. eapply rtc_l; [|exact Hf]. by right. Qed.

Lemma server_dials network address auth d k up down calls f :
  mkSession d (k (ans_dial a network address auth)) up down (calls ++ [AskedDial network address auth]) ⟶ f ->
  mkSession d (Op (SDial network address auth) k) up down calls ⟶ f.
Proof. intros Hf. eapply rtc_l; [|exact Hf]. by right. Qed.

(** ** Negotiation *)

(** The username and password message. *)
Definition userpass (u p : string) : string :=
  bytes [1; Z.of_nat (String.length u)]%Z +:+ u +:+ bytes [Z.of_nat (String.length p)]%Z +:+ p.

Lemma upAuthenticate_sends {A} u p (k : dialing (result string A)) :
  1 <= String.length u <= 255 -> String.length p <= 255 ->
  upAuthenticate (u, p) 2 k =
  cwrite (userpass u p) (cread 2 (fun b =>
    if negb (byte_at 0 b =? 1)%Z then Ret (Err "invalid username/password version")
    else if negb (byte_at 1 b =? 0)%Z then Ret (Err "username/password authentication failed") else k)).
Proof.
  intros Hu Hp. unfold upAuthenticate. cbn [Z.eqb AuthMethodNotRequired AuthMethodUsernamePassword].
  destruct (Nat.eqb_spec (String.length u) 0); [lia|].
  destruct (Nat.ltb_spec 255 (String.length u)); [lia|].
  by destruct (Nat.ltb_spec 255 (String.length p)); [lia|].
Qed.

(** With credentials the server asks for username and password, and has the
    pair it is sent checked. *)
Lemma negotiate_checked c cb ca r u p host port address f :
  let sf := mkSocksServer true r c cb ca in
  splitHostPort address = Ok (host, port) -> 1 <= String.length u <= 255 -> String.length p <= 255 ->
  mkSession
    (cread 2 (fun b =>
       if negb (byte_at 0 b =? 1)%Z then Ret (Err "invalid username/password version")
       else if negb (byte_at 1 b =? 0)%Z then Ret (Err "username/password authentication failed")
       else connectRequest host port))
    (authContext ← (if negb (ans_valid a u p) then swrite (bytes [1; 1]%Z) (Ret (Err "user authentication failed"))
                    else swrite (bytes [1; 0]%Z) (Ret (Ok (Some (u, p)))));
     match authContext with
     | Err e => Ret (Err ("failed to authenticate: " +:+ e))
     | Ok auth => serveRequest sf auth
     end) "" "" [AskedValid u p] ⟶ f ->
  start (connect (Some (u, p)) address) (ServeConn sf) ⟶ f.
Proof.
  intros sf Ha Hu Hp Hf. unfold start, connect. rewrite Ha.
  apply dialer_writes. change ("" +:+ bytes [Version5; 2; AuthMethodNotRequired; AuthMethodUsernamePassword]%Z)
    with (bytes [5]%Z +:+ bytes [2]%Z +:+ bytes [0; 2]%Z +:+ "").
  refine (server_reads 1 (bytes [5]%Z) _ _ _ _ _ _ eq_refl _).
  refine (server_reads 1 (bytes [2]%Z) _ _ _ _ _ _ eq_refl _).
  refine (server_reads 2 (bytes [0; 2]%Z) _ _ _ _ _ _ eq_refl _).
  refine (server_writes (bytes [5; 2]%Z) _ _ _ _ _ _ _).
  change ("" +:+ bytes [5; 2]%Z) with (bytes [5; 2]%Z +:+ ""). apply dialer_reads; [done|].
  change (byte_at 1 (bytes [5; 2]%Z)) with 2%Z. cbv beta iota zeta delta [Version5].
  rewrite upAuthenticate_sends by done. apply dialer_writes.
  replace ("" +:+ userpass u p)
    with (bytes [1; Z.of_nat (String.length u)]%Z +:+ u +:+ bytes [Z.of_nat (String.length p)]%Z +:+ p +:+ "")
    by (by rewrite string_app_nil_r).
  refine (server_reads 2 (bytes [1; Z.of_nat (String.length u)]%Z) _ _ _ _ _ _ eq_refl _).
  refine (server_reads _ u _ _ _ _ _ _ _ _); [apply byte_length; lia|].
  refine (server_reads 1 (bytes [Z.of_nat (String.length p)]%Z) _ _ _ _ _ _ eq_refl _).
  refine (server_reads _ p _ _ _ _ _ _ _ _); [apply byte_length; lia|].
  refine (server_validates u p _ _ _ _ _ _ _). exact Hf.
Qed.

Lemma negotiate_password c cb ca r u p host port address f :
  let sf := mkSocksServer true r c cb ca in
  splitHostPort address = Ok (host, port) -> 1 <= String.length u <= 255 -> String.length p <= 255 ->
  ans_valid a u p = true ->
  mkSession (connectRequest host port) (serveRequest sf (Some (u, p))) "" "" [AskedValid u p] ⟶ f ->
  start (connect (Some (u, p)) address) (ServeConn sf) ⟶ f.
Proof.
  intros sf Ha Hu Hp Hv Hf. apply (negotiate_checked _ _ _ _ _ _ _ _ _ _ Ha Hu Hp). rewrite Hv.
  refine (server_writes (bytes [1; 0]%Z) _ _ _ _ _ _ _).
  change ("" +:+ bytes [1; 0]%Z) with (bytes [1; 0]%Z +:+ ""). apply dialer_reads; [done|]. exact Hf.
Qed.

(** A pair that is not valid ends the conversation on both sides. *)
Lemma negotiate_refused c cb ca r u p host port address :
  let sf := mkSocksServer true r c cb ca in
  splitHostPort address = Ok (host, port) -> 1 <= String.length u <= 255 -> String.length p <= 255 ->
  ans_valid a u p = false ->
  start (connect (Some (u, p)) address) (ServeConn sf) ⟶
  mkSession (Ret (Err "username/password authentication failed"))
    (Ret (Err "failed to authenticate: user authentication failed")) "" "" [AskedValid u p].
Proof.
  intros sf Ha Hu Hp Hv. apply (negotiate_checked _ _ _ _ _ _ _ _ _ _ Ha Hu Hp). rewrite Hv.
  refine (server_writes (bytes [1; 1]%Z) _ _ _ _ _ _ _).
  change ("" +:+ bytes [1; 1]%Z) with (bytes [1; 1]%Z +:+ ""). apply dialer_reads; [done|]. apply rtc_refl.
Qed.

(** Without credentials nothing is asked. *)
Lemma negotiate_open c cb ca r host port address f :
  let sf := mkSocksServer false r c cb ca in
  splitHostPort address = Ok (host, port) ->
  mkSession (connectRequest host port) (serveRequest sf None) "" "" [] ⟶ f ->
  start (connect None address) (ServeConn sf) ⟶ f.
Proof.
  intros sf Ha Hf. unfold start, connect. rewrite Ha.
  apply dialer_writes. change ("" +:+ bytes [Version5; 1; AuthMethodNotRequired]%Z)
    with (bytes [5]%Z +:+ bytes [1]%Z +:+ bytes [0]%Z +:+ "").
  refine (server_reads 1 (bytes [5]%Z) _ _ _ _ _ _ eq_refl _).
  refine (server_reads 1 (bytes [1]%Z) _ _ _ _ _ _ eq_refl _).
  refine (server_reads 1 (bytes [0]%Z) _ _ _ _ _ _ eq_refl _).
  refine (server_writes (bytes [5; 0]%Z) _ _ _ _ _ _ _).
  change ("" +:+ bytes [5; 0]%Z) with (bytes [5; 0]%Z +:+ ""). apply dialer_reads; [done|]. exact Hf.
Qed.

(** ** The request *)

(** A host the protocol can carry. *)
Definition wire_host (host : string) : Prop :=
  match parse_ip host with
  | Some ip => String.length ip = 4 \/ String.length ip = 16
  | None => String.length host <= 255
  end.

(** The destination a server reads for it. *)
Definition requested (host : string) (port : Z) : AddrSpec :=
  match parse_ip host with
  | Some ip =>
      match To4 ip with
      | Some ip4 => mkAddrSpec "" (v4_prefix +:+ ip4) port ATYPIPv4
      | None => mkAddrSpec "" ip port ATYPIPv6
      end
  | None => mkAddrSpec host "" port ATYPDomain
  end.

Lemma spec_port_bytes port : (0 <= port < 65536)%Z -> spec_port (port_bytes port) = port.
Proof. intros Hp. exact (port_round_trip port Hp). Qed.

Lemma string_drop_len n s : String.length (string_drop n s) = String.length s - n.
Proof. revert s. induction n as [|n IH]; intros [|c s]; simpl; [done..|]. apply IH. Qed.

Lemma To4_length ip ip4 : To4 ip = Some ip4 -> String.length ip4 = 4.
Proof.
  unfold To4. destruct (Nat.eqb_spec (String.length ip) 4); [by intros [= <-]|].
  destruct (Nat.eqb_spec (String.length ip) 16) as [E|]; [|done]. cbn [andb].
  destruct (has_prefix v4_prefix ip); [|done]. intros Hx.
  assert (ip4 = string_drop 12 ip) as -> by congruence. by rewrite string_drop_len, E.
Qed.

Lemma send_request sf auth host port calls f :
  wire_host host -> (0 <= port < 65536)%Z ->
  mkSession connectReply (handleRequest sf auth CommandConnect (requested host port)) "" "" calls ⟶ f ->
  mkSession (connectRequest host port) (serveRequest sf auth) "" "" calls ⟶ f.
Proof.
  intros Hh Hp Hf. unfold connectRequest, target_bytes. unfold wire_host in Hh. unfold requested in Hf.
  destruct (parse_ip host) as [ip|].
  - destruct (To4 ip) as [ip4|] eqn:E4.
    + apply dialer_writes.
      replace ("" +:+ bytes [Version5; 1; 0]%Z +:+ (bytes [AddrTypeIPv4] +:+ ip4) +:+ port_bytes port)
        with (bytes [5; 1]%Z +:+ bytes [0; 1]%Z +:+ (ip4 +:+ port_bytes port) +:+ "")
        by by rewrite string_app_nil_r.
      refine (server_reads 2 (bytes [5; 1]%Z) _ _ _ _ _ _ eq_refl _).
      refine (server_reads 2 (bytes [0; 1]%Z) _ _ _ _ _ _ eq_refl _).
      refine (server_reads 6 (ip4 +:+ port_bytes port) _ _ _ _ _ _ _ _); [by rewrite string_app_length, (To4_length _ _ E4)|].
      rewrite <- (spec_port_bytes port Hp) in Hf.
      rewrite <- (string_take_length ip4 (port_bytes port) 4 (To4_length _ _ E4)) in Hf at 1.
      rewrite <- (string_drop_length ip4 (port_bytes port) 4 (To4_length _ _ E4)) in Hf at 2. exact Hf.
    + destruct Hh as [Hh|Hh]; [unfold To4 in E4; by rewrite Hh in E4|].
      unfold To16. rewrite Hh. cbn [Nat.eqb]. apply dialer_writes.
      replace ("" +:+ bytes [Version5; 1; 0]%Z +:+ (bytes [AddrTypeIPv6] +:+ ip) +:+ port_bytes port)
        with (bytes [5; 1]%Z +:+ bytes [0; 4]%Z +:+ (ip +:+ port_bytes port) +:+ "")
        by by rewrite string_app_nil_r.
      refine (server_reads 2 (bytes [5; 1]%Z) _ _ _ _ _ _ eq_refl _).
      refine (server_reads 2 (bytes [0; 4]%Z) _ _ _ _ _ _ eq_refl _).
      refine (server_reads 18 (ip +:+ port_bytes port) _ _ _ _ _ _ _ _); [by rewrite string_app_length, Hh|].
      rewrite <- (spec_port_bytes port Hp) in Hf.
      rewrite <- (string_take_length ip (port_bytes port) 16 Hh) in Hf at 1.
      rewrite <- (string_drop_length ip (port_bytes port) 16 Hh) in Hf at 2. exact Hf.
  - destruct (Nat.ltb_spec 255 (String.length host)); [lia|]. apply dialer_writes.
    replace ("" +:+ bytes [Version5; 1; 0]%Z +:+ (bytes [AddrTypeFQDN; Z.of_nat (String.length host)]%Z +:+ host) +:+ port_bytes port)
      with (bytes [5; 1]%Z +:+ bytes [0; 3]%Z +:+ bytes [Z.of_nat (String.length host)]%Z +:+ (host +:+ port_bytes port) +:+ "")
      by by rewrite string_app_nil_r.
    refine (server_reads 2 (bytes [5; 1]%Z) _ _ _ _ _ _ eq_refl _).
    refine (server_reads 2 (bytes [0; 3]%Z) _ _ _ _ _ _ eq_refl _).
    refine (server_reads 1 (bytes [Z.of_nat (String.length host)]%Z) _ _ _ _ _ _ eq_refl _).
    assert (String.length host = Z.to_nat (byte_at 0 (bytes [Z.of_nat (String.length host)]%Z))) as El by (apply byte_length; lia).
    refine (server_reads _ (host +:+ port_bytes port) _ _ _ _ _ _ _ _);
      [rewrite string_app_length, <- El; done|].
    rewrite <- (spec_port_bytes port Hp) in Hf.
    rewrite <- (string_take_length host (port_bytes port) _ El) in Hf at 1.
    rewrite <- (string_drop_length host (port_bytes port) _ El) in Hf at 2. exact Hf.
Qed.

(** ** The reply *)

(** The bound address a dialer reads for an address of the server. *)
Definition bound_ip (ip : string) : string := default ip (To4 ip).

Definition ip_bytes (ip : string) : Prop := String.length ip = 4 \/ String.length ip = 16.

Lemma success_reply ip port :
  ip_bytes ip ->
  SendReply RepSuccess (Some (ip, port)) =
    bytes [5; 0; 0; match To4 ip with Some _ => ATYPIPv4 | None => ATYPIPv6 end]%Z +:+ bound_ip ip +:+ port_bytes port /\
  String.length (bound_ip ip) = match To4 ip with Some _ => 4 | None => 16 end.
Proof.
  intros Hip. unfold SendReply, bound_ip. cbn [Z.eqb RepSuccess].
  destruct (To4 ip) as [ip4|] eqn:E4.
  - split; [|exact (To4_length _ _ E4)]. unfold reply_bytes. cbn [AddrType as_IP as_Port FQDN]. rewrite E4. done.
  - destruct Hip as [Hip|Hip]; [unfold To4 in E4; by rewrite Hip in E4|]. split; [|done].
    assert (To16 ip = Some ip) as E16 by (unfold To16; by rewrite Hip).
    rewrite E16. unfold reply_bytes. cbn [AddrType as_IP as_Port FQDN]. by rewrite E16.
Qed.

(** The last two bytes of an address message are the port. *)
Lemma trailing_port addr port n :
  (0 <= port < 65536)%Z -> String.length addr = n ->
  port_of (byte_at (String.length (addr +:+ port_bytes port) - 2) (addr +:+ port_bytes port))
          (byte_at (String.length (addr +:+ port_bytes port) - 1) (addr +:+ port_bytes port)) = port.
Proof.
  intros Hp Hn. rewrite string_app_length. change (String.length (port_bytes port)) with 2.
  replace (String.length addr + 2 - 2) with (String.length addr) by lia.
  replace (String.length addr + 2 - 1) with (S (String.length addr)) by lia.
  unfold byte_at. rewrite string_drop_app. unfold port_bytes. cbn [bytes]. rewrite string_drop_app_S.
  by apply port_round_trip.
Qed.

(** A dial that succeeds: the dialer learns the bound address, both streams are
    empty and the relay starts. *)
Lemma reply_success auth dest ip port calls :
  ans_dial a "tcp" (addrString dest) auth = Ok (Some (ip, port)) -> ip_bytes ip -> (0 <= port < 65536)%Z ->
  mkSession connectReply (handleConnect auth dest) "" "" calls ⟶
  mkSession (Ret (Ok (mkSocksAddr "" (bound_ip ip) port))) relaying "" "" (calls ++ [AskedDial "tcp" (addrString dest) auth]).
Proof.
  intros Hd Hip Hp. destruct (success_reply ip port Hip) as [Hr Hl].
  refine (server_dials "tcp" (addrString dest) auth _ _ _ _ _ _ _). rewrite Hd.
  refine (server_writes (SendReply RepSuccess (Some (ip, port))) _ _ _ _ _ _ _). rewrite Hr.
  change ("" +:+ bytes [5; 0; 0; match To4 ip with Some _ => ATYPIPv4 | None => ATYPIPv6 end]%Z +:+ bound_ip ip +:+ port_bytes port)
    with (bytes [5; 0; 0; match To4 ip with Some _ => ATYPIPv4 | None => ATYPIPv6 end]%Z +:+ bound_ip ip +:+ port_bytes port).
  apply dialer_reads; [done|]. rewrite <- (string_app_nil_r (bound_ip ip +:+ port_bytes port)).
  assert (Hfin : forall n, String.length (bound_ip ip) = n ->
    mkSession (Ret (Ok (mkSocksAddr (string_take 0 (bound_ip ip +:+ port_bytes port)) (string_take n (bound_ip ip +:+ port_bytes port))
      (port_of (byte_at (String.length (bound_ip ip +:+ port_bytes port) - 2) (bound_ip ip +:+ port_bytes port))
               (byte_at (String.length (bound_ip ip +:+ port_bytes port) - 1) (bound_ip ip +:+ port_bytes port))))))
      relaying "" "" (calls ++ [AskedDial "tcp" (addrString dest) auth]) ⟶
    mkSession (Ret (Ok (mkSocksAddr "" (bound_ip ip) port))) relaying "" "" (calls ++ [AskedDial "tcp" (addrString dest) auth])).
  { intros n Hn. rewrite (trailing_port _ _ _ Hp Hn), (string_take_length _ _ _ Hn). apply rtc_refl. }
  destruct (To4 ip).
  - refine (dialer_reads 6 _ _ _ _ _ _ _ _ (Hfin _ Hl)). by rewrite string_app_length, Hl.
  - refine (dialer_reads 18 _ _ _ _ _ _ _ _ (Hfin _ Hl)). by rewrite string_app_length, Hl.
Qed.

(** Both ends have nothing left to do but relay. *)
Lemma relaying_settled r calls : nf (session_step a) (mkSession (Ret (Ok r)) relaying "" "" calls).
Proof. by intros [y [Hy|Hy]]. Qed.

Lemma ended_settled d s up down calls : nf (session_step a) (mkSession (Ret d) (Ret s) up down calls).
Proof. by intros [y [Hy|Hy]]. Qed.
End handshake.
