(* ===== verification/Spawner.v ===== *)
(** * The cell spawner ([spawner.go], [CellSpawner])

    Every method of [CellSpawner] as a program over the Docker operations it
    calls.  Docker itself is the environment: each call may respond with
    anything, errors being their message, which is what [isNotFound] and
    [isRemovalInProgress] look at.

    [waitReady] polls until the container is ready or its context is done.  Its
    loop is bounded by [ticks], the number of ticks before the spawn deadline;
    the theorems hold for every bound. *)

From S2P Require Import Prelude GoStrings Encoding UrlParse Types Config Pools PoolState Prog System Cells.

(** ** Constants *)

Definition cellMemoryLimitBytes : Z := 128 * 1024 * 1024.
Definition cellNanoCPUs : Z := 500 * 1000 * 1000.
Definition cellPIDsLimit : Z := 64.
Definition LabelManaged : string := "pr0xteus.managed".
Definition LabelPool : string := "pr0xteus.pool".
Definition LabelConf : string := "pr0xteus.conf".
Definition LabelScope : string := "pr0xteus.scope".
Definition LabelParent : string := "pr0xteus.parent.id".
Definition envCellSocksPort : string := "PR0XTEUS_SOCKS5_PORT".
Definition envCellControlPort : string := "PR0XTEUS_CELL_CONTROL_PORT".
Definition envCellParentID : string := "PR0XTEUS_PARENT_ID".
Definition controlURLScheme : string := "http".
Definition loopbackBindAddr : string := "127.0.0.1".
Definition orphanInFlightGrace : Z := 30 * second.

(** ** Docker payloads *)

Record containerConfig := mkContainerConfig {
  cc_Image : string;
  cc_Env : list string;
  cc_ExposedPorts : list string;
  cc_Labels : gmap string string;
}.

Record hostConfig := mkHostConfig {
  hc_AutoRemove : bool;
  hc_CapAdd : list string;
  hc_CapDrop : list string;
  hc_SecurityOpt : list string;
  hc_Init : bool;
  hc_LogConfig : string * gmap string string;
  hc_Sysctls : gmap string string;
  hc_Memory : Z;
  hc_NanoCPUs : Z;
  hc_PidsLimit : Z;
  hc_Devices : list (string * string * string);
  hc_Binds : list string;
  hc_NetworkMode : string;
  hc_PortBindings : gmap string (list (string * string));
}.

(** Endpoints by network, each with its gateway priority. *)
Abbreviation networkingConfig := (gmap string Z).

(** The network part of an inspect or a listing: the valid address per
    network, and the published ports. *)
Record networkSettings := mkNetworkSettings {
  ns_Networks : gmap string (option string);
  ns_Ports : gmap string (list (string * string));
}.

Record summary := mkSummary {
  sm_ID : string;
  sm_Labels : gmap string string;
  sm_State : string;
  sm_Created : Z;
  sm_NetworkSettings : option networkSettings;
}.

(** ** Docker operations *)

Inductive dop : Type -> Type :=
  | DNow : dop Z
  | DPull (image : string) : dop (option string)
  | DCreate (name : string) (cfg : containerConfig) (host : hostConfig)
      (net : option networkingConfig) : dop (result string string)
  | DStart (id : string) : dop (option string)
  | DStop (id : string) : dop (option string)
  | DRemove (id : string) : dop (option string)
  | DInspect (id : string) : dop (result string (option networkSettings))
  | DList (labels : list (string * string)) : dop (result string (list summary))
  | DTick : dop bool
  | DProbeSocks5 (addr : string) : dop bool
  | DHealthy (base : URL) : dop bool.

Abbreviation docker := (prog dop).

Definition dcall {R} (o : dop R) : docker R := do_op o.

(** ** Names *)

Definition isAlphaNum (c : ascii) : bool := is_lower c || is_upper c || is_digit c.

Definition sanitizeByte (c : ascii) : ascii :=
  if isAlphaNum c || byte_eqb c "-" || byte_eqb c "_" then c else "_"%char.

Definition sanitize (s : string) : string := string_map sanitizeByte s.

Definition buildContainerName (pool conf : string) (now : Z) : string :=
  "pr0xteus-tunnel-" +:+ sanitize pool +:+ "-" +:+ sanitize conf +:+ "-" +:+ itoa now.

(** ** Errors of Docker *)

Definition isNotFound (msg : string) : bool :=
  contains msg "No such container" || contains msg "is not running".

Definition isRemovalInProgress (msg : string) : bool := contains msg "is already in progress".

(** [shouldReapState]. *)
Definition shouldReapState (state : string) : bool :=
  existsb (String.eqb state) ["running"; "exited"; "dead"; "paused"; "restarting"].

Definition reapStateCreated : string := "created".

(** [url.Parse] of an absolute URL: a fragment is cut off first. *)
Definition url_parse `{GoNetip} (raw : string) : option URL :=
  let '(u, frag, _) := cut raw "#" in
  url ← parse_request_uri u;
  _ ← unescape InPath frag;
  Some url.

Section spawner.
Context `{UC : GoUnicode, NI : GoNetip}.
Variable cfg : Config.

Definition portKey (port : Z) : string := itoa port +:+ "/tcp".

(** ** Container configuration *)

(** [buildContainerConfig]. *)
Definition buildContainerConfig (req : SpawnRequest) : containerConfig :=
  let env := [envCellSocksPort +:+ "=" +:+ itoa (CellSocksPort cfg);
              envCellControlPort +:+ "=" +:+ itoa (CellControlPort cfg)] in
  let labels := {[ LabelManaged := "true"; LabelPool := req_Pool req;
                   LabelConf := req_ConfName req; LabelScope := ManagedScope cfg ]} in
  let known := negb (String.eqb (cfg_ParentID cfg) "") in
  mkContainerConfig (CellImage cfg)
    (if known then env ++ [envCellParentID +:+ "=" +:+ cfg_ParentID cfg] else env)
    [portKey (CellSocksPort cfg); portKey (CellControlPort cfg)]
    (if known then <[LabelParent := cfg_ParentID cfg]> labels else labels).

Definition cellCapabilities : list string := ["NET_ADMIN"; "DAC_READ_SEARCH"; "SETGID"; "SETUID"].

(** [buildHostConfig]. *)
Definition buildHostConfig (confPath : string) : hostConfig :=
  mkHostConfig true cellCapabilities ["ALL"] ["no-new-privileges:true"] true
    ("json-file", {[ "max-size" := "10m"; "max-file" := "5" ]})
    {[ "net.ipv4.conf.all.src_valid_mark" := "1"; "net.ipv6.conf.all.disable_ipv6" := "1";
       "net.ipv6.conf.default.disable_ipv6" := "1" ]}
    cellMemoryLimitBytes cellNanoCPUs cellPIDsLimit
    [("/dev/net/tun", "/dev/net/tun", "rwm")]
    [confPath +:+ ":/wgconf/wg0.conf:ro"]
    (if negb (String.eqb (CellNetwork cfg) "") && String.eqb (CellControlNetwork cfg) ""
     then CellNetwork cfg else "")
    (if negb (String.eqb (CellNetwork cfg) "") then ∅
     else {[ portKey (CellSocksPort cfg) := [(loopbackBindAddr, "")] ]}).

(** [buildNetworkingConfig]. *)
Definition buildNetworkingConfig : option networkingConfig :=
  if String.eqb (CellNetwork cfg) "" then None else
  let endpoints := {[ CellNetwork cfg := 1%Z ]} in
  Some (if String.eqb (CellControlNetwork cfg) "" then endpoints
        else <[CellControlNetwork cfg := 0%Z]> endpoints).

(** The WireGuard configuration of a request on the host. *)
Definition confPathOf (req : SpawnRequest) : string :=
  path_join [req_BundleDir req; req_ConfName req +:+ ".conf"].

(** ** Kill *)

(** [Kill]: stop, then remove; the error, if any. *)
Definition Kill (id : string) : docker (option error) :=
  stopped ← dcall (DStop id);
  let failed := match stopped with Some msg => negb (isNotFound msg) | None => false end in
  if failed then Ret (Some ErrForeign) else
  removed ← dcall (DRemove id);
  Ret (match removed with
       | Some msg => if isNotFound msg || isRemovalInProgress msg then None else Some ErrForeign
       | None => None
       end).

(** [bestEffortKill] and [reapOne]. *)
Definition bestEffortKill (id : string) : docker unit := _ ← Kill id; Ret tt.

(** ** Addresses of a cell *)

Definition address_on (net : string) (ns : networkSettings) : option string :=
  match ns_Networks ns !! net with Some (Some ip) => Some ip | _ => None end.

Definition controlNetwork : string :=
  if String.eqb (CellControlNetwork cfg) "" then CellNetwork cfg else CellControlNetwork cfg.

(** [controlURLFromInspect]. *)
Definition controlURLFromInspect (info : option networkSettings) : option URL :=
  match info with
  | None => None
  | Some ns =>
      match address_on controlNetwork ns with
      | Some ip => Some (mkURL controlURLScheme None (join_host_port ip (itoa (CellControlPort cfg))))
      | None => None
      end
  end.

(** [controlURLFromSummary]. *)
Definition controlURLFromSummary (c : summary) : option URL :=
  if String.eqb (CellNetwork cfg) "" then None else controlURLFromInspect (sm_NetworkSettings c).

(** [resolveSocksAddr]; the empty address means not yet. *)
Definition resolveSocksAddr (id name : string) : docker (res string) :=
  if negb (String.eqb (CellNetwork cfg) "")
  then Ret (Ok (join_host_port name (itoa (CellSocksPort cfg)))) else
  info ← dcall (DInspect id);
  Ret (match info with
       | Err _ => Err ErrForeign
       | Ok None => Err ErrSpawnFailed
       | Ok (Some ns) =>
           match ns_Ports ns !! portKey (CellSocksPort cfg) with
           | Some ((ip, port) :: _) => Ok (join_host_port ip port)
           | _ => Ok ""
           end
       end).

(** [resolveGatewayAddr]. *)
Definition resolveGatewayAddr (id socksAddr : string) : docker (res string) :=
  if String.eqb (CellControlNetwork cfg) "" then Ret (Ok socksAddr) else
  info ← dcall (DInspect id);
  Ret (match info with
       | Err _ => Err ErrForeign
       | Ok None => Err ErrSpawnFailed
       | Ok (Some ns) =>
           match address_on (CellControlNetwork cfg) ns with
           | Some ip => Ok (join_host_port ip (itoa (CellSocksPort cfg)))
           | None => Ok ""
           end
       end).

(** [probeCellReady]. *)
Definition probeCellReady (id socksAddr : string) : docker (res bool) :=
  if String.eqb (CellControlNetwork cfg) ""
  then ready ← dcall (DProbeSocks5 socksAddr); Ret (Ok ready) else
  info ← dcall (DInspect id);
  match info with
  | Err _ => Ret (Err ErrForeign)
  | Ok ns =>
      match controlURLFromInspect ns with
      | None => Ret (Ok false)
      | Some u => healthy ← dcall (DHealthy u); Ret (Ok healthy)
      end
  end.

(** [readyGateway]: SOCKS5 and gateway addresses of a ready cell. *)
Definition readyGateway (id name : string) : docker (option (string * string)) :=
  addr ← resolveSocksAddr id name;
  match addr with
  | Err _ => Ret None
  | Ok addr =>
      if String.eqb addr "" then Ret None else
      ready ← probeCellReady id addr;
      match ready with
      | Ok true =>
          gateway ← resolveGatewayAddr id addr;
          Ret (match gateway with
               | Ok gateway => if String.eqb gateway "" then None else Some (addr, gateway)
               | Err _ => None
               end)
      | _ => Ret None
      end
  end.

(** ** Spawn *)

(** The tunnel of a ready cell. *)
Definition readyTunnel (id gateway : string) (proxyURL : URL) (now : Z) (req : SpawnRequest) : Tunnel :=
  let exitCountry := if String.eqb (req_ExitCountry req) ""
                     then exitCountryFromConf (req_ConfName req) else req_ExitCountry req in
  mkTunnel id (req_ConfName req) (Some proxyURL) gateway TunnelStateHot (req_Pool req)
    exitCountry "" now now now "" time_zero 0.

(** [waitReady]; a tick answers [false] when the context is done. *)
Fixpoint waitReady (ticks : nat) (id name : string) (req : SpawnRequest) : docker (res Tunnel) :=
  match ticks with
  | O => Ret (Err ErrSpawnTimeout)
  | S ticks' =>
      ticked ← dcall DTick;
      if negb (ticked : bool) then Ret (Err ErrSpawnTimeout) else
      ready ← readyGateway id name;
      match ready with
      | None => waitReady ticks' id name req
      | Some (addr, gateway) =>
          match url_parse (proxySchemeSOCKS5 +:+ "://" +:+ addr) with
          | None => Ret (Err ErrForeign)
          | Some proxyURL =>
              now ← dcall DNow;
              Ret (Ok (readyTunnel id gateway proxyURL now req))
          end
      end
  end.

(** [createAndStart]: container identifier and name. *)
Definition createAndStart (req : SpawnRequest) : docker (res (string * string)) :=
  now ← dcall DNow;
  let name := buildContainerName (req_Pool req) (req_ConfName req) now in
  pulled ← (if String.eqb (CellImage cfg) (cellImageForVersion defaultCellTag)
            then Ret None else dcall (DPull (CellImage cfg)));
  match pulled with
  | Some _ => Ret (Err ErrSpawnFailed)
  | None =>
      created ← dcall (DCreate name (buildContainerConfig req) (buildHostConfig (confPathOf req))
                         buildNetworkingConfig);
      match created with
      | Err _ => Ret (Err ErrSpawnFailed)
      | Ok id =>
          started ← dcall (DStart id);
          match started with
          | Some _ => _ ← bestEffortKill id; Ret (Err ErrSpawnFailed)
          | None => Ret (Ok (id, name))
          end
      end
  end.

(** [Spawn]; the log capture around [waitReady] only adds to error messages. *)
Definition Spawn (ticks : nat) (req : SpawnRequest) : docker (res Tunnel) :=
  created ← createAndStart req;
  match created with
  | Err e => Ret (Err e)
  | Ok (id, name) =>
      ready ← waitReady ticks id name req;
      match ready with
      | Err e => _ ← bestEffortKill id; Ret (Err e)
      | Ok t => Ret (Ok t)
      end
  end.

(** ** Reconciliation *)

(** The listed containers [ReapOrphans] removes. *)
Definition reapable (now : Z) (keep : gset string) (protectInFlight : bool) (c : summary) : bool :=
  negb (bool_decide (sm_ID c ∈ keep)) &&
  negb (protectInFlight &&
        (time_sub now (sm_Created c * second) <? SpawnTimeout cfg + orphanInFlightGrace)%Z) &&
  (String.eqb (sm_State c) reapStateCreated || shouldReapState (sm_State c)).

Definition managedLabels : list (string * string) :=
  [(LabelManaged, "true"); (LabelScope, ManagedScope cfg)].

(** [ReapOrphans]. *)
Definition ReapOrphans (keep : gset string) (protectInFlight : bool) : docker (res nat) :=
  listed ← dcall (DList managedLabels);
  match listed with
  | Err _ => Ret (Err ErrForeign)
  | Ok items =>
      now ← dcall DNow;
      reaped ← fold_prog (fun reaped c =>
        if reapable now keep protectInFlight c
        then _ ← bestEffortKill (sm_ID c); Ret (S reaped) else Ret reaped) items 0;
      Ret (Ok reaped)
  end.

(** The labels [ListChildren] asks for. *)
Definition childLabels : list (string * string) :=
  [(LabelManaged, "true");
   if negb (String.eqb (cfg_ParentID cfg) "") then (LabelParent, cfg_ParentID cfg)
   else (LabelScope, ManagedScope cfg)].

Definition handleOf (c : summary) : CellHandle :=
  mkCellHandle (sm_ID c) (default "" (sm_Labels c !! LabelPool)) (default "" (sm_Labels c !! LabelConf))
    (sm_State c) (controlURLFromSummary c) (sm_Created c * second).

(** [ListChildren]. *)
Definition ListChildren : docker (res (list CellHandle)) :=
  listed ← dcall (DList childLabels);
  Ret (match listed with Err _ => Err ErrForeign | Ok items => Ok (map handleOf items) end).

End spawner.

(** ** A spawned cell *)

Section spawn_results.
Context `{UC : GoUnicode, NI : GoNetip}.
Variable cfg : Config.

(** Docker may respond with anything. *)
Definition anything (R : Type) (o : dop R) (r : R) : Prop := True.

(** Inversion of an execution, one call at a time. *)
Ltac dret H r H1 := apply returns_bind in H as (r & H1 & H).

Lemma returns_readyGateway id name addr gateway :
  returns anything (readyGateway cfg id name) (Some (addr, gateway)) -> gateway <> "".
Proof.
  unfold readyGateway. intros H. dret H a Ha. destruct a as [a|]; [|done].
  destruct (String.eqb a ""); [done|]. dret H ready Hr. destruct ready as [[|]|]; try done.
  dret H g Hg. simpl in H. destruct g as [g|]; [|done].
  destruct (String.eqb_spec g ""); [done|]. by simplify_eq.
Qed.

Lemma returns_waitReady ticks id name req t :
  returns anything (waitReady cfg ticks id name req) (Ok t) ->
  ContainerID t = id /\ ConfName t = req_ConfName req /\ Pool t = req_Pool req /\
  is_Some (ProxyURL t) /\ GatewayAddr t <> "" /\ State t = TunnelStateHot /\ InFlight t = 0%Z.
Proof.
  induction ticks as [|ticks IH]; cbn [waitReady]; [done|]. intros H. dret H b Hb.
  destruct b; simpl in H; [|done]. dret H ready Hr. destruct ready as [[addr gateway]|]; [|auto].
  destruct (url_parse _) as [u|]; [|done]. destruct H as (now & _ & H). simpl in H. simplify_eq. simpl.
  apply returns_readyGateway in Hr. split_and!; try done.
Qed.

Lemma returns_Spawn ticks req t :
  returns anything (Spawn cfg ticks req) (Ok t) ->
  ConfName t = req_ConfName req /\ Pool t = req_Pool req /\ is_Some (ProxyURL t) /\
  GatewayAddr t <> "" /\ State t = TunnelStateHot /\ InFlight t = 0%Z.
Proof.
  unfold Spawn. intros H. dret H created Hc. destruct created as [[id name]|]; [|done].
  dret H ready Hr. destruct ready as [t'|]; [|by dret H u Hu].
  simpl in H. simplify_eq. apply returns_waitReady in Hr. naive_solver.
Qed.

(** A spawn may always fail: Docker may refuse to create the container. *)
Lemma returns_Spawn_fail ticks req : returns anything (Spawn cfg ticks req) (Err ErrSpawnFailed).
Proof.
  unfold Spawn, createAndStart. simpl. exists 0%Z. split; [done|].
  destruct (String.eqb _ _); simpl.
  - exists (Err ""). done.
  - exists (Some ""). done.
Qed.

(** The spawner keeps what the manager relies on. *)
Definition cell_spawner : SpawnerContract.
Proof.
  refine {| spawn_may := fun req r => exists ticks, returns anything (Spawn cfg ticks req) r |}.
  - intros req t [ticks Ht]. apply returns_Spawn in Ht. naive_solver.
  - intros req t [ticks Ht]. apply returns_Spawn in Ht. naive_solver.
  - intros req t [ticks Ht]. apply returns_Spawn in Ht. naive_solver.
  - intros req. exists 0. apply returns_Spawn_fail.
Defined.
End spawn_results.

(** ** No container is left behind *)

(** What Docker's error message says of a container: that there is nothing to
    stop or to remove, or that a removal is already under way. *)
Definition reports_gone (msg : string) : bool :=
  contains msg "No such container" || contains msg "is not running".
Definition reports_removal (msg : string) : bool := contains msg "is already in progress".

(** The fate of the container a program creates.  It counts as stopped or removed
    only when Docker has confirmed that; a removal counts after the stop only. *)
Inductive fate :=
  | NotCreated
  | Alive (id : string)
  | Stopped (id : string)
  | Removed (id : string)
  | StopRefused (id : string)
  | RemoveRefused (id : string)
  | Several.

#[export] Instance fate_eq_dec : EqDecision fate.
Proof. solve_decision. Defined.

Definition fate_after (f : fate) {R} (o : dop R) : R -> fate :=
  match o in dop R return R -> fate with
  | DCreate _ _ _ _ => fun r =>
      match r, f with
      | Ok id, NotCreated => Alive id
      | Ok _, _ => Several
      | Err _, _ => f
      end
  | DStop id => fun r =>
      if bool_decide (f = Alive id) then
        match r with
        | Some msg => if reports_gone msg then Stopped id else StopRefused id
        | None => Stopped id
        end
      else f
  | DRemove id => fun r =>
      if bool_decide (f = Stopped id) then
        match r with
        | Some msg => if reports_gone msg || reports_removal msg then Removed id else RemoveRefused id
        | None => Removed id
        end
      else f
  | _ => fun _ => f
  end.

(** Nothing is left that Docker was not asked to stop and remove: no container,
    one that is gone, or one that Docker refused to stop or to remove. *)
Definition settled (f : fate) : Prop :=
  match f with NotCreated | Removed _ | StopRefused _ | RemoveRefused _ => True | _ => False end.

(** Whatever Docker responds, [p] ends with a fate and a value related by [Q]. *)
Fixpoint accounted (f : fate) {A} (Q : fate -> A -> Prop) (p : docker A) : Prop :=
  match p with
  | Ret a => Q f a
  | Op o k => forall r, accounted (fate_after f o r) Q (k r)
  end.

Lemma accounted_bind f {A B} (Q : fate -> B -> Prop) (p : docker A) (g : A -> docker B) :
  accounted f (fun f' a => accounted f' Q (g a)) p -> accounted f Q (p ≫= g).
Proof.
  revert f. induction p as [a|R o k IH]; intros f Hp; simpl in *; [done|].
  intros r. apply IH, Hp.
Qed.

Lemma accounted_weaken f {A} (Q Q' : fate -> A -> Prop) (p : docker A) :
  (forall f' a, Q f' a -> Q' f' a) -> accounted f Q p -> accounted f Q' p.
Proof.
  intros HQ. revert f. induction p as [a|R o k IH]; intros f Hp; simpl in *; auto.
Qed.

Section accounting.
Context `{UC : GoUnicode, NI : GoNetip}.
Variable cfg : Config.

(** A kill settles the fate of a container that is alive. *)
Lemma accounted_bestEffortKill id : accounted (Alive id) (fun f _ => settled f) (bestEffortKill id).
Proof.
  unfold bestEffortKill, Kill. simpl. rewrite bool_decide_true by done.
  intros [msg|]; simpl.
  - unfold reports_gone at 1. fold (isNotFound msg). destruct (isNotFound msg); simpl; [|done]. rewrite bool_decide_true by done.
    intros [msg'|]; [|done]. by destruct (_ || reports_removal msg').
  - rewrite bool_decide_true by done. intros [msg'|]; [|done]. by destruct (_ || reports_removal msg').
Qed.

(** Polling creates and removes nothing. *)
Lemma accounted_readyGateway f id name :
  accounted f (fun f' _ => f' = f) (readyGateway cfg id name).
Proof.
  unfold readyGateway. apply accounted_bind.
  assert (accounted f (fun f' _ => f' = f) (resolveSocksAddr cfg id name)) as Ha.
  { unfold resolveSocksAddr. case_match; simpl; [done|]. by intros []. }
  eapply accounted_weaken, Ha. intros f' addr ->. destruct addr as [addr|]; [|done].
  case_match; [done|]. apply accounted_bind.
  assert (accounted f (fun f' _ => f' = f) (probeCellReady cfg id addr)) as Hp.
  { unfold probeCellReady. case_match; simpl; [done|]. intros []; simpl; [|done]. by case_match. }
  eapply accounted_weaken, Hp. intros f' ready ->. destruct ready as [[|]|]; try done.
  unfold resolveGatewayAddr. case_match; simpl; [done|]. by intros [].
Qed.

Lemma accounted_waitReady f ticks id name req :
  accounted f (fun f' r => f' = f /\ match r with Ok t => ContainerID t = id | Err _ => True end)
    (waitReady cfg ticks id name req).
Proof.
  induction ticks as [|ticks IH]; cbn [waitReady]; [done|]. apply accounted_bind.
  intros ticked. cbn [fate_after accounted]. destruct ticked; cbn [negb]; [|done].
  apply accounted_bind. eapply accounted_weaken, accounted_readyGateway.
  intros f' ready ->. destruct ready as [[addr gateway]|]; [|done].
  case_match; [|done]. by apply accounted_bind.
Qed.

Lemma accounted_createAndStart req :
  accounted NotCreated (fun f r => match r with Ok (id, _) => f = Alive id | Err _ => settled f end)
    (createAndStart cfg req).
Proof.
  unfold createAndStart. apply accounted_bind. intros now. cbn [fate_after accounted].
  apply accounted_bind.
  apply (accounted_weaken _ (fun f _ => f = NotCreated)); [|by case_match].
  intros f pulled ->. destruct pulled; [done|]. apply accounted_bind. intros created.
  cbn [accounted]. destruct created as [id|]; [|done]. apply accounted_bind. intros started.
  cbn [fate_after accounted]. destruct started; [|done]. apply accounted_bind.
  eapply accounted_weaken, accounted_bestEffortKill. by intros f [] Hf.
Qed.

End accounting.


(** ** Reconciliation *)

(** What a program's execution shows: listings with their label filter, clock
    readings, stops and removals with Docker's answer. *)
Inductive dev :=
  | EList (labels : list (string * string)) (r : result string (list summary))
  | ENow (now : Z)
  | EStop (id : string) (r : option string)
  | ERemove (id : string) (r : option string).

Definition note {R} (o : dop R) : R -> list dev :=
  match o in dop R return R -> list dev with
  | DList labels => fun r => [EList labels r]
  | DNow => fun r => [ENow r]
  | DStop id => fun r => [EStop id r]
  | DRemove id => fun r => [ERemove id r]
  | _ => fun _ => []
  end.

(** [traced p tr a]: [p] can end with [a] after showing [tr]. *)
Fixpoint traced {A} (p : docker A) (tr : list dev) (a : A) : Prop :=
  match p with
  | Ret a' => tr = [] /\ a = a'
  | Op o k => exists r tr', tr = note o r ++ tr' /\ traced (k r) tr' a
  end.

Lemma traced_bind {A B} (p : docker A) (f : A -> docker B) tr b :
  traced (p ≫= f) tr b <->
  exists tr1 tr2 a, tr = tr1 ++ tr2 /\ traced p tr1 a /\ traced (f a) tr2 b.
Proof.
  revert tr. induction p as [a|R o k IH]; intros tr; simpl.
  - split.
    + intros Hb. by exists [], tr, a.
    + by intros (tr1 & tr2 & a' & -> & [-> ->] & Hb).
  - split.
    + intros (r & tr' & -> & (tr1 & tr2 & a & -> & Ha & Hb)%IH).
      exists (note o r ++ tr1), tr2, a. rewrite <- app_assoc. eauto 10.
    + intros (tr1 & tr2 & a & -> & (r & tr' & -> & Ha) & Hb).
      exists r, (tr' ++ tr2). rewrite <- app_assoc. split; [done|]. apply IH. eauto 10.
Qed.

(** A container is killed: stopped, and then removed unless the stop failed
    with anything but the report that it is gone. *)
Definition killed (id : string) (tr : list dev) : Prop :=
  exists stopped,
    match stopped with
    | Some msg => if reports_gone msg then exists removed, tr = [EStop id stopped; ERemove id removed]
                  else tr = [EStop id stopped]
    | None => exists removed, tr = [EStop id stopped; ERemove id removed]
    end.

Lemma traced_bestEffortKill id tr u : traced (bestEffortKill id) tr u -> killed id tr.
Proof.
  unfold bestEffortKill, Kill. simpl. intros (stopped & tr1 & -> & H). exists stopped.
  destruct stopped as [msg|]; simpl in *.
  - unfold isNotFound in H. fold (reports_gone msg) in H. destruct (reports_gone msg); simpl in H.
    + destruct H as (removed & tr2 & -> & [-> _]). by eexists.
    + by destruct H as [-> _].
  - destruct H as (removed & tr2 & -> & [-> _]). by eexists.
Qed.

(** The containers a pass has to kill: not tracked, on the ticker path at least
    as old as the spawn deadline and thirty seconds, and in any state but one in
    which Docker is removing it already. *)
Definition orphan (cfg : Config) (now : Z) (keep : gset string) (protect : bool) (c : summary) : Prop :=
  (sm_ID c ∉ keep) /\
  (protect = true -> (SpawnTimeout cfg + 30 * second <= time_sub now (sm_Created c * second))%Z) /\
  sm_State c ∈ ["created"; "running"; "exited"; "dead"; "paused"; "restarting"].

#[export] Instance orphan_dec cfg now keep protect c : Decision (orphan cfg now keep protect c).
Proof. unfold orphan. apply _. Defined.

Lemma reapable_orphan cfg now keep protect c :
  reapable cfg now keep protect c = true <-> orphan cfg now keep protect c.
Proof.
  unfold reapable, orphan, shouldReapState, reapStateCreated, orphanInFlightGrace.
  rewrite !andb_true_iff, !negb_true_iff, bool_decide_eq_false, orb_true_iff.
  assert (String.eqb (sm_State c) "created" = true \/
          existsb (String.eqb (sm_State c)) ["running"; "exited"; "dead"; "paused"; "restarting"] = true <->
          sm_State c ∈ ["created"; "running"; "exited"; "dead"; "paused"; "restarting"]) as ->.
  { simpl. rewrite !orb_true_iff, !String.eqb_eq, !elem_of_cons, elem_of_nil. naive_solver. }
  destruct protect; simpl; rewrite ?Z.ltb_ge; naive_solver.
Qed.

Lemma traced_reap cfg now keep protect items n tr m :
  traced (fold_prog (fun reaped c =>
            if reapable cfg now keep protect c
            then _ ← bestEffortKill (sm_ID c); Ret (S reaped) else Ret reaped) items n) tr m ->
  let victims := filter (orphan cfg now keep protect) items in
  exists kills, Forall2 (fun c => killed (sm_ID c)) victims kills /\ tr = concat kills /\
    m = n + length victims.
Proof.
  cbv zeta. revert n tr. induction items as [|c items IH]; intros n tr; cbn [fold_prog].
  - intros [-> ->]. exists []. split; [constructor|]. split; [done|]. simpl. lia.
  - rewrite traced_bind. intros (tr1 & tr2 & n1 & -> & H1 & H2).
    apply IH in H2 as (kills & Hk & -> & ->). rewrite filter_cons.
    destruct (decide (orphan cfg now keep protect c)) as [Ho|Ho].
    + rewrite (proj2 (reapable_orphan _ _ _ _ _) Ho) in H1.
      apply traced_bind in H1 as (tr3 & tr4 & u & -> & H3 & [-> ->]).
      apply traced_bestEffortKill in H3. exists (tr3 :: kills). rewrite app_nil_r.
      split; [by constructor|]. split; [done|]. simpl. lia.
    + destruct (reapable cfg now keep protect c) eqn:Hr; [by apply reapable_orphan in Hr|].
      destruct H1 as [-> ->]. by exists kills.
Qed.


(** ** Labels *)

(** A container carries a label. *)
Definition carries (labels : gmap string string) (kv : string * string) : Prop :=
  labels !! kv.1 = Some kv.2.

(** Docker remembers what the controller asks for: a container created for
    a request carries every label the orphan reaper and the listing of children
    filter on, and a listing of it reports the request's pool and
    configuration. *)
Theorem created_labels_roundtrip cfg req c :
  sm_Labels c = cc_Labels (buildContainerConfig cfg req) ->
  Forall (carries (sm_Labels c)) (managedLabels cfg) /\
  Forall (carries (sm_Labels c)) (childLabels cfg) /\
  h_Pool (handleOf cfg c) = req_Pool req /\ h_ConfName (handleOf cfg c) = req_ConfName req.
Proof.
  intros Hl. unfold handleOf, managedLabels, childLabels, carries. rewrite Hl.
  unfold buildContainerConfig. cbn [cc_Labels h_Pool h_ConfName].
  assert (forall (m : gmap string string) k k' v, k <> k' -> <[k := v]> m !! k' = m !! k') as Hne
    by (intros; by apply lookup_insert_ne).
  assert (forall (m : gmap string string) k v, <[k := v]> m !! k = Some v) as Heq
    by (intros; by apply lookup_insert_eq).
  set (base := {[ LabelManaged := "true"; LabelPool := req_Pool req;
                  LabelConf := req_ConfName req; LabelScope := ManagedScope cfg ]} : gmap string string).
  assert (base !! LabelManaged = Some "true" /\ base !! LabelPool = Some (req_Pool req) /\
          base !! LabelConf = Some (req_ConfName req) /\ base !! LabelScope = Some (ManagedScope cfg))
    as (B1 & B2 & B3 & B4).
  { unfold base. split_and!.
    - apply Heq.
    - rewrite Hne by done. apply Heq.
    - rewrite !Hne by done. apply Heq.
    - rewrite !Hne by done. apply lookup_singleton_eq. }
  destruct (String.eqb (cfg_ParentID cfg) ""); cbn [negb].
  - rewrite B2, B3. repeat constructor; done.
  - rewrite !Hne by done. rewrite B2, B3. repeat constructor; simpl; rewrite ?Hne by done; auto.
Qed.

(** ** Names and addresses *)

(** The characters Docker allows in a container name. *)
Definition docker_name (name : string) : Prop :=
  match name with
  | String c rest => is_alnum c = true /\
                     string_forallb (fun c => is_alnum c || has_byte c "_.-") rest = true
  | EmptyString => False
  end.

Lemma sanitize_plain s : string_forallb plain_byte (sanitize s) = true.
Proof.
  unfold sanitize. induction s as [|c s IH]; [done|]. simpl. rewrite IH, andb_true_r.
  unfold sanitizeByte. destruct (isAlphaNum c || byte_eqb c "-" || byte_eqb c "_") eqn:E; [|done].
  revert c E. apply byte_impl. vm_compute. reflexivity.
Qed.

Lemma buildContainerName_plain pool conf now :
  string_forallb plain_byte (buildContainerName pool conf now) = true.
Proof.
  unfold buildContainerName. rewrite !string_forallb_app, !sanitize_plain.
  rewrite (forallb_bytes (fun c => is_digit c || byte_eqb c "-") plain_byte (itoa now));
    [done|vm_compute; reflexivity|apply itoa_bytes].
Qed.

(** A host name and a port as [net.JoinHostPort] writes them. *)
Lemma join_plain_address name port :
  string_forallb plain_byte name = true -> (0 <= port)%Z ->
  join_host_port name (itoa port) = name +:+ String ":" (itoa port) /\
  plain_address (join_host_port name (itoa port)) = true.
Proof.
  intros Hn Hp. unfold join_host_port.
  rewrite (forallb_no_byte plain_byte ":" name eq_refl Hn).
  change (":" +:+ itoa port) with (String ":" (itoa port)). split; [done|].
  unfold plain_address. rewrite cut_app by by apply (forallb_no_byte plain_byte).
  rewrite Hn, itoa_digits by done. pose proof (itoa_nonempty port) as He.
  apply String.eqb_neq in He. by rewrite He.
Qed.

Section addresses.
Context `{NI : GoNetip}.

Lemma parse_plain_url addr :
  plain_address addr = true -> parse_request_uri ("socks5://" +:+ addr) = Some (mkURL "socks5" None addr).
Proof.
  intros Ha. destruct (plain_address_lease_byte _ Ha) as [Hl Hn].
  unfold parse_request_uri. rewrite string_forallb_app.
  rewrite (forallb_bytes lease_byte (fun c => negb (control_byte c)) addr)
    by (done || (vm_compute; reflexivity)).
  change ("socks5://" +:+ addr) with ("socks5:" +:+ "//" +:+ addr).
  assert (getScheme ("socks5:" +:+ "//" +:+ addr) = Some ("socks5", "//" +:+ addr)) as -> by done.
  cbn [mbind option_bind]. rewrite cut_none.
  2: { rewrite has_byte_app. by rewrite (forallb_no_byte lease_byte "?" addr eq_refl Hl). }
  cbn [fst snd]. change (string_drop 2 ("//" +:+ addr)) with addr.
  rewrite (index_byte_none "/" addr) by by apply (forallb_no_byte lease_byte).
  unfold parseAuthority. rewrite last_index_byte_none by done.
  by rewrite (parseHost_plain addr Ha).
Qed.

Lemma url_parse_plain addr :
  plain_address addr = true -> url_parse ("socks5://" +:+ addr) = Some (mkURL "socks5" None addr).
Proof.
  intros Ha. destruct (plain_address_lease_byte _ Ha) as [Hl _]. unfold url_parse.
  rewrite cut_none.
  - by rewrite parse_plain_url.
  - rewrite has_byte_app. by rewrite (forallb_no_byte lease_byte "#" addr eq_refl Hl).
Qed.
End addresses.

(** Cells are reachable under the name they were given: for every pool and
    configuration name and every clock value the container name is one Docker
    accepts, and on a cell network the proxy address built from it is a URL that
    parses back to exactly that name and port, so a ready cell's URL never fails
    to parse. *)
Theorem cell_address_roundtrip `{GoNetip} cfg pool conf now id :
  CellNetwork cfg <> "" -> (0 <= CellSocksPort cfg)%Z ->
  let name := buildContainerName pool conf now in
  docker_name name /\
  exists addr, resolveSocksAddr cfg id name = Ret (Ok addr) /\
    url_parse (proxySchemeSOCKS5 +:+ "://" +:+ addr) =
    Some (mkURL "socks5" None (name +:+ String ":" (itoa (CellSocksPort cfg)))).
Proof.
  intros Hn Hp. cbv zeta. split.
  - pose proof (buildContainerName_plain pool conf now) as Hb. unfold buildContainerName in *.
    change ("pr0xteus-tunnel-" +:+ ?x) with (String "p" ("r0xteus-tunnel-" +:+ x)) in *.
    cbn [docker_name string_forallb] in *. rewrite andb_true_iff in Hb. split; [done|].
    destruct Hb as [_ Hb]. revert Hb. apply string_forallb_impl, byte_impl. vm_compute. reflexivity.
  - destruct (join_plain_address (buildContainerName pool conf now) (CellSocksPort cfg)
      (buildContainerName_plain pool conf now) Hp) as [Hj Ha].
    unfold resolveSocksAddr. apply String.eqb_neq in Hn. rewrite Hn. cbn [negb].
    eexists. split; [done|]. rewrite Hj in *. by apply url_parse_plain.
Qed.

(** ** Witnesses *)

Module SpawnerExamples.
#[local] Instance no_netip : GoNetip := {| parse_ip_literal := fun _ => None |}.

Definition cfg : Config :=
  mkConfig "" "" "" "" "" "" 0 "" "" "" "" 0 (30 * second) 0 0 0 "img" 1080 9000 "parent" "cells" ""
    "prod" "" "t".
Definition req : SpawnRequest := mkSpawnRequest "us/east" "us-a" "US" "/bundle".

Definition old : summary := mkSummary "c1" ∅ "running" 0 None.
Definition tracked : summary := mkSummary "c2" ∅ "running" 0 None.
Definition young : summary := mkSummary "c3" ∅ "running" 100 None.

Definition pass : list dev :=
  [EList (managedLabels cfg) (Ok [old; tracked; young]); ENow (110 * second); EStop "c1" None; ERemove "c1" None].


Definition created : summary :=
  mkSummary "c9" (cc_Labels (buildContainerConfig cfg req)) "running" 0 None.

Lemma created_labels_roundtrip_witness :
  Forall (carries (sm_Labels created)) (managedLabels cfg) /\
  Forall (carries (sm_Labels created)) (childLabels cfg) /\
  h_Pool (handleOf cfg created) = "us/east" /\ h_ConfName (handleOf cfg created) = "us-a".
Proof. exact (created_labels_roundtrip cfg req created eq_refl). Defined.

Lemma cell_address_roundtrip_witness :
  buildContainerName "us/east" "us-a" 7 = "pr0xteus-tunnel-us_east-us-a-7" /\
  let name := buildContainerName "us/east" "us-a" 7 in
  docker_name name /\
  exists addr, resolveSocksAddr cfg "c9" name = Ret (Ok addr) /\
    url_parse (proxySchemeSOCKS5 +:+ "://" +:+ addr) =
    Some (mkURL "socks5" None (name +:+ String ":" (itoa (CellSocksPort cfg)))).
Proof.
  split; [vm_compute; reflexivity|].
  exact (cell_address_roundtrip cfg "us/east" "us-a" 7 "c9" ltac:(discriminate) ltac:(discriminate)).
Defined.
(** A configuration whose name says nothing about its country and that has no
    entry in [exit_countries] is accepted, and its cells have no exit country. *)
Theorem exit_country_not_required :
  let entry := mkPoolEntry "" "" ["wg0"] ∅ "" in
  is_ok (@LoadPoolSpecs no_unicode canonical_order (Some {[ "us" := entry ]}) (Some [mkDirEntry "wg0.conf" false])) = true /\
  @exitCountryFromConf no_unicode "wg0" = "".
Proof. vm_compute. done. Qed.
End SpawnerExamples.
