(* ===== verification/LogCapture.v ===== *)
(** * The log capture of a starting cell ([spawner.go]: [startCellLogCapture], [cellLogCapture.stop])

    One goroutine copies a cell's log stream into a buffer while [Spawn] waits
    for the cell; [stop] cancels its context, waits for [done] and only then
    reads the buffer and the error, without a lock.  The two goroutines are
    interleaved; what Docker answers and when is arbitrary. *)

From S2P Require Import Prelude GoStrings.

(** How a call of the stream ended: well, by the cancelled context, otherwise. *)
Inductive io_end := IoOk | IoCanceled | IoFailed (msg : string).

Inductive capture_error :=
  | OpenFailed (msg : string)
  | CopyFailed (msg : string)
  | CloseFailed (msg : string).

(** The goroutine: in [ContainerLogs], in [StdCopy], in [reader.Close] with the
    end of the copy, about to close [done], ended. *)
Inductive capture_pc := Opening | Copying | Closing (copyErr : io_end) | Finishing | Ended.

(** [Spawn]: in [waitReady], in [stop] before [<-c.done], past it. *)
Inductive spawn_pc := Waiting | Stopping | Collected (output : string) (err : option capture_error).

Record cellLogCapture := mkCapture {
  lc_pc : capture_pc;
  lc_spawn : spawn_pc;
  lc_cancelled : bool;
  lc_done : bool;
  lc_output : string;
  lc_err : option capture_error;
}.

(** [startCellLogCapture]. *)
Definition startCellLogCapture : cellLogCapture := mkCapture Opening Waiting false false "" None.

Inductive capture_action :=
  | COpen (e : io_end)
  | CChunk (bytes : string)
  | CCopyEnds (e : io_end)
  | CCloseEnds (e : io_end)
  | CFinish
  | CReady
  | CCollect.

(** What [errors.Is(err, context.Canceled)] lets through. *)
Definition failure (e : io_end) : option string :=
  match e with IoFailed msg => Some msg | IoOk | IoCanceled => None end.

(** The body of the goroutine, from the end of one call to the next. *)
Definition capture_step (c : cellLogCapture) (a : capture_action) : option (capture_pc * string * option capture_error) :=
  match lc_pc c, a with
  | Opening, COpen IoOk => Some (Copying, lc_output c, lc_err c)
  | Opening, COpen IoCanceled => Some (Finishing, lc_output c, Some (OpenFailed "context canceled"))
  | Opening, COpen (IoFailed msg) => Some (Finishing, lc_output c, Some (OpenFailed msg))
  | Copying, CChunk bytes => Some (Copying, lc_output c +:+ bytes, lc_err c)
  | Copying, CCopyEnds e => Some (Closing e, lc_output c, lc_err c)
  | Closing copyErr, CCloseEnds closeErr =>
      Some (Finishing, lc_output c,
            match failure copyErr with
            | Some msg => Some (CopyFailed msg)
            | None => match failure closeErr with Some msg => Some (CloseFailed msg) | None => lc_err c end
            end)
  | _, _ => None
  end.

(** A step of the goroutine, of [Spawn] when [waitReady] returns, or of [stop]
    once [done] is closed. *)
Definition capture_fire (a : capture_action) (c : cellLogCapture) : option cellLogCapture :=
  match a with
  | CFinish =>
      match lc_pc c with
      | Finishing => Some (mkCapture Ended (lc_spawn c) (lc_cancelled c) true (lc_output c) (lc_err c))
      | _ => None
      end
  | CReady =>
      match lc_spawn c with
      | Waiting => Some (mkCapture (lc_pc c) Stopping true (lc_done c) (lc_output c) (lc_err c))
      | _ => None
      end
  | CCollect =>
      match lc_spawn c with
      | Stopping =>
          if lc_done c then
            Some (mkCapture (lc_pc c) (Collected (trim_space (lc_output c)) (lc_err c)) (lc_cancelled c) (lc_done c) (lc_output c) (lc_err c))
          else None
      | _ => None
      end
  | _ =>
      match capture_step c a with
      | Some (pc, output, err) => Some (mkCapture pc (lc_spawn c) (lc_cancelled c) (lc_done c) output err)
      | None => None
      end
  end.

(** A run by its actions, so that the bytes Docker sent can be named. *)
Fixpoint capture_run (c : cellLogCapture) (l : list capture_action) : option cellLogCapture :=
  match l with
  | [] => Some c
  | a :: l => match capture_fire a c with Some c' => capture_run c' l | None => None end
  end.

(** The bytes of the stream. *)
Fixpoint streamed (l : list capture_action) : string :=
  match l with
  | [] => ""
  | CChunk bytes :: l => bytes +:+ streamed l
  | _ :: l => streamed l
  end.

(** ** The hand-over *)

(** [done] is closed exactly when the goroutine has ended; what [stop] returned
    is what the buffer and the error still are; an error is there only after
    the calls it is about. *)
Record capture_ok (c : cellLogCapture) : Prop := {
  co_done : lc_done c = true <-> lc_pc c = Ended;
  co_collected : forall output err, lc_spawn c = Collected output err ->
    lc_pc c = Ended /\ output = trim_space (lc_output c) /\ err = lc_err c;
  co_cancelled : lc_cancelled c = true <-> lc_spawn c <> Waiting;
  co_err : lc_err c <> None -> lc_pc c = Finishing \/ lc_pc c = Ended;
}.

Lemma capture_step_ended c a x : capture_step c a = Some x -> lc_pc c <> Ended /\ lc_pc c <> Finishing /\ x.1.1 <> Ended.
Proof. unfold capture_step. intros H. by repeat case_match; simplify_eq/=. Qed.

Lemma capture_step_err c a pc output err :
  lc_err c = None -> capture_step c a = Some (pc, output, err) -> err <> None -> pc = Finishing.
Proof. unfold capture_step. intros He H. repeat case_match; simplify_eq/=; congruence. Qed.

Lemma capture_fire_ok a c c' : capture_ok c -> capture_fire a c = Some c' -> capture_ok c'.
Proof.
  intros [Hd Hc Hx He] Hf. unfold capture_fire in Hf. destruct a.
  1-4: (destruct (capture_step c _) as [[[pc output] err]|] eqn:Hs; [|done]; injection Hf as <-;
        destruct (capture_step_ended _ _ _ Hs) as (Hne & Hnf & Hne'); cbn in *;
        assert (lc_err c = None) as Hn by (destruct (lc_err c); [|done]; by destruct He);
        split; cbn; [tauto| |done|intros Herr; left; by eapply capture_step_err];
        intros output' err' Hsp; by destruct (Hc _ _ Hsp)).
  - destruct (lc_pc c) eqn:Hp; try done. injection Hf as <-. split; cbn; [done| |done|auto].
    intros output err Hsp. by destruct (Hc _ _ Hsp).
  - destruct (lc_spawn c); try done. injection Hf as <-. by split.
  - destruct (lc_spawn c) eqn:Hsp; try done. destruct (lc_done c) eqn:Hdone; [|done]. injection Hf as <-.
    split; cbn; [done| |split; [done|intros _; by apply Hx]|done]. intros output err [= <- <-]. split; [by apply Hd|done].
Qed.

Lemma capture_fire_output a c c' :
  capture_fire a c = Some c' -> lc_output c' = lc_output c +:+ match a with CChunk b => b | _ => "" end.
Proof.
  unfold capture_fire, capture_step. intros H. repeat case_match; simplify_eq/=; by rewrite ?string_app_nil_r.
Qed.

Lemma capture_run_ok l : forall c c',
  capture_ok c -> capture_run c l = Some c' -> capture_ok c' /\ lc_output c' = lc_output c +:+ streamed l.
Proof.
  induction l as [|a l IH]; intros c c' Hok Hr; cbn in Hr.
  - simplify_eq. by rewrite string_app_nil_r.
  - destruct (capture_fire a c) as [c1|] eqn:Hf; [|done].
    destruct (IH _ _ (capture_fire_ok _ _ _ Hok Hf) Hr) as [? ->]. split; [done|].
    rewrite (capture_fire_output _ _ _ Hf). destruct a; cbn; by rewrite string_app_assoc.
Qed.

Lemma capture_start_ok : capture_ok startCellLogCapture.
Proof. by split. Qed.

(** The capture is complete and race-free: what [stop] returns is the whole
    stream, trimmed, and from then on nothing changes it; its context has been
    cancelled; and while [stop] waits, the only thing it waits for is Docker
    ending the call it is in or the goroutine ending. *)
Theorem capture_complete l c :
  capture_run startCellLogCapture l = Some c ->
  (forall output err, lc_spawn c = Collected output err ->
     output = trim_space (streamed l) /\ err = lc_err c /\ lc_cancelled c = true /\ forall a, capture_fire a c = None) /\
  (lc_spawn c = Stopping -> lc_cancelled c = true /\ forall e,
     exists a c', a <> CReady /\ capture_fire a c = Some c' /\
       match lc_pc c with Opening => a = COpen e | Copying => a = CCopyEnds e | Closing _ => a = CCloseEnds e
       | Finishing => a = CFinish | Ended => a = CCollect end).
Proof.
  intros Hr. destruct (capture_run_ok _ _ _ capture_start_ok Hr) as [[Hd Hc Hx He] Ho]. split.
  - intros output err Hsp. destruct (Hc _ _ Hsp) as (Hp & -> & ->). rewrite Ho. split_and!; [done|done| |].
    + apply Hx. congruence.
    + intros a. unfold capture_fire, capture_step. rewrite Hp, Hsp. by destruct a.
  - intros Hsp. split; [apply Hx; congruence|]. intros e. unfold capture_fire, capture_step.
    destruct (lc_pc c) eqn:Hp.
    + exists (COpen e). destruct e; eauto.
    + exists (CCopyEnds e). eauto.
    + exists (CCloseEnds e). eauto.
    + exists CFinish. eauto.
    + exists CCollect. rewrite Hsp. destruct (lc_done c); [eauto|]. destruct Hd as [_ Hd]. by specialize (Hd eq_refl).
Qed.

Module CaptureExamples.
(** A cell that fails: its last lines are read after the copy was cancelled. *)
Definition failing : list capture_action :=
  [COpen IoOk; CChunk "no handshake"; CReady; CChunk " "; CCopyEnds IoCanceled; CCloseEnds IoOk; CFinish; CCollect].
Example failing_cell :
  lc_spawn <$> capture_run startCellLogCapture failing = Some (Collected "no handshake" None).
Proof. vm_compute. reflexivity. Qed.
End CaptureExamples.
