(* ===== verification/Gateway.v ===== *)
(** * The SOCKS5 and HTTP proxy gateways ([proxy_gateway.go], [http_proxy_gateway.go])

    Authentication of proxied connections by lease, the life of a connection
    and its reservation, and the header hygiene of forwarded requests.  What
    [net/http] and the SOCKS5 library decide (whether a hijack works, what the
    destination answers, how often a connection object is closed) are arguments
    of the handlers. *)

From S2P Require Import Prelude GoStrings Encoding UrlParse Types Config Routing PoolState Lease Prog System Manager.

Definition httpProxyAuthHeader : string := "Proxy-Authorization".
Definition httpProxyBasicScheme : string := "Basic".

(** A header: canonical and non-canonical names are different keys. *)
Abbreviation header := (gmap string (list string)).

Inductive gateway_response :=
  | GwError (status : Z)
  | GwConnected
  | GwDropped
  | GwForwarded (status : Z) (h : header).

(** What happens to an established CONNECT tunnel. *)
Inductive connect_outcome := HijackUnsupported | HijackFailed | WriteFailed | Relayed.

(** What the destination answers to a forwarded request. *)
Inductive forward_outcome := UpstreamFailed | UpstreamAnswered (status : Z) (h : header).

(** The failure classes of the SOCKS5 log. *)
Inductive socks5FailureReason :=
  | socks5FailureAuthenticationFailed
  | socks5FailureClientDisconnected
  | socks5FailureProtocolError
  | socks5FailureUpstreamConnect.

Definition classifySOCKS5Failure (message : string) : socks5FailureReason :=
  if contains message "EOF" then socks5FailureClientDisconnected
  else if contains message "failed to authenticate" then socks5FailureAuthenticationFailed
  else if contains message "connect to" then socks5FailureUpstreamConnect
  else socks5FailureProtocolError.

(** ** Header hygiene *)

Section headers.
Context `{GoUnicode, MapOrder}.

(** [deleteHTTPHeader]. *)
Definition deleteHTTPHeader (target : string) (h : header) : header :=
  filter (fun kv => equal_fold kv.1 target = false) h.

Definition deleteHTTPHeaders (targets : list string) (h : header) : header :=
  foldl (fun h target => deleteHTTPHeader target h) h targets.

(** The header names a [Connection] value lists. *)
Definition nominated (values : list string) : list string :=
  values ≫= (fun value => trim_space <$> split value ",").

(** [stripConnectionNominatedHeaders]: the loop visits an entry only while
    it is still in the map it deletes from. *)
Definition stripConnectionNominatedHeaders (h : header) : header :=
  foldl (fun cur kv =>
           match cur !! kv.1 with
           | Some _ => if equal_fold kv.1 "Connection"
                       then deleteHTTPHeaders (nominated kv.2) cur else cur
           | None => cur
           end) h (range h).

Definition hopByHopRequest : list string :=
  ["Connection"; "Keep-Alive"; "Proxy-Connection"; httpProxyAuthHeader; "TE"; "Trailer";
   "Transfer-Encoding"; "Upgrade"].
Definition hopByHopResponse : list string :=
  ["Connection"; "Keep-Alive"; "Proxy-Connection"; "TE"; "Trailer"; "Transfer-Encoding";
   "Upgrade"].

Definition stripProxyRequestHeaders (h : header) : header :=
  deleteHTTPHeaders hopByHopRequest (stripConnectionNominatedHeaders h).
Definition stripProxyResponseHeaders (h : header) : header :=
  deleteHTTPHeaders hopByHopResponse (stripConnectionNominatedHeaders h).

(** ** Proxy credentials *)

(** [proxyBasicCredentials], on the value of [Proxy-Authorization]. *)
Definition proxyBasicCredentials (value : string) : option (string * string) :=
  match cut value " " with
  | (scheme, encoded, true) =>
      if negb (equal_fold scheme httpProxyBasicScheme) || String.eqb encoded "" then None else
      match std_decode encoded with
      | None => None
      | Some decoded =>
          match cut decoded ":" with
          | (username, password, true) =>
              if String.eqb username "" || String.eqb password "" then None
              else Some (username, password)
          | _ => None
          end
      end
  | _ => None
  end.
End headers.

(** ** Connections *)

Section gateway.
Context `{GoUnicode, GoHash, GoNetip, MapOrder}.

(** A connection is used and then closed, once or more often. *)
Fixpoint closeTimes (n : nat) (c : releaseConn) : sys unit :=
  match n with
  | O => Ret tt
  | S n' => c' ← closeConn c; closeTimes n' c'
  end.

Definition useConn (extraCloses : nat) (c : releaseConn) : sys unit :=
  _ ← call OpWait; closeTimes (S extraCloses) c.

(** [ProxyGateway.dial] and the relay the SOCKS5 library runs on its result;
    [auth] is the authentication context. *)
Definition socksConnection (auth : option (string * string)) (network address : string)
    (extraCloses : nat) : sys (res unit) :=
  match auth with
  | None => Ret (Err ErrForeign)
  | Some (username, password) =>
      dialled ← dialLease username password network address;
      match dialled with
      | Err e => Ret (Err e)
      | Ok c => _ ← useConn extraCloses c; Ret (Ok tt)
      end
  end.

(** [handleConnect]. *)
Definition handleConnect (host username password : string) (outcome : connect_outcome) :
    sys gateway_response :=
  if String.eqb host "" then Ret (GwError StatusBadRequest) else
  dialled ← dialLease username password "tcp" host;
  match dialled with
  | Err _ => Ret (GwError StatusBadGateway)
  | Ok upstream =>
      match outcome with
      | HijackUnsupported => _ ← closeTimes 1 upstream; Ret (GwError StatusInternalServerError)
      | HijackFailed => _ ← closeTimes 1 upstream; Ret GwDropped
      | WriteFailed => _ ← closeTimes 1 upstream; Ret GwDropped
      | Relayed => _ ← useConn 1 upstream; Ret GwConnected
      end
  end.

(** The address [net/http] dials for a plain request to a host in ASCII: the port
    is 80 unless the URL has one. *)
Definition forwardAddr (u : URL) : string :=
  if String.eqb (url_port u) "" then trim_suffix (Host u) ":" +:+ ":80" else Host u.

(** [handleForwardRequest]: the outbound header and the response. *)
Definition handleForwardRequest (target : URL) (h : header) (username password : string)
    (respond : header -> forward_outcome) (extraCloses : nat) : sys gateway_response :=
  if negb (url_is_abs target) || negb (String.eqb (Scheme target) proxySchemeHTTP) ||
     String.eqb (Host target) "" then Ret (GwError StatusBadRequest) else
  let outbound := stripProxyRequestHeaders h in
  dialled ← dialLease username password "tcp" (forwardAddr target);
  match dialled with
  | Err _ => Ret (GwError StatusBadGateway)
  | Ok c =>
      _ ← useConn extraCloses c;
      Ret (match respond outbound with
           | UpstreamFailed => GwError StatusBadGateway
           | UpstreamAnswered status rh => GwForwarded status (stripProxyResponseHeaders rh)
           end)
  end.

Inductive gateway_request :=
  | Connect (host : string) (outcome : connect_outcome)
  | Forward (target : URL) (respond : header -> forward_outcome) (extraCloses : nat).

(** [HTTPProxyGateway.handle]. *)
Definition handle (h : header) (authorization : string) (request : gateway_request) :
    sys gateway_response :=
  match proxyBasicCredentials authorization with
  | None => Ret (GwError StatusProxyAuthRequired)
  | Some (username, password) =>
      valid ← validLease username password;
      if negb (valid : bool) then Ret (GwError StatusProxyAuthRequired) else
      match request with
      | Connect host outcome => handleConnect host username password outcome
      | Forward target respond extra => handleForwardRequest target h username password respond extra
      end
  end.
End gateway.
