(* ===== verification/Connections.v ===== *)
(** * Leases and proxied connections

    What a lease gives its holder: the life of a connection and its
    reservation, the round trip of a lease URL through [excludeProxy], proxy
    credentials, and the headers of forwarded requests. *)

From S2P Require Import Prelude GoStrings Encoding UrlParse Types Config Routing PoolState Lease Prog System.
From S2P Require Import Manager Behaviour Gateway.

Section connections.
Context `{UC : GoUnicode, HA : GoHash, NI : GoNetip, MO : MapOrder, SC : SpawnerContract}.

Lemma step_leases tid {R} (f : leaseRegistry -> leaseRegistry * R) w r w' :
  op_step tid (OpLeases f) w r w' ->
  r = (f (w_leases w)).2 /\ w' = tick (put_leases (f (w_leases w)).1 w).
Proof. intros (a & _ & He). simpl in He. destruct (f (w_leases w)). by simplify_eq/=. Qed.

Lemma runs_lookupLease tid u pw w r w' :
  runs tid (lookupLease u pw) w r w' ->
  exists now, r = (Lookup u pw now (w_leases w)).2 /\ w_pools w' = w_pools w /\ w_events w' = w_events w.
Proof.
  unfold lookupLease. intros Hr. rbind Hr now w1 H1. apply runs_now in H1 as ->.
  apply runs_call, step_leases in Hr as [-> ->]. by exists now.
Qed.

Lemma runs_getPool tid name w r w' :
  runs tid (getPool name) w r w' ->
  r = (match w_pools w !! name with Some p => Some (mkRef name (Spec p)) | None => None end) /\
  w' = tick w.
Proof.
  unfold getPool. intros Hr. rbind Hr spec w1 H1. apply runs_call, step_lookup in H1 as [-> ->].
  destruct Hr as [-> ->]. by destruct (w_pools w !! name).
Qed.

Lemma runs_Release tid acq w r w' p :
  w_pools w !! acq_Pool acq = Some p ->
  runs tid (Release acq) w r w' ->
  w_pools w' = <[acq_Pool acq := release p]> (w_pools w) /\ w_events w' = w_events w.
Proof.
  intros Hk Hr. unfold Release in Hr. rbind Hr st w1 H1. apply runs_getPool in H1 as [-> ->].
  rewrite Hk in Hr. apply runs_section in Hr as (p' & now & draw & Hk' & -> & ->).
  simpl in *. by simplify_eq.
Qed.

Lemma runs_closeTimes_closed tid n c w r w' :
  rc_once c = true -> runs tid (closeTimes n c) w r w' -> w' = w.
Proof.
  intros Hc. revert w. induction n as [|n IH]; intros w Hr; cbn [closeTimes] in Hr.
  - by destruct Hr.
  - rbind Hr c1 w1 H1. unfold closeConn in H1. rewrite Hc in H1. destruct H1 as [-> ->].
    by apply IH.
Qed.

(** However often a connection is closed, it releases once. *)
Lemma runs_closeTimes tid n c w r w' p :
  rc_once c = false -> w_pools w !! acq_Pool (rc_acq c) = Some p ->
  runs tid (closeTimes (S n) c) w r w' ->
  w_pools w' = <[acq_Pool (rc_acq c) := release p]> (w_pools w).
Proof.
  intros Hc Hk Hr. cbn [closeTimes] in Hr. rbind Hr c1 w1 H1. unfold closeConn in H1.
  rewrite Hc in H1. rbind H1 u w2 H2. destruct H1 as [-> ->].
  apply runs_closeTimes_closed in Hr as ->; [|done]. by eapply runs_Release in H2 as [? _].
Qed.

(** ** A reservation and its release *)

(** The cell a lease names, live in its pool. *)
Definition leased_cell (w : world) (rc : proxyLeaseRecord) (p : PoolState) (t : Tunnel) : Prop :=
  w_pools w !! lr_Pool rc = Some p /\ tunnel p = Some t /\ State t = TunnelStateHot /\
  ContainerID t = lr_ContainerID rc.

Lemma runs_AcquireForLease tid u pw w r w' :
  runs tid (AcquireForLease u pw) w r w' ->
  match r with
  | Ok acq => exists now rc p t used, (Lookup u pw now (w_leases w)).2 = Some rc /\
      leased_cell w rc p t /\ acq = mkAcquisition (Some (reserve used t)) (lr_Pool rc) /\
      w_pools w' = <[lr_Pool rc := with_tunnel (Some (reserve used t)) p]> (w_pools w) /\ w_events w' = w_events w
  | Err e => e = ErrPoolUnavailable /\ w_pools w' = w_pools w /\ w_events w' = w_events w
  end.
Proof.
  unfold AcquireForLease. intros Hr. rbind Hr lease w1 H1.
  apply runs_lookupLease in H1 as (now & Hl & P1 & V1). destruct lease as [rc|].
  2: { destruct Hr as [-> ->]. done. }
  rbind Hr st w2 H2. apply runs_getPool in H2 as [-> ->]. rewrite P1 in Hr.
  destruct (w_pools w !! lr_Pool rc) as [p|] eqn:Hk.
  2: { destruct Hr as [-> ->]. done. }
  rbind Hr got w3 H3. apply runs_section in H3 as (p' & used & draw & Hk' & -> & ->).
  destruct Hr as [-> ->]. simpl in *. rewrite P1, Hk in Hk'.
  injection Hk' as <-.
  pose proof (acquireContainer_correct (lr_ContainerID rc) used p) as Ha.
  destruct (acquireContainer (lr_ContainerID rc) used p) as [q [t|err]]; simpl.
  - destruct Ha as (t0 & ? & ? & ? & -> & ->). exists now, rc, p, t0, used. rewrite P1.
    split_and!; try done.
  - destruct Ha as (-> & -> & _). split; [done|]. rewrite P1. split; [by apply insert_id|done].
Qed.

(** Releasing a reservation restores the count. *)
Lemma release_reserve p t used :
  tunnel p = Some t -> (0 <= InFlight t < max_int64)%Z ->
  release (with_tunnel (Some (reserve used t)) p) = with_tunnel (Some (set_LastUsedAt used t)) p.
Proof.
  intros Ht Hb. unfold release, reserve. simpl. unfold max_int64 in Hb.
  rewrite (wrap64_id (InFlight t + 1)) by (unfold min_int64, max_int64; lia).
  destruct (Z.leb_spec (InFlight t + 1) 0); [lia|].
  replace (InFlight t + 1 - 1)%Z with (InFlight t) by lia.
  rewrite wrap64_id by (unfold min_int64, max_int64; lia). by destruct t.
Qed.
(** What an execution of [dialLease] with an outcome [d] of its dial leaves: that
    dial went to the gateway address of the cell [t], for the destination asked
    for, and is the only effect. *)
Definition dialled_cell (t : Tunnel) (network address : string) (d : dial_result) (w w1 : world) : Prop :=
  w_events w1 = EvDialled (GatewayAddr t) network address d :: w_events w.

(** What a failed [dialLease] leaves: every count as it was, after no dial or
    after one failed dial of the leased cell. *)
Definition dial_failed `{GoHash} (u pw network address : string) (w w1 : world) : Prop :=
  in_flight <$> w_pools w1 = in_flight <$> w_pools w /\
  (w_events w1 = w_events w \/
   exists now rc p t d, (Lookup u pw now (w_leases w)).2 = Some rc /\ leased_cell w rc p t /\
     d <> DialConnected /\ dialled_cell t network address d w w1).

(** What [dialLease] leaves: one more reservation on the leased cell, held by the
    connection, or every count as it was. *)
Lemma runs_dialLease tid u pw network address w r w1 :
  runs tid (dialLease u pw network address) w r w1 ->
  (forall key p t, w_pools w !! key = Some p -> tunnel p = Some t -> (0 <= InFlight t < max_int64)%Z) ->
  match r with
  | Ok c => exists now rc p t used, (Lookup u pw now (w_leases w)).2 = Some rc /\ leased_cell w rc p t /\
      (0 <= InFlight t < max_int64)%Z /\ c = mkReleaseConn (mkAcquisition (Some (reserve used t)) (lr_Pool rc)) false /\
      w_pools w1 = <[lr_Pool rc := with_tunnel (Some (reserve used t)) p]> (w_pools w) /\
      dialled_cell t network address DialConnected w w1
  | Err _ => dial_failed u pw network address w w1
  end.
Proof.
  intros Hr Hb. unfold dialLease in Hr. rbind Hr acq w2 H2'. apply runs_AcquireForLease in H2'.
  destruct acq as [acq|e].
  2: { destruct Hr as [-> ->]. destruct H2' as (_ & P2 & V2). split; [by rewrite P2|by left]. }
  destruct H2' as (now & rc & p & t & used & Hl & Hc & -> & P2 & V2).
  pose proof Hc as (Hk & Ht & _ & _). pose proof (Hb _ _ _ Hk Ht) as Hbt.
  rbind Hr d w3 H3'. apply runs_call in H3'.
  assert (w_pools w3 = w_pools w2 /\ dialled_cell t network address d w w3) as [P3 V3]
    by (destruct H3' as (a & _ & He); simplify_eq/=; unfold dialled_cell; simpl; by rewrite V2).
  destruct d; [..|by destruct Hr as [-> ->]; exists now, rc, p, t, used; rewrite P3].
  all: rbind Hr x w4 H4'; destruct Hr as [-> ->].
  all: eapply (runs_Release _ _ _ _ _ (with_tunnel (Some (reserve used t)) p)) in H4' as [P4 V4];
    [|simpl; rewrite P3, P2; apply lookup_insert_eq].
  all: split; [|right; eexists now, rc, p, t, _; split; [done|]; split; [done|];
    split; [|unfold dialled_cell; rewrite V4; exact V3]; done].
  all: rewrite P4, P3, P2; simpl; rewrite insert_insert_eq, release_reserve, fmap_insert by done.
  all: apply insert_id; rewrite lookup_fmap, Hk; unfold in_flight; simpl; by rewrite Ht.
Qed.
End connections.

(** C5. A lease opens connections through its own cell only, and each
    connection holds exactly one reservation for as long as it is open.  For
    [dialLease] and the closes of its connection executed without another
    goroutine's operations in between: it succeeds only when the credentials look
    up a live lease whose cell is the hot one in its pool, after exactly one dial,
    to that cell's own gateway address and for the network and destination asked
    for; the connection then counts one more in flight, and closing it any number
    of times gives the count back once.  A failed call leaves every pool's count as
    it was, and dialled nothing or only that cell. *)
Theorem lease_connection_lifetime `{GoUnicode, GoHash, GoNetip, MapOrder, SpawnerContract}
    tid u pw network address w r w1 :
  runs tid (dialLease u pw network address) w r w1 ->
  (forall key p t, w_pools w !! key = Some p -> tunnel p = Some t -> (0 <= InFlight t < max_int64)%Z) ->
  match r with
  | Ok c => exists now rc p t used, (Lookup u pw now (w_leases w)).2 = Some rc /\
      leased_cell w rc p t /\
      w_events w1 = EvDialled (GatewayAddr t) network address DialConnected :: w_events w /\
      w_pools w1 = <[lr_Pool rc := with_tunnel (Some (reserve used t)) p]> (w_pools w) /\
      InFlight (reserve used t) = (InFlight t + 1)%Z /\
      forall n x w2, runs tid (closeTimes (S n) c) w1 x w2 ->
        w_pools w2 = <[lr_Pool rc := with_tunnel (Some (set_LastUsedAt used t)) p]> (w_pools w)
  | Err _ =>
      in_flight <$> w_pools w1 = in_flight <$> w_pools w /\
      (w_events w1 = w_events w \/
       exists now rc p t d, (Lookup u pw now (w_leases w)).2 = Some rc /\ leased_cell w rc p t /\
         d <> DialConnected /\ w_events w1 = EvDialled (GatewayAddr t) network address d :: w_events w)
  end.
Proof.
  intros Hr Hb. pose proof (runs_dialLease _ _ _ _ _ _ _ _ Hr Hb) as Hd. destruct r as [c|e]; [|exact Hd].
  destruct Hd as (now & rc & p & t & used & Hl & Hc & Hbt & -> & P & V). exists now, rc, p, t, used. split_and!; try done.
  - simpl. apply wrap64_id. unfold min_int64, max_int64 in *. lia.
  - intros n x w4 Hx. pose proof Hc as (_ & Ht & _ & _).
    eapply (runs_closeTimes _ _ _ _ _ _ (with_tunnel (Some (reserve used t)) p)) in Hx; [|done|].
    + rewrite Hx. simpl. rewrite P, insert_insert_eq. by rewrite release_reserve.
    + simpl. rewrite P. apply lookup_insert_eq.
Qed.

(** ** Lease URLs and [excludeProxy] *)

#[local] Arguments Issue : simpl never.

Lemma lease_url_string leaseID secret addr :
  safe_part leaseID = true -> safe_part secret = true -> plain_address addr = true ->
  url_string (mkURL "socks5" (Some (leaseID, Some secret)) addr) =
  "socks5://" +:+ leaseID +:+ ":" +:+ secret +:+ "@" +:+ addr.
Proof.
  intros Hi Hs Ha. unfold url_string, userinfo_string. cbn [fst snd Scheme Host User].
  rewrite !safe_part_escape by done. rewrite bool_decide_false by done. rewrite !andb_false_r. simpl.
  destruct (plain_address_lease_byte _ Ha) as [Hl Hn]. rewrite (url_escape_plain _ Hl Hn).
  by rewrite !string_app_assoc.
Qed.

Lemma issued_socks_url `{GoHash} acq t rand1 rand2 now r :
  issuable acq = Some t -> plain_address (lg_socksPublicAddr r) = true ->
  exists lease, (Issue acq (Some rand1) (Some rand2) now r).2 = Ok lease /\
    ExpiresAt lease = (now + lg_ttl r)%Z /\
    SOCKS5 (Proxies lease) = "socks5://" +:+ raw_url_encode rand1 +:+ ":" +:+ raw_url_encode rand2 +:+
                             "@" +:+ lg_socksPublicAddr r.
Proof.
  intros Ht Ha. unfold Issue. rewrite Ht. cbn [newLeasePart]. eexists. split; [done|].
  split; [done|]. unfold issued_lease, proxySchemeSOCKS5. cbn [SOCKS5 Proxies].
  by rewrite lease_url_string by auto using raw_url_encode_safe.
Qed.

Lemma plain_address_port addr u pw :
  plain_address addr = true -> addr <> "" /\ url_port (mkURL "socks5" (Some (u, Some pw)) addr) <> "".
Proof.
  intros (host & port & -> & Hh & Hp & Hne)%plain_address_spec. split; [by destruct host|].
  unfold url_port. cbn [Host].
  rewrite last_index_byte_app by by apply (forallb_no_byte is_digit).
  rewrite string_drop_app. change (string_drop 1 (String ":" port)) with port.
  change (string_forallb (fun c => is_digit c) port) with (string_forallb is_digit port).
  by rewrite Hp.
Qed.

(** A lease URL comes back as the cell it stands for: passing the SOCKS5 URL
    of an issued lease as [excludeProxy] resolves to the internal URL of the
    cell it was issued for while the lease is live, and is rejected as invalid
    from its expiry on. *)
Lemma issued_url_resolves `{GoUnicode, GoHash, GoNetip, MapOrder}
    ok tid a acq t rand1 rand2 now w r :
  (forall R o, ok R o a = true) ->
  issuable acq = Some t -> plain_address (lg_socksPublicAddr r) = true ->
  w_leases w = (Issue acq (Some rand1) (Some rand2) now r).1 ->
  exists lease, (Issue acq (Some rand1) (Some rand2) now r).2 = Ok lease /\
    exists w', run_at ok tid a (ResolveExcludedProxy (SOCKS5 (Proxies lease))) w =
      Some (if (a_now a <? ExpiresAt lease)%Z then Ok (ProxyURL t) else Err ErrInvalidCountry, w').
Proof.
  intros Hok Ht Ha Hw. destruct (issued_socks_url acq t rand1 rand2 now r Ht Ha) as (lease & Hi & He & Hs).
  exists lease. split; [done|]. rewrite Hs.
  unfold ResolveExcludedProxy. rewrite parse_lease_url by auto using raw_url_encode_safe.
  destruct (plain_address_port _ (raw_url_encode rand1) (raw_url_encode rand2) Ha) as [Hhost Hport].
  cbn [Scheme Host User]. apply String.eqb_neq in Hhost, Hport. rewrite Hhost, Hport.
  unfold proxySchemeSOCKS5. rewrite String.eqb_refl. cbn [negb orb].
  unfold lookupLease, call, do_op. simpl. rewrite !Hok. rewrite Hw, He. eexists. do 2 f_equal.
  pose proof (lookup_issued acq t rand1 rand2 now (a_now a) r Ht) as Hl.
  unfold Lookup, pruneExpiredLocked in Hl. simpl in Hl. rewrite Hl.
  by destruct (a_now a <? now + lg_ttl r)%Z.
Qed.

(** ** Proxy credentials *)

Lemma string_forallb_map p f s :
  string_forallb p (string_map f s) = string_forallb (fun c => p (f c)) s.
Proof. induction s as [|c s IH]; [done|]. simpl. by rewrite IH. Qed.

(** A letter in either case is ASCII and not a space. *)
Lemma letters_plain s :
  string_forallb is_lower (string_map byte_lower s) = true ->
  is_ascii s = true /\ has_byte " " s = false.
Proof.
  rewrite string_forallb_map. intros Hs. split.
  - revert Hs. apply forallb_bytes. vm_compute. reflexivity.
  - revert Hs. by apply forallb_no_byte.
Qed.

Lemma std_encode_nonempty s : s <> "" -> String.eqb (std_encode s) "" = false.
Proof. destruct s as [|a [|b [|c s]]]; done. Qed.

(** Basic proxy credentials round trip: for every non-empty user name
    without a colon and every non-empty password, the standard
    [Proxy-Authorization] value, with the scheme in any ASCII case, is decoded
    to exactly those two. *)
Theorem proxyBasicCredentials_roundtrip `{GoUnicode} scheme username password :
  string_map byte_lower scheme = "basic" ->
  username <> "" -> password <> "" -> has_byte ":" username = false ->
  proxyBasicCredentials (scheme +:+ " " +:+ std_encode (username +:+ ":" +:+ password)) =
  Some (username, password).
Proof.
  intros Hs Hu Hp Hc. destruct (letters_plain scheme) as [Ha Hn]; [by rewrite Hs|].
  unfold proxyBasicCredentials. change (" " +:+ ?x) with (String " " x). rewrite cut_app by done.
  assert (equal_fold scheme httpProxyBasicScheme = true) as ->
    by (unfold equal_fold; by rewrite Ha, Hs).
  rewrite std_encode_nonempty by (by destruct username). cbn [negb orb].
  rewrite std_decode_encode. change (":" +:+ password) with (String ":" password).
  rewrite cut_app by done. apply String.eqb_neq in Hu, Hp. by rewrite Hu, Hp.
Qed.

(** ** Headers of forwarded requests *)

Section headers.
Context `{UC : GoUnicode, MO : MapOrder}.

Lemma deleteHTTPHeader_lookup target h name :
  deleteHTTPHeader target h !! name = if equal_fold name target then None else h !! name.
Proof.
  unfold deleteHTTPHeader. rewrite map_lookup_filter. destruct (h !! name) as [v|]; simpl.
  - case_guard as Hg; simpl in *; by destruct (equal_fold name target).
  - by destruct (equal_fold name target).
Qed.

Lemma deleteHTTPHeaders_lookup targets h name :
  deleteHTTPHeaders targets h !! name =
  if existsb (equal_fold name) targets then None else h !! name.
Proof.
  unfold deleteHTTPHeaders. revert h. induction targets as [|t ts IH]; intros h; simpl; [done|].
  rewrite IH, deleteHTTPHeader_lookup. by destruct (equal_fold name t), (existsb _ ts).
Qed.

(** One turn of the loop of [stripConnectionNominatedHeaders]. *)
Abbreviation strip_turn := (fun (cur : header) (kv : string * list string) =>
  match cur !! kv.1 with
  | Some _ => if equal_fold kv.1 "Connection" then deleteHTTPHeaders (nominated kv.2) cur else cur
  | None => cur
  end).

(** [names values name]: the values of a [Connection] field list [name]. *)
Definition names (values : list string) (name : string) : bool :=
  existsb (equal_fold name) (nominated values).

Lemma strip_turn_lookup cur kv name :
  strip_turn cur kv !! name = cur !! name \/
  (strip_turn cur kv !! name = None /\ equal_fold kv.1 "Connection" = true /\ names kv.2 name = true).
Proof.
  cbv beta. destruct (cur !! kv.1); [|by left]. destruct (equal_fold kv.1 "Connection"); [|by left].
  rewrite deleteHTTPHeaders_lookup. unfold names. destruct (existsb _ _); [by right|by left].
Qed.

(** A field that no [Connection] field lists is kept. *)
Lemma strip_loop_keeps (l : list (string * list string)) cur name :
  (forall kv, kv ∈ l -> equal_fold kv.1 "Connection" = true -> names kv.2 name = false) ->
  foldl strip_turn cur l !! name = cur !! name.
Proof.
  revert cur. induction l as [|kv l IH]; intros cur Hl; [done|]. cbn [foldl].
  rewrite IH by (intros; apply Hl; [by right|done]).
  destruct (strip_turn_lookup cur kv name) as [|(_ & Hc & Hn)]; [done|].
  by rewrite (Hl kv ltac:(left) Hc) in Hn.
Qed.

(** A field that is gone stays gone. *)
Lemma strip_loop_gone (l : list (string * list string)) cur name :
  cur !! name = None -> foldl strip_turn cur l !! name = None.
Proof.
  revert cur. induction l as [|kv l IH]; intros cur Hc; [done|]. cbn [foldl]. apply IH.
  destruct (strip_turn_lookup cur kv name) as [->|(-> & _)]; done.
Qed.

(** What a [Connection] field lists goes, if no other one removes that field
    before its turn. *)
Lemma strip_loop_removes (l : list (string * list string)) cur k v name :
  (k, v) ∈ l -> is_Some (cur !! k) -> equal_fold k "Connection" = true -> names v name = true ->
  (forall kv, kv ∈ l -> kv <> (k, v) -> equal_fold kv.1 "Connection" = true -> names kv.2 k = false) ->
  foldl strip_turn cur l !! name = None.
Proof.
  revert cur. induction l as [|kv l IH]; intros cur Hin Hk Hc Hn Hl; [by apply elem_of_nil in Hin|].
  cbn [foldl]. destruct (decide (kv = (k, v))) as [->|Hne].
  - apply strip_loop_gone. simpl. destruct Hk as [? ->]. rewrite Hc, deleteHTTPHeaders_lookup.
    unfold names in Hn. by rewrite Hn.
  - apply IH; [set_solver| |done..|intros; apply Hl; [by right|done..]].
    destruct (strip_turn_lookup cur kv k) as [->|(_ & Hc' & Hn')]; [done|].
    by rewrite (Hl kv ltac:(left) Hne Hc') in Hn'.
Qed.

(** [strips hop h out]: [out] is [h] without the fields named in [hop] and the
    ones the [Connection] fields of [h] list, names in any ASCII case.  A
    [Connection] field that another one lists may be removed before its own list
    is read; every other list is obeyed. *)
Definition strips (hop : list string) (h out : header) : Prop :=
  forall name,
    (existsb (equal_fold name) hop = true -> out !! name = None) /\
    (existsb (equal_fold name) hop = false ->
     (forall k v, h !! k = Some v -> equal_fold k "Connection" = true -> names v name = false) ->
     out !! name = h !! name) /\
    (forall k v, h !! k = Some v -> equal_fold k "Connection" = true -> names v name = true ->
     (forall k' v', k' <> k -> h !! k' = Some v' -> equal_fold k' "Connection" = true -> names v' k = false) ->
     out !! name = None).

Lemma delete_strips hop h :
  strips hop h (deleteHTTPHeaders hop (stripConnectionNominatedHeaders h)).
Proof.
  intros name. rewrite deleteHTTPHeaders_lookup. unfold stripConnectionNominatedHeaders. split_and!.
  - by intros ->.
  - intros -> Hk. apply strip_loop_keeps. intros [k v] Hin%elem_of_range Hc. by eapply Hk.
  - intros k v Hk Hc Hn Ho. destruct (existsb _ hop); [done|].
    apply (strip_loop_removes _ _ k v); [by apply elem_of_range|by eexists|done|done|].
    intros [k' v'] Hin%elem_of_range Hne Hc'. apply (Ho k' v'); [|done..].
    intros ->. simpl in *. congruence.
Qed.
End headers.

(** C30. Header hygiene.  Whatever the header map and its iteration order, what
    leaves the gateway with a forwarded request has none of the fields
    Connection, Keep-Alive, Proxy-Connection, Proxy-Authorization, TE, Trailer,
    Transfer-Encoding and Upgrade, in any ASCII case, and none that a Connection
    field lists, unless that Connection field is itself listed by another one; all
    other fields are kept with their values.  A response is treated in the same
    way, except that Proxy-Authorization is not among the names. *)
Theorem strip_headers_exact `{GoUnicode, MapOrder} h :
  strips ["Connection"; "Keep-Alive"; "Proxy-Connection"; "Proxy-Authorization"; "TE"; "Trailer";
          "Transfer-Encoding"; "Upgrade"] h (stripProxyRequestHeaders h) /\
  strips ["Connection"; "Keep-Alive"; "Proxy-Connection"; "TE"; "Trailer"; "Transfer-Encoding";
          "Upgrade"] h (stripProxyResponseHeaders h).
Proof. split; apply delete_strips. Qed.

(** ** Witnesses *)

Module ConnectionExamples.
#[local] Existing Instance no_unicode.
#[local] Existing Instance canonical_order.

Lemma proxyBasicCredentials_roundtrip_witness :
  proxyBasicCredentials ("bAsIc " +:+ std_encode "user:pa:ss") = Some ("user", "pa:ss").
Proof.
  refine (proxyBasicCredentials_roundtrip "bAsIc" "user" "pa:ss" _ _ _ _); try reflexivity; discriminate.
Defined.

(** Two Connection fields of different case, as in the repository's own test. *)
Definition fields : header :=
  {[ "Connection" := ["Keep-This-Out, X-Connection-Only"]; "connection" := ["X-Lower-Connection-Only"];
     "X-Connection-Only" := ["remove"]; "X-Lower-Connection-Only" := ["remove"];
     "Proxy-Authorization" := ["Basic x"]; "X-Keep" := ["keep"] ]}.

Lemma fields_connection k v :
  fields !! k = Some v -> equal_fold k "Connection" = true ->
  (k = "Connection" /\ v = ["Keep-This-Out, X-Connection-Only"]) \/
  (k = "connection" /\ v = ["X-Lower-Connection-Only"]).
Proof.
  intros Hk Hc. unfold fields in Hk. rewrite !lookup_insert_Some, lookup_singleton_Some in Hk.
  repeat destruct Hk as [[<- <-]|[_ Hk]]; try (by auto); try by vm_compute in Hc.
  by destruct Hk as [<- _]; vm_compute in Hc.
Qed.

Lemma strip_headers_exact_witness :
  stripProxyRequestHeaders fields !! "x-lower-connection-only" = None /\
  stripProxyRequestHeaders fields !! "X-Keep" = Some ["keep"] /\
  stripProxyRequestHeaders fields !! "Proxy-Authorization" = None.
Proof.
  split; [|split].
  - refine (proj2 (proj2 (proj1 (strip_headers_exact fields) "x-lower-connection-only"))
      "connection" ["X-Lower-Connection-Only"] eq_refl eq_refl eq_refl _).
    intros k v Hne Hk Hc. destruct (fields_connection k v Hk Hc) as [[-> ->]|[-> ->]]; [reflexivity|done].
  - refine (proj1 (proj2 (proj1 (strip_headers_exact fields) "X-Keep")) eq_refl _).
    intros k v Hk Hc. destruct (fields_connection k v Hk Hc) as [[-> ->]|[-> ->]]; reflexivity.
  - exact (proj1 (proj1 (strip_headers_exact fields) "Proxy-Authorization") eq_refl).
Defined.
End ConnectionExamples.
