(* ===== verification/Conversation.v ===== *)
(** * Conversations with the SOCKS5 gateway

    The gateway's SOCKS5 server ([proxy_gateway.go]) and the cell's
    ([cellproxy/proxy.go]) are the server of [Socks] with their options.  First
    what the gateway does in any conversation, whatever the other end sends;
    then a conversation as a program over the controller's state, in which the
    callbacks look leases up, dial and release ([on_world]). *)

From S2P Require Import Prelude GoStrings Types PoolState Lease Prog System Manager Behaviour Gateway Connections Socks.

(** The options of [ProxyGateway.Start] and of [cellproxy.New]. *)
Definition gatewayServer : socksServer := mkSocksServer true CellResolver true false false.
Definition cellServer : socksServer := mkSocksServer false DNSResolver true true true.

(** [proxyLeaseCredentials.Valid], at a time. *)
Definition Valid `{GoHash} (username password : string) (now : Z) (r : leaseRegistry) : bool :=
  match (Lookup username password now r).2 with Some _ => true | None => false end.

(** The loggers of [newProxyGatewaySocksLogger] and [newSocksLogger]: the level
    and the message for the reason of a failure. *)
Inductive logLevel := Debug | Warn.

Definition proxyGatewaySocksLogger (reason : socks5FailureReason) : logLevel * string :=
  match reason with
  | socks5FailureClientDisconnected => (Debug, "controller SOCKS5 client disconnected")
  | _ => (Warn, "controller SOCKS5 relay failed")
  end.

Definition cellSocksLogger (reason : socks5FailureReason) : logLevel * string :=
  match reason with
  | socks5FailureClientDisconnected => (Debug, "cell SOCKS5 client disconnected")
  | _ => (Warn, "cell SOCKS5 request failed")
  end.

(** The cell has a classifier of its own. *)
Definition cellClassifySOCKS5Failure (message : string) : socks5FailureReason :=
  if contains message "EOF" then socks5FailureClientDisconnected
  else if contains message "failed to authenticate" then socks5FailureAuthenticationFailed
  else if contains message "connect to" then socks5FailureUpstreamConnect
  else socks5FailureProtocolError.

(** ** Any conversation with the gateway *)

Inductive sevent :=
  | EvRead (n : nat) (r : result string string)
  | EvWrite (b : string) (r : option string)
  | EvValid (username password : string) (r : bool)
  | EvLookup (name : string) (r : result string string)
  | EvDial (network address : string) (auth : option (string * string)) (r : result string (option (string * Z)))
  | EvRelay (r : option string)
  | EvCloseTarget
  | EvAssociate (r : option string).

Definition sevent_of {R} (o : sop R) : R -> sevent :=
  match o in sop R return R -> sevent with
  | SRead n => EvRead n
  | SWrite b => EvWrite b
  | SValid u p => EvValid u p
  | SLookup name => EvLookup name
  | SDial network address auth => EvDial network address auth
  | SRelay => EvRelay
  | SCloseTarget => fun _ => EvCloseTarget
  | SAssociate => EvAssociate
  end.

(** [converses p tr a]: [p] can end with [a] after the events [tr]; every answer
    is arbitrary. *)
Fixpoint converses {A} (p : serving A) (tr : list sevent) (a : A) : Prop :=
  match p with
  | Ret a' => tr = [] /\ a = a'
  | Op o k => exists r tr', tr = sevent_of o r :: tr' /\ converses (k r) tr' a
  end.

(** What a lease allows: nothing but bytes until a pair of credentials was found
    valid, then one dial over TCP with those credentials, then, if it succeeded,
    at most one relay and one close of the connection that was dialled. *)
Inductive gatewayPhase := Anonymous | Leased (username password : string) | Connected | Relayed | Closed.

Definition lease_protocol (ph : gatewayPhase) (e : sevent) : option gatewayPhase :=
  match e, ph with
  | EvRead _ _, _ | EvWrite _ _, _ => Some ph
  | EvValid u p true, Anonymous => Some (Leased u p)
  | EvValid _ _ false, Anonymous => Some Closed
  | EvDial network _ (Some (u, p)) r, Leased u' p' =>
      if String.eqb network "tcp" && String.eqb u u' && String.eqb p p'
      then Some (match r with Ok _ => Connected | Err _ => Closed end) else None
  | EvRelay _, Connected => Some Relayed
  | EvCloseTarget, Connected | EvCloseTarget, Relayed => Some Closed
  | _, _ => None
  end.

(** The phases in which a dialled connection is still open. *)
Definition holds_target (ph : gatewayPhase) : bool :=
  match ph with Connected | Relayed => true | _ => false end.

(** All of a conversation: it ends with no dialled connection left open. *)
Fixpoint obeys (ph : gatewayPhase) (tr : list sevent) : Prop :=
  match tr with
  | [] => holds_target ph = false
  | e :: tr => match lease_protocol ph e with Some ph' => obeys ph' tr | None => False end
  end.

(** Every conversation of a program obeys the protocol from a phase, and ends in
    a phase and with a value that satisfy [Q]. *)
Fixpoint keeps (ph : gatewayPhase) {A} (p : serving A) (Q : gatewayPhase -> A -> Prop) : Prop :=
  match p with
  | Ret a => Q ph a
  | Op o k => forall r, exists ph', lease_protocol ph (sevent_of o r) = Some ph' /\ keeps ph' (k r) Q
  end.

(** With nothing left open. *)
Definition released {A} : gatewayPhase -> A -> Prop := fun ph _ => holds_target ph = false.

Lemma keeps_obeys {A} (p : serving A) : forall ph tr a, keeps ph p released -> converses p tr a -> obeys ph tr.
Proof.
  induction p as [a'|R o k IH]; intros ph tr a Hk Hc; simpl in *; [by destruct Hc as [-> _]|].
  destruct Hc as (r & tr' & -> & Hc). destruct (Hk r) as (ph' & Hm & Hk'). cbn. rewrite Hm. by eapply IH.
Qed.

Lemma keeps_bind ph {A B} (p : serving A) (f : A -> serving B) Q Q' :
  keeps ph p Q -> (forall ph' a, Q ph' a -> keeps ph' (f a) Q') -> keeps ph (p ≫= f) Q'.
Proof.
  revert ph. induction p as [a|R o k IH]; intros ph Hk Hf; simpl in *; [by apply Hf|].
  intros r. destruct (Hk r) as (ph' & Hm & Hk'). exists ph'. split; [done|]. by apply IH.
Qed.

Lemma keeps_weaken ph {A} (p : serving A) (Q Q' : gatewayPhase -> A -> Prop) :
  keeps ph p Q -> (forall ph' a, Q ph' a -> Q' ph' a) -> keeps ph p Q'.
Proof.
  revert ph. induction p as [a|R o k IH]; intros ph Hk Hq; simpl in *; [by apply Hq|].
  intros r. destruct (Hk r) as (ph' & Hm & Hk'). exists ph'. split; [done|]. by eapply IH.
Qed.

Lemma keeps_sread ph {A} n (k : string -> serving (result string A)) Q :
  (forall e, Q ph (Err e)) -> (forall b, keeps ph (k b) Q) -> keeps ph (sread n k) Q.
Proof. intros He Hk [b|e]; exists ph; (split; [done|]); [apply Hk|apply He]. Qed.

Lemma keeps_swrite ph {A} b (k : serving (result string A)) Q :
  (forall e, Q ph (Err e)) -> keeps ph k Q -> keeps ph (swrite b k) Q.
Proof. intros He Hk [e|]; exists ph; (split; [done|]); [apply He|apply Hk]. Qed.

Lemma keeps_rread ph {A} prefix n (k : string -> serving (result (string * bool) A)) Q :
  (forall e, Q ph (Err e)) -> (forall b, keeps ph (k b) Q) -> keeps ph (rread prefix n k) Q.
Proof. intros He Hk [b|e]; exists ph; (split; [done|]); [apply Hk|apply He]. Qed.

(** Parsing reads and decides nothing. *)
Definition same_phase {A} (ph : gatewayPhase) : gatewayPhase -> A -> Prop := fun ph' _ => ph' = ph.

Ltac keeps_io :=
  repeat first
    [ apply keeps_sread; [done|intros ?]
    | apply keeps_rread; [done|intros ?]
    | apply keeps_swrite; [done|]
    | case_match
    | reflexivity ].

Lemma ParseMethodRequest_keeps ph : keeps ph ParseMethodRequest (same_phase ph).
Proof. unfold ParseMethodRequest. keeps_io. Qed.

Lemma ParseUserPassRequest_keeps ph : keeps ph ParseUserPassRequest (same_phase ph).
Proof. unfold ParseUserPassRequest. keeps_io. Qed.

Lemma ParseRequest_keeps ph : keeps ph ParseRequest (same_phase ph).
Proof. unfold ParseRequest. keeps_io. Qed.

(** Authentication ends with the credentials that were found valid, or fails. *)
Definition authenticated (ph : gatewayPhase) (r : result string (option (string * string))) : Prop :=
  match r with
  | Ok (Some (u, p)) => ph = Leased u p
  | Ok None => False
  | Err _ => holds_target ph = false
  end.

Lemma authenticate_keeps methods : keeps Anonymous (authenticate gatewayServer methods) authenticated.
Proof.
  unfold authenticate. case_match.
  - unfold Authenticate. cbn [sv_credentials gatewayServer]. apply keeps_swrite; [done|].
    eapply keeps_bind; [apply ParseUserPassRequest_keeps|]. intros ph [[u p]|e] Hph; red in Hph; subst ph; [|done].
    intros [|]; eexists; (split; [done|]).
    + by apply (keeps_swrite (Leased u p) (bytes [1; 0]%Z) (Ret (Ok (Some (u, p))))).
    + by apply (keeps_swrite Closed (bytes [1; 1]%Z) (Ret (Err "user authentication failed"))).
  - intros r. by exists Anonymous.
Qed.

Lemma refuse_keeps `{GoIP} {A} ph rep msg (Q : gatewayPhase -> result string A -> Prop) :
  (forall e, Q ph (Err e)) -> keeps ph (refuse rep msg) Q.
Proof. intros HQ r. exists ph. split; [done|]. apply HQ. Qed.

Lemma handleConnect_keeps `{GoIP} u p dest :
  keeps (Leased u p) (handleConnect (Some (u, p)) dest) released.
Proof.
  intros r. exists (match r with Ok _ => Connected | Err _ => Closed end).
  split; [cbn; by rewrite !String.eqb_refl|]. destruct r as [la|e].
  - intros [e|]; exists Connected; (split; [done|]).
    + intros []. by exists Closed.
    + intros r. exists Relayed. split; [done|]. intros []. by exists Closed.
  - intros w. by exists Closed.
Qed.

Lemma handleRequest_keeps `{GoIP} u p command raw :
  keeps (Leased u p) (handleRequest gatewayServer (Some (u, p)) command raw) released.
Proof.
  assert (Hp : forall dest, keeps (Leased u p)
    (if negb (Allow gatewayServer command) then refuse RepRuleFailure ("bind to " +:+ addrString dest +:+ " blocked by rules")
     else if (command =? CommandConnect)%Z then handleConnect (Some (u, p)) dest
     else if (command =? CommandBind)%Z then
       w ← do_op (SWrite (SendReply RepCommandNotSupported None));
       Ret (match w with Some e => Err ("failed to send reply: " +:+ e) | None => Ok tt end)
     else err ← do_op SAssociate; Ret (match err with Some e => Err e | None => Ok tt end)) released).
  { intros dest. unfold Allow. cbn [EnableConnect EnableBind EnableAssociate gatewayServer].
    destruct (command =? CommandConnect)%Z; [apply handleConnect_keeps|].
    destruct (command =? CommandBind)%Z; [by apply refuse_keeps|].
    destruct (command =? CommandAssociate)%Z; by apply refuse_keeps. }
  unfold handleRequest. cbn [sv_resolver gatewayServer]. destruct (String.eqb (FQDN raw) ""); apply Hp.
Qed.

Lemma ServeConn_keeps `{GoIP} : keeps Anonymous (ServeConn gatewayServer) released.
Proof.
  unfold ServeConn.
  eapply keeps_bind; [apply ParseMethodRequest_keeps|]. intros ph [[ver methods]|e] Hph; red in Hph; subst ph; [|done].
  case_match; [done|]. eapply keeps_bind; [apply authenticate_keeps|]. intros ph [[[u p]|]|e] Hph; [|done..].
  cbn in Hph. subst ph. unfold serveRequest. eapply keeps_bind; [apply ParseRequest_keeps|].
  intros ph [[command dest]|[e [|]]] Hph; red in Hph; subst ph.
  - case_match; [by apply refuse_keeps|apply handleRequest_keeps].
  - intros w. by eexists.
  - done.
Qed.

(** C7. The gateway obeys the lease.  In every conversation, whatever bytes the
    other end sends, whatever the credential check and the dial answer and
    whenever a read or write fails, the gateway's SOCKS5 server dials at most
    once, over TCP, with credentials that were found valid before on the same
    connection, relays only after that dial succeeded, closes the connection it
    dialled exactly once before the conversation is over, and never resolves a
    name or opens a UDP association itself. *)
Theorem gateway_obeys_lease `{GoIP} tr r :
  converses (ServeConn gatewayServer) tr r -> obeys Anonymous tr.
Proof. apply keeps_obeys, ServeConn_keeps. Qed.

(** ** A conversation over the controller's state *)

(** What the other end and the network contribute: what the [i]-th read, write,
    relay and association of a connection end with, and what a dial reports
    besides its success. *)
Record peer := mkPeer {
  pr_read : nat -> result string string;
  pr_write : nat -> option string;
  pr_relay : nat -> option string;
  pr_associate : nat -> option string;
  pr_lookup : nat -> result string string;
  pr_local : nat -> option (string * Z);
  pr_error : nat -> string;
}.

Section world.
Context `{GoHash}.
Variable pr : peer.

(** The [i]-th operation of the SOCKS5 server: the callbacks of the gateway
    ([proxyLeaseCredentials.Valid], [ProxyGateway.dial]) and the close of the
    connection it dialled act on the controller; [held] is that connection. *)
Definition on_op {R A} (o : sop R) (i : nat) (held : option releaseConn)
    (continue : R -> option releaseConn -> sys A) : sys A :=
  match o in sop R return (R -> option releaseConn -> sys A) -> sys A with
  | SRead _ => fun go => _ ← call OpWait; go (pr_read pr i) held
  | SWrite _ => fun go => _ ← call OpWait; go (pr_write pr i) held
  | SValid username password => fun go => ok ← validLease username password; go ok held
  | SLookup _ => fun go => _ ← call OpWait; go (pr_lookup pr i) held
  | SDial network address auth => fun go =>
      match auth with
      | None => go (Err (pr_error pr i)) held
      | Some (username, password) =>
          dialled ← dialLease username password network address;
          match dialled with
          | Ok c => go (Ok (pr_local pr i)) (Some c)
          | Err _ => go (Err (pr_error pr i)) held
          end
      end
  | SRelay => fun go => _ ← call OpWait; go (pr_relay pr i) held
  | SCloseTarget => fun go =>
      match held with
      | Some c => c' ← closeConn c; go tt (Some c')
      | None => go tt None
      end
  | SAssociate => fun go => _ ← call OpWait; go (pr_associate pr i) held
  end continue.

Fixpoint on_world {A} (p : serving A) (i : nat) (held : option releaseConn) : sys A :=
  match p with
  | Ret a => Ret a
  | Op o k => on_op o i held (fun r held' => on_world (k r) (S i) held')
  end.

(** A connection accepted by the gateway. *)
Definition serveSocks `{GoIP} : sys (result string unit) := on_world (ServeConn gatewayServer) 0 None.
End world.

(** The connection a conversation holds in a phase, and what it owes: before it
    dialled and after it closed, the counts are the ones of the start; in
    between, releasing its reservation makes them so. *)
Definition owing (base : gmap string Z) (c : releaseConn) (w : world) : Prop :=
  rc_once c = false /\ exists p, w_pools w !! acq_Pool (rc_acq c) = Some p /\
    in_flight <$> <[acq_Pool (rc_acq c) := release p]> (w_pools w) = base.

Definition accounted (base : gmap string Z) (ph : gatewayPhase) (held : option releaseConn) (w : world) : Prop :=
  if holds_target ph then exists c, held = Some c /\ owing base c w
  else in_flight <$> w_pools w = base.


Lemma accounted_pools base ph held w w' :
  accounted base ph held w -> w_pools w' = w_pools w -> accounted base ph held w'.
Proof. unfold accounted, owing. intros Ha ->. exact Ha. Qed.

Section balanced.
Context `{HA : GoHash, SC : SpawnerContract}.
Context (tid : nat) (pr : peer) (base : gmap string Z).
Context (Hbase : forall key n, base !! key = Some n -> (0 <= n < max_int64)%Z).

Lemma runs_wait w r w' : runs tid (call OpWait) w r w' -> w_pools w' = w_pools w.
Proof. intros (a & _ & He)%runs_call. by simplify_eq/=. Qed.

Lemma runs_validLease u pw w r w' : runs tid (validLease u pw) w r w' -> w_pools w' = w_pools w.
Proof.
  unfold validLease. intros Hr. rbind Hr lease w1 H1. apply runs_lookupLease in H1 as (now & _ & P & _).
  by destruct Hr as [_ ->].
Qed.

Lemma dial_accounted u pw network address w r w' :
  runs tid (dialLease u pw network address) w r w' -> in_flight <$> w_pools w = base ->
  match r with Ok c => owing base c w' | Err _ => in_flight <$> w_pools w' = base end.
Proof.
  intros Hr Hw. apply runs_dialLease in Hr.
  2: { intros key p t Hk Ht. apply (Hbase key). rewrite <- Hw, lookup_fmap, Hk. cbn. unfold in_flight. by rewrite Ht. }
  destruct r as [c|e]; [|destruct Hr as [P _]; congruence].
  destruct Hr as (now & rc & p & t & used & _ & (Hk & Ht & _) & Hb & -> & P & _).
  split; [done|]. exists (with_tunnel (Some (reserve used t)) p). cbn [rc_acq acq_Pool]. rewrite P. split; [apply lookup_insert_eq|].
  rewrite insert_insert_eq, release_reserve, fmap_insert, Hw by done. apply insert_id.
  rewrite <- Hw, lookup_fmap, Hk. cbn. unfold in_flight. cbn. by rewrite Ht.
Qed.

Lemma close_accounted c w r w' :
  runs tid (closeConn c) w r w' -> owing base c w -> in_flight <$> w_pools w' = base.
Proof.
  intros Hr (Hc & p & Hp & <-). unfold closeConn in Hr. rewrite Hc in Hr. rbind Hr u w1 H1. destruct Hr as [_ ->].
  by rewrite (proj1 (runs_Release _ _ _ _ _ _ Hp H1)).
Qed.

(** Whatever program obeys the lease leaves the counts as they were. *)
Lemma on_world_accounted {A} (p : serving A) : forall ph i held w a w',
  keeps ph p released -> accounted base ph held w -> runs tid (on_world pr p i held) w a w' ->
  in_flight <$> w_pools w' = base.
Proof.
  induction p as [a0|R o k IH]; intros ph i held w a w' Hk Ha Hr; cbn [on_world] in Hr.
  { destruct Hr as [_ ->]. cbn in Hk. unfold released in Hk. unfold accounted in Ha. by rewrite Hk in Ha. }
  assert (Hnext : forall r ph' held' w1, lease_protocol ph (sevent_of o r) = Some ph' ->
    accounted base ph' held' w1 -> runs tid (on_world pr (k r) (S i) held') w1 a w' -> in_flight <$> w_pools w' = base).
  { intros r ph' held' w1 Hp Ha' Hr'. destruct (Hk r) as (ph'' & Hp' & Hk'). rewrite Hp in Hp'. injection Hp' as <-.
    by eapply IH. }
  destruct o as [n|b|u pw|name|network address auth| | |]; cbn [on_op] in Hr.
  - rbind Hr x w1 H1. eapply Hnext; [done|by eapply accounted_pools, runs_wait|done].
  - rbind Hr x w1 H1. eapply Hnext; [done|by eapply accounted_pools, runs_wait|done].
  - rbind Hr ok w1 H1. apply runs_validLease in H1. destruct (Hk ok) as (ph' & Hp & _). pose proof Hp as Hp'.
    destruct ok, ph; try done; injection Hp as <-; (eapply Hnext; [exact Hp'| |done]);
      unfold accounted in *; cbn in *; congruence.
  - destruct (Hk (Err "")) as (ph' & Hp & _). by destruct ph.
  - destruct auth as [[u pw]|]; [|destruct (Hk (Err "")) as (ph' & Hp & _); by destruct ph].
    rbind Hr d w1 H1. destruct ph as [|u' p'| | |]; try (by destruct (Hk (Err "")) as (ph' & Hp & _)).
    apply dial_accounted in H1; [|exact Ha]. destruct d as [c|e].
    + destruct (Hk (Ok (pr_local pr i))) as (ph' & Hp & _). pose proof Hp as Hp'. cbn in Hp. case_match; [|done].
      injection Hp as <-. eapply Hnext; [exact Hp'| |exact Hr]. by exists c.
    + destruct (Hk (Err (pr_error pr i))) as (ph' & Hp & _). pose proof Hp as Hp'. cbn in Hp. case_match; [|done].
      injection Hp as <-. by eapply Hnext; [exact Hp'| |exact Hr].
  - rbind Hr x w1 H1. destruct (Hk (pr_relay pr i)) as (ph' & Hp & _). pose proof Hp as Hp'. destruct ph; try done.
    injection Hp as <-. eapply Hnext; [exact Hp'| |exact Hr]. by eapply (accounted_pools _ Relayed), runs_wait.
  - destruct (Hk tt) as (ph' & Hp & _). pose proof Hp as Hp'.
    destruct ph; try done; injection Hp as <-; destruct Ha as (c & -> & Ho);
      rbind Hr c' w1 H1; (eapply Hnext; [exact Hp'| |exact Hr]); by eapply close_accounted.
  - destruct (Hk None) as (ph' & Hp & _). by destruct ph.
Qed.
End balanced.

(** C8. No conversation leaks a reservation.  Whatever the client sends, the
    network does and the cell answers, a connection the gateway has accepted and
    served to its end, without another goroutine changing the pools in between,
    leaves every pool's count of requests in flight as it was.  (When the cell is
    replaced while the connection is open the release can hit its successor:
    [release_hits_replacement] of [Scenarios].) *)
Theorem conversation_balanced `{GoHash, SpawnerContract, GoIP} tid pr w r w' :
  runs tid (serveSocks pr) w r w' ->
  (forall key p, w_pools w !! key = Some p -> (0 <= in_flight p < max_int64)%Z) ->
  in_flight <$> w_pools w' = in_flight <$> w_pools w.
Proof.
  intros Hr Hb. eapply (on_world_accounted tid pr (in_flight <$> w_pools w)); [|apply ServeConn_keeps| |exact Hr]; [|done].
  intros key n Hn. rewrite lookup_fmap in Hn. apply fmap_Some in Hn as (p & Hp & ->). by eapply Hb.
Qed.

(** ** Concrete conversations *)
Module ConversationExamples.

#[local] Instance one_ip : GoIP := {| parse_ip := fun _ => None; ip_string := fun _ => "203.0.113.9" |}.

(** Answer the operations of a program from a list of events. *)
Definition sanswer_of {R} (o : sop R) : sevent -> option R :=
  match o in sop R return sevent -> option R with
  | SRead _ => fun e => match e with EvRead _ r => Some r | _ => None end
  | SWrite _ => fun e => match e with EvWrite _ r => Some r | _ => None end
  | SValid _ _ => fun e => match e with EvValid _ _ r => Some r | _ => None end
  | SLookup _ => fun e => match e with EvLookup _ r => Some r | _ => None end
  | SDial _ _ _ => fun e => match e with EvDial _ _ _ r => Some r | _ => None end
  | SRelay => fun e => match e with EvRelay r => Some r | _ => None end
  | SCloseTarget => fun e => match e with EvCloseTarget => Some tt | _ => None end
  | SAssociate => fun e => match e with EvAssociate r => Some r | _ => None end
  end.

Fixpoint sreplay {A} (p : serving A) (l : list sevent) : option (list sevent * A) :=
  match p with
  | Ret a => Some ([], a)
  | Op o k =>
      match l with
      | [] => None
      | e :: l =>
          match sanswer_of o e with
          | None => None
          | Some r => match sreplay (k r) l with Some (tr, a) => Some (sevent_of o r :: tr, a) | None => None end
          end
      end
  end.

Lemma sreplay_converses {A} (p : serving A) : forall l tr a, sreplay p l = Some (tr, a) -> converses p tr a.
Proof.
  induction p as [a'|R o k IH]; intros l tr a Hr; cbn in Hr; [by simplify_eq|].
  destruct l as [|e l]; [done|]. destruct (sanswer_of o e) as [r|]; [|done].
  destruct (sreplay (k r) l) as [[tr' a'']|] eqn:E; [|done]. simplify_eq. cbn. eauto.
Qed.

Definition got (l : list Z) : sevent := EvRead 0 (Ok (bytes l)).
Definition said (s : string) : sevent := EvRead 0 (Ok s).
Definition sent : sevent := EvWrite "" None.

(** A client that logs in and asks for a host whose dial ends as given. *)
Definition asks_for (host : string) (dial : result string (option (string * Z))) : list sevent :=
  [got [5]%Z; got [1]%Z; got [2]%Z; sent; got [1; 1]%Z; said "u"; got [1]%Z; said "p"; EvValid "" "" true; sent;
   got [5; 1]%Z; got [0; 3]%Z; got [Z.of_nat (String.length host)]%Z; said (host +:+ bytes [1; 187]%Z);
   EvDial "" "" None dial; sent; EvRelay None; EvCloseTarget].

Definition served (l : list sevent) : list sevent * result string unit :=
  default ([], Ok tt) (sreplay (ServeConn gatewayServer) l).

Definition good : list sevent := asks_for "example.com" (Ok (Some (bytes [10; 0; 0; 2]%Z, 40000%Z))).

Lemma good_converses : converses (ServeConn gatewayServer) (served good).1 (served good).2.
Proof. apply (sreplay_converses _ good). vm_compute. reflexivity. Qed.

Example good_dials :
  omap (fun e => match e with EvDial n a au _ => Some (n, a, au) | _ => None end) (served good).1
  = [("tcp", "example.com:443", Some ("u", "p"))].
Proof. vm_compute. reflexivity. Qed.

Lemma gateway_obeys_lease_witness : obeys Anonymous (served good).1.
Proof. exact (gateway_obeys_lease (served good).1 (served good).2 good_converses). Defined.

(** A failed dial is logged with the reason the message suggests, and the
    message holds the name the client asked for: a name with the letters EOF
    makes a failure of the relay look like a client that hung up. *)
Theorem eof_name_hides_failure :
  let entry host := (fun message => proxyGatewaySocksLogger (classifySOCKS5Failure message)) <$>
                    logged (served (asks_for host (Err "connection refused"))).2 in
  entry "example.com" = Some (Warn, "controller SOCKS5 relay failed") /\
  entry "EOF.example" = Some (Debug, "controller SOCKS5 client disconnected").
Proof. vm_compute. done. Qed.

(** So does a name the cell cannot resolve. *)
Definition served_by_cell (host : string) : result string unit :=
  default (Ok tt) (snd <$> sreplay (ServeConn cellServer)
    [got [5]%Z; got [1]%Z; got [0]%Z; sent; got [5; 1]%Z; got [0; 3]%Z; got [Z.of_nat (String.length host)]%Z;
     said (host +:+ bytes [1; 187]%Z); EvLookup "" (Err "no such host"); sent]).

Theorem eof_name_hides_cell_failure :
  let entry host := (fun message => cellSocksLogger (cellClassifySOCKS5Failure message)) <$> logged (served_by_cell host) in
  entry "example.com" = Some (Warn, "cell SOCKS5 request failed") /\
  entry "EOF.example" = Some (Debug, "cell SOCKS5 client disconnected").
Proof. vm_compute. done. Qed.

End ConversationExamples.
