(* ===== verification/Api.v ===== *)
(** * The control-plane API ([api.go], and the handlers of [cells.go])

    Each handler as a program from a request to a response.  A request carries
    what the handlers read of it: the [Authorization] and [Content-Type]
    headers, the bytes of the body, the query values and the path value. *)

From S2P Require Import Prelude GoStrings Json JsonStruct MediaType Types Config Pools PoolState Lease UrlParse Prog System Manager Cells.

Definition bearerScheme : string := "Bearer ".
Definition defaultProxyLimit : Z := 100.
Definition maxProxyLimit : Z := 1000.
Definition maxRequestBody : Z := 16 * 1024.

Record ProxyRequest := mkProxyRequest {
  rq_Country : string;
  rq_Pool : string;
  rq_ExcludeProxy : string;
  rq_FallbackOK : bool;
}.

Record httpRequest := mkHttpRequest {
  h_authorization : string;
  h_contentType : string;
  h_body : string;
  h_query : string -> string;
  h_containerID : string;
}.

Record page (T : Type) := mkPage {
  pg_items : list T;
  pg_limit : Z;
  pg_offset : Z;
  pg_total : Z;
}.
Arguments mkPage {T}. Arguments pg_items {T}. Arguments pg_limit {T}.
Arguments pg_offset {T}. Arguments pg_total {T}.

(** Responses: a status, with the payload of the successful ones. *)
Inductive payload :=
  | ErrorResponse
  | NoContent
  | ProxyBody (r : ProxyResponse)
  | PoolsBody (p : page PoolView)
  | ProxiesBody (p : page ProxyView)
  | CellsBody (p : page CellView)
  | CellBody (v : CellView).

Record response := mkResponse { r_status : Z; r_payload : payload }.

Definition writeError (status : Z) : response := mkResponse status ErrorResponse.

(** ** Pagination *)

(** [boundedQueryInt]. *)
Definition boundedQueryInt (query : string -> string) (name : string) (defaultValue maximum : Z) :
    option Z :=
  let raw := query name in
  if String.eqb raw "" then Some defaultValue else
  match atoi raw with
  | None => None
  | Some value =>
      if (value <? 0)%Z || ((0 <? maximum)%Z && (maximum <? value)%Z) ||
         (String.eqb name "limit" && (value =? 0)%Z) then None else Some value
  end.

(** [collectionPage]: limit and offset. *)
Definition collectionPage (query : string -> string) : option (Z * Z) :=
  limit ← boundedQueryInt query "limit" defaultProxyLimit maxProxyLimit;
  offset ← boundedQueryInt query "offset" 0 0;
  Some (limit, offset).

(** A slice expression [items[lo:hi]]; [None] where Go panics. *)
Definition slice {T} (items : list T) (lo hi : Z) : option (list T) :=
  if (0 <=? lo)%Z && (lo <=? hi)%Z && (hi <=? Z.of_nat (length items))%Z
  then Some (take (Z.to_nat hi - Z.to_nat lo) (drop (Z.to_nat lo) items)) else None.

(** [pageItems]: the page, the offset clamped to the end, and the total. *)
Definition pageItems {T} (items : list T) (limit offset : Z) : option (list T * Z * Z) :=
  let total := Z.of_nat (length items) in
  let offset := if (total <? offset)%Z then total else offset in
  page ← slice items offset (Z.min (wrap64 (offset + limit)) total);
  Some (page, offset, total).

(** The common tail of the collection handlers; a panic ends in a 500. *)
Definition pageResponse {T} (items : list T) (limit offset : Z) (body : page T -> payload) : response :=
  match pageItems items limit offset with
  | Some (page, offset, total) => mkResponse StatusOK (body (mkPage page limit offset total))
  | None => writeError StatusInternalServerError
  end.

(** ** Request checks *)

Definition proxyRequestFields : list (field ProxyRequest) := [
  string_field "country" (fun s r => mkProxyRequest s (rq_Pool r) (rq_ExcludeProxy r) (rq_FallbackOK r));
  string_field "pool" (fun s r => mkProxyRequest (rq_Country r) s (rq_ExcludeProxy r) (rq_FallbackOK r));
  string_field "excludeProxy" (fun s r => mkProxyRequest (rq_Country r) (rq_Pool r) s (rq_FallbackOK r));
  bool_field "fallbackOk" (fun b r => mkProxyRequest (rq_Country r) (rq_Pool r) (rq_ExcludeProxy r) b)].

(** The two calls of [Decode] on the body behind [MaxBytesReader]: a first value
    that is a request without unknown fields, then the end of the body, which
    a longer body does not reach. *)
Definition decodeBody (body : string) : option ProxyRequest :=
  let visible := string_take (Z.to_nat maxRequestBody) body in
  match decode_value visible with
  | None => None
  | Some (v, rest) =>
      match store_struct true proxyRequestFields v (mkProxyRequest "" "" "" false) with
      | None => None
      | Some request => if all_blank rest && String.eqb visible body then Some request else None
      end
  end.

(** [decodeProxyRequest]: the request, or the error status. *)
Definition decodeProxyRequest `{GoUnicode} (r : httpRequest) : result Z ProxyRequest :=
  if negb (hasJSONContentType (h_contentType r)) then Err StatusUnsupportedMediaType else
  match decodeBody (h_body r) with
  | None => Err StatusBadRequest
  | Some request =>
      let hasCountry := negb (String.eqb (trim_space (rq_Country request)) "") in
      let hasPool := negb (String.eqb (trim_space (rq_Pool request)) "") in
      if Bool.eqb hasCountry hasPool then Err StatusBadRequest else
      if hasCountry && negb (isCountryCode (rq_Country request)) then Err StatusBadRequest else
      Ok request
  end.

Lemma store_members_known {A} (fields : list (field A)) l : forall a b,
  store_members true fields l a = Some b -> Forall (fun m => is_Some (find_field fields m.1)) l.
Proof.
  induction l as [|[key v] l IH]; intros a b Hs; [done|]. cbn in Hs. destruct (find_field fields key) as [f|] eqn:Ef; [|done].
  destruct (fd_store f v a) as [a'|]; [|done]. constructor; [cbn; rewrite Ef; by eexists|by eapply IH].
Qed.

Lemma string_take_bound n s : String.length (string_take n s) <= n.
Proof. revert s. induction n as [|n IH]; intros [|c s]; cbn; try lia. specialize (IH s). lia. Qed.

(** An accepted body is one JSON object (or [null]) whose keys all name fields of
    the request, up to case, with nothing but white space around it, in at most
    16 KiB. *)
Lemma decodeBody_strict body request : decodeBody body = Some request ->
  (Z.of_nat (String.length body) <= maxRequestBody)%Z /\
  exists v rest, decode_value body = Some (v, rest) /\ all_blank rest = true /\
    (v = JNull \/ exists l, v = JObject l /\ Forall (fun m => is_Some (find_field proxyRequestFields m.1)) l).
Proof.
  unfold decodeBody. destruct (decode_value _) as [[v rest]|] eqn:Ev; [|done].
  destruct (store_struct _ _ _ _) as [q|] eqn:Es; [|done].
  destruct (_ && _) eqn:Hb; [|done]. intros _. apply andb_true_iff in Hb as [Hb Heq%String.eqb_eq]. rewrite Heq in Ev.
  split. { pose proof (string_take_bound (Z.to_nat maxRequestBody) body) as Hl. rewrite Heq in Hl. unfold maxRequestBody in *. lia. }
  exists v, rest. split_and!; [done..|]. destruct v; try done; [by left|]. right. eexists. split; [done|]. by eapply store_members_known.
Qed.

(** [writeAcquireError]. *)
Definition acquireErrorStatus (e : error) : Z :=
  if errors_is e ErrInvalidCountry || errors_is e ErrUnknownPool then StatusBadRequest
  else if errors_is e ErrPoolExhausted || errors_is e ErrPoolUnavailable
  then StatusServiceUnavailable
  else StatusInternalServerError.

Section api.
Context `{GoUnicode, GoHash, GoNetip, MapOrder}.
Variable m : Manager.

(** [authenticate], with the digest of the operator's token: [None] when the
    request may proceed. *)
Definition authenticate (tokenDigest : string) (r : httpRequest) : option response :=
  let '(token, ok) := cut_prefix (h_authorization r) bearerScheme in
  if negb ok || String.eqb token "" then Some (writeError StatusUnauthorized) else
  if negb (String.eqb tokenDigest (sha256 token)) then Some (writeError StatusUnauthorized)
  else None.

(** [parseExcludedProxy]. *)
Definition parseExcludedProxy (raw : string) : sys (option (option URL)) :=
  if String.eqb raw "" then Ret (Some None) else
  resolved ← ResolveExcludedProxy raw;
  Ret (match resolved with Ok u => Some u | Err _ => None end).

(** [APIServer.acquire]. *)
Definition apiAcquire (request : ProxyRequest) (excludeProxy : option URL) : sys (res Acquisition) :=
  if negb (String.eqb (rq_Pool request) "")
  then AcquireForPool m (rq_Pool request) excludeProxy (rq_FallbackOK request)
  else AcquireForCountry m (rq_Country request) excludeProxy (rq_FallbackOK request).

(** [handleProxy]. *)
Definition handleProxy (r : httpRequest) : sys response :=
  match decodeProxyRequest r with
  | Err status => Ret (writeError status)
  | Ok request =>
      excluded ← parseExcludedProxy (rq_ExcludeProxy request);
      match excluded with
      | None => Ret (writeError StatusBadRequest)
      | Some excludeProxy =>
          acquired ← apiAcquire request excludeProxy;
          match acquired with
          | Err e => Ret (writeError (acquireErrorStatus e))
          | Ok acq =>
              issued ← IssueLease acq;
              match issued with
              | Err _ =>
                  _ ← Release acq;
                  Ret (writeError StatusInternalServerError)
              | Ok lease =>
                  let t := acq_Tunnel acq in
                  let response := mkProxyResponse (Proxies lease) (acq_Pool acq)
                    (match t with Some t => ExitCountry t | None => "" end)
                    (match t with Some t => ExitIP t | None => "" end) (ExpiresAt lease) in
                  _ ← call (OpMetric (TunnelAcquireTotal (acq_Pool acq) metricOutcomeOK));
                  _ ← Release acq;
                  Ret (mkResponse StatusOK (ProxyBody response))
              end
          end
      end
  end.

(** [handlePools]. *)
Definition handlePools (r : httpRequest) : sys response :=
  match collectionPage (h_query r) with
  | None => Ret (writeError StatusBadRequest)
  | Some (limit, offset) =>
      views ← Views m; Ret (pageResponse views limit offset PoolsBody)
  end.

(** [handleProxies]. *)
Definition handleProxies (r : httpRequest) : sys response :=
  match collectionPage (h_query r) with
  | None => Ret (writeError StatusBadRequest)
  | Some (limit, offset) =>
      views ← ProxyViews; Ret (pageResponse views limit offset ProxiesBody)
  end.

(** [handleCells]. *)
Definition handleCells (r : httpRequest) : sys response :=
  match collectionPage (h_query r) with
  | None => Ret (writeError StatusBadRequest)
  | Some (limit, offset) =>
      cells ← CellViews m;
      Ret (match cells with
           | Err _ => writeError StatusInternalServerError
           | Ok cells => pageResponse cells limit offset CellsBody
           end)
  end.

(** [handleCell]. *)
Definition handleCell (r : httpRequest) : sys response :=
  let containerID := trim_space (h_containerID r) in
  if String.eqb containerID "" then Ret (writeError StatusBadRequest) else
  found ← CellByID m containerID;
  Ret (match found with
       | Err _ => writeError StatusInternalServerError
       | Ok None => writeError StatusNotFound
       | Ok (Some view) => mkResponse StatusOK (CellBody view)
       end).

(** [handleDeleteCell]. *)
Definition handleDeleteCell (r : httpRequest) : sys response :=
  let containerID := trim_space (h_containerID r) in
  if String.eqb containerID "" then Ret (writeError StatusBadRequest) else
  destroyed ← DestroyCell containerID;
  Ret (match destroyed with
       | Ok _ => mkResponse StatusNoContent NoContent
       | Err e => if errors_is e ErrNotFound then writeError StatusNotFound
                  else writeError StatusInternalServerError
       end).

(** The routes of [Register]; every one goes through [authenticate]. *)
Inductive route :=
  | PostProxies | GetProxies | GetPools | GetCells | GetCell | DeleteCell.

Definition routeHandler (rt : route) : httpRequest -> sys response :=
  match rt with
  | PostProxies => handleProxy
  | GetProxies => handleProxies
  | GetPools => handlePools
  | GetCells => handleCells
  | GetCell => handleCell
  | DeleteCell => handleDeleteCell
  end.

Definition serve (tokenDigest : string) (rt : route) (r : httpRequest) : sys response :=
  match authenticate tokenDigest r with
  | Some denied => Ret denied
  | None => routeHandler rt r
  end.
End api.

(** ** Authentication *)

Lemma serve_with_token `{GoUnicode, GoHash, GoNetip, MapOrder} m digest rt r token :
  h_authorization r = "Bearer " +:+ token -> token <> "" -> sha256 token = digest ->
  serve m digest rt r = routeHandler m rt r.
Proof.
  intros E Hne <-. unfold serve, authenticate, bearerScheme. rewrite E, cut_prefix_app.
  apply String.eqb_neq in Hne. rewrite Hne. by rewrite String.eqb_refl.
Qed.

(** C28. Nothing happens without the token: a request whose [Authorization]
    header is not [Bearer] followed by a non-empty token with the configured
    digest is answered 401 by every route, and no operation on the controller's
    state is performed; a request with such a token reaches its handler. *)
Theorem serve_requires_token `{GoUnicode, GoHash, GoNetip, MapOrder} m digest rt r :
  ((forall token, h_authorization r = "Bearer " +:+ token -> token = "" \/ sha256 token <> digest) ->
     serve m digest rt r = Ret (writeError StatusUnauthorized)) /\
  (forall token, h_authorization r = "Bearer " +:+ token -> token <> "" -> sha256 token = digest ->
     serve m digest rt r = routeHandler m rt r).
Proof.
  split; [|by apply serve_with_token].
  unfold serve, authenticate, bearerScheme. intros Hno. destruct (cut_prefix (h_authorization r) "Bearer ") as [token [|]] eqn:Hp; [|done].
  unfold cut_prefix in Hp. destruct (has_prefix _ _) eqn:E in Hp; [|done].
  apply has_prefix_spec in E as [token' E]. rewrite E, string_drop_app in Hp. injection Hp as <-.
  destruct (Hno token' E) as [->|Hd]; [done|].
  destruct (String.eqb_spec token' ""); [done|]. simpl.
  by destruct (String.eqb_spec digest (sha256 token')).
Qed.

(** ** Pagination *)

Lemma collectionPage_bounds query limit offset :
  collectionPage query = Some (limit, offset) ->
  (1 <= limit <= maxProxyLimit)%Z /\ (0 <= offset <= max_int64)%Z.
Proof.
  unfold collectionPage. intros Hc.
  assert (forall name d mx v, boundedQueryInt query name d mx = Some v ->
    v = d \/ ((0 <= v <= max_int64)%Z /\ ((0 < mx)%Z -> (v <= mx)%Z) /\ (name = "limit" -> v <> 0%Z))) as Hb.
  { intros name d mx v. unfold boundedQueryInt. case_match; [by intros [= ->]; left|].
    destruct (atoi (query name)) as [z|] eqn:Ha; [|done].
    destruct (_ || _ || _) eqn:E; [done|]. intros [= <-]. right.
    rewrite !orb_false_iff, !andb_false_iff, String.eqb_neq in E.
    apply atoi_range in Ha.
    split_and!; [lia|lia|lia|]. intros ->. destruct E as [_ [?|?]]; [done|lia]. }
  destruct (boundedQueryInt query "limit" defaultProxyLimit maxProxyLimit) as [l|] eqn:Hl; [|done].
  destruct (boundedQueryInt query "offset" 0 0) as [o|] eqn:Ho; [|done].
  simpl in Hc. simplify_eq. apply Hb in Hl, Ho.
  unfold defaultProxyLimit, maxProxyLimit, max_int64 in *. split.
  - destruct Hl as [->|(? & ? & ?)]; [lia|]. specialize (H0 ltac:(lia)). specialize (H1 eq_refl). lia.
  - destruct Ho as [->|[? _]]; lia.
Qed.

(** C29. Pagination is total and exact: for every accepted query and every
    collection of fewer than [2^62] items, the handler's slice expression is in
    bounds (it cannot panic, and the sum of offset and limit does not overflow),
    and the page is the [limit] items from the offset on, where an offset past
    the end becomes the total. *)
Theorem pageItems_correct {T} (query : string -> string) limit offset (items : list T) :
  collectionPage query = Some (limit, offset) ->
  (Z.of_nat (length items) < 2 ^ 62)%Z ->
  pageItems items limit offset =
  Some (take (Z.to_nat limit) (drop (Z.to_nat offset) items),
        Z.min offset (Z.of_nat (length items)), Z.of_nat (length items)).
Proof.
  intros [Hl Ho]%collectionPage_bounds Hn. unfold pageItems, maxProxyLimit in *.
  set (n := Z.of_nat (length items)) in *.
  assert ((if (n <? offset)%Z then n else offset) = Z.min offset n) as ->
    by (destruct (Z.ltb_spec n offset); lia).
  rewrite wrap64_id by (unfold min_int64, max_int64; lia).
  unfold slice. replace ((0 <=? Z.min offset n)%Z && _ && _) with true.
  2: { symmetry. rewrite !andb_true_iff, !Z.leb_le. lia. }
  cbn [mbind option_bind]. do 3 f_equal.
  destruct (Z.le_gt_cases offset n).
  - rewrite (Z.min_l offset n) by lia. destruct (Z.le_gt_cases (offset + limit) n).
    + rewrite Z.min_l by lia. f_equal. lia.
    + rewrite Z.min_r by lia. rewrite !take_ge; [done| |]; rewrite length_drop; lia.
  - rewrite (Z.min_r offset n) by lia. rewrite Z.min_r by lia.
    rewrite !drop_ge by lia. by rewrite !take_nil.
Qed.

Module ApiExamples.

(** Bodies as they arrive. *)
Definition body (l : list (string * json)) : string := marshal (JObject l).

Example unknown_field_refused : decodeBody (body [("pool", JString "us"); ("poool", JString "us")]) = None.
Proof. vm_compute. reflexivity. Qed.
Example second_value_refused : decodeBody (body [("pool", JString "us")] +:+ body []) = None.
Proof. vm_compute. reflexivity. Qed.
Example wrong_type_refused : decodeBody (body [("fallbackOk", JString "true")]) = None.
Proof. vm_compute. reflexivity. Qed.

(** The shape is not quite strict: keys match up to case, and of a key that
    occurs twice the last value counts. *)
Theorem request_shape_not_strict :
  decodeBody (body [("POOL", JString "us")]) = decodeBody (body [("pool", JString "us")]) /\
  decodeBody (body [("pool", JString "us"); ("Pool", JString "de")]) = Some (mkProxyRequest "" "de" "" false).
Proof. vm_compute. done. Qed.
Definition query (name : string) : string :=
  if String.eqb name "limit" then "2" else if String.eqb name "offset" then "1" else "".

Lemma pageItems_correct_witness :
  pageItems [10; 20; 30; 40] 2 1 = Some ([20; 30], 1%Z, 4%Z).
Proof. exact (pageItems_correct query 2 1 [10; 20; 30; 40] eq_refl eq_refl). Defined.
End ApiExamples.
