(* ===== verification/Wire.v ===== *)
(** * The bodies the components exchange

    What the control-plane API writes for each of its responses
    ([aichteeteapee.WriteJSON], with the tags of [types.go] and [cells.go]), and
    the status of a cell on its way to the controller ([cellproxy/proxy.go],
    [recorder.go]). *)

From S2P Require Import Prelude GoStrings Utf8 HostPort Json JsonStruct Float64 GoTime MediaType Types Cells Api.

(** A struct, member by member; a member that cannot be encoded fails the
    whole. *)
Definition object (members : list (option (list (string * json)))) : option json :=
  ls ← mapM id members; Some (JObject (concat ls)).
Definition always (m : list (string * json)) : option (list (string * json)) := Some m.

(** ** The status of a cell *)

Definition destStatJSON (d : DestStat) : json :=
  JObject (member_string "destination" (Destination d) ++ member_int "requests" (Requests d) ++
           member_int "bytesUp" (BytesUp d) ++ member_int "bytesDown" (BytesDown d) ++ member_int "active" (Active d)).

Definition statsJSON (s : Stats) : json :=
  JObject (member_int "requests" (st_Requests s) ++ member_int "bytesUp" (st_BytesUp s) ++
           member_int "bytesDown" (st_BytesDown s) ++ member_int "active" (st_Active s) ++
           member_int "dialFailures" (st_DialFailures s) ++
           member "destinations" (JArray (map destStatJSON (st_Destinations s)))).

Definition statusJSON `{GoFloatText} (s : Status) : option json :=
  object [always (member_string "cellId" (CellID s)); always (member_string_omitempty "parentId" (ParentID s));
          always (member_string "startedAt" (StartedAt s));
          member "uptimeSeconds" <$> json_float (UptimeSeconds s);
          always (member "traffic" (statsJSON (Traffic s)))].

Definition destStatFields : list (field DestStat) := [
  string_field "destination" (fun x d => mkDestStat x (Requests d) (BytesUp d) (BytesDown d) (Active d));
  int64_field "requests" (fun x d => mkDestStat (Destination d) x (BytesUp d) (BytesDown d) (Active d));
  int64_field "bytesUp" (fun x d => mkDestStat (Destination d) (Requests d) x (BytesDown d) (Active d));
  int64_field "bytesDown" (fun x d => mkDestStat (Destination d) (Requests d) (BytesUp d) x (Active d));
  int64_field "active" (fun x d => mkDestStat (Destination d) (Requests d) (BytesUp d) (BytesDown d) x)].
Definition zeroDestStat : DestStat := mkDestStat "" 0 0 0 0.

Definition statsFields : list (field Stats) := [
  int64_field "requests" (fun x s => mkStats x (st_BytesUp s) (st_BytesDown s) (st_Active s) (st_DialFailures s) (st_Destinations s));
  int64_field "bytesUp" (fun x s => mkStats (st_Requests s) x (st_BytesDown s) (st_Active s) (st_DialFailures s) (st_Destinations s));
  int64_field "bytesDown" (fun x s => mkStats (st_Requests s) (st_BytesUp s) x (st_Active s) (st_DialFailures s) (st_Destinations s));
  int64_field "active" (fun x s => mkStats (st_Requests s) (st_BytesUp s) (st_BytesDown s) x (st_DialFailures s) (st_Destinations s));
  int64_field "dialFailures" (fun x s => mkStats (st_Requests s) (st_BytesUp s) (st_BytesDown s) (st_Active s) x (st_Destinations s));
  slice_field false "destinations" destStatFields zeroDestStat st_Destinations
    (fun x s => mkStats (st_Requests s) (st_BytesUp s) (st_BytesDown s) (st_Active s) (st_DialFailures s) x)].
Definition zeroStats : Stats := mkStats 0 0 0 0 0 [].

Definition statusFields : list (field Status) := [
  string_field "cellId" (fun x s => mkStatus x (ParentID s) (StartedAt s) (UptimeSeconds s) (Traffic s));
  string_field "parentId" (fun x s => mkStatus (CellID s) x (StartedAt s) (UptimeSeconds s) (Traffic s));
  string_field "startedAt" (fun x s => mkStatus (CellID s) (ParentID s) x (UptimeSeconds s) (Traffic s));
  float_field "uptimeSeconds" (fun x s => mkStatus (CellID s) (ParentID s) (StartedAt s) x (Traffic s));
  struct_field false "traffic" statsFields Traffic
    (fun x s => mkStatus (CellID s) (ParentID s) (StartedAt s) (UptimeSeconds s) x)].
Definition zeroStatus : Status := mkStatus "" "" "" fzero zeroStats.

(** [json.NewEncoder(w).Encode(status)]; nothing is written when it fails. *)
Definition encodeStatus `{GoFloatText} (s : Status) : string :=
  match statusJSON s with Some v => encode_line v | None => "" end.

(** [json.NewDecoder(body).Decode(&status)]: the first value of the body. *)
Definition decodeStatus (body : string) : option Status :=
  match decode_value body with
  | Some (v, _) => store_struct false statusFields v zeroStatus
  | None => None
  end.

(** ** The responses of the API *)

(** The code and the message of the error the handlers write with a status. *)
Definition errorEnvelope (status : Z) : string * string :=
  if (status =? StatusUnauthorized)%Z then ("UNAUTHORIZED", "Unauthorized")
  else if (status =? StatusUnsupportedMediaType)%Z then ("UNSUPPORTED_CONTENT_TYPE", "Unsupported content type")
  else if (status =? StatusBadRequest)%Z then ("VALIDATION_FAILED", "Validation failed")
  else if (status =? StatusNotFound)%Z then ("NOT_FOUND", "Not found")
  else if (status =? StatusServiceUnavailable)%Z then ("SERVICE_UNAVAILABLE", "Service unavailable")
  else ("INTERNAL_SERVER_ERROR", "Internal server error").

Definition stateText (s : TunnelState) : string :=
  match s with
  | TunnelStateSpawning => "spawning"
  | TunnelStateHot => "hot"
  | TunnelStateUnhealthy => "unhealthy"
  | TunnelStateReaping => "reaping"
  end.

Section bodies.
Context `{GoFloatText, GoZone}.
(** [error.Error]. *)
Variable error_text : error -> string.

Definition member_time (name : string) (t : Z) : option (list (string * json)) :=
  (fun text => [(name, JString text)]) <$> rfc3339 t.
(** [omitzero]. *)
Definition member_time_omitzero (name : string) (t : Z) : option (list (string * json)) :=
  if (t =? time_zero)%Z then Some [] else member_time name t.
Definition member_seconds (name : string) (d : Z) : option (list (string * json)) :=
  member name <$> json_float (duration_seconds d).

Definition errorJSON (status : Z) : json :=
  JObject (member_string_omitempty "code" (errorEnvelope status).1 ++
           member_string_omitempty "message" (errorEnvelope status).2).

Definition proxyURLsJSON (p : ProxyURLs) : json :=
  JObject (member_string "socks5" (SOCKS5 p) ++ member_string "http" (HTTP p)).

Definition proxyResponseJSON (r : ProxyResponse) : option json :=
  object [always (member "proxies" (proxyURLsJSON (rsp_Proxies r))); always (member_string "pool" (rsp_Pool r));
          always (member_string "exitCountry" (rsp_ExitCountry r));
          always (member_string_omitempty "exitIP" (rsp_ExitIP r)); member_time "expiresAt" (rsp_ExpiresAt r)].

Definition tunnelViewJSON (t : TunnelView) : option json :=
  object [always (member_string "confName" (tv_ConfName t));
          always (member_string_omitempty "proxyUrl" (tv_ProxyURL t)); always (member_string "state" (stateText (tv_State t)));
          always (member_string "exitCountry" (tv_ExitCountry t));
          always (member_string_omitempty "exitIP" (tv_ExitIP t)); member_time "spawnedAt" (tv_SpawnedAt t);
          member_time_omitzero "healthyAt" (tv_HealthyAt t); member_time_omitzero "lastUsedAt" (tv_LastUsedAt t);
          member_seconds "idleSeconds" (tv_IdleSeconds t)].

Definition poolViewJSON (p : PoolView) : option json :=
  object [always (member_string "name" (pv_Name p)); always (member_string "region" (pv_Region p));
          match pv_Tunnel p with None => Some [] | Some t => member "tunnel" <$> tunnelViewJSON t end;
          always (member_string_omitempty "fallbackPool" (pv_FallbackPool p));
          always (member_int "confCount" (Z.of_nat (pv_ConfCount p)));
          always (member_int "recentlyFailed" (Z.of_nat (pv_RecentlyFailed p)))].

Definition proxyViewJSON (x : ProxyView) : option json :=
  object [always (member_string "pool" (xv_Pool x)); always (member_string "confName" (xv_ConfName x));
          always (member_string "state" (stateText (xv_State x)));
          always (member_string "exitCountry" (xv_ExitCountry x));
          always (member_string_omitempty "exitIP" (xv_ExitIP x)); member_time "spawnedAt" (xv_SpawnedAt x);
          member_time_omitzero "healthyAt" (xv_HealthyAt x); member_time_omitzero "lastUsedAt" (xv_LastUsedAt x);
          always (member_string_omitempty "lastURL" (xv_LastURL x));
          member_time_omitzero "lastURLExpiresAt" (xv_LastURLExpiresAt x);
          member_seconds "idleSeconds" (xv_IdleSeconds x)].

Definition cellViewJSON (v : CellView) : option json :=
  object [always (member_string "containerId" (cv_ContainerID v));
          always (member_string_omitempty "parentId" (cv_ParentID v)); always (member_string "pool" (cv_Pool v));
          always (member_string "confName" (cv_ConfName v)); always (member_string "state" (cv_State v));
          always (member_string_omitempty "exitCountry" (cv_ExitCountry v)); member_time "createdAt" (cv_CreatedAt v);
          (if is_fzero (cv_UptimeSeconds v) then Some [] else member "uptimeSeconds" <$> json_float (cv_UptimeSeconds v));
          always (match cv_Traffic v with None => [] | Some s => member "traffic" (statsJSON s) end);
          always (match cv_StatusError v with None => [] | Some e => member_string_omitempty "statusError" (error_text e) end)].

Definition pageJSON {T} (name : string) (item : T -> option json) (p : page T) : option json :=
  items ← mapM item (pg_items p);
  Some (JObject (member name (JArray items) ++ member_int "limit" (pg_limit p) ++
                 member_int "offset" (pg_offset p) ++ member_int "total" (pg_total p))).

Definition payloadJSON (r : response) : option json :=
  match r_payload r with
  | ErrorResponse => Some (errorJSON (r_status r))
  | NoContent => None
  | ProxyBody b => proxyResponseJSON b
  | PoolsBody p => pageJSON "pools" poolViewJSON p
  | ProxiesBody p => pageJSON "proxies" proxyViewJSON p
  | CellsBody p => pageJSON "cells" cellViewJSON p
  | CellBody v => cellViewJSON v
  end.

(** [WriteJSON]: the status, and the body as the other end reads it; a value
    that cannot be encoded leaves the body empty. *)
Definition WriteJSON (r : response) : Z * string :=
  (r_status r, match payloadJSON r with Some v => encode_indented v | None => "" end).
End bodies.

(** ** The status reads back *)

(** A status as a text carries it. *)
Definition validDest (d : DestStat) : DestStat :=
  mkDestStat (to_valid (Destination d)) (Requests d) (BytesUp d) (BytesDown d) (Active d).
Definition validStats (s : Stats) : Stats :=
  mkStats (st_Requests s) (st_BytesUp s) (st_BytesDown s) (st_Active s) (st_DialFailures s) (map validDest (st_Destinations s)).
Definition validStatus (s : Status) : Status :=
  mkStatus (to_valid (CellID s)) (to_valid (ParentID s)) (to_valid (StartedAt s)) (UptimeSeconds s) (validStats (Traffic s)).

Definition int64 (z : Z) : Prop := (min_int64 <= z <= max_int64)%Z.
Definition destInt64 (d : DestStat) : Prop := int64 (Requests d) /\ int64 (BytesUp d) /\ int64 (BytesDown d) /\ int64 (Active d).
Definition statsInt64 (s : Stats) : Prop :=
  int64 (st_Requests s) /\ int64 (st_BytesUp s) /\ int64 (st_BytesDown s) /\ int64 (st_Active s) /\
  int64 (st_DialFailures s) /\ Forall destInt64 (st_Destinations s).

(** Names of members are their own texts. *)
Ltac names := repeat match goal with
  |- context [to_valid (String ?c ?s)] => replace (to_valid (String c s)) with (String c s) by (vm_compute; reflexivity) end.

(** Storing a member whose key is the name of a field. *)
Lemma store_member {A} strict (fields : list (field A)) f key v l a :
  find_field fields key = Some f ->
  store_members strict fields ((key, v) :: l) a =
    match fd_store f v a with Some a => store_members strict fields l a | None => None end.
Proof. cbn. by intros ->. Qed.

Lemma store_unknown {A} (fields : list (field A)) key v l a :
  find_field fields key = None -> store_members false fields ((key, v) :: l) a = store_members false fields l a.
Proof. cbn. by intros ->. Qed.

Ltac store := repeat (erewrite store_member by reflexivity; cbn [fd_store string_field int64_field bool_field float_field struct_field slice_field];
  rewrite ?atoi_itoa_int64 by assumption).

Lemma store_destStat d : destInt64 d ->
  store_struct false destStatFields (sanitize (destStatJSON d)) zeroDestStat = Some (validDest d).
Proof.
  intros (H1 & H2 & H3 & H4). unfold destStatJSON, member_string, member_int. cbn [app sanitize map fst snd store_struct]. names.
  store. done.
Qed.

Lemma store_destStats l : Forall destInt64 l ->
  store_elems false destStatFields zeroDestStat (map sanitize (map destStatJSON l)) [] = Some (map validDest l).
Proof.
  induction 1 as [|d l Hd Hl IH]; [done|]. cbn [map store_elems List.head default List.tl].
  rewrite (store_destStat d Hd). cbn [List.tl] in *. by rewrite IH.
Qed.

Lemma store_stats s : statsInt64 s ->
  store_struct false statsFields (sanitize (statsJSON s)) zeroStats = Some (validStats s).
Proof.
  intros (H1 & H2 & H3 & H4 & H5 & H6). unfold statsJSON, member_int, member. cbn [app sanitize map fst snd store_struct]. names.
  store. cbn [zeroStats st_Destinations]. rewrite (store_destStats _ H6). done.
Qed.

(** The number reads back: the text is a literal, and its value rounds to it. *)
Definition reads_float `{GoFloatText} (f : float64) : Prop :=
  exists q, f = Finite q /\ number_ok (float_text q) /\ parse_float (float_text q) = Some f.

Lemma member_omitempty_printable d name s : Forall (fun m => printable d m.2) (member_string_omitempty name s).
Proof. unfold member_string_omitempty. destruct (String.eqb s ""); by repeat constructor. Qed.

Lemma destStat_printable d x : (0 < d)%Z -> printable d (destStatJSON x).
Proof. intros Hd. apply printable_object; [done|]. repeat constructor; apply number_itoa. Qed.

Lemma stats_printable d s : (2 < d)%Z -> printable d (statsJSON s).
Proof.
  intros Hd. apply printable_object; [lia|]. repeat constructor; try apply number_itoa; [lia|].
  apply printable_array; [lia|]. apply Forall_map, Forall_true. intros x. cbn. apply destStat_printable. lia.
Qed.

Lemma decodeStatus_encode `{GoFloatText} s : statsInt64 (Traffic s) -> reads_float (UptimeSeconds s) ->
  decodeStatus (encodeStatus s) = Some (validStatus s).
Proof.
  intros Hs (q & Hq & Hn & Hp). unfold decodeStatus, encodeStatus, statusJSON, object, json_float. rewrite Hq.
  cbn [fmap option_fmap option_map mapM mbind option_bind id always mret option_ret concat]. unfold encode_line. rewrite decode_print.
  2: { apply printable_object; [done|]. rewrite !Forall_app. split_and!; try apply member_omitempty_printable;
       repeat apply Forall_cons_2; try apply Forall_nil_2; try exact I; [exact Hn|]. by apply stats_printable. }
  2: { done. }
  cbn [sanitize store_struct]. rewrite !map_app. cbn [map fst snd member member_string sanitize]. names. cbn [app]. store.
  unfold member_string_omitempty, validStatus. unfold statusFields.
  destruct (String.eqb_spec (ParentID s) "") as [He|Hne]; [rewrite He|]; cbn [map fst snd app sanitize]; names; store;
    rewrite Hp; store; cbn [Traffic zeroStatus]; rewrite (store_stats _ Hs); done.
Qed.
