(* ===== verification/Invariant.v ===== *)
(** * The controller's invariant

    The goroutines of the controller ([handler]: API requests, proxied
    connections, reaper passes, failure reports, shutdown) interleave their
    operations arbitrarily.  This file proves what holds of the shared state at
    every moment, and derives it for each handler from the critical sections'
    lemmas. *)

From S2P Require Import Prelude GoStrings Encoding UrlParse Types Config Routing PoolState Lease Prog System.
From S2P Require Import Socks Manager Reaper Cells Conversation Gateway Api.

Section invariant.
Context `{UC : GoUnicode, HA : GoHash, NI : GoNetip, MO : MapOrder, SC : SpawnerContract}.
Variable m : Manager.
Variable tokenDigest : string.

(** ** The goroutines

    A SOCKS5 connection appears twice: as any program of the SOCKS5 library over
    the gateway's callbacks, and as the dial and the relay alone. *)

Inductive handler : sys unit -> Prop :=
  | HServe rt r : handler (_ ← serve m tokenDigest rt r; Ret tt)
  | HSocks auth network address extra : handler (_ ← socksConnection auth network address extra; Ret tt)
  | HConversation A (pr : peer) (p : serving A) : handler (_ ← on_world pr p 0 None; Ret tt)
  | HCredentials username password : handler (_ ← validLease username password; Ret tt)
  | HHttp h authorization request : handler (_ ← handle h authorization request; Ret tt)
  | HIdle : handler (reapIdle m)
  | HHealth : handler (checkHealth m)
  | HOrphans : handler (_ ← reapOrphans; Ret tt)
  | HMarkFailed poolName confName : handler (MarkFailed poolName confName)
  | HClose : handler Close.

(** ** The invariant *)

(** A record of the lease registry names a configured pool, a cell and where
    to reach it. *)
Definition lease_wf (r : proxyLeaseRecord) : Prop :=
  lr_Pool r ∈ dom (m_specs m) /\ lr_ContainerID r <> "" /\ is_Some (lr_InternalURL r) /\
  lr_GatewayAddr r <> "".

(** The bounds on reservations hold as long as fewer than [2^63] operations
    were performed. *)
Record world_wf (w : world) : Prop := {
  ww_specs : Spec <$> w_pools w = m_specs m;
  ww_pools : (Z.of_nat (w_tick w) <= max_int64)%Z ->
    forall key p, w_pools w !! key = Some p -> pool_wf (Z.of_nat (w_tick w)) p;
  ww_leases : forall id r, lg_leases (w_leases w) !! id = Some r -> lease_wf r;
}.

Definition ref_ok (st : poolRef) : Prop := m_specs m !! ref_key st = Some (ref_Spec st).

Definition acq_ok (acq : Acquisition) : Prop := acq_Pool acq ∈ dom (m_specs m).

(** *** Operations outside the mutexes *)

Definition quiet {R} (o : op R) : Prop :=
  match o with OpPool _ _ | OpLeases _ => False | _ => True end.

Lemma quiet_step tid {R} (o : op R) w r w' :
  quiet o -> op_step tid o w r w' ->
  w_pools w' = w_pools w /\ w_leases w' = w_leases w /\ w_tick w' = S (w_tick w).
Proof. intros Hq (a & _ & He). destruct o; simpl in *; try done; repeat case_match; by simplify_eq. Qed.

Lemma world_wf_quiet w w' :
  w_pools w' = w_pools w -> w_leases w' = w_leases w -> w_tick w' = S (w_tick w) ->
  world_wf w -> world_wf w'.
Proof.
  intros Hp Hl Ht [H1 H2 H3]. constructor; rewrite ?Hp, ?Hl, ?Ht; try done.
  intros Hb key p Hk. apply (pool_wf_mono (Z.of_nat (w_tick w))); [lia|].
  apply (H2 ltac:(lia) key p Hk).
Qed.

Lemma safe_quiet {R} (o : op R) (Q : R -> Prop) :
  quiet o -> (forall tid w r w', world_wf w -> op_step tid o w r w' -> Q r) ->
  safe world_wf Q (call o).
Proof.
  intros Hq HQ. apply safe_op. intros tid w r w' Hw Hs. split; [|by eapply HQ].
  destruct (quiet_step _ _ _ _ _ Hq Hs) as (? & ? & ?). by eapply world_wf_quiet.
Qed.

Lemma safe_quiet_any {R} (o : op R) : quiet o -> safe world_wf (fun _ => True) (call o).
Proof. intros. by apply safe_quiet. Qed.

Lemma safe_getPool name :
  safe world_wf (fun st => match st with
                           | Some st => ref_ok st /\ ref_key st = name
                           | None => m_specs m !! name = None
                           end) (getPool name).
Proof.
  unfold getPool. eapply safe_bind.
  - apply (safe_quiet _ (fun spec => spec = m_specs m !! name)); [done|].
    intros tid w r w' [Hs _ _] (a & _ & He). simpl in He. simplify_eq.
    by rewrite <- Hs, lookup_fmap.
  - intros spec ->. simpl. unfold ref_ok. destruct (m_specs m !! name) eqn:E; simpl; [|done].
    done.
Qed.

Lemma safe_allPools : safe world_wf (Forall ref_ok) allPools.
Proof.
  unfold allPools. eapply safe_bind.
  - apply (safe_quiet _ (fun pools => pools = m_specs m)); [done|].
    intros tid w r w' [Hs _ _] (a & _ & He). simpl in He. by simplify_eq.
  - intros pools ->. simpl. apply Forall_forall. intros st Hst.
    change (map ?f ?l) with (f <$> l) in Hst.
    apply list_elem_of_fmap in Hst as ([k spec] & -> & Hin). by apply elem_of_range in Hin.
Qed.

(** *** Critical sections *)

(** A section that keeps a pool well formed, at the cost of one operation. *)
Definition keeps {R} (st : poolRef) (Q : R -> Prop) (f : Z -> nat -> PoolState -> PoolState * R) : Prop :=
  forall now draw p, Spec p = ref_Spec st ->
    Spec (f now draw p).1 = Spec p /\ Q (f now draw p).2 /\
    forall b, (0 <= b < max_int64)%Z -> pool_wf b p -> pool_wf (b + 1) (f now draw p).1.

Lemma safe_section {R} st (Q : R -> Prop) f :
  ref_ok st -> keeps st Q f -> safe world_wf Q (section st f).
Proof.
  intros Hst Hf. apply safe_op. intros tid w r w' [Hs Hp Hl] (a & _ & He).
  simpl in He. destruct (w_pools w !! ref_key st) as [p|] eqn:Hk; [|done].
  assert (Spec p = ref_Spec st) as Hsp.
  { pose proof Hst as Hst'. unfold ref_ok in Hst'. rewrite <- Hs, lookup_fmap, Hk in Hst'.
    by simplify_eq/=. }
  destruct (Hf (a_now a) (a_draw a) p Hsp) as (Hspec & HQ & Hwf).
  destruct (f (a_now a) (a_draw a) p) as [p' r'] eqn:Hfp. simplify_eq/=. split; [|done].
  constructor; simpl; try done.
  - rewrite fmap_insert, Hspec, Hs, Hsp. by apply insert_id.
  - intros Hb key q. rewrite lookup_insert. case_decide; simplify_eq.
    + intros [= <-]. replace (Z.of_nat (S (w_tick w))) with (Z.of_nat (w_tick w) + 1)%Z by lia.
      apply Hwf; [lia|]. eapply Hp; [lia|done].
    + intros Hq. apply (pool_wf_mono (Z.of_nat (w_tick w))); [lia|].
      eapply Hp; [lia|done].
Qed.

Lemma safe_write st f :
  ref_ok st ->
  (forall p, Spec p = ref_Spec st -> Spec (f p) = Spec p /\
     forall b, (0 <= b < max_int64)%Z -> pool_wf b p -> pool_wf (b + 1) (f p)) ->
  safe world_wf (fun _ => True) (write st f).
Proof.
  intros Hst Hf. apply safe_section; [done|]. intros now draw p Hp. simpl.
  destruct (Hf p Hp). naive_solver.
Qed.

Lemma safe_leases {R} (Q : R -> Prop) (f : leaseRegistry -> leaseRegistry * R) :
  (forall r, (forall id rc, lg_leases r !! id = Some rc -> lease_wf rc) ->
     (forall id rc, lg_leases (f r).1 !! id = Some rc -> lease_wf rc) /\ Q (f r).2) ->
  safe world_wf Q (call (OpLeases f)).
Proof.
  intros Hf. apply safe_op. intros tid w r w' [Hs Hp Hl] (a & _ & He). simpl in He.
  destruct (Hf _ Hl) as [Hl' HQ]. destruct (f (w_leases w)) as [l r'] eqn:E. simplify_eq/=.
  split; [|done]. constructor; simpl; try done.
  intros Hb key p Hk. apply (pool_wf_mono (Z.of_nat (w_tick w))); [lia|]. eapply Hp; [lia|done].
Qed.

(** *** The sections of the program *)

Lemma safe_snapshotOf st : ref_ok st -> safe world_wf (fun _ => True) (snapshotOf st).
Proof.
  intros Hst. apply safe_section; [done|]. intros now draw p Hp. simpl. split_and!; try done.
  intros b Hb. apply pool_wf_mono. lia.
Qed.

Lemma safe_acquireOf st e : ref_ok st -> safe world_wf (fun _ => True) (acquireOf st e).
Proof.
  intros Hst. apply safe_section; [done|]. intros now draw p Hp. rewrite Spec_acquire.
  split_and!; [done|done|]. intros b Hb. apply pool_wf_acquire. lia.
Qed.

Lemma safe_excludeConfsFor e st : ref_ok st -> safe world_wf (fun _ => True) (excludeConfsFor e st).
Proof.
  intros Hst. destruct e as [e|]; [|done]. unfold excludeConfsFor.
  eapply safe_bind; [by apply safe_snapshotOf|done].
Qed.

Lemma pickConf_in_pool now draw exclude ttl p c :
  (pickConf now draw exclude ttl p).2 = Ok c -> c ∈ Configs (Spec p).
Proof.
  unfold pickConf. case_match eqn:Hl; simpl; [|done]. intros [= <-].
  apply list_elem_of_lookup_2, list_elem_of_filter in Hl. naive_solver.
Qed.

Lemma safe_pickConf st now exclude :
  ref_ok st ->
  safe world_wf (fun r => forall c, r = Ok c -> c ∈ Configs (ref_Spec st))
    (section st (fun _ draw p => pickConf now draw exclude (FailureCacheTTL (m_cfg m)) p)).
Proof.
  intros Hst. apply safe_section; [done|]. intros now' draw p Hp. rewrite Spec_pickConf.
  split_and!; [done| |].
  - intros c Hc. rewrite <- Hp. by eapply pickConf_in_pool.
  - intros b Hb Hw. apply (pool_wf_mono b); [lia|]. by apply pool_wf_pickConf.
Qed.

(** A write that keeps the tunnel's identity and count. *)
Lemma safe_write_mono st f :
  ref_ok st ->
  (forall p, Spec (f p) = Spec p) ->
  (forall b p, (0 <= b < max_int64)%Z -> pool_wf b p -> pool_wf b (f p)) ->
  safe world_wf (fun _ => True) (write st f).
Proof.
  intros Hst Hs Hf. apply safe_write; [done|]. intros p _. split; [done|].
  intros b Hb Hw. apply (pool_wf_mono b); [lia|]. by apply Hf.
Qed.

Lemma safe_markFailed st conf now : ref_ok st -> safe world_wf (fun _ => True) (write st (markFailed conf now)).
Proof. intros Hst. apply safe_write_mono; [done|done|]. intros b p _. apply pool_wf_failed. Qed.

Lemma safe_clear st : ref_ok st -> safe world_wf (fun _ => True) (write st (setTunnel None)).
Proof. intros Hst. apply safe_write_mono; [done|done|]. intros b p ? _. apply pool_wf_clear. lia. Qed.

Lemma safe_on_container st c f :
  ref_ok st ->
  (forall t, Pool (f t) = Pool t /\ ConfName (f t) = ConfName t /\ InFlight (f t) = InFlight t) ->
  safe world_wf (fun _ => True) (write st (on_container c f)).
Proof.
  intros Hst Hf. apply safe_write_mono; [done|apply Spec_on_container|].
  intros b p _. by apply pool_wf_on_container.
Qed.

Lemma safe_publish st used t :
  ref_ok st -> ConfName t ∈ Configs (ref_Spec st) ->
  safe world_wf (fun _ => True) (write st (setTunnel (Some (hotTunnel (ref_Spec st) used t)))).
Proof.
  intros Hst Hc. apply safe_write; [done|]. intros p Hp. split; [done|].
  intros b Hb _. unfold hotTunnel.
  apply pool_wf_publish; simpl; rewrite ?Hp; try (repeat case_match; done). lia.
Qed.

Lemma safe_release st : ref_ok st -> safe world_wf (fun _ => True) (write st release).
Proof.
  intros Hst. apply safe_write_mono; [done|apply Spec_release|].
  intros b p Hb. apply pool_wf_release. lia.
Qed.

Lemma safe_spawn req :
  safe world_wf (fun r => forall t, r = Ok t -> ConfName t = req_ConfName req) (call (OpSpawn req)).
Proof.
  apply safe_quiet; [done|]. intros tid w r w' _ (a & Hm & He) t ->. simpl in *. simplify_eq.
  apply spawn_may_conf. congruence.
Qed.

(** *** Tactics for programs

    [sbind L] steps over a call whose safety is lemma [L]; [squiet] over an
    operation outside the mutexes. *)
Ltac sbind L := eapply safe_bind; [apply L; try done | intros ? ?].
Ltac squiet := eapply safe_bind; [apply safe_quiet_any; exact I | intros ? _].

(** *** Methods of the manager *)

Hypothesis specs_named : forall key spec, m_specs m !! key = Some spec -> Name spec = key.

Definition acq_post (r : res Acquisition) : Prop := forall a, r = Ok a -> acq_ok a.

Lemma ref_ok_dom st : ref_ok st -> Name (ref_Spec st) ∈ dom (m_specs m).
Proof. intros Hst. rewrite (specs_named _ _ Hst). apply elem_of_dom. by eexists. Qed.

Lemma acq_post_ok st t : ref_ok st -> acq_post (Ok (mkAcquisition t (Name (ref_Spec st)))).
Proof. intros Hst a [= <-]. by apply ref_ok_dom. Qed.

Lemma safe_recordSpawnFailure st conf e :
  ref_ok st -> safe world_wf (fun _ => True) (recordSpawnFailure st conf e).
Proof. intros Hst. unfold recordSpawnFailure. squiet. squiet. sbind safe_markFailed. done. Qed.

Lemma safe_spawnFromState st e : ref_ok st -> safe world_wf acq_post (spawnFromState m st e).
Proof.
  intros Hst. unfold spawnFromState. squiet. sbind safe_excludeConfsFor. sbind safe_pickConf.
  destruct a1 as [conf|?]; [|by intros ? [=]].
  squiet. sbind safe_spawn. destruct a2 as [t|err].
  - squiet. squiet. squiet. squiet.
    eapply safe_bind; [apply safe_publish; [done|]|intros ? _].
    + rewrite (H1 t eq_refl). by apply H0.
    + by apply acq_post_ok.
  - sbind safe_recordSpawnFailure. by intros ? [=].
Qed.

Lemma safe_acquireFromState st e : ref_ok st -> safe world_wf acq_post (acquireFromState m st e).
Proof.
  intros Hst. unfold acquireFromState. sbind safe_acquireOf. destruct a as [t|err].
  { by apply acq_post_ok. }
  squiet. sbind safe_acquireOf.
  apply (safe_bind _ acq_post).
  - destruct a0 as [t|err']; [by apply acq_post_ok | by apply safe_spawnFromState].
  - intros r Hr. by squiet.
Qed.

Lemma safe_acquireFromPool name e ok : safe world_wf acq_post (acquireFromPool m name e ok).
Proof.
  unfold acquireFromPool. sbind safe_getPool. destruct a as [st|]; [|by intros ? [=]].
  destruct H as [Hst _]. sbind safe_acquireFromState. destruct a as [acq|err]; [done|].
  case_match; [by intros ? [=]|]. case_match; [by intros ? [=]|].
  sbind safe_getPool. destruct a as [st'|]; [|by intros ? [=]].
  apply safe_acquireFromState. naive_solver.
Qed.

Lemma safe_Release acq : safe world_wf (fun _ => True) (Release acq).
Proof.
  unfold Release. sbind safe_getPool. destruct a as [st|]; [|done]. apply safe_release. naive_solver.
Qed.

Lemma lease_wf_prune r now id rc :
  (forall id rc, lg_leases r !! id = Some rc -> lease_wf rc) ->
  lg_leases (pruneExpiredLocked now r) !! id = Some rc -> lease_wf rc.
Proof.
  intros Hr. simpl. rewrite Expiring.prune_lookup. destruct (lg_leases r !! id) eqn:E; [|done].
  case_match; [done|]. intros [= <-]. by eapply Hr.
Qed.

Lemma issuable_spec acq t :
  issuable acq = Some t ->
  acq_Tunnel acq = Some t /\ acq_Pool acq <> "" /\ ContainerID t <> "" /\ is_Some (ProxyURL t) /\
  GatewayAddr t <> "".
Proof.
  unfold issuable. destruct (acq_Tunnel acq) as [t'|]; [|done].
  destruct (_ || _ || _ || _) eqn:E; [done|]. intros [= <-].
  rewrite !orb_false_iff, !String.eqb_neq, bool_decide_eq_false in E.
  destruct E as [[[? ?] Hu] ?]. split_and!; try done.
  destruct (ProxyURL t'); [by eexists|done].
Qed.

Lemma safe_issueLease acq : acq_ok acq -> safe world_wf (fun _ => True) (issueLease acq).
Proof.
  intros Ha. unfold issueLease. destruct (issuable acq) as [t|] eqn:Ht; [|done].
  squiet. destruct (newLeasePart a); [|done]. squiet. destruct (newLeasePart a1); [|done].
  squiet. apply safe_leases. intros r Hr. split; [|done]. intros id rc.
  unfold Issue. rewrite Ht. repeat (case_match; [|by apply Hr]). simpl.
  rewrite lookup_insert. case_decide.
  - intros [= <-]. apply issuable_spec in Ht. unfold lease_wf. simpl. naive_solver.
  - by apply lease_wf_prune.
Qed.

Lemma safe_lookupLease u pw :
  safe world_wf (fun r => forall rc, r = Some rc -> lease_wf rc) (lookupLease u pw).
Proof.
  unfold lookupLease. squiet. apply safe_leases. intros r Hr. split.
  - intros id rc. by apply lease_wf_prune.
  - intros rc Hrc. apply Lookup_spec in Hrc. naive_solver.
Qed.

Lemma safe_IssueLease acq : acq_ok acq -> safe world_wf (fun _ => True) (IssueLease acq).
Proof.
  intros Ha. unfold IssueLease. sbind safe_issueLease. destruct a; [|done].
  sbind safe_getPool. destruct a0 as [st|]; [|done].
  eapply safe_bind; [apply safe_on_container; [naive_solver|done]|done].
Qed.

Lemma safe_ResolveExcludedProxy raw : safe world_wf (fun _ => True) (ResolveExcludedProxy raw).
Proof.
  unfold ResolveExcludedProxy. repeat (case_match; try done). by sbind safe_lookupLease.
Qed.

Lemma safe_AcquireForLease u pw : safe world_wf acq_post (AcquireForLease u pw).
Proof.
  unfold AcquireForLease. sbind safe_lookupLease. destruct a as [rc|]; [|by intros ? [=]].
  sbind safe_getPool. destruct a as [st|]; [|by intros ? [=]]. destruct H0 as [Hst Hk].
  eapply safe_bind; [apply (safe_section _ (fun _ => True)); [done|]|].
  - intros now draw p Hp. rewrite Spec_acquireContainer. split_and!; [done|done|]. intros b Hb.
    apply pool_wf_acquireContainer. lia.
  - intros r _. destruct r; intros ? [= <-]. by destruct (H rc eq_refl).
Qed.

Lemma safe_validLease u pw : safe world_wf (fun _ => True) (validLease u pw).
Proof. unfold validLease. by sbind safe_lookupLease. Qed.

Lemma safe_dialLease u pw n a : safe world_wf (fun _ => True) (dialLease u pw n a).
Proof.
  unfold dialLease. sbind safe_AcquireForLease. destruct a0 as [acq|]; [|done].
  squiet. destruct a0; try done; by sbind safe_Release.
Qed.

Lemma safe_closeTimes n c : safe world_wf (fun _ => True) (closeTimes n c).
Proof.
  revert c. induction n as [|n IH]; intros c; [done|]. cbn [closeTimes].
  eapply (safe_bind _ (fun _ => True)); [|intros; apply IH]. unfold closeConn.
  case_match; [done|]. by sbind safe_Release.
Qed.

Lemma safe_Close : safe world_wf (fun _ => True) Close.
Proof.
  unfold Close. sbind safe_allPools. apply safe_for_each. intros st Hst.
  rewrite Forall_forall in H. specialize (H _ Hst). sbind safe_snapshotOf.
  destruct a0; [|done]. case_match; [done|]. squiet. by apply safe_clear.
Qed.

Lemma safe_MarkFailed p c : safe world_wf (fun _ => True) (MarkFailed p c).
Proof.
  unfold MarkFailed. sbind safe_getPool. destruct a as [st|]; [|done].
  destruct H as [Hst _]. eapply safe_bind; [apply safe_write_mono; [done|apply Spec_markUnhealthy|]|].
  - intros b q _. apply pool_wf_markUnhealthy.
  - intros ? _. squiet. by apply safe_markFailed.
Qed.

Lemma safe_Views : safe world_wf (fun _ => True) (Views m).
Proof.
  unfold Views. squiet. sbind safe_allPools.
  eapply (safe_bind _ (fun _ => True)); [|done]. apply safe_fold; [done|]. intros s st _ Hst.
  rewrite Forall_forall in H. specialize (H _ Hst).
  eapply (safe_bind _ (fun _ => True)).
  - apply safe_section; [done|]. intros now draw p Hp. split_and!; [done|done|]. intros b Hb Hw.
    apply (pool_wf_mono b); [lia|]. by apply pool_wf_failed.
  - intros ? _. by sbind safe_snapshotOf.
Qed.

Lemma safe_ProxyViews : safe world_wf (fun _ => True) ProxyViews.
Proof.
  unfold ProxyViews. squiet. sbind safe_allPools.
  eapply (safe_bind _ (fun _ => True)); [|done]. apply safe_fold; [done|]. intros s st _ Hst.
  rewrite Forall_forall in H. specialize (H _ Hst). by sbind safe_snapshotOf.
Qed.

(** *** Reaper, cells, gateways, API *)

Lemma safe_childControlURLs : safe world_wf (fun _ => True) childControlURLs.
Proof. unfold childControlURLs. by squiet. Qed.

Lemma safe_killTunnel st t reason : ref_ok st -> safe world_wf (fun _ => True) (killTunnel st t reason).
Proof.
  intros Hst. unfold killTunnel. eapply safe_bind; [by apply safe_on_container|intros ? _].
  squiet. sbind safe_clear. by apply safe_quiet_any.
Qed.

Lemma safe_reapIdle : safe world_wf (fun _ => True) (reapIdle m).
Proof.
  unfold reapIdle. squiet. sbind safe_childControlURLs. sbind safe_allPools.
  apply safe_for_each. intros st Hst. rewrite Forall_forall in H0. specialize (H0 _ Hst).
  unfold reapIdleOne. sbind safe_snapshotOf. destruct a2 as [t|]; [|done].
  case_match; [done|]. case_match; [done|].
  eapply (safe_bind _ (fun _ => True)).
  - unfold hasLiveConnections. case_match; [|done]. by squiet.
  - intros live _. destruct live; [done|]. by apply safe_killTunnel.
Qed.

Lemma safe_checkHealth : safe world_wf (fun _ => True) (checkHealth m).
Proof.
  unfold checkHealth. sbind safe_childControlURLs. sbind safe_allPools.
  apply safe_for_each. intros st Hst. rewrite Forall_forall in H0. specialize (H0 _ Hst).
  unfold checkHealthOne. sbind safe_snapshotOf. destruct a1 as [t|]; [|done].
  case_match; [done|]. eapply (safe_bind _ (fun _ => True)).
  - unfold probeHealthy. case_match; [by apply safe_quiet_any | by squiet].
  - intros healthy _. destruct healthy.
    + apply safe_section; [done|]. intros now draw p Hp. unfold refreshHealthy. simpl.
      rewrite Spec_on_container. split_and!; [done|done|]. intros b Hb Hw.
      apply (pool_wf_mono b); [lia|]. by apply pool_wf_on_container.
    + squiet. sbind safe_markFailed. by apply safe_killTunnel.
Qed.

Lemma safe_reapOrphans : safe world_wf (fun _ => True) reapOrphans.
Proof.
  unfold reapOrphans. sbind safe_allPools. eapply (safe_bind _ (fun _ => True)).
  - apply safe_fold; [done|]. intros s st _ Hst. rewrite Forall_forall in H.
    specialize (H _ Hst). by sbind safe_snapshotOf.
  - intros keep _. by apply safe_quiet_any.
Qed.

Lemma safe_cellView h : safe world_wf (fun _ => True) (cellView m h).
Proof. unfold cellView. case_match; [|done]. by squiet. Qed.

Lemma safe_CellViews : safe world_wf (fun _ => True) (CellViews m).
Proof.
  unfold CellViews. squiet. destruct a as [hs|]; [|done].
  eapply (safe_bind _ (fun _ => True)); [|done]. apply safe_fold; [done|]. intros s h _ _.
  by sbind safe_cellView.
Qed.

Lemma safe_CellByID id : safe world_wf (fun _ => True) (CellByID m id).
Proof. unfold CellByID. squiet. repeat (case_match; try done). by sbind safe_cellView. Qed.

Lemma safe_stateForContainer states id :
  Forall ref_ok states ->
  safe world_wf (fun st => forall s, st = Some s -> ref_ok s) (stateForContainer states id).
Proof.
  induction 1 as [|st states Hst _ IH]; [by intros ? [=]|]. cbn [stateForContainer].
  sbind safe_snapshotOf. repeat (case_match; try done). by intros ? [= <-].
Qed.

Lemma safe_DestroyCell id : safe world_wf (fun _ => True) (DestroyCell id).
Proof.
  unfold DestroyCell. squiet. destruct a as [hs|]; [|done]. case_match; [done|]. squiet.
  sbind safe_allPools. sbind safe_stateForContainer. eapply (safe_bind _ (fun _ => True)); [|done].
  destruct a1 as [st|]; [|done]. apply safe_clear. by apply H1.
Qed.

Lemma safe_useConn n c : safe world_wf (fun _ => True) (useConn n c).
Proof. unfold useConn. squiet. apply safe_closeTimes. Qed.

Lemma safe_socksConnection auth n a k : safe world_wf (fun _ => True) (socksConnection auth n a k).
Proof.
  unfold socksConnection. destruct auth as [[u pw]|]; [|done]. sbind safe_dialLease.
  destruct a0; [|done]. by sbind safe_useConn.
Qed.

(** Whatever a SOCKS5 server does with the gateway's callbacks. *)
Lemma safe_on_world {A} pr (p : serving A) : forall i held, safe world_wf (fun _ => True) (on_world pr p i held).
Proof.
  induction p as [a|R o k IH]; intros i held; [done|]. cbn [on_world].
  destruct o as [n|b|u pw|name|n a [[u pw]|]| | |]; cbn [on_op]; try (squiet; apply IH).
  - sbind safe_validLease. apply IH.
  - sbind safe_dialLease. match goal with r : res releaseConn |- _ => destruct r end; apply IH.
  - apply IH.
  - destruct held as [c|]; [|apply IH]. eapply (safe_bind _ (fun _ => True)); [|intros; apply IH].
    unfold closeConn. case_match; [done|]. by sbind safe_Release.
Qed.

Lemma safe_handle h auth request : safe world_wf (fun _ => True) (handle h auth request).
Proof.
  unfold handle. destruct (proxyBasicCredentials auth) as [[u pw]|]; [|done].
  sbind safe_validLease. destruct a; simpl; [|done].
  destruct request as [host outcome|target respond extra].
  - unfold handleConnect. case_match; [done|]. sbind safe_dialLease. destruct a; [|done].
    destruct outcome; first [by sbind safe_closeTimes | by sbind safe_useConn].
  - unfold handleForwardRequest. case_match; [done|]. sbind safe_dialLease. destruct a; [|done].
    by sbind safe_useConn.
Qed.

Lemma safe_handleProxy r : safe world_wf (fun _ => True) (handleProxy m r).
Proof.
  unfold handleProxy. destruct (decodeProxyRequest r) as [request|]; [|done].
  eapply (safe_bind _ (fun _ => True)).
  { unfold parseExcludedProxy. case_match; [done|]. by sbind safe_ResolveExcludedProxy. }
  intros excluded _. destruct excluded as [e|]; [|done].
  apply (safe_bind _ acq_post).
  { unfold apiAcquire, AcquireForPool, AcquireForCountry.
    repeat (case_match; try by intros ? [=]); apply safe_acquireFromPool. }
  intros r0 Hr0. destruct r0 as [acq|]; [|done]. specialize (Hr0 acq eq_refl).
  sbind safe_IssueLease. destruct a; [squiet|]; by sbind safe_Release.
Qed.

Lemma safe_serve rt r : safe world_wf (fun _ => True) (serve m tokenDigest rt r).
Proof.
  unfold serve. case_match; [done|]. destruct rt; simpl;
    unfold handleProxies, handlePools, handleCells, handleCell, handleDeleteCell.
  - apply safe_handleProxy.
  - repeat (case_match; try done). by sbind safe_ProxyViews.
  - repeat (case_match; try done). by sbind safe_Views.
  - repeat (case_match; try done). by sbind safe_CellViews.
  - case_match; [done|]. by sbind safe_CellByID.
  - case_match; [done|]. by sbind safe_DestroyCell.
Qed.

Lemma safe_handler p : handler p -> safe world_wf (fun _ => True) p.
Proof.
  destruct 1.
  - by sbind safe_serve.
  - by sbind safe_socksConnection.
  - by sbind @safe_on_world.
  - by sbind safe_validLease.
  - by sbind safe_handle.
  - apply safe_reapIdle.
  - apply safe_checkHealth.
  - by sbind safe_reapOrphans.
  - apply safe_MarkFailed.
  - apply safe_Close.
Qed.

(** *** The starting state *)

Lemma world_wf_init : world_wf (NewManager (m_cfg m) (m_specs m) (m_router m)).2.
Proof.
  constructor; simpl.
  - rewrite <- map_fmap_compose. apply map_fmap_id.
  - intros _ key p Hp. rewrite lookup_fmap in Hp. destruct (m_specs m !! key); simplify_eq/=.
    by apply pool_wf_init.
  - done.
Qed.
End invariant.

(** A controller that has just started: no goroutine yet. *)
Definition started (m : Manager) : config :=
  mkSystem (NewManager (m_cfg m) (m_specs m) (m_router m)).2 [].

(** C1. The controller's invariant: in every state the goroutines can reach by
    any interleaving, every pool still has its configured specification, its
    slot holds a tunnel of that pool spawned from one of its configurations, the
    hot gauge tells whether the slot is occupied, the reservation count lies
    between zero and the number of operations so far (below [2^63]), and every
    lease names a configured pool, a cell, its URL and its gateway address. *)
Theorem controller_invariant `{GoUnicode, GoHash, GoNetip, MapOrder, SpawnerContract} m digest c :
  (forall key spec, m_specs m !! key = Some spec -> Name spec = key) ->
  csteps (handler m digest) (started m) c ->
  world_wf m (c_world c).
Proof.
  intros Hn Hs.
  destruct (cstep_invariant (handler m digest) (world_wf m) (started m) c
    (fun p => safe_handler m digest Hn p) Hs (world_wf_init m)) as [Hw _]; [constructor|done].
Qed.
