(* ===== verification/Boot.v ===== *)
(** * Wiring the controller ([service.go]: [New] and the API router)

    [New] composes the loaders of [Config], [Pools] and [Routing] with the
    manager: what it builds, when it refuses, and how that relates to the check
    of a configuration directory ([Bootstrap.CheckConfig]). *)

From S2P Require Import Prelude GoStrings Encoding UrlParse Types Config Pools Routing DotEnv FileSystem Bootstrap.
From S2P Require Import PoolState Lease Prog System Manager Api Invariant.

(** What the process finds: the environment as [gonfiguration.Parse] decodes it,
    the cell image set by [main], the host name, and the files by their path. *)
Record surroundings := mkSurroundings {
  s_parsed : res Config;
  s_image : string;
  s_hostname : option string;
  s_pools : string -> option poolsFile;
  s_bundle : string -> option (list dirEntry);
  s_routing : string -> option routingFile;
}.

Record Service := mkService {
  sv_cfg : Config;
  sv_apiToken : string;
  sv_mgr : Manager;
  sv_world : world;
}.

Section boot.
Context `{GoUnicode} `{MapOrder}.
(** The Docker client library's constructor, by the host it is given: whether
    it accepts the options. *)
Context (newClient : option string -> bool).

(** [NewCellSpawner]. *)
Definition NewCellSpawner (cfg : Config) : res unit :=
  let opts := if negb (String.eqb (DockerHost cfg) "") then Some (DockerHost cfg) else None in
  if newClient opts then Ok tt else Err ErrForeign.

(** [New]. *)
Definition New (s : surroundings) : res Service :=
  cfg ← LoadConfig (s_parsed s) (s_image s) (s_hostname s);
  apiToken ← ValidateAPIToken (APIToken cfg);
  '(specs, known) ← LoadPoolSpecs (s_pools s (PoolsFile cfg)) (s_bundle s (BundleDir cfg));
  router ← LoadRouter (s_routing s (RoutingFile cfg)) (DefaultPool cfg) known;
  _ ← NewCellSpawner cfg;
  let '(mgr, w) := NewManager cfg specs router in
  Ok (mkService cfg apiToken mgr w).

(** The digest [startAPI] gives to [NewAPIServer]. *)
Definition NewAPIServer `{GoHash} (s : Service) : string := sha256 (sv_apiToken s).

(** [buildAPIRouter] and [APIServer.Register]: method, path and handler. *)
Definition buildAPIRouter : list (string * string * route) :=
  [("POST", "/v1/proxies", PostProxies); ("GET", "/v1/proxies", GetProxies); ("GET", "/v1/pools", GetPools);
   ("GET", "/v1/cells", GetCells); ("GET", "/v1/cells/{containerID}", GetCell);
   ("DELETE", "/v1/cells/{containerID}", DeleteCell)].

Lemma New_inv s sv :
  New s = Ok sv ->
  exists cfg token specs known router,
    LoadConfig (s_parsed s) (s_image s) (s_hostname s) = Ok cfg /\ ValidateAPIToken (APIToken cfg) = Ok token /\
    LoadPoolSpecs (s_pools s (PoolsFile cfg)) (s_bundle s (BundleDir cfg)) = Ok (specs, known) /\
    LoadRouter (s_routing s (RoutingFile cfg)) (DefaultPool cfg) known = Ok router /\
    sv = mkService cfg token (mkManager cfg router specs) (NewManager cfg specs router).2.
Proof.
  unfold New. intros (cfg & Hc & E)%result_bind_ok. rewrite result_bind_ok in E. destruct E as (token & Ht & E).
  rewrite result_bind_ok in E. destruct E as ([specs known] & Hp & E). rewrite result_bind_ok in E.
  destruct E as (router & Hr & E). rewrite result_bind_ok in E. destruct E as (_ & _ & E).
  exists cfg, token, specs, known, router. split_and!; try done. unfold NewManager in *. simpl in *. congruence.
Qed.

(** A directory that [config check] accepts boots: with the files the check
    read, an environment that loads and a Docker client, [New] succeeds if and
    only if the default pool it falls back to exists, that is, the routing file
    names a default of its own, or the environment's default pool is empty or is
    one of the pools. *)
Theorem boot_after_check s cfg dir d d' pf rf :
  CheckConfig dir (s_pools s (PoolsFile cfg)) (s_bundle s (BundleDir cfg)) (s_routing s (RoutingFile cfg)) d =
    (Ok tt, d') ->
  s_pools s (PoolsFile cfg) = Some pf -> s_routing s (RoutingFile cfg) = Some rf ->
  LoadConfig (s_parsed s) (s_image s) (s_hostname s) = Ok cfg -> NewCellSpawner cfg = Ok tt ->
  is_ok (New s) = true <-> rf_DefaultPool rf <> "" \/ DefaultPool cfg = "" \/ DefaultPool cfg ∈ dom pf.
Proof.
  intros Hcheck Hpf Hrf Hcfg Hdocker.
  destruct (proj2 (CheckConfig_sound _ _ _ _ _ _ _ Hcheck) eq_refl)
    as (_ & _ & _ & _ & specs & known & router & _ & _ & _ & _ & Hp & _ & Hr).
  destruct (LoadPoolSpecs_known _ _ _ _ Hp) as (_ & _ & Hk & _). rewrite <- (Hk pf Hpf). rewrite Hrf in Hr.
  rewrite <- (LoadRouter_fallback _ _ (DefaultPool cfg) _ _ Hr). unfold New, mbind, result_mbind, result_bind.
  rewrite Hcfg. destruct (LoadConfig_token _ _ _ _ Hcfg) as [token ->]. rewrite Hp, Hrf, Hdocker.
  by destruct (LoadRouter (Some rf) (DefaultPool cfg) known).
Qed.

(** C40. A controller that boots is one the other theorems are about: its pools are
    stored under their names, every fallback and every country the router
    resolves leads to a pool that exists, its API accepts exactly the digest of
    the trimmed token, and every state its goroutines reach keeps the
    controller's invariant. *)
Theorem boot_sound `{GoHash, GoNetip, SpawnerContract} s sv :
  New s = Ok sv ->
  (forall key spec, m_specs (sv_mgr sv) !! key = Some spec -> Name spec = key) /\
  (forall key spec, m_specs (sv_mgr sv) !! key = Some spec ->
     FallbackPool spec = "" \/ is_Some (m_specs (sv_mgr sv) !! FallbackPool spec)) /\
  (forall country p, Resolve (m_router (sv_mgr sv)) country = Ok p -> is_Some (m_specs (sv_mgr sv) !! p)) /\
  sv_apiToken sv = trim_space (APIToken (sv_cfg sv)) /\ sv_apiToken sv <> "" /\
  c_world (started (sv_mgr sv)) = sv_world sv /\
  (forall c, csteps (handler (sv_mgr sv) (NewAPIServer sv)) (started (sv_mgr sv)) c ->
     world_wf (sv_mgr sv) (c_world c)).
Proof.
  intros (cfg & token & specs & known & router & Hc & Ht & Hp & Hr & ->)%New_inv. simpl.
  destruct (LoadPoolSpecs_known _ _ _ _ Hp) as (Hn & -> & _ & Hfb). apply LoadRouter_wf in Hr as [Hr Hd].
  unfold ValidateAPIToken in Ht. destruct (Nat.ltb _ _); [done|].
  destruct (Nat.eqb_spec (String.length (trim_space (APIToken cfg))) 0) as [|Hz]; [done|]. injection Ht as <-.
  split_and!; try done.
  - intros country p. unfold Resolve. rewrite <- elem_of_dom.
    destruct (countryToPool router !! countryKey country) eqn:E; [intros [= <-]; by eapply Hr|].
    destruct (String.eqb_spec (defaultPool router) ""); [done|]. intros [= <-]. by destruct Hd.
  - intros E. by rewrite E in Hz.
  - intros c Hs.
    set (m := mkManager cfg router specs) in *.
    destruct (cstep_invariant (handler m _) (world_wf m) (started m) c (fun p => safe_handler m _ Hn p) Hs
                (world_wf_init m)) as [Hw _]; [constructor|exact Hw].
Qed.
End boot.

Module BootExamples.
#[local] Existing Instance no_unicode.
#[local] Existing Instance canonical_order.
#[local] Instance plain_hash : GoHash := {| sha256 := fun s => s |}.
#[local] Instance no_netip : GoNetip := {| parse_ip_literal := fun _ => None |}.
#[local] #[refine] Instance failing_spawner : SpawnerContract :=
  {| spawn_may := fun _ r => r = Err ErrSpawnFailed |}.
Proof. all: naive_solver. Defined.

(** The environment with its defaults: [DefaultPool] is ["neutral_clean"]. *)
Definition environment (defaultPool : string) : Config :=
  mkConfig ":8000" ":9091" ":1080" "127.0.0.1:1080" ":8080" "127.0.0.1:8080" (15 * minute) "pools.yaml" "bundle"
    "egress-routing.yaml" defaultPool (10 * minute) (30 * second) (30 * second) (180 * second) (5 * minute)
    "" 1080 9000 "ctl" "net" "" "prod" "" "token".

Definition pools : poolsFile := {[ "us" := mkPoolEntry "us" "" ["us-a"] ∅ "" ]}.
Definition bundle : list dirEntry := [mkDirEntry "us-a.conf" false].

(** A routing file without a default of its own. *)
Definition routes : routingFile := mkRoutingFile {[ "US" := "us" ]} "".

Definition host (defaultPool : string) : surroundings :=
  mkSurroundings (Ok (environment defaultPool)) "img" None
    (fun _ => Some pools) (fun _ => Some bundle) (fun _ => Some routes).

Definition disk : Disk :=
  mkDisk {[ [] := Directory 493; ["cfg"] := Directory 448;
            ["cfg"; dotEnvFileName] := Regular "PR0XTEUS_API_TOKEN=secret" 384 ]} 18 [] [].

Definition boots (defaultPool : string) : bool := is_ok (New (fun _ => true) (host defaultPool)).

Definition checked : res unit * Disk := CheckConfig "/cfg" (Some pools) (Some bundle) (Some routes) disk.

Lemma disk_checked : checked = (Ok tt, checked.2).
Proof. vm_compute. reflexivity. Qed.

Lemma boot_after_check_witness : boots "us" = true.
Proof.
  refine (proj2 (boot_after_check (fun _ => true) (host "us") (set_CellImage "img" (environment "us")) "/cfg" disk
    checked.2 pools routes disk_checked eq_refl eq_refl _ _) _).
  - vm_compute. reflexivity.
  - reflexivity.
  - right. right. refine (bool_decide_unpack _ _). vm_compute. exact I.
Defined.

(** The check passes no default pool to the router, [New] the environment's,
    which is ["neutral_clean"] unless it is set: a directory that [config check]
    accepts is refused at boot. *)
Theorem checked_config_does_not_boot :
  checked.1 = Ok tt /\ New (fun _ => true) (host "neutral_clean") = Err ErrConfigInvalid.
Proof. split; vm_compute; reflexivity. Qed.

Lemma boot_sound_witness :
  exists sv, New (fun _ => true) (host "us") = Ok sv /\ is_Some (m_specs (sv_mgr sv) !! "us").
Proof.
  destruct (New (fun _ => true) (host "us")) as [sv|e] eqn:E; [|discriminate E].
  exists sv. split; [reflexivity|].
  destruct (boot_sound (fun _ => true) (host "us") sv E) as (_ & _ & Hr & _).
  apply (Hr "FR"). clear Hr. vm_compute in E. injection E as <-. reflexivity.
Defined.
End BootExamples.
