(* ===== verification/Tunnels.v ===== *)
(** * CONNECT tunnels and the life of the HTTP proxy gateway ([http_proxy_gateway.go])

    [HTTPProxyGateway.Close], [trackHijacked], [untrackHijacked], and what a
    CONNECT handler does once its lease is accepted: the dial, the hijack,
    [relayConnect] with its two copying goroutines, [closeConnectTunnels].
    [Gateway] models the same handler as a client of the manager; here the
    goroutines and the gateway's own state are interleaved.  A tunnel is named by
    its position; its client connection is the key of the map [hijacked]. *)

From S2P Require Import Prelude.

(** ** One tunnel *)

(** A goroutine of [copyHTTPProxyStream]: not created, in [io.Copy] reading from
    its source or writing to its destination, about to send, ended. *)
Inductive copier := NoCopier | Reading | Writing | CopySending | CopyDone.

(** [handleConnect]: dialling through the lease, dialled, hijacked, tracked,
    then in [relayConnect] waiting for the first copier, closing the two ends,
    waiting for the second copier, then in the deferred [closeConnectTunnels];
    ended because the dial failed, the hijack failed, or the tunnel ended. *)
Inductive tunnel_pc :=
  | Dialling
  | Dialled
  | Taken
  | Tracked
  | Relaying
  | RelayCloseClient
  | RelayCloseUpstream
  | RelayAwait
  | DeferUntrack
  | DeferCloseClient
  | DeferCloseUpstream
  | EndDial
  | EndHijack
  | EndTunnel.

Inductive direction := Upwards | Downwards.

#[global] Instance copier_eq_dec : EqDecision copier.
Proof. solve_decision. Defined.
#[global] Instance tunnel_pc_eq_dec : EqDecision tunnel_pc.
Proof. solve_decision. Defined.

Record tunnel := mkTunnel {
  t_pc : tunnel_pc;
  t_up : copier;              (** from the client to the upstream *)
  t_down : copier;            (** from the upstream to the client *)
  t_errors : nat;             (** values in the channel of [relayConnect] *)
  t_clientClosed : bool;
  t_upstreamClosed : bool;    (** closing it releases the cell's reservation *)
}.

Definition httpProxyRelayStreams : nat := 2.

Definition new_tunnel : tunnel := mkTunnel Dialling NoCopier NoCopier 0 false false.

Definition t_goto (p : tunnel_pc) (t : tunnel) : tunnel :=
  mkTunnel p (t_up t) (t_down t) (t_errors t) (t_clientClosed t) (t_upstreamClosed t).
Definition close_client (t : tunnel) : tunnel :=
  mkTunnel (t_pc t) (t_up t) (t_down t) (t_errors t) true (t_upstreamClosed t).
Definition close_upstream (t : tunnel) : tunnel :=
  mkTunnel (t_pc t) (t_up t) (t_down t) (t_errors t) (t_clientClosed t) true.
Definition take_error (t : tunnel) : tunnel :=
  mkTunnel (t_pc t) (t_up t) (t_down t) (pred (t_errors t)) (t_clientClosed t) (t_upstreamClosed t).
Definition copier_of (d : direction) (t : tunnel) : copier :=
  match d with Upwards => t_up t | Downwards => t_down t end.
Definition set_copier (d : direction) (c : copier) (t : tunnel) : tunnel :=
  match d with
  | Upwards => mkTunnel (t_pc t) c (t_down t) (t_errors t) (t_clientClosed t) (t_upstreamClosed t)
  | Downwards => mkTunnel (t_pc t) (t_up t) c (t_errors t) (t_clientClosed t) (t_upstreamClosed t)
  end.

(** The two ends of a copier, closed on this side or not. *)
Definition source_closed (d : direction) (t : tunnel) : bool :=
  match d with Upwards => t_clientClosed t | Downwards => t_upstreamClosed t end.
Definition destination_closed (d : direction) (t : tunnel) : bool :=
  match d with Upwards => t_upstreamClosed t | Downwards => t_clientClosed t end.

(** The call a copier is in fails because its connection has been closed: a [Read]
    of a closed source, a [Write] to a closed destination.  A copier that is blocked
    in the other call does not notice. *)
Definition call_closed (d : direction) (t : tunnel) : bool :=
  match copier_of d t with
  | Reading => source_closed d t
  | Writing => destination_closed d t
  | _ => false
  end.

(** What the client sent before the hijack is read from a buffer, whether the
    connection is closed or not. *)
Definition buffered (d : direction) : bool := match d with Upwards => true | Downwards => false end.

(** The steps of a copier: a read returns bytes, they are written, a read or a
    write ends the copy (end of file or an error), the result is sent. *)
Inductive copy_step := CopyRead | CopyWrote | CopyEnds | CopySend.

Inductive tunnel_action :=
  | TDial (ok : bool)
  | THijack (ok : bool)
  | TTrack
  | TWrite (ok : bool)
  | TCopy (c : copy_step) (d : direction)
  | TRelay
  | TClose
  | TUntrack.

(** [handleConnect] up to the start of the relay: the dial, the hijack, the
    response. *)
Definition connectStep (a : tunnel_action) (t : tunnel) : option tunnel :=
  match a, t_pc t with
  | TDial ok, Dialling => Some (t_goto (if ok then Dialled else EndDial) t)
  | THijack ok, Dialled => Some (if ok then t_goto Taken t else close_upstream (t_goto EndHijack t))
  | TTrack, Taken => Some (t_goto Tracked t)
  | TWrite ok, Tracked =>
      if ok then
        if t_clientClosed t then None
        else Some (set_copier Upwards Reading (set_copier Downwards Reading (t_goto Relaying t)))
      else Some (t_goto DeferUntrack t)
  | _, _ => None
  end.

(** [copyHTTPProxyStream]. *)
Definition copyHTTPProxyStream (c : copy_step) (d : direction) (t : tunnel) : option tunnel :=
  match c, copier_of d t with
  | CopyRead, Reading =>
      if negb (source_closed d t) || buffered d then Some (set_copier d Writing t) else None
  | CopyWrote, Writing => if destination_closed d t then None else Some (set_copier d Reading t)
  | CopyEnds, Reading | CopyEnds, Writing => Some (set_copier d CopySending t)
  | CopySend, CopySending =>
      if Nat.ltb (t_errors t) httpProxyRelayStreams then
        let t := set_copier d CopyDone t in
        Some (mkTunnel (t_pc t) (t_up t) (t_down t) (S (t_errors t)) (t_clientClosed t) (t_upstreamClosed t))
      else None
  | _, _ => None
  end.

(** [relayConnect]: the first result, both closes, the second result. *)
Definition relayConnect (t : tunnel) : option tunnel :=
  match t_pc t, t_errors t with
  | Relaying, S _ => Some (t_goto RelayCloseClient (take_error t))
  | RelayCloseClient, _ => Some (close_client (t_goto RelayCloseUpstream t))
  | RelayCloseUpstream, _ => Some (close_upstream (t_goto RelayAwait t))
  | RelayAwait, S _ => Some (t_goto DeferUntrack (take_error t))
  | _, _ => None
  end.

(** [closeConnectTunnels] after [untrackHijacked]. *)
Definition closeConnectTunnels (t : tunnel) : option tunnel :=
  match t_pc t with
  | DeferCloseClient => Some (close_client (t_goto DeferCloseUpstream t))
  | DeferCloseUpstream => Some (close_upstream (t_goto EndTunnel t))
  | _ => None
  end.

Definition tunnel_fire (a : tunnel_action) (t : tunnel) : option tunnel :=
  match a with
  | TCopy c d => copyHTTPProxyStream c d t
  | TRelay => relayConnect t
  | TClose => closeConnectTunnels t
  | TUntrack => match t_pc t with DeferUntrack => Some (t_goto DeferCloseClient t) | _ => None end
  | _ => connectStep a t
  end.

Ltac unfold_tunnel E :=
  unfold tunnel_fire, connectStep, copyHTTPProxyStream, relayConnect, closeConnectTunnels in E.

(** What a tunnel does without a peer: all but the progress of a copy, and its
    end as long as the connection its call is about is open. *)
Definition tunnel_own (a : tunnel_action) (t : tunnel) : bool :=
  match a with
  | TCopy CopyRead _ | TCopy CopyWrote _ => false
  | TCopy CopyEnds d => call_closed d t
  | _ => true
  end.

(** ** The gateway *)

(** One call of [Close]: closing the connections left of its snapshot, with the
    server it took; then [Shutdown]; returned. *)
Inductive closer :=
  | Closing (todo : list nat) (server : bool)
  | ShuttingDown
  | Closed.

Record http_gateway := mkHTTPGateway {
  gw_server : bool;                (** the field [server] is set *)
  gw_shutdown : bool;              (** the server accepts no new request *)
  gw_hijacked : gset nat;
  gw_tunnels : list tunnel;
  gw_closers : list closer;
  gw_seen : gset nat;              (** history: the connections of the snapshots *)
}.

(** The gateway after [Start]. *)
Definition gateway_started : http_gateway := mkHTTPGateway true false ∅ [] [] ∅.

Inductive gateway_action :=
  (** a request for a CONNECT with a valid lease arrives *)
  | GConnect
  | GTunnel (i : nat) (a : tunnel_action)
  (** [Close] is called; one of its calls continues *)
  | GClose
  | GCloser (k : nat).

Definition trackHijacked (i : nat) (h : gset nat) : gset nat := {[i]} ∪ h.
Definition untrackHijacked (i : nat) (h : gset nat) : gset nat := h ∖ {[i]}.

Definition track (i : nat) (a : tunnel_action) (h : gset nat) : gset nat :=
  match a with TTrack => trackHijacked i h | TUntrack => untrackHijacked i h | _ => h end.

Definition set_closer (k : nat) (c : closer) (g : http_gateway) : http_gateway :=
  mkHTTPGateway (gw_server g) (gw_shutdown g) (gw_hijacked g) (gw_tunnels g) (<[k := c]> (gw_closers g)) (gw_seen g).

(** The critical section of [Close]. *)
Definition beginClose (g : http_gateway) : http_gateway :=
  mkHTTPGateway false (gw_shutdown g) (gw_hijacked g) (gw_tunnels g)
    (gw_closers g ++ [Closing (elements (gw_hijacked g)) (gw_server g)]) (gw_hijacked g ∪ gw_seen g).

(** The rest of [Close], a connection or a phase at a time. *)
Definition closer_step (k : nat) (g : http_gateway) : option http_gateway :=
  match gw_closers g !! k with
  | Some (Closing (i :: todo) server) =>
      Some (mkHTTPGateway (gw_server g) (gw_shutdown g) (gw_hijacked g) (alter close_client i (gw_tunnels g))
              (<[k := Closing todo server]> (gw_closers g)) (gw_seen g))
  | Some (Closing [] false) => Some (set_closer k Closed g)
  | Some (Closing [] true) =>
      Some (mkHTTPGateway (gw_server g) true (gw_hijacked g) (gw_tunnels g)
              (<[k := ShuttingDown]> (gw_closers g)) (gw_seen g))
  | Some ShuttingDown => Some (set_closer k Closed g)
  | _ => None
  end.

Definition gateway_fire (a : gateway_action) (g : http_gateway) : option http_gateway :=
  match a with
  | GConnect =>
      if gw_shutdown g then None
      else Some (mkHTTPGateway (gw_server g) (gw_shutdown g) (gw_hijacked g) (gw_tunnels g ++ [new_tunnel])
                   (gw_closers g) (gw_seen g))
  | GTunnel i a =>
      t ← gw_tunnels g !! i;
      t' ← tunnel_fire a t;
      Some (mkHTTPGateway (gw_server g) (gw_shutdown g) (track i a (gw_hijacked g)) (<[i := t']> (gw_tunnels g))
              (gw_closers g) (gw_seen g))
  | GClose => Some (beginClose g)
  | GCloser k => closer_step k g
  end.

Definition gateway_step (g g' : http_gateway) : Prop := exists a, gateway_fire a g = Some g'.
Definition gateway_reachable (g : http_gateway) : Prop := rtc gateway_step gateway_started g.

(** The steps the gateway takes without a peer, a new request or a call. *)
Definition gateway_own (a : gateway_action) (g : http_gateway) : bool :=
  match a with
  | GConnect | GClose => false
  | GTunnel i a => match gw_tunnels g !! i with Some t => tunnel_own a t | None => false end
  | GCloser _ => true
  end.

Definition gateway_at_rest (g : http_gateway) : Prop :=
  forall a g', gateway_own a g = true -> gateway_fire a g <> Some g'.

(** ** One tunnel: invariant, rest, termination *)

Definition copies (t : tunnel) : nat :=
  (if decide (t_up t = CopyDone) then 1 else 0) + (if decide (t_down t = CopyDone) then 1 else 0).

Definition idle_copiers (t : tunnel) : Prop := t_up t = NoCopier /\ t_down t = NoCopier /\ t_errors t = 0.
Definition live_copiers (t : tunnel) : Prop := t_up t <> NoCopier /\ t_down t <> NoCopier.

(** Which copiers there are, what the channel holds, and which ends are closed,
    at each point of the handler. *)
Definition tunnel_ok (t : tunnel) : Prop :=
  match t_pc t with
  | Dialling | Dialled | Taken | Tracked => idle_copiers t /\ t_upstreamClosed t = false
  | EndDial => idle_copiers t
  | EndHijack => idle_copiers t /\ t_upstreamClosed t = true
  | Relaying => live_copiers t /\ t_errors t = copies t /\ t_upstreamClosed t = false
  | RelayCloseClient => live_copiers t /\ S (t_errors t) = copies t
  | RelayCloseUpstream => live_copiers t /\ S (t_errors t) = copies t /\ t_clientClosed t = true
  | RelayAwait =>
      live_copiers t /\ S (t_errors t) = copies t /\ t_clientClosed t = true /\ t_upstreamClosed t = true
  | DeferUntrack | DeferCloseClient => t_errors t = 0 /\ (idle_copiers t \/ copies t = 2)
  | DeferCloseUpstream => t_errors t = 0 /\ (idle_copiers t \/ copies t = 2) /\ t_clientClosed t = true
  | EndTunnel =>
      t_errors t = 0 /\ (idle_copiers t \/ copies t = 2) /\ t_clientClosed t = true /\ t_upstreamClosed t = true
  end.

Lemma tunnel_ok_fire a t t' : tunnel_ok t -> tunnel_fire a t = Some t' -> tunnel_ok t'.
Proof.
  destruct t as [pc up down errors cc uc]. unfold tunnel_ok, idle_copiers, live_copiers, copies; simpl.
  intros Hok E. unfold_tunnel E. destruct a as [ok|ok| |ok|c d| | |]; [..|destruct pc, errors|destruct pc|]; simpl in *.
  1,2,4: destruct pc; try done; destruct ok; try done; try (destruct cc; try done); simplify_eq/=; naive_solver.
  2: destruct c, d; simpl in *; [destruct up|destruct down|destruct up|destruct down|destruct up|destruct down
                                |destruct up|destruct down]; try done; destruct cc, uc; try done.
  all: try (destruct (Nat.ltb errors httpProxyRelayStreams); [|done]); simplify_eq/=.
  all: try destruct pc; simplify_eq/=; repeat case_decide; naive_solver lia.
Qed.

Lemma tunnel_ok_close_client t : tunnel_ok t -> tunnel_ok (close_client t).
Proof. destruct t as [[] ? ? ? ? ?]; unfold tunnel_ok, close_client; simpl; naive_solver. Qed.

Definition tunnel_ended (t : tunnel) : bool :=
  match t_pc t with EndDial | EndHijack | EndTunnel => true | _ => false end.

(** A copier that waits for an open connection. *)
Definition waits (d : direction) (t : tunnel) : Prop :=
  (copier_of d t = Reading /\ source_closed d t = false) \/
  (copier_of d t = Writing /\ destination_closed d t = false).

(** A tunnel both of whose peers may still talk. *)
Definition tunnel_alive (t : tunnel) : Prop :=
  t_pc t = Relaying /\ waits Upwards t /\ waits Downwards t /\
  t_clientClosed t = false /\ t_upstreamClosed t = false.

(** A tunnel whose client was closed while both copiers are in a call on the open
    upstream: one writes to it, the other reads from it. *)
Definition tunnel_stuck (t : tunnel) : Prop :=
  t_pc t = Relaying /\ t_up t = Writing /\ t_down t = Reading /\
  t_clientClosed t = true /\ t_upstreamClosed t = false.

Definition tunnel_at_rest (t : tunnel) : Prop :=
  forall a, tunnel_own a t = true -> tunnel_fire a t = None.

(** A copier at rest with no result to send waits for an open connection. *)
Lemma copier_rest d t :
  tunnel_at_rest t -> copier_of d t <> NoCopier -> copier_of d t <> CopyDone -> t_errors t < httpProxyRelayStreams ->
  waits d t.
Proof.
  intros Hrest Hn Hd He. pose proof (Hrest (TCopy CopyEnds d)) as Hends. pose proof (Hrest (TCopy CopySend d)) as Hsend.
  unfold waits. simpl in *. unfold call_closed, copyHTTPProxyStream in *.
  destruct (copier_of d t) eqn:Hc; try done.
  - left. split; [done|]. destruct (source_closed d t); [|done]. by specialize (Hends eq_refl).
  - right. split; [done|]. destruct (destination_closed d t); [|done]. by specialize (Hends eq_refl).
  - specialize (Hsend eq_refl). by rewrite (proj2 (Nat.ltb_lt _ _) He) in Hsend.
Qed.

(** No send of a copier blocks, and nothing else does but a call on an open
    connection. *)
Lemma tunnel_rest t :
  tunnel_ok t -> tunnel_at_rest t -> tunnel_ended t = true \/ tunnel_alive t \/ tunnel_stuck t.
Proof.
  destruct t as [pc up down errors cc uc]. intros Hok Hrest. unfold tunnel_ended, tunnel_alive, tunnel_stuck. simpl.
  pose proof (fun d => copier_rest d _ Hrest) as Hcop.
  pose proof (Hrest TRelay eq_refl) as Hrecv. pose proof (Hrest TClose eq_refl) as Hclose.
  destruct pc; simpl in *; try done; try by left.
  - by specialize (Hrest (TDial true) eq_refl).
  - by specialize (Hrest (THijack true) eq_refl).
  - by specialize (Hrest TTrack eq_refl).
  - by specialize (Hrest (TWrite false) eq_refl).
  - right. destruct errors; [|done]. destruct Hok as ([Hu Hd] & He & Huc). simpl in *. subst uc.
    unfold copies in He. simpl in He. unfold httpProxyRelayStreams in Hcop.
    assert (up <> CopyDone /\ down <> CopyDone) as [Hu' Hd'] by (repeat case_decide; naive_solver).
    pose proof (Hcop Upwards Hu Hu' ltac:(lia)) as Wu. pose proof (Hcop Downwards Hd Hd' ltac:(lia)) as Wd.
    destruct cc; [right|left; done]. unfold waits in Wu, Wd. simpl in *. naive_solver.
  - exfalso. destruct errors; [|done]. destruct Hok as ([Hu Hd] & He & Hc & Huc). simpl in *. subst cc uc.
    unfold httpProxyRelayStreams in Hcop. pose proof (fun H => Hcop Upwards Hu H ltac:(lia)) as Wu.
    pose proof (fun H => Hcop Downwards Hd H ltac:(lia)) as Wd. unfold copies, waits in *. simpl in *.
    repeat case_decide; naive_solver.
  - by specialize (Hrest TUntrack eq_refl).
Qed.

(** *** Termination *)

Definition pc_rank (p : tunnel_pc) : nat :=
  match p with
  | Dialling => 11 | Dialled => 10 | Taken => 9 | Tracked => 8 | Relaying => 7 | RelayCloseClient => 6
  | RelayCloseUpstream => 5 | RelayAwait => 4 | DeferUntrack => 3 | DeferCloseClient => 2
  | DeferCloseUpstream => 1 | EndDial | EndHijack | EndTunnel => 0
  end.
Definition copier_rank (c : copier) : nat :=
  match c with NoCopier => 0 | Reading | Writing => 2 | CopySending => 1 | CopyDone => 0 end.
Definition tunnel_measure (t : tunnel) : nat :=
  5 * pc_rank (t_pc t) + copier_rank (t_up t) + copier_rank (t_down t).

Lemma tunnel_fire_measure a t t' :
  tunnel_ok t -> tunnel_own a t = true -> tunnel_fire a t = Some t' -> tunnel_measure t' < tunnel_measure t.
Proof.
  destruct t as [pc up down errors cc uc]. unfold tunnel_ok, tunnel_measure, idle_copiers. simpl.
  intros Hok Ho E. unfold_tunnel E. destruct a as [ok|ok| |ok|c d| | |]; [..|destruct pc, errors|destruct pc|]; simpl in *.
  1,2,4: destruct pc; try done; destruct ok; try done; try (destruct cc; try done); simplify_eq/=;
         destruct_and?; simplify_eq/=; lia.
  2: destruct c; try done; destruct d; simpl in *; [destruct up|destruct down|destruct up|destruct down]; try done.
  all: try (destruct (Nat.ltb errors httpProxyRelayStreams); [|done]); simplify_eq/=; try lia.
  all: try destruct pc; simplify_eq/=; lia.
Qed.

(** ** The gateway: invariant *)

Definition tracked_pc (p : tunnel_pc) : bool :=
  match p with
  | Tracked | Relaying | RelayCloseClient | RelayCloseUpstream | RelayAwait | DeferUntrack => true
  | _ => false
  end.

(** The handler has gone past [trackHijacked]. *)
Definition established (p : tunnel_pc) : bool :=
  match p with DeferCloseClient | DeferCloseUpstream | EndTunnel => true | p => tracked_pc p end.

Definition pending (i : nat) (g : http_gateway) : Prop :=
  exists k todo server, gw_closers g !! k = Some (Closing todo server) /\ i ∈ todo.

Record gateway_inv (g : http_gateway) : Prop := {
  gi_tunnels : forall i t, gw_tunnels g !! i = Some t -> tunnel_ok t;
  gi_hijacked : forall i, i ∈ gw_hijacked g <-> exists t, gw_tunnels g !! i = Some t /\ tracked_pc (t_pc t) = true;
  gi_seen : forall i, i ∈ gw_seen g -> exists t, gw_tunnels g !! i = Some t /\
    established (t_pc t) = true /\ (t_clientClosed t = true \/ pending i g);
}.

(** What one action of a tunnel does to the map and to the marks on it. *)
Lemma tunnel_fire_tracked a t t' i (h : gset nat) :
  (i ∈ h <-> tracked_pc (t_pc t) = true) -> tunnel_fire a t = Some t' ->
  (i ∈ track i a h <-> tracked_pc (t_pc t') = true).
Proof.
  intros Hi E. unfold_tunnel E. destruct t as [pc up down errors cc uc].
  destruct a as [ok|ok| |ok|c d| | |]; unfold track, trackHijacked, untrackHijacked; simpl in *.
  all: try (destruct pc; try done; try destruct ok; try destruct cc; try destruct errors; simplify_eq/=; set_solver).
  all: destruct d; repeat (case_match; try done); simplify_eq/=; done.
Qed.

Lemma track_other i j a (h : gset nat) : i <> j -> (i ∈ track j a h <-> i ∈ h).
Proof. unfold track, trackHijacked, untrackHijacked. destruct a; set_solver. Qed.

Lemma tunnel_fire_keeps a t t' :
  tunnel_fire a t = Some t' ->
  (established (t_pc t) = true -> established (t_pc t') = true) /\
  (t_clientClosed t = true -> t_clientClosed t' = true).
Proof.
  intros E. unfold_tunnel E. destruct t as [pc up down errors cc uc].
  destruct a as [ok|ok| |ok|c d| | |]; simpl in *.
  all: try (destruct pc; try done; try destruct ok; try destruct cc; try destruct errors; simplify_eq/=; done).
  all: destruct d; repeat (case_match; try done); simplify_eq/=; done.
Qed.

(** The invariant reads the tunnels through their marks, and the closers through
    what is pending. *)
Lemma gateway_inv_tunnel g i a t t' :
  gateway_inv g -> gw_tunnels g !! i = Some t -> tunnel_fire a t = Some t' ->
  gateway_inv (mkHTTPGateway (gw_server g) (gw_shutdown g) (track i a (gw_hijacked g)) (<[i := t']> (gw_tunnels g))
                 (gw_closers g) (gw_seen g)).
Proof.
  intros [Ht Hh Hs] Hi E. pose proof (tunnel_fire_keeps _ _ _ E) as [Ke Kc]. constructor; simpl.
  - intros j u. rewrite list_lookup_insert. case_decide as Hij; [|apply Ht].
    intros [= <-]. by eapply tunnel_ok_fire; [eapply Ht|].
  - intros j. destruct (decide (j = i)) as [->|Hne].
    + rewrite (tunnel_fire_tracked a t t'); [| |done].
      * rewrite list_lookup_insert_eq by (by eapply lookup_lt_Some). naive_solver.
      * rewrite Hh, Hi. naive_solver.
    + rewrite track_other, Hh, list_lookup_insert_ne by done. done.
  - intros j Hj. destruct (Hs j Hj) as (u & Hu & He & Hc). destruct (decide (j = i)) as [->|Hne].
    + assert (u = t) as -> by congruence. exists t'. rewrite list_lookup_insert_eq by (by eapply lookup_lt_Some).
      split; [done|]. split; [auto|]. destruct Hc; auto.
    + exists u. rewrite list_lookup_insert_ne by done. auto.
Qed.

Lemma pending_insert g k c j todo server :
  gw_closers g !! k = Some (Closing todo server) ->
  pending j g ->
  pending j (set_closer k c g) \/ j ∈ todo.
Proof.
  intros Hk (k' & todo' & server' & Hk' & Hj). destruct (decide (k' = k)) as [->|Hne].
  - right. congruence.
  - left. exists k', todo', server'. simpl. by rewrite list_lookup_insert_ne.
Qed.

(** One connection of a snapshot is closed. *)
Lemma gateway_inv_closes g k i todo server :
  gateway_inv g -> gw_closers g !! k = Some (Closing (i :: todo) server) ->
  gateway_inv (mkHTTPGateway (gw_server g) (gw_shutdown g) (gw_hijacked g) (alter close_client i (gw_tunnels g))
                 (<[k := Closing todo server]> (gw_closers g)) (gw_seen g)).
Proof.
  intros [Ht Hh Hs] Hk. constructor; simpl.
  - intros j u. destruct (decide (i = j)) as [->|Hne].
    + rewrite list_lookup_alter_eq. intros (t & Ht' & ->)%fmap_Some. by apply tunnel_ok_close_client, (Ht j).
    + rewrite list_lookup_alter_ne by done. apply Ht.
  - intros j. rewrite Hh. destruct (decide (i = j)) as [->|Hne].
    + rewrite list_lookup_alter_eq. destruct (gw_tunnels g !! j) as [t|]; naive_solver.
    + by rewrite list_lookup_alter_ne.
  - intros j Hj. destruct (Hs j Hj) as (u & Hu & He & Hc). destruct (decide (i = j)) as [->|Hne].
    + exists (close_client u). rewrite list_lookup_alter_eq, Hu. split; [done|]. split; [done|]. by left.
    + exists u. rewrite list_lookup_alter_ne by done. split; [done|]. split; [done|].
      destruct Hc as [Hc|Hc]; [by left|right].
      destruct (pending_insert _ _ (Closing todo server) _ _ _ Hk Hc) as [(k' & t' & b' & H1 & H2)|[?|Hin]%elem_of_cons].
      * by exists k', t', b'.
      * done.
      * exists k, todo, server. simpl. by rewrite list_lookup_insert_eq by (by eapply lookup_lt_Some).
Qed.

(** A call of [Close] with nothing left of its snapshot moves on. *)
Lemma gateway_inv_closer_moves g k c shutdown :
  gateway_inv g -> (forall todo server, gw_closers g !! k = Some (Closing todo server) -> todo = []) ->
  gateway_inv (mkHTTPGateway (gw_server g) shutdown (gw_hijacked g) (gw_tunnels g)
                 (<[k := c]> (gw_closers g)) (gw_seen g)).
Proof.
  intros [Ht Hh Hs] Hk. constructor; simpl; [done|done|]. intros j Hj.
  destruct (Hs j Hj) as (u & Hu & He & Hc). exists u. split; [done|]. split; [done|].
  destruct Hc as [Hc|(k' & todo & b & Hk' & Hin)]; [by left|right]. exists k', todo, b. simpl.
  destruct (decide (k' = k)) as [->|Hne]; [|by rewrite list_lookup_insert_ne].
  apply Hk in Hk'. subst todo. by apply elem_of_nil in Hin.
Qed.

Lemma gateway_inv_begin g : gateway_inv g -> gateway_inv (beginClose g).
Proof.
  intros [Ht Hh Hs]. constructor; simpl; [done|done|]. intros j [Hj|Hj]%elem_of_union.
  - destruct (proj1 (Hh j) Hj) as (t & Htj & Hp). exists t. split; [done|].
    split; [destruct (t_pc t); done|]. right.
    exists (length (gw_closers g)), (elements (gw_hijacked g)), (gw_server g). simpl.
    rewrite lookup_app_r, Nat.sub_diag by done. split; [done|]. by apply elem_of_elements.
  - destruct (Hs j Hj) as (u & Hu & He & Hc). exists u. split; [done|]. split; [done|].
    destruct Hc as [Hc|(k & todo & b & Hk & Hin)]; [by left|right]. exists k, todo, b. simpl.
    by rewrite lookup_app_l by (by eapply lookup_lt_Some).
Qed.

Lemma gateway_inv_connect g c :
  gateway_inv g -> gateway_inv (mkHTTPGateway (gw_server g) c (gw_hijacked g) (gw_tunnels g ++ [new_tunnel])
                                  (gw_closers g) (gw_seen g)).
Proof.
  intros [Ht Hh Hs]. constructor; simpl.
  - intros i t [Hi|[_ Hi]]%lookup_app_Some; [by eapply Ht|]. apply list_lookup_singleton_Some in Hi as [_ <-]. done.
  - intros i. rewrite Hh. split.
    + intros (t & Hi & Hp). exists t. by rewrite lookup_app_l by (by eapply lookup_lt_Some).
    + intros (t & [Hi|[_ Hi]]%lookup_app_Some & Hp); [eauto|].
      by apply list_lookup_singleton_Some in Hi as [_ <-].
  - intros i Hi. destruct (Hs i Hi) as (t & Hti & Hr). exists t.
    by rewrite lookup_app_l by (by eapply lookup_lt_Some).
Qed.

Lemma gateway_inv_step a g g' : gateway_inv g -> gateway_fire a g = Some g' -> gateway_inv g'.
Proof.
  intros Hg E. destruct a as [|i a| |k]; simpl in E.
  - destruct (gw_shutdown g); [done|]. injection E as <-. by apply gateway_inv_connect.
  - apply bind_Some in E as (t & Hi & E). apply bind_Some in E as (t' & E & [= <-]). by eapply gateway_inv_tunnel.
  - injection E as <-. by apply gateway_inv_begin.
  - unfold closer_step, set_closer in E. destruct (gw_closers g !! k) as [[[|i todo] [|]| |]|] eqn:Hk; simplify_eq.
    all: first [by eapply gateway_inv_closes | apply gateway_inv_closer_moves; naive_solver].
Qed.

Lemma gateway_reachable_inv g : gateway_reachable g -> gateway_inv g.
Proof.
  apply (rtc_invariant _ gateway_inv); [by intros x y Hx [a E]; eapply gateway_inv_step|].
  constructor; simpl; [done| |set_solver]. intros i. split; [set_solver|by intros (t & Hi & _)].
Qed.

(** ** Termination *)

Definition closer_rank (c : closer) : nat :=
  match c with Closing todo _ => length todo + 2 | ShuttingDown => 1 | Closed => 0 end.

Definition gateway_measure (g : http_gateway) : nat :=
  sum_list (tunnel_measure <$> gw_tunnels g) + sum_list (closer_rank <$> gw_closers g).

Lemma measure_close_client (i : nat) (l : list tunnel) : tunnel_measure <$> alter close_client i l = tunnel_measure <$> l.
Proof.
  apply list_eq. intros j. rewrite !list_lookup_fmap. destruct (decide (i = j)) as [->|Hne].
  - rewrite list_lookup_alter_eq. by destruct (l !! j).
  - by rewrite list_lookup_alter_ne.
Qed.

Lemma gateway_own_measure a g g' :
  gateway_inv g -> gateway_own a g = true -> gateway_fire a g = Some g' -> gateway_measure g' < gateway_measure g.
Proof.
  intros [Ht _ _] Ho E. unfold gateway_measure. destruct a as [|i a| |k]; try done; simpl in E.
  - apply bind_Some in E as (t & Hi & E). apply bind_Some in E as (t' & E & [= <-]). simpl.
    pose proof (sum_list_insert tunnel_measure _ _ _ t' Hi).
    simpl in Ho. rewrite Hi in Ho. pose proof (tunnel_fire_measure _ _ _ (Ht _ _ Hi) Ho E). lia.
  - unfold closer_step, set_closer in E. destruct (gw_closers g !! k) as [[[|i todo] b| |]|] eqn:Hk; try done.
    + assert (exists c s, closer_rank c < 2 /\ g' = mkHTTPGateway (gw_server g) s (gw_hijacked g) (gw_tunnels g)
        (<[k := c]> (gw_closers g)) (gw_seen g)) as (c & s & Hc & ->).
      { destruct b; injection E as <-; [by exists ShuttingDown, true; split; [simpl; lia|]
                                       |by exists Closed, (gw_shutdown g); split; [simpl; lia|]]. }
      simpl. pose proof (sum_list_insert closer_rank _ _ _ c Hk). simpl in *. lia.
    + injection E as <-. simpl. pose proof (sum_list_insert closer_rank _ _ _ (Closing todo b) Hk). simpl in *.
      rewrite measure_close_client. lia.
    + injection E as <-. simpl. pose proof (sum_list_insert closer_rank _ _ _ Closed Hk). simpl in *. lia.
Qed.

(** ** What [Close] achieves *)

(** Every tunnel is accounted for: the map [hijacked] holds exactly the tunnels
    between [trackHijacked] and [untrackHijacked], and a handler that has ended
    has closed its client connection if it had taken it, and its upstream, and
    with it its reservation of the cell, if it had dialled it, leaving no
    copying goroutine behind. *)
Theorem gateway_tunnels_accounted g :
  gateway_reachable g ->
  (forall i, i ∈ gw_hijacked g <-> exists t, gw_tunnels g !! i = Some t /\ tracked_pc (t_pc t) = true) /\
  (forall i t, gw_tunnels g !! i = Some t -> tunnel_ended t = true ->
     i ∉ gw_hijacked g /\
     (t_pc t = EndDial \/ t_upstreamClosed t = true) /\ (t_pc t = EndTunnel -> t_clientClosed t = true) /\
     (t_up t = NoCopier \/ t_up t = CopyDone) /\ (t_down t = NoCopier \/ t_down t = CopyDone)).
Proof.
  intros [Ht Hh _]%gateway_reachable_inv. split; [done|]. intros i t Hi He.
  pose proof (Ht _ _ Hi) as Hok. split; [|clear Hh].
  - rewrite Hh. intros (u & Hu & Hp). assert (u = t) as -> by congruence. unfold tunnel_ended in He. by destruct (t_pc t).
  - unfold tunnel_ok, tunnel_ended, idle_copiers, copies in *. destruct (t_pc t); try done.
    all: repeat case_decide; naive_solver.
Qed.

(** *** A stuck tunnel *)

(** The steps of a tunnel's own. *)
Definition tunnel_own_step (t t' : tunnel) : Prop := exists a, tunnel_own a t = true /\ tunnel_fire a t = Some t'.

(** The client is closed and one of the copiers is past its call on the upstream. *)
Definition tunnel_freed (t : tunnel) : Prop :=
  tunnel_ok t /\ established (t_pc t) = true /\ t_clientClosed t = true /\
  ~ (t_pc t = Relaying /\ t_up t = Writing /\ t_down t = Reading).

(** Whatever the upstream does next frees it, *)
Lemma stuck_freed a t t' : tunnel_ok t -> tunnel_stuck t -> tunnel_fire a t = Some t' -> tunnel_freed t'.
Proof.
  intros Hok (Hp & Hu & Hd & Hc & Huc) E. split; [by eapply tunnel_ok_fire|].
  destruct (tunnel_fire_keeps _ _ _ E) as [He Hcl]. split; [apply He; by rewrite Hp|]. split; [auto|]. clear He Hcl.
  pose proof (Hok) as Hok'. destruct t as [pc up down errors cc uc]. simpl in *. subst.
  unfold tunnel_ok, copies in Hok'. simpl in Hok'. destruct Hok' as (_ & -> & _). unfold_tunnel E.
  destruct a as [ok|ok| |ok|c d| | |]; simpl in *; try done.
  destruct c, d; simplify_eq/=; naive_solver.
Qed.

(** and a freed tunnel stays so until it has ended. *)
Lemma freed_step t t' : tunnel_freed t -> tunnel_own_step t t' -> tunnel_freed t'.
Proof.
  intros (Hok & He & Hc & Hn) (a & Ho & E). split; [by eapply tunnel_ok_fire|].
  destruct (tunnel_fire_keeps _ _ _ E) as [He' Hcl]. split; [auto|]. split; [auto|]. clear He' Hcl.
  destruct t as [pc up down errors cc uc]. simpl in *. subst cc. unfold_tunnel E.
  destruct a as [ok|ok| |ok|c d| | |]; simpl in *.
  5: { destruct c; try done; destruct d; repeat (case_match; try done); simplify_eq/=; naive_solver. }
  all: destruct pc; try done; try destruct ok; try destruct errors; simplify_eq/=; naive_solver.
Qed.

Lemma freed_ends t t' : tunnel_freed t -> rtc tunnel_own_step t t' -> tunnel_at_rest t' -> t_pc t' = EndTunnel.
Proof.
  intros Hf Hs Hrest. assert (Hf' : tunnel_freed t') by (by eapply (rtc_invariant _ tunnel_freed); eauto using freed_step).
  destruct Hf' as (Hok & He & Hc & Hn).
  destruct (tunnel_rest _ Hok Hrest) as [Hend|[(_ & _ & _ & Hc' & _)|(? & ? & ? & _)]]; [|congruence|naive_solver].
  unfold tunnel_ended in Hend. by destruct (t_pc t').
Qed.


Module TunnelExamples.

Fixpoint gateway_fire_all (l : list gateway_action) (g : http_gateway) : option http_gateway :=
  match l with
  | [] => Some g
  | a :: l => g ← gateway_fire a g; gateway_fire_all l g
  end.

Lemma gateway_replay l g0 g : gateway_fire_all l g0 = Some g -> rtc gateway_step g0 g.
Proof.
  revert g0. induction l as [|a l IH]; intros g0 H; simpl in H; [by simplify_eq|].
  apply bind_Some in H as (g1 & E & H). eapply rtc_l; [by exists a|by apply IH].
Qed.

(** A handler up to its relay, and from a closed client to its end. *)
Definition establish (i : nat) : list gateway_action :=
  GTunnel i <$> [TDial true; THijack true; TTrack; TWrite true].
Definition unwind (i : nat) : list gateway_action :=
  GTunnel i <$> [TCopy CopyEnds Upwards; TCopy CopySend Upwards; TRelay; TRelay; TRelay; TCopy CopyEnds Downwards;
                 TCopy CopySend Downwards; TRelay; TUntrack; TClose; TClose].

(** No step of its own is left to a gateway with one tunnel and one [Close]. *)
Ltac one_tunnel_rests :=
  let a := fresh in let g' := fresh in let Ho := fresh in let E := fresh in
  intros a g' Ho E; destruct a as [|[|?] [?|?| |?|[] []| | |]| |[|?]]; first [discriminate Ho | discriminate E].

(** One tunnel is up when [Close] is called. *)
Definition closed_run : list gateway_action :=
  GConnect :: establish 0 ++ [GClose; GCloser 0; GCloser 0; GCloser 0] ++ unwind 0.

Definition closed_gateway : http_gateway :=
  mkHTTPGateway false true ∅ [mkTunnel EndTunnel CopyDone CopyDone 0 true true] [Closed] {[0]}.

Lemma closed_run_reachable : gateway_reachable closed_gateway.
Proof. apply (gateway_replay closed_run). vm_compute. reflexivity. Qed.

Lemma closed_run_rests : gateway_at_rest closed_gateway.
Proof. one_tunnel_rests. Qed.

Lemma gateway_tunnels_accounted_witness :
  forall t, gw_tunnels closed_gateway !! 0 = Some t -> tunnel_ended t = true -> 0 ∉ gw_hijacked closed_gateway.
Proof. intros t Ht He. exact (proj1 (proj2 (gateway_tunnels_accounted _ closed_run_reachable) 0 t Ht He)). Defined.

(** A handler whose dial is under way when [Close] takes its snapshot: it hijacks
    and tracks its connection afterwards, [Close] and [Shutdown] have returned,
    and the tunnel is up, holding its reservation; nothing of the gateway is
    left to end it. *)
Definition late_run : list gateway_action :=
  [GConnect; GClose; GCloser 0; GCloser 0] ++ establish 0.

Definition late_gateway : http_gateway :=
  mkHTTPGateway false true {[0]} [mkTunnel Relaying Reading Reading 0 false false] [Closed] ∅.

Lemma late_run_reachable : gateway_reachable late_gateway.
Proof. apply (gateway_replay late_run). vm_compute. reflexivity. Qed.

Theorem tunnel_outlives_close :
  exists g t, gateway_reachable g /\ gw_shutdown g = true /\ gw_closers g = [Closed] /\
    gw_tunnels g = [t] /\ tunnel_alive t /\ gateway_at_rest g.
Proof.
  exists late_gateway. eexists. split; [exact late_run_reachable|]. split; [reflexivity|].
  split; [reflexivity|]. split; [reflexivity|]. split; [repeat split; left; done|].
  one_tunnel_rests.
Qed.

(** An upload whose upstream has stopped reading: [Close] closes the client, the
    copier stays in its [Write], the other in its [Read], and the reservation of the
    cell stays taken. *)
Definition stuck_run : list gateway_action :=
  GConnect :: establish 0 ++ [GTunnel 0 (TCopy CopyRead Upwards); GClose; GCloser 0; GCloser 0; GCloser 0].

Definition stuck_gateway : http_gateway :=
  mkHTTPGateway false true {[0]} [mkTunnel Relaying Writing Reading 0 true false] [Closed] {[0]}.

Theorem tunnel_stuck_after_close :
  gateway_reachable stuck_gateway /\ gateway_at_rest stuck_gateway /\ 0 ∈ gw_seen stuck_gateway /\
  gw_closers stuck_gateway = [Closed] /\ exists t, gw_tunnels stuck_gateway = [t] /\ tunnel_stuck t.
Proof.
  split; [apply (gateway_replay stuck_run); vm_compute; reflexivity|].
  split; [one_tunnel_rests|]. split; [refine (bool_decide_unpack _ _); vm_compute; exact I|].
  split; [reflexivity|]. eexists. split; [reflexivity|]. repeat split.
Qed.


End TunnelExamples.
