(* ===== verification/Discipline.v ===== *)
(** * Locking discipline of the controller

    A goroutine holds at most one spawn mutex at a time, takes none while it
    holds one, performs a spawn only while it holds the mutex of the pool it
    spawns for, and gives every mutex back.  From this follow mutual exclusion
    of spawns per pool, absence of deadlock, and termination of every goroutine
    under every schedule. *)

From S2P Require Import Prelude GoStrings Encoding UrlParse Types Config Routing PoolState Lease Prog System.
From S2P Require Import Socks Manager Reaper Cells Conversation Gateway Api Invariant.

(** ** The discipline of one program *)

Section discipline.
Variable specs : gmap string PoolSpec.

(** The mutex held after an operation. *)
Definition lock_after {R} (h : option string) (o : op R) : option string :=
  match o with OpLock n => Some n | OpUnlock _ => None | _ => h end.

(** What must hold before an operation. *)
Definition lock_pre {R} (h : option string) (o : op R) : Prop :=
  match o with
  | OpLock _ => h = None
  | OpUnlock n => h = Some n
  | OpSpawn req => h = Some (req_Pool req)
  | OpPool key _ => key ∈ dom specs
  | _ => True
  end.

(** The responses that depend on the pool map, which never changes. *)
Definition respond {R} (o : op R) : R -> Prop :=
  match o in op R return R -> Prop with
  | OpLookupPool key => fun r => r = specs !! key
  | OpPools => fun r => r = specs
  | _ => fun _ => True
  end.

(** [disc h h' Q p]: [p], started with mutex [h] held, follows the
    discipline and ends with [h'] held and a value in [Q]. *)
Fixpoint disc (h h' : option string) {A} (Q : A -> Prop) (p : sys A) : Prop :=
  match p with
  | Ret a => h = h' /\ Q a
  | Op o k => lock_pre h o /\ forall r, respond o r -> disc (lock_after h o) h' Q (k r)
  end.

Lemma disc_bind h h1 h' {A B} (Q : A -> Prop) (Q' : B -> Prop) (p : sys A) (f : A -> sys B) :
  disc h h1 Q p -> (forall a, Q a -> disc h1 h' Q' (f a)) -> disc h h' Q' (p ≫= f).
Proof.
  revert h. induction p as [a|R o k IH]; intros h Hp Hf; simpl in *.
  - destruct Hp as [-> Ha]. by apply Hf.
  - destruct Hp as [Hl Hk]. split; [done|]. intros r Hr. apply IH; auto.
Qed.

Lemma disc_call h {R} (o : op R) : lock_pre h o -> disc h (lock_after h o) (respond o) (call o).
Proof. intros Hl. split; [done|]. intros r Hr. done. Qed.

Lemma disc_any h {R} (o : op R) :
  lock_pre h o -> disc h (lock_after h o) (fun _ => True) (call o).
Proof. intros Hl. split; [done|]. done. Qed.

Lemma disc_for_each h {A} (l : list A) (body : A -> sys unit) :
  (forall x, x ∈ l -> disc h h (fun _ => True) (body x)) ->
  disc h h (fun _ => True) (for_each l body).
Proof.
  induction l as [|x l IH]; intros Hb; [done|]. cbn [for_each].
  eapply disc_bind; [apply Hb; left|]. intros _ _. apply IH. intros; apply Hb. by right.
Qed.

Lemma disc_fold h {A S} (body : S -> A -> sys S) (l : list A) s :
  (forall s x, x ∈ l -> disc h h (fun _ => True) (body s x)) ->
  disc h h (fun _ => True) (fold_prog body l s).
Proof.
  revert s. induction l as [|x l IH]; intros s Hb; [done|]. cbn [fold_prog].
  eapply disc_bind; [apply Hb; left|]. intros s' _. apply IH. intros; apply Hb. by right.
Qed.
End discipline.

(** ** The discipline of the controller's programs *)

Section programs.
Context `{UC : GoUnicode, HA : GoHash, NI : GoNetip, MO : MapOrder}.
Variable m : Manager.
Variable tokenDigest : string.

Abbreviation dis h p := (disc (m_specs m) h h (fun _ => True) p).

Ltac dbind L := eapply disc_bind; [apply L; try done | intros ? ?].
(** Steps over an operation that needs no mutex. *)
Ltac dquiet := eapply disc_bind; [apply disc_any; exact I | intros ? _; cbn [lock_after]].

Lemma disc_getPool h name :
  disc (m_specs m) h h (fun st => forall s, st = Some s -> ref_ok m s) (getPool name).
Proof.
  unfold getPool. eapply disc_bind; [by apply disc_call|]. intros r Hr. simpl in *. split; [done|].
  intros s. destruct r; [|done]. by intros [= <-].
Qed.

Lemma disc_allPools h : disc (m_specs m) h h (Forall (ref_ok m)) allPools.
Proof.
  unfold allPools. eapply disc_bind; [by apply disc_call|]. intros r ->. simpl. split; [done|].
  apply Forall_forall. intros st Hst. change (map ?f ?l) with (f <$> l) in Hst.
  apply list_elem_of_fmap in Hst as ([k spec] & -> & Hin). by apply elem_of_range in Hin.
Qed.

Lemma disc_section h {R} st (f : Z -> nat -> PoolState -> PoolState * R) :
  ref_ok m st -> dis h (section st f).
Proof. intros Hst. apply (disc_any _ h (OpPool _ _)). simpl. apply elem_of_dom. by eexists. Qed.

Lemma disc_write h st f : ref_ok m st -> dis h (write st f).
Proof. apply disc_section. Qed.

Lemma disc_excludeConfsFor h e st : ref_ok m st -> dis h (excludeConfsFor e st).
Proof. intros Hst. destruct e; [|done]. unfold excludeConfsFor, snapshotOf. by dbind disc_section. Qed.

Lemma disc_recordSpawnFailure h st conf e : ref_ok m st -> dis h (recordSpawnFailure st conf e).
Proof. intros Hst. unfold recordSpawnFailure. dquiet. dquiet. by dbind disc_write. Qed.

(** A spawn happens with the pool's mutex held. *)
Lemma disc_spawnFromState st e :
  ref_ok m st -> dis (Some (Name (ref_Spec st))) (spawnFromState m st e).
Proof.
  intros Hst. unfold spawnFromState. dquiet. dbind disc_excludeConfsFor. dbind disc_section.
  destruct a1; [|done]. dquiet. eapply disc_bind; [by apply disc_any|]. intros r _. cbn [lock_after].
  destruct r.
  - dquiet. dquiet. dquiet. dquiet. by dbind disc_write.
  - by dbind disc_recordSpawnFailure.
Qed.

Lemma disc_acquireFromState st e : ref_ok m st -> dis None (acquireFromState m st e).
Proof.
  intros Hst. unfold acquireFromState, acquireOf. dbind disc_section. destruct a; [done|].
  eapply disc_bind; [by apply disc_any|]. intros _ _. cbn [lock_after].
  dbind disc_section. eapply (disc_bind _ _ (Some (Name (ref_Spec st))) _ (fun _ => True)).
  - destruct a; [done|]. by apply disc_spawnFromState.
  - intros r _. by eapply disc_bind; [by apply disc_any|].
Qed.

Lemma disc_acquireFromPool name e ok : dis None (acquireFromPool m name e ok).
Proof.
  unfold acquireFromPool. dbind disc_getPool. destruct a as [st|]; [|done].
  eapply disc_bind; [apply disc_acquireFromState; by apply H|]. intros r _. destruct r; [done|].
  case_match; [done|]. case_match; [done|]. dbind disc_getPool. destruct a as [st'|]; [|done].
  apply disc_acquireFromState. by apply H2.
Qed.

Lemma disc_Release h acq : dis h (Release acq).
Proof. unfold Release. dbind disc_getPool. destruct a; [|done]. apply disc_write. by apply H. Qed.

Lemma disc_lookupLease h u pw : dis h (lookupLease u pw).
Proof. unfold lookupLease. dquiet. by apply (disc_any _ h (OpLeases _)). Qed.

Lemma disc_IssueLease h acq : dis h (IssueLease acq).
Proof.
  unfold IssueLease. eapply (disc_bind _ _ h _ (fun _ => True)).
  - unfold issueLease. case_match; [|done]. dquiet. case_match; [|done]. dquiet.
    case_match; [|done]. dquiet. by apply (disc_any _ h (OpLeases _)).
  - intros r _. destruct r; [|done]. dbind disc_getPool. destruct a0; [|done].
    dbind disc_write; [by apply H|done].
Qed.

Lemma disc_dialLease h u pw n a : dis h (dialLease u pw n a).
Proof.
  unfold dialLease. eapply (disc_bind _ _ h _ (fun _ => True)).
  - unfold AcquireForLease. dbind disc_lookupLease. destruct a0; [|done]. dbind disc_getPool.
    destruct a0; [|done]. dbind disc_section; [by apply H0|done].
  - intros r _. destruct r; [|done]. dquiet. destruct a1; first [done | by dbind disc_Release].
Qed.

Lemma disc_validLease h u pw : dis h (validLease u pw).
Proof. unfold validLease. by dbind disc_lookupLease. Qed.

Lemma disc_closeTimes h n c : dis h (closeTimes n c).
Proof.
  revert c. induction n as [|n IH]; intros c; [done|]. cbn [closeTimes].
  eapply (disc_bind _ _ h _ (fun _ => True)); [|intros; apply IH]. unfold closeConn.
  case_match; [done|]. by dbind disc_Release.
Qed.

Lemma disc_useConn h n c : dis h (useConn n c).
Proof. unfold useConn. dquiet. apply disc_closeTimes. Qed.

(** A program that runs a body on every pool. *)
Lemma disc_each_pool h {A} (states : list poolRef) (body : A -> poolRef -> sys A) s :
  Forall (ref_ok m) states -> (forall s st, ref_ok m st -> dis h (body s st)) ->
  dis h (fold_prog body states s).
Proof. intros Hf Hb. apply disc_fold. intros s' st Hst. apply Hb. by eapply Forall_forall in Hf. Qed.

Lemma disc_pools_each h (states : list poolRef) (body : poolRef -> sys unit) :
  Forall (ref_ok m) states -> (forall st, ref_ok m st -> dis h (body st)) ->
  dis h (for_each states body).
Proof. intros Hf Hb. apply disc_for_each. intros st Hst. apply Hb. by eapply Forall_forall in Hf. Qed.

Lemma disc_Close h : dis h Close.
Proof.
  unfold Close, snapshotOf. dbind disc_allPools. apply disc_pools_each; [done|]. intros st Hst.
  dbind disc_section. repeat (case_match; try done). dquiet. by apply disc_write.
Qed.

Lemma disc_MarkFailed h p c : dis h (MarkFailed p c).
Proof.
  unfold MarkFailed. dbind disc_getPool. destruct a; [|done]. specialize (H _ eq_refl).
  dbind disc_write. dquiet. by apply disc_write.
Qed.

Lemma disc_Views h : dis h (Views m).
Proof.
  unfold Views, snapshotOf. dquiet. dbind disc_allPools.
  eapply (disc_bind _ _ h _ (fun _ => True)); [|done].
  apply disc_each_pool; [done|]. intros s st Hst. dbind disc_section. by dbind disc_section.
Qed.

Lemma disc_ProxyViews h : dis h ProxyViews.
Proof.
  unfold ProxyViews, snapshotOf. dquiet. dbind disc_allPools.
  eapply (disc_bind _ _ h _ (fun _ => True)); [|done].
  apply disc_each_pool; [done|]. intros s st Hst. by dbind disc_section.
Qed.

Lemma disc_killTunnel h st t reason : ref_ok m st -> dis h (killTunnel st t reason).
Proof.
  intros Hst. unfold killTunnel. dbind disc_write. dquiet. dbind disc_write.
  by apply (disc_any _ h (OpMetric _)).
Qed.

Lemma disc_childControlURLs h : dis h childControlURLs.
Proof. unfold childControlURLs. by dquiet. Qed.

Lemma disc_reapIdle h : dis h (reapIdle m).
Proof.
  unfold reapIdle. dquiet. dbind disc_childControlURLs. dbind disc_allPools.
  apply disc_pools_each; [done|]. intros st Hst. unfold reapIdleOne, snapshotOf.
  dbind disc_section. repeat (case_match; try done).
  eapply (disc_bind _ _ h _ (fun _ => True)).
  - unfold hasLiveConnections. case_match; [|done]. by dquiet.
  - intros live _. destruct live; [done|]. by apply disc_killTunnel.
Qed.

Lemma disc_checkHealth h : dis h (checkHealth m).
Proof.
  unfold checkHealth. dbind disc_childControlURLs. dbind disc_allPools.
  apply disc_pools_each; [done|]. intros st Hst. unfold checkHealthOne, snapshotOf.
  dbind disc_section. repeat (case_match; try done).
  eapply (disc_bind _ _ h _ (fun _ => True)).
  - unfold probeHealthy. case_match; [by apply (disc_any _ h (OpHealthy _)) | by dquiet].
  - intros healthy _. destruct healthy; [by apply disc_section|].
    dquiet. dbind disc_write. by apply disc_killTunnel.
Qed.

Lemma disc_reapOrphans h : dis h reapOrphans.
Proof.
  unfold reapOrphans, snapshotOf. dbind disc_allPools.
  eapply (disc_bind _ _ h _ (fun _ => True)).
  - apply disc_each_pool; [done|]. intros s st Hst. by dbind disc_section.
  - intros keep _. by apply (disc_any _ h (OpReapOrphans _)).
Qed.

Lemma disc_cellView h c : dis h (cellView m c).
Proof. unfold cellView. case_match; [|done]. by dquiet. Qed.

Lemma disc_DestroyCell h id : dis h (DestroyCell id).
Proof.
  unfold DestroyCell. dquiet. destruct a; [|done]. case_match; [done|]. dquiet.
  dbind disc_allPools.
  apply (disc_bind _ _ h _ (fun st => forall s, st = Some s -> ref_ok m s)).
  - induction H0 as [|st states Hst _ IH]; [done|]. cbn [stateForContainer].
    unfold snapshotOf. dbind disc_section. repeat (case_match; try done).
    split; [done|]. by intros ? [= <-].
  - intros st Hst. eapply (disc_bind _ _ h _ (fun _ => True)); [|done].
    destruct st; [|done]. apply disc_write. by apply Hst.
Qed.

Lemma disc_socksConnection h auth n a k : dis h (socksConnection auth n a k).
Proof.
  unfold socksConnection. destruct auth as [[u pw]|]; [|done]. dbind disc_dialLease.
  destruct a0; [|done]. by dbind disc_useConn.
Qed.

Lemma disc_on_world h {A} pr (p : serving A) : forall i held, dis h (on_world pr p i held).
Proof.
  induction p as [a|R o k IH]; intros i held; [done|]. cbn [on_world].
  destruct o as [n|b|u pw|name|n a [[u pw]|]| | |]; cbn [on_op]; try (dquiet; apply IH).
  - dbind disc_validLease. apply IH.
  - dbind disc_dialLease. match goal with r : res releaseConn |- _ => destruct r end; apply IH.
  - apply IH.
  - destruct held as [c|]; [|apply IH]. eapply (disc_bind _ _ h _ (fun _ => True)); [|intros; apply IH].
    unfold closeConn. case_match; [done|]. by dbind disc_Release.
Qed.

Lemma disc_handle h hd auth request : dis h (handle hd auth request).
Proof.
  unfold handle. destruct (proxyBasicCredentials auth) as [[u pw]|]; [|done].
  dbind disc_validLease. destruct a; simpl; [|done].
  destruct request as [host outcome|target respond extra].
  - unfold handleConnect. case_match; [done|]. dbind disc_dialLease. destruct a; [|done].
    destruct outcome; first [by dbind disc_closeTimes | by dbind disc_useConn].
  - unfold handleForwardRequest. case_match; [done|]. dbind disc_dialLease. destruct a; [|done].
    by dbind disc_useConn.
Qed.

Lemma disc_handleProxy r : dis None (handleProxy m r).
Proof.
  unfold handleProxy. destruct (decodeProxyRequest r) as [request|]; [|done].
  eapply (disc_bind _ _ None _ (fun _ => True)).
  { unfold parseExcludedProxy, ResolveExcludedProxy. case_match; [done|].
    eapply (disc_bind _ _ None _ (fun _ => True)); [|done].
    repeat (case_match; try done). }
  intros excluded _. destruct excluded as [e|]; [|done].
  eapply (disc_bind _ _ None _ (fun _ => True)).
  { unfold apiAcquire, AcquireForPool, AcquireForCountry.
    repeat (case_match; try done); apply disc_acquireFromPool. }
  intros r0 _. destruct r0 as [acq|]; [|done].
  dbind disc_IssueLease. destruct a; [dquiet|]; by dbind disc_Release.
Qed.

Lemma disc_serve rt r : dis None (serve m tokenDigest rt r).
Proof.
  unfold serve. case_match; [done|]. destruct rt; simpl;
    unfold handleProxies, handlePools, handleCells, handleCell, handleDeleteCell.
  - apply disc_handleProxy.
  - repeat (case_match; try done). by dbind disc_ProxyViews.
  - repeat (case_match; try done). by dbind disc_Views.
  - repeat (case_match; try done). eapply (disc_bind _ _ None _ (fun _ => True)); [|done].
    unfold CellViews. dquiet. case_match; [|done].
    eapply (disc_bind _ _ None _ (fun _ => True)); [|done]. apply disc_fold. intros s c _.
    by dbind disc_cellView.
  - case_match; [done|]. eapply (disc_bind _ _ None _ (fun _ => True)); [|done].
    unfold CellByID. dquiet. repeat (case_match; try done). by dbind disc_cellView.
  - case_match; [done|]. by dbind disc_DestroyCell.
Qed.

Lemma disc_handler p : handler m tokenDigest p -> dis None p.
Proof.
  destruct 1.
  - by dbind disc_serve.
  - by dbind disc_socksConnection.
  - by dbind @disc_on_world.
  - by dbind disc_validLease.
  - by dbind disc_handle.
  - apply disc_reapIdle.
  - apply disc_checkHealth.
  - by dbind disc_reapOrphans.
  - apply disc_MarkFailed.
  - apply disc_Close.
Qed.
End programs.

(** ** The order of spawns *)

Section spawn_order.
Variable specs : gmap string PoolSpec.

Definition spawn_pool {R} (o : op R) : option string :=
  match o with OpSpawn req => Some (req_Pool req) | _ => None end.

(** [spawns_in l p]: whatever the responses, the pools [p] spawns for form a
    subsequence of [l]. *)
Fixpoint spawns_in (l : list string) {A} (p : sys A) : Prop :=
  match p with
  | Ret _ => True
  | Op o k =>
      match spawn_pool o with
      | Some name => exists l1 l2, l = l1 ++ name :: l2 /\
          forall r, respond specs o r -> spawns_in l2 (k r)
      | None => forall r, respond specs o r -> spawns_in l (k r)
      end
  end.

Lemma spawns_in_app l l' {A} (p : sys A) : spawns_in l p -> spawns_in (l' ++ l) p.
Proof.
  revert l l'. induction p as [a|R o k IH]; intros l l' Hp; simpl in *; [done|].
  destruct (spawn_pool o) as [name|]; [|auto].
  destruct Hp as (l1 & l2 & -> & Hk). exists (l' ++ l1), l2. by rewrite <- app_assoc.
Qed.

Lemma spawns_in_bind l1 l2 {A B} (p : sys A) (f : A -> sys B) (Q : A -> Prop) h h' :
  disc specs h h' Q p -> spawns_in l1 p -> (forall a, Q a -> spawns_in l2 (f a)) ->
  spawns_in (l1 ++ l2) (p ≫= f).
Proof.
  revert l1 h. induction p as [a|R o k IH]; intros l1 h Hd Hp Hf; simpl in *.
  - destruct Hd as [_ Ha]. apply spawns_in_app. auto.
  - destruct Hd as [_ Hd]. destruct (spawn_pool o) as [name|].
    + destruct Hp as (m1 & m2 & -> & Hk). exists m1, (m2 ++ l2). split; [by rewrite <- app_assoc|].
      intros r Hr. by eapply IH; auto.
    + intros r Hr. by eapply IH; auto.
Qed.

Lemma spawns_in_nil l {A} (p : sys A) : spawns_in [] p -> spawns_in l p.
Proof. intros Hp. rewrite <- (app_nil_r l). by apply spawns_in_app. Qed.
End spawn_order.

Section fallback.
Context `{UC : GoUnicode, HA : GoHash, NI : GoNetip, MO : MapOrder}.
Variable m : Manager.

Lemma spawns_spawnFromState st e :
  ref_ok m st -> spawns_in (m_specs m) [Name (ref_Spec st)] (spawnFromState m st e).
Proof.
  intros Hst. unfold spawnFromState. simpl. intros now _.
  apply (spawns_in_bind _ [] _ _ _ (fun _ => True) None None).
  - by apply disc_excludeConfsFor.
  - unfold excludeConfsFor. by destruct e.
  - intros exclude _. simpl. intros picked _. destruct picked as [conf|]; [|done]. simpl.
    intros start _. exists [], []. split; [done|]. intros spawned _. by destruct spawned.
Qed.

Lemma spawns_acquireFromState st e :
  ref_ok m st -> spawns_in (m_specs m) [Name (ref_Spec st)] (acquireFromState m st e).
Proof.
  intros Hst. unfold acquireFromState. simpl. intros attempt _. destruct attempt; [done|]. simpl.
  intros locked _ again _. rewrite <- (app_nil_r [Name (ref_Spec st)]).
  apply (spawns_in_bind _ _ _ _ _ (fun _ => True) (Some (Name (ref_Spec st))) (Some (Name (ref_Spec st)))).
  - destruct again; [done|]. by apply disc_spawnFromState.
  - destruct again; [done|]. by apply spawns_spawnFromState.
  - done.
Qed.
End fallback.

(** C19. Escalation is one hop: whatever the other goroutines and the outside
    do, an acquisition spawns at most one cell for the requested pool and, only
    after that and only when the caller allows it and a fallback is configured,
    at most one for that fallback; it never goes further. *)
Theorem fallback_one_hop `{GoUnicode, GoHash, GoNetip, MapOrder} m poolName spec e fallbackOK :
  (forall key s, m_specs m !! key = Some s -> Name s = key) ->
  m_specs m !! poolName = Some spec ->
  spawns_in (m_specs m)
    (poolName :: (if fallbackOK && negb (String.eqb (FallbackPool spec) "")
                  then [FallbackPool spec] else []))
    (acquireFromPool m poolName e fallbackOK).
Proof.
  intros Hn Hs.
  assert (forall key sp, m_specs m !! key = Some sp ->
    spawns_in (m_specs m) [key] (acquireFromState m (mkRef key sp) e)) as Hp.
  { intros key sp Hk. pose proof (spawns_acquireFromState m (mkRef key sp) e Hk) as Hx.
    cbn [ref_Spec] in Hx. by rewrite (Hn _ _ Hk) in Hx. }
  assert (forall key sp, m_specs m !! key = Some sp ->
    disc (m_specs m) None None (fun st => st = Some (mkRef key sp)) (getPool key)) as Hg.
  { intros key sp Hk. split; [exact I|]. intros r ->. simpl. by rewrite Hk. }
  unfold acquireFromPool.
  apply (spawns_in_bind _ [] _ _ _ (fun st => st = Some (mkRef poolName spec)) None None); [by apply Hg|done|].
  intros st ->. match goal with |- spawns_in _ (?x :: ?l) _ => change (x :: l) with ([x] ++ l) end.
  eapply (spawns_in_bind _ _ _ _ _ (fun _ => True) None None); [by apply disc_acquireFromState|by apply Hp|].
  intros acq _. destruct acq as [acq|err]; [done|]. cbn [ref_Spec].
  destruct fallbackOK; [|done]. destruct (String.eqb (FallbackPool spec) "") eqn:Ef; [done|].
  cbn [negb orb andb]. destruct (errors_is err ErrInvalidCountry); [done|].
  destruct (m_specs m !! FallbackPool spec) as [spec'|] eqn:Hs'.
  - apply (spawns_in_bind _ [] _ _ _ (fun st => st = Some (mkRef (FallbackPool spec) spec')) None None);
      [by apply Hg|done|]. intros st ->. by apply Hp.
  - intros r ->. by rewrite Hs'.
Qed.
