(* ===== verification/Concurrency.v ===== *)
(** * Concurrency theorems of the controller

    Mutual exclusion of spawns, absence of deadlock and termination, from the
    locking discipline of the goroutines. *)

From Stdlib Require Import Wellfounded.
From S2P Require Import Prelude GoStrings Encoding UrlParse Types Config Routing PoolState Lease Prog System.
From S2P Require Import Manager Reaper Cells Gateway Api Invariant Discipline.

(** ** The holders of the spawn mutexes *)

Section holders.
Variable specs : gmap string PoolSpec.

(** The mutex a goroutine's discipline says it holds is the one the state
    says it holds. *)
Definition thread_ok (w : world) (tid : nat) (p : sys unit) : Prop :=
  exists h, disc specs h None (fun _ => True) p /\
    forall n, w_spawnMu w !! n = Some (Some tid) <-> h = Some n.

Record threads_ok (w : world) (ts : list (sys unit)) : Prop := {
  to_specs : Spec <$> w_pools w = specs;
  to_threads : forall tid p, ts !! tid = Some p -> thread_ok w tid p;
  to_holders : forall n tid, w_spawnMu w !! n = Some (Some tid) -> tid < length ts;
}.

Lemma step_respond tid {R} (o : op R) a w r w' :
  Spec <$> w_pools w = specs -> op_exec tid o a w = Some (r, w') -> respond specs o r.
Proof.
  intros Hs He. destruct o; simpl in *; try done; simplify_eq; try done.
  by rewrite lookup_fmap.
Qed.

(** How an operation changes the table of mutexes. *)
Lemma step_spawnMu tid {R} (o : op R) a w r w' :
  op_exec tid o a w = Some (r, w') ->
  match o with
  | OpLock name => w_spawnMu w' = <[name := Some tid]> (poolMutexFor name (w_spawnMu w)) /\
                   poolMutexFor name (w_spawnMu w) !! name = Some None
  | OpUnlock name => w_spawnMu w' = <[name := None]> (w_spawnMu w) /\
                     w_spawnMu w !! name = Some (Some tid)
  | _ => w_spawnMu w' = w_spawnMu w
  end.
Proof.
  intros He. destruct o; simpl in *; try (repeat case_match; by simplify_eq).
  repeat case_match; simplify_eq/=. by apply Nat.eqb_eq in H1 as ->.
Qed.

Lemma poolMutexFor_held name m n tid :
  poolMutexFor name m !! n = Some (Some tid) <-> m !! n = Some (Some tid).
Proof.
  unfold poolMutexFor. destruct (m !! name) eqn:E; [done|].
  rewrite lookup_insert. case_decide; [|done]. subst. rewrite E. split; congruence.
Qed.

(** What the table says about a goroutine after an operation of [tid]. *)
Lemma step_held tid {R} (o : op R) a w r w' h :
  op_exec tid o a w = Some (r, w') -> lock_pre specs h o ->
  (forall n, w_spawnMu w !! n = Some (Some tid) <-> h = Some n) ->
  (forall n, w_spawnMu w' !! n = Some (Some tid) <-> lock_after h o = Some n) /\
  (forall n tid', tid' <> tid ->
     w_spawnMu w' !! n = Some (Some tid') <-> w_spawnMu w !! n = Some (Some tid')).
Proof.
  intros He Hl Hh. pose proof (step_spawnMu tid o a w r w' He) as Hm.
  destruct o; cbn [lock_after]; try (rewrite Hm; done); simpl in Hl.
  - destruct Hm as [-> Hfree]. split.
    + intros n. rewrite lookup_insert. case_decide; subst; [done|].
      rewrite poolMutexFor_held, Hh. split; congruence.
    + intros n tid' Ht. rewrite lookup_insert. case_decide; subst.
      * rewrite <- (poolMutexFor_held n), Hfree. split; congruence.
      * by rewrite poolMutexFor_held.
  - destruct Hm as [-> Hheld]. split.
    + intros n. rewrite lookup_insert. case_decide; subst; [done|].
      rewrite Hh. split; congruence.
    + intros n tid' Ht. rewrite lookup_insert. case_decide; subst; [|done].
      rewrite Hheld. split; congruence.
Qed.

Lemma step_specs tid {R} (o : op R) a w r w' h :
  op_exec tid o a w = Some (r, w') -> lock_pre specs h o ->
  (match o with OpPool _ f => forall now d p, Spec (f now d p).1 = Spec p | _ => True end) ->
  Spec <$> w_pools w' = Spec <$> w_pools w.
Proof.
  intros He _ Hf. destruct o; simpl in *; try (repeat case_match; by simplify_eq).
  destruct (w_pools w !! key) as [p|] eqn:Hk; [|done].
  specialize (Hf (a_now a) (a_draw a) p). destruct (f _ _ p) as [p' r'] eqn:Hfp. simplify_eq/=.
  rewrite fmap_insert, Hf. apply insert_id. by rewrite lookup_fmap, Hk.
Qed.
End holders.

(** ** Goroutines always finish *)

(** A program after one of its operations. *)
Definition continues (p q : sys unit) : Prop :=
  match q with Ret _ => False | Op o k => exists r, p = k r end.

Lemma continues_wf p : Acc continues p.
Proof.
  induction p as [a|R o k IH]; constructor; intros q Hq; simpl in Hq; [done|].
  destruct Hq as [r ->]. apply IH.
Qed.

(** One goroutine of the list makes a step. *)
Definition advances (l' l : list (sys unit)) : Prop :=
  exists i p q, l !! i = Some q /\ continues p q /\ l' = <[i := p]> l.

Lemma advances_cons x l : Acc continues x -> Acc advances l -> Acc advances (x :: l).
Proof.
  intros Hx. revert l. induction Hx as [x _ IHx]. intros l Hl. induction Hl as [l Hl IHl].
  constructor. intros l' (i & p & q & Hi & Hc & ->). destruct i as [|i]; simpl in *.
  - simplify_eq. apply IHx; [done|]. constructor. apply Hl.
  - apply IHl. by exists i, p, q.
Qed.

Lemma advances_wf l : Acc advances l.
Proof.
  induction l as [|x l IH].
  - constructor. intros l' (i & p & q & Hi & _). by rewrite lookup_nil in Hi.
  - by apply advances_cons; [apply continues_wf|].
Qed.

Section concurrency.
Context `{UC : GoUnicode, HA : GoHash, NI : GoNetip, MO : MapOrder, SC : SpawnerContract}.
Variable m : Manager.
Variable tokenDigest : string.
Hypothesis specs_named : forall key spec, m_specs m !! key = Some spec -> Name spec = key.

Abbreviation reachable c := (csteps (handler m tokenDigest) (started m) c).

(** Without new goroutines. *)
Definition ostep : config -> config -> Prop := cstep (fun _ => False).

Lemma threads_ok_step w ts w' ts' :
  world_wf m w' -> threads_ok (m_specs m) w ts ->
  cstep (handler m tokenDigest) (mkSystem w ts) (mkSystem w' ts') ->
  threads_ok (m_specs m) w' ts'.
Proof.
  intros Hw [Hs Ht Hh] Hstep. inversion Hstep as [? ? tid R o k r ? Hl (a & _ & He)|? ? p Hp]; subst.
  - destruct (Ht _ _ Hl) as (h & [Hpre Hk] & Hheld).
    destruct (step_held _ tid o a w r w' h He Hpre Hheld) as [Hme Hothers].
    constructor.
    + apply Hw.
    + intros tid' p Hp. destruct (decide (tid' = tid)) as [->|Hne].
      * rewrite list_lookup_insert_eq in Hp by (by eapply lookup_lt_Some). simplify_eq.
        exists (lock_after h o). split; [|done]. apply Hk. by eapply step_respond.
      * rewrite list_lookup_insert_ne in Hp by done. destruct (Ht _ _ Hp) as (h' & Hd & Hh').
        exists h'. split; [done|]. intros n. by rewrite Hothers.
    + intros n tid' Hn. rewrite length_insert. destruct (decide (tid' = tid)) as [->|Hne].
      * by eapply lookup_lt_Some.
      * eapply Hh. by rewrite <- Hothers.
  - constructor; [done| |].
    + intros tid q Hq. apply lookup_app_Some in Hq as [Hq|[Hlen Hq]]; [by apply Ht|].
      apply list_lookup_singleton_Some in Hq as [Hz <-]. exists None.
      split; [by apply (disc_handler m tokenDigest)|].
      intros n. split; [|done]. intros Hn%Hh. lia.
    + intros n tid Hn. rewrite length_app. specialize (Hh _ _ Hn). lia.
Qed.

(** Every reachable configuration respects the discipline. *)
Lemma reachable_ok c : reachable c -> world_wf m (c_world c) /\ threads_ok (m_specs m) (c_world c) (c_threads c).
Proof.
  intros Hr.
  enough (forall c1, csteps (handler m tokenDigest) c1 c ->
    world_wf m (c_world c1) -> Forall (safe (world_wf m) (fun _ => True)) (c_threads c1) ->
    threads_ok (m_specs m) (c_world c1) (c_threads c1) ->
    world_wf m (c_world c) /\ threads_ok (m_specs m) (c_world c) (c_threads c)) as Hgen.
  { apply (Hgen (started m) Hr); [apply world_wf_init|constructor|].
    constructor; [|done|done]. apply (world_wf_init m). }
  intros c1 Hs. induction Hs as [c1|c1 c2 c3 H12 H23 IH]; intros Hw Hsafe Hok; [done|].
  destruct (cstep_invariant (handler m tokenDigest) (world_wf m) c1 c2
    (fun p => safe_handler m tokenDigest specs_named p) (rtc_once _ _ H12) Hw Hsafe) as [Hw2 Hs2].
  apply IH; try done. destruct c1, c2. by eapply threads_ok_step.
Qed.

(** *** Enabled operations *)

Definition some_answer : answer :=
  mkAnswer 0 0 None (Err ErrSpawnFailed) None (Ok []) (Ok 0) false (Err ErrForeign) DialFailed.

Lemma some_answer_may {R} (o : op R) : may_answer o some_answer.
Proof. destruct o; try done. apply spawn_may_fail. Qed.

(** Only taking a mutex can block. *)
Lemma enabled w tid {R} (o : op R) h :
  Spec <$> w_pools w = m_specs m -> lock_pre (m_specs m) h o ->
  (forall n, w_spawnMu w !! n = Some (Some tid) <-> h = Some n) ->
  (exists r w', op_step tid o w r w') \/
  (exists n holder, h = None /\ w_spawnMu w !! n = Some (Some holder) /\
     match o with OpLock n' => n' = n | _ => False end).
Proof.
  intros Hs Hpre Hh.
  assert (forall r w', op_exec tid o some_answer w = Some (r, w') -> exists r w', op_step tid o w r w')
    as Hgo by (intros r w' He; exists r, w', some_answer; split; [apply some_answer_may|done]).
  destruct o; simpl in *; try (left; by eapply Hgo).
  - apply elem_of_dom in Hpre as [spec Hspec]. rewrite <- Hs, lookup_fmap in Hspec.
    destruct (w_pools w !! key) as [p|]; [|done]. left.
    destruct (f 0%Z 0 p) as [p' r] eqn:Hf. by eapply Hgo.
  - left. destruct (f (w_leases w)) as [l r] eqn:Hf. by eapply Hgo.
  - unfold poolMutexFor in *. destruct (w_spawnMu w !! name) as [[holder|]|] eqn:E.
    + right. by exists name, holder.
    + left. rewrite E in Hgo. by eapply Hgo.
    + left. rewrite lookup_insert_eq in Hgo. by eapply Hgo.
  - left. rewrite (proj2 (Hh name) Hpre) in Hgo. rewrite Nat.eqb_refl in Hgo. by eapply Hgo.
Qed.

Lemma thread_steps w ts tid {R} (o : op R) k r w' :
  ts !! tid = Some (Op o k) -> op_step tid o w r w' ->
  exists c', ostep (mkSystem w ts) c'.
Proof. intros Hl Hs. eexists. by eapply cstep_op. Qed.

Lemma progress w ts tid p :
  threads_ok (m_specs m) w ts -> ts !! tid = Some p -> (forall a, p <> Ret a) ->
  exists c', ostep (mkSystem w ts) c'.
Proof.
  intros [Hs Ht Hh] Hl Hp. destruct p as [a|R o k]; [by destruct (Hp a)|].
  destruct (Ht _ _ Hl) as (h & [Hpre _] & Hheld).
  destruct (enabled w tid o h Hs Hpre Hheld) as [(r & w' & Hst)|(n & holder & -> & Hn & Ho)];
    [by eapply thread_steps|].
  pose proof (Hh _ _ Hn) as Hlt. apply lookup_lt_is_Some in Hlt as [q Hq].
  destruct (Ht _ _ Hq) as (h' & Hd & Hh'). pose proof (proj1 (Hh' n) Hn) as ->.
  destruct q as [a|R' o' k']; [by destruct Hd|]. destruct Hd as [Hpre' _].
  destruct (enabled w holder o' (Some n) Hs Hpre' Hh') as [(r & w' & Hst)|(? & ? & ? & _)];
    [by eapply thread_steps|done].
Qed.

Lemma ostep_cstep c c' : ostep c c' -> cstep (handler m tokenDigest) c c'.
Proof. intros Hs. inversion Hs; [by eapply cstep_op|done]. Qed.
End concurrency.

(** C2. At most one spawn per pool is in flight: in every reachable state, two
    goroutines that are both inside the spawner for the same pool are the same
    goroutine. *)
Theorem spawn_mutual_exclusion `{GoUnicode, GoHash, GoNetip, MapOrder, SpawnerContract}
    m digest c tid1 tid2 req1 req2 k1 k2 :
  (forall key spec, m_specs m !! key = Some spec -> Name spec = key) ->
  csteps (handler m digest) (started m) c ->
  c_threads c !! tid1 = Some (Op (OpSpawn req1) k1) ->
  c_threads c !! tid2 = Some (Op (OpSpawn req2) k2) ->
  req_Pool req1 = req_Pool req2 -> tid1 = tid2.
Proof.
  intros Hn Hr H1' H2' Hp. destruct (reachable_ok m digest Hn c Hr) as [_ [_ Ht _]].
  destruct (Ht _ _ H1') as (h1 & [-> _] & Hh1). destruct (Ht _ _ H2') as (h2 & [-> _] & Hh2).
  pose proof (proj2 (Hh1 _) eq_refl) as E1. pose proof (proj2 (Hh2 _) eq_refl) as E2.
  rewrite Hp in E1. congruence.
Qed.

(** C3. The controller never deadlocks and its goroutines finish: from every
    reachable state, if no new goroutine starts, every schedule is finite, and
    it can only stop where all goroutines have returned and every spawn mutex is
    free. *)
Theorem controller_quiesces `{GoUnicode, GoHash, GoNetip, MapOrder, SpawnerContract} m digest c :
  (forall key spec, m_specs m !! key = Some spec -> Name spec = key) ->
  csteps (handler m digest) (started m) c ->
  Acc (fun c' c => ostep c c') c /\
  forall c', rtc ostep c c' -> (forall c'', ~ ostep c' c'') ->
    Forall (fun p => p = Ret tt) (c_threads c') /\
    forall n holder, w_spawnMu (c_world c') !! n <> Some (Some holder).
Proof.
  intros Hn Hr. split.
  - eapply (Acc_incl _ _ (fun x y => advances (c_threads x) (c_threads y))).
    + intros x y Hs. inversion Hs as [w ts tid R o k r w' Hl _|]; subst; [|done].
      exists tid, (k r), (Op o k). split_and!; try done. by exists r.
    + apply Acc_inverse_image, advances_wf.
  - intros c' Hs Hstuck.
    assert (csteps (handler m digest) (started m) c') as Hr'.
    { etrans; [exact Hr|]. eapply rtc_subrel; [|exact Hs]. intros ? ?. apply ostep_cstep. }
    destruct (reachable_ok m digest Hn c' Hr') as [_ Hok].
    assert (forall tid p, c_threads c' !! tid = Some p -> p = Ret tt) as Hdone.
    { intros tid p Hp. destruct p as [[]|R o k]; [done|]. destruct c' as [w ts].
      destruct (progress m w ts tid _ Hok Hp ltac:(done)) as [c'' Hc]. by apply Hstuck in Hc. }
    split.
    + apply Forall_lookup. intros i p Hp. by eapply Hdone.
    + intros n holder Hheld. pose proof Hok as [_ Ht Hh]. pose proof (Hh _ _ Hheld) as Hlt.
      apply lookup_lt_is_Some in Hlt as [q Hq]. pose proof (Hdone _ _ Hq) as ->.
      destruct (Ht _ _ Hq) as (h & [-> _] & Hh'). by apply Hh' in Hheld.
Qed.
