(* ===== verification/Scenarios.v ===== *)
(** * Concrete executions of the controller

    One small deployment, on which the schedules of the concurrency theorems
    are replayed: the witnesses of their hypotheses, and three interleavings
    that show behaviour the code's comments rule out. *)

From S2P Require Import Prelude GoStrings Json Encoding UrlParse Types Config Routing PoolState Lease Prog System.
From S2P Require Import Socks Conversation Manager Behaviour Reaper Cells Gateway Connections Api Invariant Discipline Concurrency.

Module Deployment.
#[export] Existing Instance no_unicode.
#[export] Existing Instance canonical_order.

#[export] Instance plain_hash : GoHash := {| sha256 := fun s => s |}.
#[export] Instance no_netip : GoNetip := {| parse_ip_literal := fun _ => None |}.

(** Any spawner that keeps its promises. *)
#[export] #[refine] Instance any_spawner : SpawnerContract :=
  {| spawn_may := fun req r => match r with
                               | Ok t => ConfName t = req_ConfName req /\ is_Some (ProxyURL t) /\
                                         GatewayAddr t <> ""
                               | Err _ => True
                               end |}.
Proof. all: naive_solver. Defined.

Definition cfg : Config :=
  mkConfig ":8080" ":9090" ":1080" "127.0.0.1:1080" ":8081" "127.0.0.1:8081" (15 * minute)
    "pools.json" "/bundle" "routing.json" "us" (10 * minute) (30 * second) (30 * second)
    (180 * second) (5 * minute) "cell" 1080 9000 "ctl" "net" "" "" "" "token".

Definition us_spec : PoolSpec :=
  mkPoolSpec "us" "us" "" ["us-a.conf"; "us-b.conf"] ∅ "de".
Definition de_spec : PoolSpec :=
  mkPoolSpec "de" "eu" "" ["de-a.conf"] ∅ "".
Definition specs : gmap string PoolSpec := {[ "us" := us_spec; "de" := de_spec ]}.
Definition router : Router := mkRouter {[ "us" := "us" ]} "us".
Definition mgr : Manager := mkManager cfg router specs.

Lemma specs_named key spec : m_specs mgr !! key = Some spec -> Name spec = key.
Proof.
  simpl. unfold specs. rewrite lookup_insert_Some, lookup_singleton_Some. naive_solver.
Qed.

Definition noon : Z := 1000 * minute.

Definition cell (id conf : string) : Tunnel :=
  mkTunnel id conf (Some (mkURL "socks5" None "10.0.0.2:1080")) "10.0.0.2:1080"
    TunnelStateSpawning "" "US" "" noon noon noon "" time_zero 0.

(** What the outside answers at a given time, with cell [id] for a spawn. *)
Definition at_time (now : Z) (id conf : string) : answer :=
  mkAnswer now 0 (Some "0123456789abcdef0123456789abcdef") (Ok (cell id conf)) None (Ok []) (Ok 0)
    false (Err ErrForeign) DialConnected.

Definition request : httpRequest :=
  mkHttpRequest "Bearer token" "application/json" (marshal (JObject [("pool", JString "us")]))
    (fun _ => "") "c1".

Definition post : sys unit := _ ← serve mgr "token" PostProxies request; Ret tt.

(** Goroutines start one after the other. *)
Lemma start_all hd ps w ts :
  Forall hd ps -> csteps hd (mkSystem w ts) (mkSystem w (ts ++ ps)).
Proof.
  revert ts. induction ps as [|p ps IH]; intros ts Hf.
  - rewrite app_nil_r. apply rtc_refl.
  - inversion Hf; subst. eapply rtc_l; [by apply cstep_go|].
    replace (ts ++ p :: ps) with ((ts ++ [p]) ++ ps) by by rewrite <- app_assoc. by apply IH.
Qed.

(** The spawner's promise, as a check on the answers of a schedule. *)
Definition answer_ok (R : Type) (o : op R) (a : answer) : bool :=
  match o with
  | OpSpawn req =>
      match a_spawn a with
      | Ok t => String.eqb (ConfName t) (req_ConfName req) && bool_decide (is_Some (ProxyURL t)) &&
                negb (String.eqb (GatewayAddr t) "")
      | Err _ => true
      end
  | _ => true
  end.

Lemma answer_ok_may R (o : op R) a : answer_ok R o a = true -> may_answer o a.
Proof.
  destruct o; try done. simpl. destruct (a_spawn a); [|done].
  rewrite !andb_true_iff, String.eqb_eq, bool_decide_eq_true, negb_true_iff, String.eqb_neq. tauto.
Qed.

(** [n] steps of goroutine [tid] with the same answers. *)
Definition steps (tid : nat) (a : answer) (n : nat) : list (nat * answer) := repeat (tid, a) n.

(** Start the goroutines and replay the schedule. *)
Definition play (ps : list (sys unit)) (schedule : list (nat * answer)) : option config :=
  replay answer_ok schedule (mkSystem (c_world (started mgr)) ps).

Lemma play_reachable ps schedule c :
  Forall (handler mgr "token") ps -> play ps schedule = Some c ->
  csteps (handler mgr "token") (started mgr) c.
Proof.
  intros Hps Hp. etrans; [apply (start_all _ ps _ [] Hps)|].
  by eapply (replay_csteps _ answer_ok_may).
Qed.

(** A schedule that ends in a state satisfying [check]. *)
Lemma play_ends ps schedule (check : config -> bool) :
  Forall (handler mgr "token") ps ->
  match play ps schedule with Some c => check c | None => false end = true ->
  exists c, csteps (handler mgr "token") (started mgr) c /\ check c = true.
Proof.
  intros Hps Hc. destruct (play ps schedule) as [c|] eqn:Hp; [|done].
  exists c. split; [|done]. by eapply play_reachable.
Qed.

Definition tunnel_of (key : string) (c : config) : option Tunnel :=
  w_pools (c_world c) !! key ≫= tunnel.

(** A goroutine with an open connection waits to close it. *)
Definition waiting (tid : nat) (c : config) : bool :=
  match nth_error (c_threads c) tid with
  | Some (Op o _) => match o with OpWait => true | _ => false end
  | _ => false
  end.
Definition finished (tid : nat) (c : config) : bool :=
  match nth_error (c_threads c) tid with Some (Ret _) => true | _ => false end.

Definition killed (id : string) (c : config) : bool :=
  existsb (fun e => match e with EvKill id' _ => String.eqb id' id | _ => false end)
    (w_events (c_world c)).

(** The lease the answers' random bytes give: identifier and secret. *)
Definition credential (bytes : string) : string := raw_url_encode bytes.
Definition bytes1 : string := "0123456789abcdef0123456789abcdef".
Definition bytes2 : string := "fedcba9876543210fedcba9876543210".

Definition with_bytes (b : string) (a : answer) : answer :=
  mkAnswer (a_now a) (a_draw a) (Some b) (a_spawn a) (a_kill a) (a_list a) (a_orphans a)
    (a_healthy a) (a_status a) (a_dial a).
Definition with_cells (hs : list CellHandle) (a : answer) : answer :=
  mkAnswer (a_now a) (a_draw a) (a_bytes a) (a_spawn a) (a_kill a) (Ok hs) (a_orphans a)
    (a_healthy a) (a_status a) (a_dial a).

Definition connection (bytes : string) : sys unit :=
  _ ← socksConnection (Some (credential bytes, credential bytes)) "tcp" "example.com:443" 0; Ret tt.
Definition delete : sys unit := _ ← serve mgr "token" DeleteCell request; Ret tt.
End Deployment.

Import Deployment.

(** ** Witnesses *)

Module ScenarioWitnesses.
Definition a1 : answer := at_time noon "c1" "us-a.conf".
Definition a2 : answer := with_bytes bytes2 (at_time noon "c2" "us-a.conf").
Definition later : Z := noon + 11 * minute.
Definition b2 : answer := with_bytes bytes2 (at_time later "c2" "us-b.conf").

(** Two requests race for the cold pool: one is inside the spawner. *)
Definition racing : config :=
  default (started mgr) (play [post; post] (steps 0 a1 7 ++ steps 1 a1 2)).

Lemma racing_reachable : csteps (handler mgr "token") (started mgr) racing.
Proof.
  apply (play_reachable [post; post] (steps 0 a1 7 ++ steps 1 a1 2)); [repeat constructor|].
  unfold racing. destruct (play _ _) as [c|] eqn:E; [done|]. exfalso.
  assert (match play [post; post] (steps 0 a1 7 ++ steps 1 a1 2) with Some _ => true | None => false end = true)
    as Ht by (vm_compute; reflexivity). by rewrite E in Ht.
Qed.

Lemma controller_invariant_witness :
  w_tick (c_world racing) = 9 /\ world_wf mgr (c_world racing).
Proof.
  split; [vm_compute; reflexivity|].
  exact (controller_invariant mgr "token" racing specs_named racing_reachable).
Defined.

Lemma controller_quiesces_witness :
  Acc (fun c' c => ostep c c') racing /\
  forall c', rtc ostep racing c' -> (forall c'', ~ ostep c' c'') ->
    Forall (fun p => p = Ret tt) (c_threads c') /\
    forall n holder, w_spawnMu (c_world c') !! n <> Some (Some holder).
Proof. exact (controller_quiesces mgr "token" racing specs_named racing_reachable). Defined.

(** The pool a goroutine is spawning for. *)
Definition spawning (p : sys unit) : option string :=
  match p with
  | Op o _ => match o with OpSpawn req => Some (req_Pool req) | _ => None end
  | Ret _ => None
  end.

Lemma spawning_spec p name :
  spawning p = Some name -> exists req k, p = Op (OpSpawn req) k /\ req_Pool req = name.
Proof. destruct p as [a|R o k]; [done|]. destruct o; try done. intros [= <-]. eauto. Qed.

Lemma racing_spawns :
  exists req k, c_threads racing !! 0 = Some (Op (OpSpawn req) k) /\ req_Pool req = "us".
Proof.
  assert (c_threads racing !! 0 ≫= spawning = Some "us") as Hs by (vm_compute; reflexivity).
  destruct (c_threads racing !! 0) as [p|]; [|done].
  destruct (spawning_spec p "us" Hs) as (req & k & -> & ?). eauto.
Qed.

Lemma spawn_mutual_exclusion_witness :
  exists req k, c_threads racing !! 0 = Some (Op (OpSpawn req) k) /\
    forall tid req' k', c_threads racing !! tid = Some (Op (OpSpawn req') k') ->
      req_Pool req = req_Pool req' -> 0 = tid.
Proof.
  destruct racing_spawns as (req & k & Hs & _). exists req, k. split; [exact Hs|].
  intros tid req' k' Hs' Hp.
  exact (spawn_mutual_exclusion mgr "token" racing 0 tid req req' k k' specs_named
           racing_reachable Hs Hs' Hp).
Defined.

(** *** Functions executed alone *)

Definition us : poolRef := mkRef "us" us_spec.
Definition cold : world := c_world (started mgr).

(** The state after the first request was served. *)
Definition warm : world :=
  match play [post] (steps 0 a1 23) with Some c => c_world c | None => cold end.

Definition warm_pool : PoolState := default (NewPoolState us_spec) (w_pools warm !! "us").
Definition warm_tunnel : Tunnel := default (cell "" "") (tunnel warm_pool).
Definition cell_url : URL := mkURL "socks5" None "10.0.0.2:1080".

(** What a function executed alone ends with. *)
Definition ends {A} (a : answer) (p : sys A) (w : world) (d : A) : A * world :=
  default (d, w) (run_at answer_ok 0 a p w).

Lemma ends_runs {A} (a : answer) (p : sys A) w d :
  match run_at answer_ok 0 a p w with Some _ => true | None => false end = true ->
  runs 0 p w (ends a p w d).1 (ends a p w d).2.
Proof.
  unfold ends. destruct (run_at answer_ok 0 a p w) as [[x w']|] eqn:E; [|done]. intros _.
  by apply (run_at_runs _ answer_ok_may) in E.
Qed.

Definition no_acq : res Acquisition := Err ErrForeign.
Definition first_acquire : res Acquisition * world :=
  ends a1 (acquireFromState mgr us None) cold no_acq.

Lemma acquireFromState_correct_witness :
  is_ok first_acquire.1 = true /\
  acquire_outcome mgr us None (NewPoolState us_spec) cold first_acquire.1 first_acquire.2.
Proof.
  split; [vm_compute; reflexivity|].
  refine (acquireFromState_correct mgr 0 us None cold _ _ (NewPoolState us_spec) _ _ _).
  - vm_compute. reflexivity.
  - reflexivity.
  - apply (ends_runs a1 (acquireFromState mgr us None) cold no_acq). vm_compute. reflexivity.
Defined.

Definition retry : res Acquisition * world :=
  ends b2 (acquireFromState mgr us (Some cell_url)) warm no_acq.
Definition retry_acq : Acquisition :=
  match retry.1 with Ok acq => acq | Err _ => mkAcquisition None "" end.
Definition retry_tunnel : Tunnel := default (cell "" "") (acq_Tunnel retry_acq).

Lemma excluded_exit_not_reused_witness :
  ConfName warm_tunnel = "us-a.conf" /\ ConfName retry_tunnel = "us-b.conf" /\
  ConfName retry_tunnel <> ConfName warm_tunnel /\
  ConfName retry_tunnel ∈ Configs (Spec warm_pool) /\ Pool retry_tunnel = Name (Spec warm_pool).
Proof.
  split; [vm_compute; reflexivity|]. split; [vm_compute; reflexivity|].
  assert (retry.1 = Ok retry_acq) as Hr by (vm_compute; reflexivity).
  assert (runs 0 (acquireFromState mgr us (Some cell_url)) warm (Ok retry_acq) retry.2) as Hruns.
  { rewrite <- Hr. apply (ends_runs b2 (acquireFromState mgr us (Some cell_url)) warm no_acq).
    vm_compute. reflexivity. }
  exact (excluded_exit_not_reused mgr 0 us (Some cell_url) warm retry_acq retry.2
           warm_pool warm_tunnel retry_tunnel
           ltac:(vm_compute; reflexivity) ltac:(vm_compute; reflexivity)
           ltac:(vm_compute; reflexivity) ltac:(vm_compute; reflexivity) Hruns
           ltac:(vm_compute; reflexivity)).
Defined.

Lemma fallback_one_hop_witness :
  spawns_in specs ["us"; "de"] (acquireFromPool mgr "us" None true).
Proof.
  refine (fallback_one_hop mgr "us" us_spec None true specs_named _). vm_compute. reflexivity.
Defined.

Definition no_conn : res releaseConn := Err ErrForeign.
Definition dialled : res releaseConn * world :=
  ends b2 (dialLease (credential bytes1) (credential bytes1) "tcp" "example.com:443") warm no_conn.

Definition counts_ok (p : PoolState) : bool :=
  match tunnel p with
  | Some t => (0 <=? InFlight t)%Z && (InFlight t <? max_int64)%Z
  | None => true
  end.

Lemma warm_counts key p t :
  w_pools warm !! key = Some p -> tunnel p = Some t -> (0 <= InFlight t < max_int64)%Z.
Proof.
  intros Hk Ht.
  assert (map_Forall (fun _ p => counts_ok p = true) (w_pools warm)) as Hall.
  { apply (bool_decide_unpack _). vm_compute. exact I. }
  specialize (Hall _ _ Hk). simpl in Hall. unfold counts_ok in Hall. rewrite Ht in Hall. lia.
Qed.

Lemma lease_connection_lifetime_witness :
  is_ok dialled.1 = true /\
  match dialled.1 with
  | Ok c => exists now rc p t used,
      (Lookup (credential bytes1) (credential bytes1) now (w_leases warm)).2 = Some rc /\
      leased_cell warm rc p t /\
      w_events dialled.2 = EvDialled (GatewayAddr t) "tcp" "example.com:443" DialConnected :: w_events warm /\
      w_pools dialled.2 = <[lr_Pool rc := with_tunnel (Some (reserve used t)) p]> (w_pools warm) /\
      InFlight (reserve used t) = (InFlight t + 1)%Z /\
      forall n x w2, runs 0 (closeTimes (S n) c) dialled.2 x w2 ->
        w_pools w2 = <[lr_Pool rc := with_tunnel (Some (set_LastUsedAt used t)) p]> (w_pools warm)
  | Err _ =>
      in_flight <$> w_pools dialled.2 = in_flight <$> w_pools warm /\
      (w_events dialled.2 = w_events warm \/
       exists now rc p t d,
         (Lookup (credential bytes1) (credential bytes1) now (w_leases warm)).2 = Some rc /\
         leased_cell warm rc p t /\ d <> DialConnected /\
         w_events dialled.2 = EvDialled (GatewayAddr t) "tcp" "example.com:443" d :: w_events warm)
  end.
Proof.
  split; [vm_compute; reflexivity|].
  assert (runs 0 (dialLease (credential bytes1) (credential bytes1) "tcp" "example.com:443")
            warm dialled.1 dialled.2) as Hr.
  { apply (ends_runs b2 (dialLease (credential bytes1) (credential bytes1) "tcp" "example.com:443")
             warm no_conn). vm_compute. reflexivity. }
  exact (lease_connection_lifetime 0 (credential bytes1) (credential bytes1) "tcp" "example.com:443"
           warm dialled.1 dialled.2 Hr warm_counts).
Defined.

(** A client that logs in with the lease and asks for a name. *)
Definition client_bytes (i : nat) : string :=
  let c := credential bytes1 in
  let len s := Z.of_nat (String.length s) in
  match i with
  | 0 => bytes [5]%Z | 1 => bytes [1]%Z | 2 => bytes [2]%Z
  | 4 => bytes [1; len c]%Z | 5 => c | 6 => bytes [len c]%Z | 7 => c
  | 10 => bytes [5; 1]%Z | 11 => bytes [0; 3]%Z | 12 => bytes [11]%Z | _ => "example.com" +:+ bytes [1; 187]%Z
  end.
Definition client : peer :=
  mkPeer (fun i => Ok (client_bytes i)) (fun _ => None) (fun _ => None) (fun _ => None) (fun _ => Err "") (fun _ => None)
    (fun _ => "failed").
Definition no_answer : result string unit := Err "".
#[local] Instance no_ip : GoIP := {| parse_ip := fun _ => None; ip_string := fun _ => "" |}.
Definition conversation : result string unit * world := ends b2 (serveSocks client) warm no_answer.

Lemma conversation_runs : runs 0 (serveSocks client) warm conversation.1 conversation.2.
Proof. unfold conversation. apply ends_runs. vm_compute. reflexivity. Qed.

Lemma warm_in_flight key p : w_pools warm !! key = Some p -> (0 <= in_flight p < max_int64)%Z.
Proof.
  intros Hk. unfold in_flight. destruct (tunnel p) as [t|] eqn:Ht; [by eapply warm_counts|].
  unfold max_int64. lia.
Qed.

Lemma conversation_balanced_witness :
  conversation.1 = Ok tt /\ in_flight <$> w_pools conversation.2 = in_flight <$> w_pools warm.
Proof.
  split; [vm_compute; reflexivity|].
  exact (conversation_balanced 0 client warm conversation.1 conversation.2 conversation_runs warm_in_flight).
Defined.

Definition registry : leaseRegistry := newLeaseRegistry "127.0.0.1:1080" "127.0.0.1:8081" minute.
Definition leased : world :=
  put_leases (Issue (mkAcquisition (Some (cell "c1" "us-a.conf")) "us") (Some bytes1) (Some bytes2) noon registry).1 cold.
Definition always (R : Type) (o : op R) (a : answer) : bool := true.

Lemma issued_url_resolves_witness :
  exists lease, (Issue (mkAcquisition (Some (cell "c1" "us-a.conf")) "us") (Some bytes1) (Some bytes2) noon registry).2
                  = Ok lease /\
    exists w', run_at always 0 a1 (ResolveExcludedProxy (SOCKS5 (Proxies lease))) leased =
      Some (if (noon <? ExpiresAt lease)%Z then Ok (Some cell_url) else Err ErrInvalidCountry, w').
Proof.
  refine (issued_url_resolves always 0 a1 (mkAcquisition (Some (cell "c1" "us-a.conf")) "us")
    (cell "c1" "us-a.conf") bytes1 bytes2 noon leased registry _ _ _ _);
    try (intros; reflexivity); vm_compute; reflexivity.
Defined.
End ScenarioWitnesses.

(** ** Three interleavings

    The schedules run the real handlers; the answers are ones the environment
    may give. *)

Import ScenarioWitnesses.

(** Clearing a slot is not tied to the cell that was killed: a health pass
    that kills [c1] can empty the slot after another request has already put
    [c2] there.  [c2] was spawned, is not killed, and the lease just issued for
    it is live, but no pool refers to it any more. *)
Theorem reaper_clears_fresh_tunnel :
  exists c, csteps (handler mgr "token") (started mgr) c /\
    finished 2 c = true /\ killed "c2" c = false /\ tunnel_of "us" c = None /\
    option_map lr_ContainerID
      (Lookup (credential bytes2) (credential bytes2) later (w_leases (c_world c))).2 = Some "c2".
Proof.
  destruct (play_ends [post; checkHealth mgr; post]
    (steps 0 a1 23 ++ steps 1 b2 7 ++ steps 2 b2 23 ++ steps 1 b2 2)
    (fun c => finished 2 c && negb (killed "c2" c) && bool_decide (tunnel_of "us" c = None) &&
       bool_decide (option_map lr_ContainerID
         (Lookup (credential bytes2) (credential bytes2) later (w_leases (c_world c))).2 = Some "c2")))
    as (c & Hr & Hc); [repeat constructor|vm_compute; reflexivity|].
  rewrite !andb_true_iff, negb_true_iff, !bool_decide_eq_true in Hc. exists c. naive_solver.
Qed.

(** Idle reaping can cut an active connection: a pass that has read a
    reservation count of zero goes on to kill the cell after a connection has
    reserved it; the count is one and the connection is open when the cell is
    killed. *)
Theorem idle_reap_kills_reserved_cell :
  exists c, csteps (handler mgr "token") (started mgr) c /\
    waiting 2 c = true /\ killed "c1" c = true /\
    option_map (fun t => (ContainerID t, InFlight t)) (tunnel_of "us" c) = Some ("c1", 1%Z).
Proof.
  destruct (play_ends [post; reapIdle mgr; connection bytes1]
    (steps 0 a1 23 ++ steps 1 b2 4 ++ steps 2 b2 5 ++ steps 1 b2 2)
    (fun c => waiting 2 c && killed "c1" c &&
       bool_decide (option_map (fun t => (ContainerID t, InFlight t)) (tunnel_of "us" c) = Some ("c1", 1%Z))))
    as (c & Hr & Hc); [repeat constructor|vm_compute; reflexivity|].
  rewrite !andb_true_iff, bool_decide_eq_true in Hc. exists c. naive_solver.
Qed.

(** Releasing is not tied to the reserved cell: a connection opened on
    [c1], closed after [c1] was destroyed and replaced, gives back a reservation
    of [c2], whose count drops to zero while its own connection is still open. *)
Theorem release_hits_replacement :
  exists c, csteps (handler mgr "token") (started mgr) c /\
    finished 1 c = true /\ waiting 4 c = true /\
    option_map (fun t => (ContainerID t, InFlight t)) (tunnel_of "us" c) = Some ("c2", 0%Z).
Proof.
  destruct (play_ends [post; connection bytes1; delete; post; connection bytes2]
    (steps 0 a1 23 ++ steps 1 a1 5 ++
     steps 2 (with_cells [mkCellHandle "c1" "us" "us-a.conf" "running" None noon] a1) 5 ++
     steps 3 a2 23 ++ steps 4 a2 5 ++ steps 1 a2 3)
    (fun c => finished 1 c && waiting 4 c &&
       bool_decide (option_map (fun t => (ContainerID t, InFlight t)) (tunnel_of "us" c) = Some ("c2", 0%Z))))
    as (c & Hr & Hc); [repeat constructor|vm_compute; reflexivity|].
  rewrite !andb_true_iff, bool_decide_eq_true in Hc. exists c. naive_solver.
Qed.
