(* ===== verification/CellProxy.v ===== *)
(** * The cell proxy ([internal/pkg/cellproxy])

    The traffic recorder, the connections that feed it, and the status it
    serves.  Every method of [Recorder] runs under its mutex, so a history of a
    cell is a sequence of operations; counters are 64-bit. *)

From S2P Require Import Prelude GoStrings Types Config Gateway GoTime.

Definition maxTrackedDestinations : nat := 2048.
Definition overflowDestination : string := "(other)".

(** ** The recorder ([recorder.go]) *)

Record Recorder := mkRecorder {
  dests : gmap string DestStat;
  rec_requests : Z;
  rec_bytesUp : Z;
  rec_bytesDown : Z;
  rec_active : Z;
  rec_dialFailures : Z;
  topN : Z;
}.

Definition NewRecorder (top : Z) : Recorder :=
  mkRecorder ∅ 0 0 0 0 0 (if (top <=? 0)%Z then Z.of_nat maxTrackedDestinations else top).

Definition with_dests (d : gmap string DestStat) (r : Recorder) : Recorder :=
  mkRecorder d (rec_requests r) (rec_bytesUp r) (rec_bytesDown r) (rec_active r)
    (rec_dialFailures r) (topN r).

(** [bucket]: the entry for a destination, created or folded as needed. *)
Definition bucket (dest : string) (r : Recorder) : Recorder * DestStat :=
  match dests r !! dest with
  | Some stat => (r, stat)
  | None =>
      let full := Nat.leb maxTrackedDestinations (size (dests r)) in
      let dest := if full then overflowDestination else dest in
      match (if full then dests r !! dest else None) with
      | Some stat => (r, stat)
      | None => let stat := mkDestStat dest 0 0 0 0 in
                (with_dests (<[dest := stat]> (dests r)) r, stat)
      end
  end.

(** [Open]. *)
Definition Open (dest : string) (r : Recorder) : Recorder * string :=
  let '(r, stat) := bucket dest r in
  let key := Destination stat in
  let stat := mkDestStat key (wrap64 (Requests stat + 1)) (BytesUp stat) (BytesDown stat)
                (wrap64 (Active stat + 1)) in
  (mkRecorder (<[key := stat]> (dests r)) (wrap64 (rec_requests r + 1)) (rec_bytesUp r)
     (rec_bytesDown r) (wrap64 (rec_active r + 1)) (rec_dialFailures r) (topN r), key).

(** Change the entry of a key, if there is one. *)
Definition on_dest (key : string) (f : DestStat -> DestStat) (d : gmap string DestStat) :
    gmap string DestStat :=
  match d !! key with Some stat => <[key := f stat]> d | None => d end.

(** [Close]. *)
Definition recClose (key : string) (r : Recorder) : Recorder :=
  mkRecorder
    (on_dest key (fun s => if (0 <? Active s)%Z
                           then mkDestStat (Destination s) (Requests s) (BytesUp s) (BytesDown s)
                                  (wrap64 (Active s - 1))
                           else s) (dests r))
    (rec_requests r) (rec_bytesUp r) (rec_bytesDown r)
    (if (0 <? rec_active r)%Z then wrap64 (rec_active r - 1) else rec_active r)
    (rec_dialFailures r) (topN r).

(** [Up]. *)
Definition Up (key : string) (n : Z) (r : Recorder) : Recorder :=
  mkRecorder
    (on_dest key (fun s => mkDestStat (Destination s) (Requests s) (wrap64 (BytesUp s + n))
                             (BytesDown s) (Active s)) (dests r))
    (rec_requests r) (wrap64 (rec_bytesUp r + n)) (rec_bytesDown r) (rec_active r)
    (rec_dialFailures r) (topN r).

(** [Down]. *)
Definition Down (key : string) (n : Z) (r : Recorder) : Recorder :=
  mkRecorder
    (on_dest key (fun s => mkDestStat (Destination s) (Requests s) (BytesUp s)
                             (wrap64 (BytesDown s + n)) (Active s)) (dests r))
    (rec_requests r) (rec_bytesUp r) (wrap64 (rec_bytesDown r + n)) (rec_active r)
    (rec_dialFailures r) (topN r).

(** [DialFailed]. *)
Definition recDialFailed (r : Recorder) : Recorder :=
  mkRecorder (dests r) (rec_requests r) (rec_bytesUp r) (rec_bytesDown r) (rec_active r)
    (wrap64 (rec_dialFailures r + 1)) (topN r).

(** The ranking of a snapshot: byte volume, largest first. *)
Definition volume (s : DestStat) : Z := wrap64 (BytesUp s + BytesDown s).
Definition ranked (a b : DestStat) : Prop := (volume b <= volume a)%Z.

#[global] Instance ranked_dec : RelDecision ranked.
Proof. intros a b. unfold ranked. apply _. Defined.
#[global] Instance ranked_total : Total ranked.
Proof. intros a b. unfold ranked. lia. Qed.
#[global] Instance ranked_trans : Transitive ranked.
Proof. intros a b c. unfold ranked. lia. Qed.

(** [Recorder.Snapshot]. *)
Definition recSnapshot `{MapOrder} (r : Recorder) : Stats :=
  let list := merge_sort ranked (range (dests r)).*2 in
  mkStats (rec_requests r) (rec_bytesUp r) (rec_bytesDown r) (rec_active r) (rec_dialFailures r)
    (if (topN r <? Z.of_nat (length list))%Z then take (Z.to_nat (topN r)) list else list).

(** ** Connections ([conn.go], [proxy.go]) *)

(** A [countingConn]: its key and whether its [sync.Once] has fired. *)
Record countingConn := mkCountingConn { cn_key : string; cn_closed : bool }.

Record cellState := mkCellState { cs_recorder : Recorder; cs_conns : list countingConn }.

(** What happens in a cell: a dial, bytes read from or written to a
    destination, and closes, any number of times. *)
Inductive cell_op :=
  | Dial (addr : string) (ok : bool)
  | Read (conn : nat) (n : Z)
  | Write (conn : nat) (n : Z)
  | CloseConn (conn : nat).

(** [Server.dial], by whether the dialer connected. *)
Definition cellDial (addr : string) (connected : bool) (s : cellState) : cellState :=
  if connected then
    let '(r, key) := Open addr (cs_recorder s) in
    mkCellState r (cs_conns s ++ [mkCountingConn key false])
  else mkCellState (recDialFailed (cs_recorder s)) (cs_conns s).

(** A dial, [countingConn.Read], [Write] and [Close]. *)
Definition cell_step (s : cellState) (o : cell_op) : cellState :=
  match o with
  | Dial addr ok => cellDial addr ok s
  | Read conn n =>
      match cs_conns s !! conn with
      | Some c => if (0 <? n)%Z then mkCellState (Down (cn_key c) n (cs_recorder s)) (cs_conns s) else s
      | None => s
      end
  | Write conn n =>
      match cs_conns s !! conn with
      | Some c => if (0 <? n)%Z then mkCellState (Up (cn_key c) n (cs_recorder s)) (cs_conns s) else s
      | None => s
      end
  | CloseConn conn =>
      match cs_conns s !! conn with
      | Some c => if cn_closed c then s
                  else mkCellState (recClose (cn_key c) (cs_recorder s))
                         (<[conn := mkCountingConn (cn_key c) true]> (cs_conns s))
      | None => s
      end
  end.

Definition cell_init (top : Z) : cellState := mkCellState (NewRecorder top) [].

Definition cell_run (top : Z) (ops : list cell_op) : cellState := foldl cell_step (cell_init top) ops.

(** ** Configuration and status *)

Record envConfig := mkEnvConfig {
  env_ParentID : string;
  env_SOCKSBind : string;
  env_SOCKSPort : Z;
  env_ControlBind : string;
  env_ControlPort : Z;
  env_DialTimeout : Z;
  env_TopDestinations : Z;
}.

Record cellConfig := mkCellConfig {
  cl_CellID : string;
  cl_ParentID : string;
  cl_SOCKSNetwork : string;
  cl_SOCKSAddr : string;
  cl_ControlAddr : string;
  cl_DialTimeout : Z;
  cl_TopDestinations : Z;
}.

(** [validatePort]. *)
Definition validateCellPort (port : Z) : res unit :=
  if port_in_range port then Ok tt else Err ErrForeign.

(** [cellproxy.LoadConfig]. *)
Definition loadCellConfig (parsed : res envConfig) (hostname : option string) : res cellConfig :=
  env ← parsed;
  _ ← validateCellPort (env_SOCKSPort env);
  _ ← validateCellPort (env_ControlPort env);
  Ok (mkCellConfig (default "" hostname) (env_ParentID env) "tcp"
        (join_host_port (env_SOCKSBind env) (itoa (env_SOCKSPort env)))
        (join_host_port (env_ControlBind env) (itoa (env_ControlPort env)))
        (env_DialTimeout env) (env_TopDestinations env)).

(** The [/status] response of [controlMux]. *)
Definition cellStatus `{MapOrder} (cfg : cellConfig) (startedAt : string) (uptime : Z) (s : cellState) :
    Status :=
  mkStatus (cl_CellID cfg) (cl_ParentID cfg) startedAt (duration_seconds uptime) (recSnapshot (cs_recorder s)).

(** ** Sums over the destinations *)

Definition sum_dests (f : DestStat -> Z) (d : gmap string DestStat) : Z :=
  map_fold (fun _ s acc => f s + acc)%Z 0%Z d.

Lemma sum_dests_new f d k s : d !! k = None -> sum_dests f (<[k := s]> d) = (f s + sum_dests f d)%Z.
Proof.
  intros Hk. unfold sum_dests. rewrite map_fold_insert_L; [done| |done]. intros. lia.
Qed.

Lemma sum_dests_update f d k s s0 :
  d !! k = Some s0 -> sum_dests f (<[k := s]> d) = (f s - f s0 + sum_dests f d)%Z.
Proof.
  intros Hk. rewrite <- (insert_delete_id d k s0 Hk) at 2.
  rewrite <- insert_delete_eq. rewrite !sum_dests_new by apply lookup_delete_eq. lia.
Qed.

Lemma sum_dests_on_dest f d k g :
  sum_dests f (on_dest k g d) =
  match d !! k with
  | Some s => (f (g s) - f s + sum_dests f d)%Z
  | None => sum_dests f d
  end.
Proof. unfold on_dest. destruct (d !! k) eqn:Hk; [by apply sum_dests_update|done]. Qed.

(** ** Counting open connections *)

Definition is_open (c : countingConn) : bool := negb (cn_closed c).
Definition open_on (key : string) (c : countingConn) : bool := is_open c && String.eqb (cn_key c) key.

(** ** Invariant of a cell *)

Record cell_wf (s : cellState) : Prop := {
  cw_keys : forall k st, dests (cs_recorder s) !! k = Some st -> Destination st = k;
  cw_conns : forall c, c ∈ cs_conns s -> is_Some (dests (cs_recorder s) !! cn_key c);
  cw_requests : rec_requests (cs_recorder s) = wrap64 (sum_dests Requests (dests (cs_recorder s)));
  cw_up : rec_bytesUp (cs_recorder s) = wrap64 (sum_dests BytesUp (dests (cs_recorder s)));
  cw_down : rec_bytesDown (cs_recorder s) = wrap64 (sum_dests BytesDown (dests (cs_recorder s)));
  cw_bound : size (dests (cs_recorder s)) <= maxTrackedDestinations \/
    (size (dests (cs_recorder s)) = S maxTrackedDestinations /\
     is_Some (dests (cs_recorder s) !! overflowDestination));
}.

(** The live counts, while they fit an [int64]. *)
Record cell_live (s : cellState) : Prop := {
  cl_each : forall k st, dests (cs_recorder s) !! k = Some st ->
    Active st = Z.of_nat (count_if (open_on k) (cs_conns s));
  cl_all : rec_active (cs_recorder s) = Z.of_nat (count_if is_open (cs_conns s));
}.

(** What [bucket] does. *)
Lemma bucket_spec dest r :
  (forall k st, dests r !! k = Some st -> Destination st = k) ->
  exists r' st, bucket dest r = (r', st) /\
    ((r' = r /\ dests r !! Destination st = Some st) \/
     (dests r !! Destination st = None /\ st = mkDestStat (Destination st) 0 0 0 0 /\
      r' = with_dests (<[Destination st := st]> (dests r)) r /\
      (size (dests r) < maxTrackedDestinations \/ Destination st = overflowDestination))).
Proof.
  intros Hk. unfold bucket. destruct (dests r !! dest) as [st|] eqn:Hd.
  { exists r, st. split; [done|]. left. by rewrite (Hk _ _ Hd). }
  destruct (Nat.leb_spec maxTrackedDestinations (size (dests r))) as [Hf|Hf].
  - destruct (dests r !! overflowDestination) as [st|] eqn:Ho.
    + exists r, st. split; [done|]. left. by rewrite (Hk _ _ Ho).
    + eexists _, _. split; [done|]. right. simpl. auto.
  - eexists _, _. split; [done|]. right. simpl. auto.
Qed.

(** [Open] as one update of a destination that may be new. *)
Lemma Open_spec dest r :
  (forall k st, dests r !! k = Some st -> Destination st = k) ->
  exists key st0, Open dest r =
    (mkRecorder (<[key := mkDestStat key (wrap64 (Requests st0 + 1)) (BytesUp st0) (BytesDown st0)
                     (wrap64 (Active st0 + 1))]> (dests r))
       (wrap64 (rec_requests r + 1)) (rec_bytesUp r) (rec_bytesDown r)
       (wrap64 (rec_active r + 1)) (rec_dialFailures r) (topN r), key) /\
    Destination st0 = key /\
    (dests r !! key = Some st0 \/
     (dests r !! key = None /\ st0 = mkDestStat key 0 0 0 0 /\
      (size (dests r) < maxTrackedDestinations \/ key = overflowDestination))).
Proof.
  intros Hk. destruct (bucket_spec dest r Hk) as (r' & st & Hb & Hc). unfold Open. rewrite Hb.
  exists (Destination st), st. destruct Hc as [[-> Hs]|(Hn & Hz & -> & Hsz)].
  - split; [done|]. auto.
  - simpl. rewrite insert_insert_eq. split; [done|]. rewrite <- Hz. auto.
Qed.

(** The sums after [Open]; [f] is zero on a fresh entry. *)
Lemma sum_dests_open f d key st0 st :
  f (mkDestStat key 0 0 0 0) = 0%Z ->
  (d !! key = Some st0 \/ (d !! key = None /\ st0 = mkDestStat key 0 0 0 0)) ->
  sum_dests f (<[key := st]> d) = (f st - f st0 + sum_dests f d)%Z.
Proof.
  intros Hz [Hs|[Hn ->]]; [by apply sum_dests_update|]. rewrite sum_dests_new, Hz by done. lia.
Qed.

Lemma cell_wf_dial s addr : cell_wf s -> cell_wf (cell_step s (Dial addr true)).
Proof.
  intros [Hk Hc Hr Hu Hd Hb]. unfold cell_step, cellDial.
  destruct (Open_spec addr (cs_recorder s) Hk) as (key & st0 & -> & Hkey & Hcase).
  assert (dests (cs_recorder s) !! key = Some st0 \/
    (dests (cs_recorder s) !! key = None /\ st0 = mkDestStat key 0 0 0 0)) as Hcase' by naive_solver.
  constructor; simpl.
  - intros k st. rewrite lookup_insert. case_decide; [by intros [= <-]; subst|apply Hk].
  - intros c [Hin|Hin]%elem_of_app.
    + rewrite lookup_insert. case_decide; [done|]. by apply Hc.
    + apply list_elem_of_singleton in Hin as ->. simpl. rewrite lookup_insert_eq. by eexists.
  - rewrite (sum_dests_open _ _ _ st0) by done. simpl. rewrite Hr, wrap64_add_l.
    replace (wrap64 (Requests st0 + 1) - Requests st0 + sum_dests Requests (dests (cs_recorder s)))%Z
      with (wrap64 (Requests st0 + 1) + (sum_dests Requests (dests (cs_recorder s)) - Requests st0))%Z by lia.
    rewrite wrap64_add_l. f_equal. lia.
  - rewrite (sum_dests_open _ _ _ st0) by done. simpl. rewrite Hu. f_equal. lia.
  - rewrite (sum_dests_open _ _ _ st0) by done. simpl. rewrite Hd. f_equal. lia.
  - destruct Hcase as [Hs|(Hn & _ & Hsz)].
    + rewrite map_size_insert_Some by done. destruct Hb as [?|[? Ho]]; [by left|right].
      split; [done|]. rewrite lookup_insert. by case_decide.
    + rewrite map_size_insert_None by done. destruct Hb as [Hb|[Hb Ho]].
      * destruct Hsz as [Hsz|Heq]; [left; lia|].
        destruct (decide (size (dests (cs_recorder s)) < maxTrackedDestinations)); [left; lia|right].
        split; [lia|]. rewrite Heq, lookup_insert_eq. by eexists.
      * destruct Hsz as [Hsz|Heq]; [lia|]. rewrite Heq in Hn. rewrite Hn in Ho. by destruct Ho.
Qed.

(** A change of one entry that keeps its name. *)
Lemma cell_wf_on_dest s key g r' :
  (forall st, Destination (g st) = Destination st) ->
  dests r' = on_dest key g (dests (cs_recorder s)) ->
  rec_requests r' = wrap64 (sum_dests Requests (dests r')) ->
  rec_bytesUp r' = wrap64 (sum_dests BytesUp (dests r')) ->
  rec_bytesDown r' = wrap64 (sum_dests BytesDown (dests r')) ->
  forall conns, (forall c, c ∈ conns -> exists c', c' ∈ cs_conns s /\ cn_key c' = cn_key c) ->
  cell_wf s -> cell_wf (mkCellState r' conns).
Proof.
  intros Hg Hd H1 H2 H3 conns Hconns [Hk Hc _ _ _ Hb].
  assert (forall k, dests r' !! k = if decide (k = key) then g <$> dests (cs_recorder s) !! k
                                    else dests (cs_recorder s) !! k) as Hl.
  { intros k. rewrite Hd. unfold on_dest. destruct (dests (cs_recorder s) !! key) eqn:E.
    - rewrite lookup_insert. repeat case_decide; subst; try done. by rewrite E.
    - case_decide; subst; [by rewrite E|done]. }
  assert (size (dests r') = size (dests (cs_recorder s))) as Hsize.
  { rewrite Hd. unfold on_dest. destruct (dests (cs_recorder s) !! key) eqn:E; [|done].
    by rewrite map_size_insert_Some. }
  constructor; simpl; try done.
  - intros k st. rewrite Hl. case_decide; [|apply Hk]. subst.
    destruct (dests (cs_recorder s) !! key) eqn:E; [|done]. intros [= <-]. rewrite Hg. by apply Hk.
  - intros c Hin. destruct (Hconns c Hin) as (c' & Hin' & <-). rewrite Hl.
    case_decide; [|by apply Hc]. apply fmap_is_Some. by apply Hc.
  - rewrite Hsize. destruct Hb as [?|[? Ho]]; [by left|right]. split; [done|]. rewrite Hl.
    case_decide; [|done]. by apply fmap_is_Some.
Qed.

(** Adding [n] to one entry and to the total keeps them in step. *)
Lemma wrap64_total a b total n :
  total = wrap64 b -> wrap64 (total + n) = wrap64 (wrap64 (a + n) - a + b).
Proof.
  intros ->. rewrite wrap64_add_l.
  replace (wrap64 (a + n) - a + b)%Z with (wrap64 (a + n) + (b - a))%Z by lia.
  rewrite wrap64_add_l. f_equal. lia.
Qed.

Lemma cell_wf_step s o : cell_wf s -> cell_wf (cell_step s o).
Proof.
  intros Hw. pose proof Hw as [Hk Hc Hr Hu Hd Hb]. destruct o as [addr [|]|i n|i n|i].
  - by apply cell_wf_dial.
  - by constructor.
  - unfold cell_step. destruct (cs_conns s !! i) as [c|] eqn:Hi; [|done]. case_match; [|done].
    destruct (Hc c (list_elem_of_lookup_2 _ _ _ Hi)) as [st Hst].
    eapply (cell_wf_on_dest s (cn_key c)); [|done| | | | |done]; simpl;
      rewrite ?sum_dests_on_dest, ?Hst; simpl; [done| | | |intros c0 Hc0; by exists c0].
    + rewrite Hr. f_equal. lia.
    + rewrite Hu. f_equal. lia.
    + by apply wrap64_total.
  - unfold cell_step. destruct (cs_conns s !! i) as [c|] eqn:Hi; [|done]. case_match; [|done].
    destruct (Hc c (list_elem_of_lookup_2 _ _ _ Hi)) as [st Hst].
    eapply (cell_wf_on_dest s (cn_key c)); [|done| | | | |done]; simpl;
      rewrite ?sum_dests_on_dest, ?Hst; simpl; [done| | | |intros c0 Hc0; by exists c0].
    + rewrite Hr. f_equal. lia.
    + by apply wrap64_total.
    + rewrite Hd. f_equal. lia.
  - unfold cell_step. destruct (cs_conns s !! i) as [c|] eqn:Hi; [|done]. case_match; [done|].
    destruct (Hc c (list_elem_of_lookup_2 _ _ _ Hi)) as [st Hst].
    eapply (cell_wf_on_dest s (cn_key c)); [|done|..]; simpl;
      rewrite ?sum_dests_on_dest, ?Hst; simpl.
    + intros st'. by case_match.
    + rewrite Hr. f_equal. case_match; simpl; lia.
    + rewrite Hu. f_equal. case_match; simpl; lia.
    + rewrite Hd. f_equal. case_match; simpl; lia.
    + intros c' [j Hj]%list_elem_of_lookup. destruct (decide (i = j)) as [<-|Hne].
      * rewrite list_lookup_insert_eq in Hj by (by eapply lookup_lt_Some). simplify_eq/=.
        exists c. split; [by eapply list_elem_of_lookup_2|done].
      * rewrite list_lookup_insert_ne in Hj by done. exists c'. split; [|done].
        by eapply list_elem_of_lookup_2.
    + done.
Qed.

Lemma conns_step s o : length (cs_conns (cell_step s o)) <= S (length (cs_conns s)).
Proof.
  destruct o as [addr [|]|i n|i n|i]; unfold cell_step, cellDial.
  - destruct (Open addr (cs_recorder s)). simpl. rewrite length_app. simpl. lia.
  - simpl. lia.
  - repeat case_match; simpl; lia.
  - repeat case_match; simpl; lia.
  - repeat case_match; simpl; rewrite ?length_insert; lia.
Qed.

(** An entry changed without its count. *)
Lemma cell_live_on_dest s key g r' :
  (forall st, Active (g st) = Active st) ->
  dests r' = on_dest key g (dests (cs_recorder s)) -> rec_active r' = rec_active (cs_recorder s) ->
  cell_live s -> cell_live (mkCellState r' (cs_conns s)).
Proof.
  intros Hg Hd Ha [He Hall]. constructor; simpl; [|by rewrite Ha].
  intros k st. rewrite Hd. unfold on_dest. destruct (dests (cs_recorder s) !! key) eqn:E; [|apply He].
  rewrite lookup_insert. case_decide; [|apply He]. intros [= <-]. subst. rewrite Hg. by apply He.
Qed.

Lemma cell_live_dial s addr :
  (Z.of_nat (length (cs_conns s)) < max_int64)%Z -> cell_wf s -> cell_live s ->
  cell_live (cell_step s (Dial addr true)).
Proof.
  intros Hn [Hk Hc _ _ _ _] [He Hall]. unfold cell_step, cellDial.
  destruct (Open_spec addr (cs_recorder s) Hk) as (key & st0 & -> & Hkey & Hcase).
  assert (Active st0 = Z.of_nat (count_if (open_on key) (cs_conns s))) as Ha.
  { destruct Hcase as [Hs|(Hnone & -> & _)]; [by apply He|]. simpl. rewrite count_if_zero; [done|].
    intros c Hin. unfold open_on. destruct (String.eqb_spec (cn_key c) key) as [Heq|]; [|by rewrite andb_false_r].
    destruct (Hc c Hin) as [st Hst]. rewrite Heq in Hst. congruence. }
  assert (forall P : countingConn -> bool,
    wrap64 (Z.of_nat (count_if P (cs_conns s)) + 1) = (Z.of_nat (count_if P (cs_conns s)) + 1)%Z) as Hw.
  { intros P. apply wrap64_id. pose proof (count_if_le P (cs_conns s)). unfold min_int64, max_int64 in *. lia. }
  constructor; simpl.
  - intros k st. rewrite count_if_app, count_if_single, lookup_insert. unfold open_on at 2.
    cbn [is_open cn_closed cn_key negb andb]. case_decide as Hd.
    + intros [= <-]. subst k. rewrite String.eqb_refl. simpl. rewrite Ha, Hw. lia.
    + intros Hst. apply String.eqb_neq in Hd. rewrite Hd, (He _ _ Hst). lia.
  - rewrite count_if_app, count_if_single, Hall, Hw. simpl. lia.
Qed.

Lemma cell_live_close s i :
  (Z.of_nat (length (cs_conns s)) < max_int64)%Z -> cell_wf s -> cell_live s ->
  cell_live (cell_step s (CloseConn i)).
Proof.
  intros Hn [Hk Hc _ _ _ _] [He Hall]. unfold cell_step.
  destruct (cs_conns s !! i) as [c|] eqn:Hi; [|done]. destruct (cn_closed c) eqn:Hcl; [done|].
  destruct (Hc c (list_elem_of_lookup_2 _ _ _ Hi)) as [st0 Hst0].
  set (c' := mkCountingConn (cn_key c) true).
  assert (forall P : countingConn -> bool, P c = true -> P c' = false ->
    count_if P (cs_conns s) = S (count_if P (<[i := c']> (cs_conns s))) /\
    (0 <? Z.of_nat (count_if P (cs_conns s)))%Z = true /\
    wrap64 (Z.of_nat (count_if P (cs_conns s)) - 1) = Z.of_nat (count_if P (<[i := c']> (cs_conns s)))) as Hdec.
  { intros P H1 H2. pose proof (count_if_insert P _ i c c' Hi) as Hc'. rewrite H1, H2 in Hc'.
    pose proof (count_if_le P (cs_conns s)). split_and!; [lia|lia|].
    rewrite wrap64_id; unfold min_int64, max_int64 in *; lia. }
  constructor; simpl.
  - intros k st. unfold on_dest. rewrite Hst0, lookup_insert. case_decide as Hd.
    + intros [= <-]. subst k. rewrite (He _ _ Hst0).
      destruct (Hdec (open_on (cn_key c))) as (_ & Hpos & Hwr);
        [unfold open_on, is_open; by rewrite Hcl, String.eqb_refl|done|].
      rewrite Hpos. simpl. exact Hwr.
    + intros Hst. rewrite (He _ _ Hst). f_equal.
      pose proof (count_if_insert (open_on k) _ i c c' Hi) as Hc'.
      assert (open_on k c = false) as Ho1 by (unfold open_on; apply String.eqb_neq in Hd; by rewrite Hd, andb_false_r).
      assert (open_on k c' = false) as Ho2 by done. rewrite Ho1, Ho2 in Hc'. lia.
  - destruct (Hdec is_open) as (_ & Hpos & Hwr); [unfold is_open; by rewrite Hcl|done|].
    by rewrite Hall, Hpos.
Qed.

Lemma cell_live_step s o :
  (Z.of_nat (length (cs_conns s)) < max_int64)%Z -> cell_wf s -> cell_live s -> cell_live (cell_step s o).
Proof.
  intros Hn Hw Hl. destruct o as [addr [|]|i n|i n|i].
  - by apply cell_live_dial.
  - destruct Hl. by constructor.
  - unfold cell_step. repeat (case_match; try done). eapply cell_live_on_dest; [|done|done|done]. done.
  - unfold cell_step. repeat (case_match; try done). eapply cell_live_on_dest; [|done|done|done]. done.
  - by apply cell_live_close.
Qed.

Lemma cell_run_wf top ops :
  cell_wf (cell_run top ops) /\ length (cs_conns (cell_run top ops)) <= length ops /\
  ((Z.of_nat (length ops) < max_int64)%Z -> cell_live (cell_run top ops)).
Proof.
  unfold cell_run. induction ops as [|o ops IH] using rev_ind.
  - split_and!; [|done|by constructor]. constructor; simpl; try done.
    + by intros c ?%elem_of_nil.
    + left. rewrite map_size_empty. lia.
  - destruct IH as (Hw & Hn & Hl). rewrite foldl_app, length_app. simpl. split_and!.
    + by apply cell_wf_step.
    + pose proof (conns_step (foldl cell_step (cell_init top) ops) o). lia.
    + intros Hb. apply cell_live_step; [lia|done|]. apply Hl. lia.
Qed.

Lemma live_count s :
  cell_live s -> (0 <? rec_active (cs_recorder s))%Z = true <-> exists c, c ∈ cs_conns s /\ cn_closed c = false.
Proof.
  intros [_ Hall]. rewrite Hall, Z.ltb_lt. setoid_rewrite <- negb_true_iff.
  rewrite <- (count_if_pos is_open). lia.
Qed.

(** C24. A cell's accounting is exact: after any history of dials, reads, writes
    and closes (each connection closed any number of times), the totals are the
    sums over the destinations modulo [2^64], at most 2049 destinations are
    tracked, and, for fewer than [2^63 - 1] events, the live count in total and
    per destination is the number of connections opened and not yet closed; so
    the [Active] count the idle reaper asks for is zero exactly when no
    connection is open. *)
Theorem cell_accounting top ops :
  let r := cs_recorder (cell_run top ops) in
  let conns := cs_conns (cell_run top ops) in
  rec_requests r = wrap64 (sum_dests Requests (dests r)) /\
  rec_bytesUp r = wrap64 (sum_dests BytesUp (dests r)) /\
  rec_bytesDown r = wrap64 (sum_dests BytesDown (dests r)) /\
  size (dests r) <= S maxTrackedDestinations /\
  ((Z.of_nat (length ops) < max_int64)%Z ->
     rec_active r = Z.of_nat (count_if is_open conns) /\
     (forall k st, dests r !! k = Some st -> Active st = Z.of_nat (count_if (open_on k) conns)) /\
     ((0 <? rec_active r)%Z = true <-> exists c, c ∈ conns /\ cn_closed c = false)).
Proof.
  destruct (cell_run_wf top ops) as ([_ _ Hr Hu Hd Hb] & _ & Hl). cbv zeta. split_and!; try done; [lia|].
  intros Hn. destruct (Hl Hn) as [He Hall]. split_and!; [done|done|]. by apply live_count.
Qed.

Lemma topN_step s o : topN (cs_recorder (cell_step s o)) = topN (cs_recorder s).
Proof.
  destruct o as [addr [|]|i n|i n|i]; unfold cell_step, cellDial; try (repeat case_match; done).
  unfold Open, bucket. repeat case_match; by simplify_eq.
Qed.

Lemma topN_run top ops :
  topN (cs_recorder (cell_run top ops)) =
  if (top <=? 0)%Z then Z.of_nat maxTrackedDestinations else top.
Proof.
  unfold cell_run. induction ops as [|o ops IH] using rev_ind; [done|].
  rewrite foldl_app. simpl. by rewrite topN_step.
Qed.

(** A snapshot ranks honestly: its destinations are distinct entries of the
    recorder, at most the configured number (the cap of tracked destinations
    when none is configured), in order of decreasing volume, and no entry left
    out has a larger volume than one that is listed. *)
Theorem recSnapshot_ranked `{MapOrder} top ops :
  let r := cs_recorder (cell_run top ops) in
  let listed := st_Destinations (recSnapshot r) in
  (Z.of_nat (length listed) <= if (top <=? 0)%Z then Z.of_nat maxTrackedDestinations else top)%Z /\
  StronglySorted ranked listed /\
  exists rest, listed ++ rest ≡ₚ (map_to_list (dests r)).*2 /\
    forall a b, a ∈ listed -> b ∈ rest -> (volume b <= volume a)%Z.
Proof.
  cbv zeta. rewrite <- (topN_run top ops) at 1. pose proof (topN_run top ops) as Htop.
  set (r := cs_recorder (cell_run top ops)) in *.
  set (l := merge_sort ranked (range (dests r)).*2).
  assert (StronglySorted ranked l) as Hs by (apply StronglySorted_merge_sort; apply _).
  assert (l ≡ₚ (map_to_list (dests r)).*2) as Hp.
  { unfold l. rewrite merge_sort_Permutation. by rewrite range_perm. }
  assert (forall n, StronglySorted ranked (take n l) /\
    forall a b, a ∈ take n l -> b ∈ drop n l -> (volume b <= volume a)%Z) as Hsplit.
  { intros n. rewrite <- (take_drop n l) in Hs. clear -Hs. revert Hs.
    generalize (take n l) (drop n l). intros l1 l2. induction l1 as [|x l1 IH]; simpl; intros Hs.
    - split; [constructor|]. by intros a b ?%elem_of_nil.
    - inversion Hs as [|? ? Hs' Hf]; subst. destruct (IH Hs') as [IH1 IH2]. split.
      + constructor; [done|]. by apply Forall_app in Hf as [? _].
      + intros a b [->|Ha]%elem_of_cons Hb; [|by apply IH2].
        rewrite Forall_forall in Hf. apply Hf, elem_of_app. by right. }
  unfold recSnapshot. cbn [st_Destinations]. fold l.
  destruct (Z.ltb_spec (topN r) (Z.of_nat (length l))) as [Hlt|Hge].
  - destruct (Hsplit (Z.to_nat (topN r))) as [H1 H2]. split_and!; [|done|].
    + rewrite length_take. unfold maxTrackedDestinations in Htop. destruct (Z.leb_spec top 0); lia.
    + exists (drop (Z.to_nat (topN r)) l). by rewrite take_drop.
  - split_and!; [lia|done|]. exists []. rewrite app_nil_r. split; [done|].
    by intros a b _ ?%elem_of_nil.
Qed.
