(* ===== verification/CellControl.v ===== *)
(** * The control endpoint of a cell ([cellstatus.go] and [controlMux] of [cellproxy/proxy.go])

    Both ends of the controller's view of a cell: the mux of the cell's control
    server and the controller's client of it, a program over one HTTP exchange,
    down to the bytes of the bodies. *)

From S2P Require Import Prelude GoStrings Json JsonStruct Encoding Types Wire Prog GoTime CellProxy.

Definition cellHealthzPath : string := "/healthz".
Definition cellStatusPath : string := "/status".
Definition StatusOK : Z := 200.
Definition StatusNotFound : Z := 404.
Definition StatusMethodNotAllowed : Z := 405.

(** ** The cell *)

Record http_response := mkHTTPResponse { rsp_Status : Z; rsp_Body : string }.

Section control.
Context `{GoFloatText} `{MapOrder}.

(** [controlMux]: a pattern with the method [GET] also matches [HEAD]. *)
Definition controlMux (cfg : cellConfig) (startedAt : string) (uptime : Z) (s : cellState)
    (method path : string) : http_response :=
  if String.eqb path cellHealthzPath || String.eqb path cellStatusPath then
    if String.eqb method "GET" || String.eqb method "HEAD" then
      if String.eqb path cellHealthzPath then mkHTTPResponse StatusOK ("ok" +:+ newline)
      else mkHTTPResponse StatusOK (encodeStatus (cellStatus cfg startedAt uptime s))
    else mkHTTPResponse StatusMethodNotAllowed ""
  else mkHTTPResponse StatusNotFound "".

(** ** The controller *)

(** What leaves the client: a [GET] of a path below the base, whose response may
    not come, and the close of a response's body. *)
Inductive hop : Type -> Type :=
  | HGet (base : URL) (path : string) : hop (option http_response)
  | HCloseBody : hop unit.

(** [cellControlClient.get]. *)
Definition controlGet (base : URL) (path : string) : prog hop (res http_response) :=
  response ← do_op (HGet base path);
  Ret (match response with Some r => Ok r | None => Err ErrForeign end).

(** [cellControlClient.Status]. *)
Definition controlStatus (base : option URL) : prog hop (res Status) :=
  match base with
  | None => Ret (Err ErrFetchFailed)
  | Some base =>
      response ← controlGet base cellStatusPath;
      match response with
      | Err e => Ret (Err e)
      | Ok r =>
          let status := if negb (rsp_Status r =? StatusOK)%Z then Err ErrFetchFailed
                        else match decodeStatus (rsp_Body r) with Some s => Ok s | None => Err ErrForeign end in
          _ ← do_op HCloseBody; Ret status
      end
  end.

(** [cellControlClient.Healthy]. *)
Definition controlHealthy (base : option URL) : prog hop bool :=
  match base with
  | None => Ret false
  | Some base =>
      response ← controlGet base cellHealthzPath;
      match response with
      | Err _ => Ret false
      | Ok r => _ ← do_op HCloseBody; Ret (rsp_Status r =? StatusOK)%Z
      end
  end.

(** ** An exchange *)

(** The requests and the closes of an execution against a server. *)
Inductive hevent := Requested (path : string) | BodyClosed.

#[global] Instance hevent_eq_dec : EqDecision hevent.
Proof. solve_decision. Defined.

Definition answer_hop (server : string -> string -> option http_response) {R} (o : hop R) : hevent * R :=
  match o in hop R return hevent * R with
  | HGet _ path => (Requested path, server "GET" path)
  | HCloseBody => (BodyClosed, tt)
  end.

Fixpoint against (server : string -> string -> option http_response) {A} (p : prog hop A) : list hevent * A :=
  match p with
  | Ret a => ([], a)
  | Op o k => let '(e, r) := answer_hop server o in let '(tr, a) := against server (k r) in (e :: tr, a)
  end.

(** Whatever the server answers, a body that was received is closed, once, and
    nothing is asked of a cell without a control URL. *)
Theorem control_closes_bodies server base :
  let bodies tr := length (filter (fun e => e = BodyClosed) tr) in
  let closes path := match server "GET" path with Some _ => 1 | None => 0 end in
  bodies (against server (controlStatus (Some base))).1 = closes cellStatusPath /\
  bodies (against server (controlHealthy (Some base))).1 = closes cellHealthzPath /\
  against server (controlStatus None) = ([], Err ErrFetchFailed) /\ against server (controlHealthy None) = ([], false).
Proof. simpl. destruct (server "GET" cellStatusPath), (server "GET" cellHealthzPath); by split_and!. Qed.

(** ** The counters stay in their type *)

Definition recorderInt64 (r : Recorder) : Prop :=
  int64 (rec_requests r) /\ int64 (rec_bytesUp r) /\ int64 (rec_bytesDown r) /\ int64 (rec_active r) /\
  int64 (rec_dialFailures r) /\ map_Forall (fun _ => destInt64) (dests r).

Lemma int64_zero : int64 0.
Proof. unfold int64, min_int64, max_int64. lia. Qed.

Lemma on_dest_int64 key g d :
  map_Forall (fun _ => destInt64) d -> (forall s, destInt64 s -> destInt64 (g s)) ->
  map_Forall (fun _ => destInt64) (on_dest key g d).
Proof.
  intros Hd Hg. unfold on_dest. destruct (d !! key) as [s|] eqn:E; [|done]. apply map_Forall_insert_2; [|done]. by eapply Hg, Hd.
Qed.

Lemma bucket_int64 dest r : map_Forall (fun _ => destInt64) (dests r) ->
  map_Forall (fun _ => destInt64) (dests (bucket dest r).1) /\ destInt64 (bucket dest r).2.
Proof.
  intros Hd. unfold bucket. pose proof int64_zero.
  assert (forall key, destInt64 (mkDestStat key 0 0 0 0)) as Hz by (intros key; by split_and!).
  destruct (dests r !! dest) as [s|] eqn:E; [split; [done|by eapply Hd]|].
  destruct (if Nat.leb _ _ then _ else None) as [s|] eqn:E2; cbn.
  - split; [done|]. destruct (Nat.leb _ _); [by eapply Hd|done].
  - split; [by apply map_Forall_insert_2|done].
Qed.

Lemma recorderInt64_step s o : recorderInt64 (cs_recorder s) -> recorderInt64 (cs_recorder (cell_step s o)).
Proof.
  intros Hr. pose proof Hr as (H1 & H2 & H3 & H4 & H5 & H6). pose proof wrap64_range as W.
  destruct o as [addr [|]|i n|i n|i]; unfold cell_step, cellDial.
  - unfold Open. pose proof (bucket_int64 addr _ H6) as (Hb & Hs & Hu & Hd & Ha).
    assert (forall f, (f = rec_bytesUp \/ f = rec_bytesDown \/ f = rec_dialFailures \/ f = rec_requests \/ f = rec_active) ->
      f (bucket addr (cs_recorder s)).1 = f (cs_recorder s)) as Hf.
    { intros f Hf. unfold bucket. destruct Hf as [->|[->|[->|[->| ->]]]]; repeat case_match; done. }
    destruct (bucket addr (cs_recorder s)) as [r st]. cbn in *. split_and!; cbn; try apply W; try by rewrite Hf by auto.
    apply map_Forall_insert_2; [by split_and!; cbn; try apply W|done].
  - split_and!; cbn; try done. apply W.
  - destruct (cs_conns s !! i) as [c|]; [|done]. destruct (0 <? n)%Z; [|done].
    split_and!; cbn; try done; [apply W|]. apply on_dest_int64; [done|]. intros x (?&?&?&?). split_and!; cbn; try done. apply W.
  - destruct (cs_conns s !! i) as [c|]; [|done]. destruct (0 <? n)%Z; [|done].
    split_and!; cbn; try done; [apply W|]. apply on_dest_int64; [done|]. intros x (?&?&?&?). split_and!; cbn; try done. apply W.
  - destruct (cs_conns s !! i) as [c|]; [|done]. destruct (cn_closed c); [done|].
    split_and!; cbn; try done; [case_match; [apply W|done]|].
    apply on_dest_int64; [done|]. intros x (?&?&?&?). case_match; [|done]. split_and!; cbn; try done. apply W.
Qed.

Lemma cell_run_int64 top ops : recorderInt64 (cs_recorder (cell_run top ops)).
Proof.
  unfold cell_run. induction ops as [|o ops IH] using rev_ind.
  - pose proof int64_zero. split_and!; cbn; try done.
  - rewrite foldl_app. by apply recorderInt64_step.
Qed.

Lemma recSnapshot_int64 r : recorderInt64 r -> statsInt64 (recSnapshot r).
Proof.
  intros (H1 & H2 & H3 & H4 & H5 & H6). split_and!; try done. cbn.
  assert (Forall destInt64 (merge_sort ranked (range (dests r)).*2)) as Hl.
  { rewrite merge_sort_Permutation, range_perm. apply map_Forall_to_list in H6.
    apply Forall_fmap. eapply Forall_impl; [exact H6|]. by intros []. }
  case_match; [by apply Forall_take|done].
Qed.

(** C25. What the idle reaper is told is true: when a cell answers the controller
    through its own mux, byte for byte, the status the controller reads is the
    cell's snapshot at that moment (with invalid bytes of its strings replaced),
    the health probe succeeds, both bodies are closed, and, for fewer than
    [2^63 - 1] events in the cell, the live count is positive exactly when a
    connection through the cell is open. *)
Theorem live_connections_seen top ops cfg startedAt uptime base :
  let cell := cell_run top ops in
  let status := validStatus (cellStatus cfg startedAt uptime cell) in
  let server := fun method path => Some (controlMux cfg startedAt uptime cell method path) in
  reads_float (duration_seconds uptime) ->
  (Z.of_nat (length ops) < max_int64)%Z ->
  against server (controlStatus (Some base)) = ([Requested cellStatusPath; BodyClosed], Ok status) /\
  against server (controlHealthy (Some base)) = ([Requested cellHealthzPath; BodyClosed], true) /\
  ((0 <? st_Active (Traffic status))%Z = true <-> exists c, c ∈ cs_conns cell /\ cn_closed c = false).
Proof.
  intros cell status server Hfloat Hn. split_and!.
  - unfold controlStatus, controlGet. simpl. unfold server, controlMux. simpl.
    rewrite decodeStatus_encode; [done| |done]. apply recSnapshot_int64, cell_run_int64.
  - done.
  - destruct (cell_run_wf top ops) as (_ & _ & Hl). exact (live_count _ (Hl Hn)).
Qed.
End control.

Module ControlExamples.
#[local] Existing Instance canonical_order.

(** One connection is open, one was closed. *)
Definition history : list cell_op := [Dial "a:443" true; Write 0 5; Dial "b:443" true; CloseConn 1; CloseConn 1].
Definition config : cellConfig := mkCellConfig "cell" "parent" "tcp" ":1080" ":9000" (15 * second) 10.

(** The whole seconds, which is what is written of the uptime below. *)
#[local] Instance whole : GoFloatText := {| float_text := fun q => itoa (QArith.Qround.Qfloor q) |}.

Definition now : Status := validStatus (cellStatus config "2024-01-01T00:00:00Z" (5 * second) (cell_run 10 history)).

Lemma live_connections_seen_witness :
  (0 <? st_Active (Traffic now))%Z = true <-> exists c, c ∈ cs_conns (cell_run 10 history) /\ cn_closed c = false.
Proof.
  destruct (@live_connections_seen whole canonical_order 10 history config "2024-01-01T00:00:00Z" (5 * second) (mkURL "http" None "10.0.0.2:9000")
    ltac:(exists (QArith_base.inject_Z 5); split; [vm_compute; reflexivity|split; [apply number_itoa|vm_compute; reflexivity]])
    ltac:(vm_compute; reflexivity)) as (_ & _ & Hl). exact Hl.
Defined.

(** The bytes a cell sends. *)
Example status_body :
  rsp_Body (controlMux config "2024-01-01T00:00:00Z" (5 * second) (cell_run 10 history) "GET" "/status") =
  encode_line (JObject [
    ("cellId", JString "cell"); ("parentId", JString "parent"); ("startedAt", JString "2024-01-01T00:00:00Z");
    ("uptimeSeconds", JNumber "5");
    ("traffic", JObject [
      ("requests", JNumber "2"); ("bytesUp", JNumber "5"); ("bytesDown", JNumber "0"); ("active", JNumber "1");
      ("dialFailures", JNumber "0");
      ("destinations", JArray [
        JObject [("destination", JString "a:443"); ("requests", JNumber "1"); ("bytesUp", JNumber "5");
                 ("bytesDown", JNumber "0"); ("active", JNumber "1")];
        JObject [("destination", JString "b:443"); ("requests", JNumber "1"); ("bytesUp", JNumber "0");
                 ("bytesDown", JNumber "0"); ("active", JNumber "0")]])])]).
Proof. vm_compute. reflexivity. Qed.
End ControlExamples.
