(* ===== verification/Servers.v ===== *)
(** * Servers that report their failures to a channel

    The shape shared by [Service.Run] and the cell proxy's [Server.Run]: each
    server runs in a goroutine of its own, and a return that is not a clean
    shutdown is sent to a buffered channel that the caller selects on once.  The
    goroutines and the channel are state; a send into a full channel blocks. *)

From S2P Require Import Prelude.

(** The errors a serving call returns, by what [errors.Is] finds in them. *)
Inductive serve_error :=
  | ErrServerClosed
  | ErrNetClosed
  | ErrCanceled
  | ErrOther (msg : string).

Inductive serve_return :=
  | ServeNil
  | ServeErr (e : serve_error)
  | ServePanic (msg : string).

(** A report: the server and how its serving call ended. *)
Definition report : Type := nat * serve_return.

Inductive goroutine := Unborn | Running | Sending (r : report) | Finished.

#[global] Instance serve_error_eq_dec : EqDecision serve_error.
Proof. solve_decision. Defined.
#[global] Instance serve_return_eq_dec : EqDecision serve_return.
Proof. solve_decision. Defined.
#[global] Instance goroutine_eq_dec : EqDecision goroutine.
Proof. solve_decision. Defined.

Record group := mkGroup { g_servers : list goroutine; g_chan : list report }.

Definition new_group (n : nat) : group := mkGroup (replicate n Unborn) [].

Definition server_at (i : nat) (g : group) : goroutine := default Unborn (g_servers g !! i).

(** The goroutine of the server [i] is created. *)
Definition go_serve (i : nat) (g : group) : option group :=
  match g_servers g !! i with
  | Some Unborn => Some (mkGroup (<[i := Running]> (g_servers g)) (g_chan g))
  | _ => None
  end.

(** Its serving call returns: a return the goroutine is to ignore ends it. *)
Definition serve_returns (quiet : bool) (i : nat) (r : serve_return) (g : group) : option group :=
  match g_servers g !! i with
  | Some Running =>
      Some (mkGroup (<[i := if quiet then Finished else Sending (i, r)]> (g_servers g)) (g_chan g))
  | _ => None
  end.

(** It sends into the channel, of capacity [cap]. *)
Definition send (cap : nat) (i : nat) (g : group) : option group :=
  match g_servers g !! i with
  | Some (Sending r) =>
      if Nat.ltb (length (g_chan g)) cap
      then Some (mkGroup (<[i := Finished]> (g_servers g)) (g_chan g ++ [r]))
      else None
  | _ => None
  end.

(** The selecting goroutine receives. *)
Definition receive (g : group) : option (report * group) :=
  match g_chan g with
  | [] => None
  | r :: rest => Some (r, mkGroup (g_servers g) rest)
  end.

(** ** The channel never fills up *)

Definition is_finished (x : goroutine) : bool := match x with Finished => true | _ => false end.

(** Every report in the channel comes from a goroutine that has ended. *)
Definition group_ok (g : group) : Prop := length (g_chan g) <= count_if is_finished (g_servers g).

(** The steps of a group. *)
Inductive group_step (cap : nat) : group -> group -> Prop :=
  | step_go i g g' : go_serve i g = Some g' -> group_step cap g g'
  | step_returns quiet i r g g' : serve_returns quiet i r g = Some g' -> group_step cap g g'
  | step_send i g g' : send cap i g = Some g' -> group_step cap g g'
  | step_receive r g g' : receive g = Some (r, g') -> group_step cap g g'.

#[export] Hint Constructors group_step : pr0x.

Lemma group_ok_new n : group_ok (new_group n).
Proof. unfold group_ok, new_group. simpl. lia. Qed.

Lemma group_ok_step cap g g' : group_ok g -> group_step cap g g' -> group_ok g'.
Proof.
  intros Hok Hs. revert Hok. unfold group_ok.
  destruct Hs as [i g g' H|quiet i r g g' H|i g g' H|r g g' H]; intros Hok; unfold go_serve, serve_returns, send, receive in H.
  - destruct (g_servers g !! i) as [[]|] eqn:Hi; simplify_eq/=.
    pose proof (count_if_insert is_finished _ _ _ Running Hi). simpl in *. lia.
  - destruct (g_servers g !! i) as [[]|] eqn:Hi; simplify_eq/=.
    pose proof (count_if_insert is_finished _ _ _ (if quiet then Finished else Sending (i, r)) Hi).
    destruct quiet; simpl in *; lia.
  - destruct (g_servers g !! i) as [[]|] eqn:Hi; try done. destruct (Nat.ltb _ _); simplify_eq/=.
    pose proof (count_if_insert is_finished _ _ _ Finished Hi). rewrite length_app. simpl in *. lia.
  - destruct (g_chan g) as [|x l] eqn:Hc; simplify_eq/=. lia.
Qed.

Lemma group_step_length cap g g' : group_step cap g g' -> length (g_servers g') = length (g_servers g).
Proof.
  intros Hs. destruct Hs as [i g g' H|quiet i r g g' H|i g g' H|r g g' H];
    unfold go_serve, serve_returns, send, receive in H.
  all: repeat case_match; simplify_eq/=; by rewrite ?length_insert.
Qed.

(** A channel with a place for every server never blocks a sender. *)
Lemma send_enabled cap i r g :
  group_ok g -> length (g_servers g) <= cap -> g_servers g !! i = Some (Sending r) ->
  is_Some (send cap i g).
Proof.
  unfold group_ok, send. intros Hok Hcap Hi. rewrite Hi.
  pose proof (count_if_insert is_finished _ _ _ Finished Hi) as Hc. simpl in Hc.
  pose proof (count_if_le is_finished (<[i := Finished]> (g_servers g))) as Hle. rewrite length_insert in Hle.
  destruct (Nat.ltb_spec (length (g_chan g)) cap); [by eexists|lia].
Qed.

(** ** What is reported *)

(** Every report on its way or in the channel satisfies [P]. *)
Definition reports_all (P : report -> Prop) (g : group) : Prop :=
  (forall i r, g_servers g !! i = Some (Sending r) -> P r) /\ (forall r, r ∈ g_chan g -> P r).

Lemma reports_all_new P n : reports_all P (new_group n).
Proof.
  split; simpl; [|by intros r ?%elem_of_nil]. intros i r Hi. by apply lookup_replicate in Hi as [? _].
Qed.

Lemma reports_all_mono (P Q : report -> Prop) g : (forall r, P r -> Q r) -> reports_all P g -> reports_all Q g.
Proof. intros HPQ [H1 H2]. split; eauto. Qed.

Lemma reports_all_insert P g i x :
  reports_all P g -> (forall r, x = Sending r -> P r) ->
  reports_all P (mkGroup (<[i := x]> (g_servers g)) (g_chan g)).
Proof.
  intros [H1 H2] Hx. split; simpl; [|done]. intros j r. rewrite list_lookup_insert.
  case_decide; [|apply H1]. intros [= ?]. eauto.
Qed.

Lemma reports_all_go P i g g' : reports_all P g -> go_serve i g = Some g' -> reports_all P g'.
Proof.
  unfold go_serve. intros HP. destruct (g_servers g !! i) as [[]|]; intros [= <-].
  by apply reports_all_insert.
Qed.

Lemma reports_all_returns P quiet i r g g' :
  reports_all P g -> (quiet = false -> P (i, r)) -> serve_returns quiet i r g = Some g' -> reports_all P g'.
Proof.
  unfold serve_returns. intros HP Hr. destruct (g_servers g !! i) as [[]|]; intros [= <-].
  apply reports_all_insert; [done|]. destruct quiet; [done|]. intros r' [= <-]. auto.
Qed.

Lemma reports_all_send P cap i g g' : reports_all P g -> send cap i g = Some g' -> reports_all P g'.
Proof.
  unfold send. intros [H1 H2]. destruct (g_servers g !! i) as [[]|] eqn:Hi; try done.
  destruct (Nat.ltb _ _); intros [= <-]. split; simpl.
  - intros j r'. rewrite list_lookup_insert. case_decide; [by intros [=]|apply H1].
  - intros r' [?|?%list_elem_of_singleton]%elem_of_app; [auto|subst]. eauto.
Qed.

Lemma reports_all_receive P r g g' :
  reports_all P g -> receive g = Some (r, g') -> P r /\ reports_all P g'.
Proof.
  unfold receive. intros [H1 H2]. destruct (g_chan g) as [|x l] eqn:Hc; intros [= <- <-].
  split; [apply H2; left|]. split; simpl; [done|]. intros y Hy. apply H2. by right.
Qed.

(** ** Which goroutines exist *)

Lemma server_at_insert i x j l c :
  i < length l ->
  server_at j (mkGroup (<[i := x]> l) c) = if Nat.eqb j i then x else server_at j (mkGroup l c).
Proof.
  intros Hi. unfold server_at. simpl. destruct (Nat.eqb_spec j i) as [->|Hne].
  - by rewrite list_lookup_insert_eq.
  - by rewrite list_lookup_insert_ne.
Qed.

(** A step of a goroutine that is not its creation leaves it created, and the
    other as it was. *)
Lemma server_at_returns quiet i r g g' j :
  serve_returns quiet i r g = Some g' ->
  (server_at j g = Unborn <-> server_at j g' = Unborn).
Proof.
  unfold serve_returns. destruct (g_servers g !! i) as [[]|] eqn:Hi; intros [= <-].
  rewrite server_at_insert by (by eapply lookup_lt_Some). destruct (Nat.eqb_spec j i) as [->|]; [|done].
  unfold server_at. rewrite Hi. simpl. by destruct quiet.
Qed.

Lemma server_at_send cap i g g' j :
  send cap i g = Some g' -> (server_at j g = Unborn <-> server_at j g' = Unborn).
Proof.
  unfold send. destruct (g_servers g !! i) as [[]|] eqn:Hi; try done. destruct (Nat.ltb _ _); intros [= <-].
  rewrite server_at_insert by (by eapply lookup_lt_Some). destruct (Nat.eqb_spec j i) as [->|]; [|done].
  unfold server_at. rewrite Hi. done.
Qed.

Lemma server_at_go i g g' j :
  go_serve i g = Some g' -> server_at j g' = if Nat.eqb j i then Running else server_at j g.
Proof.
  unfold go_serve. destruct (g_servers g !! i) as [[]|] eqn:Hi; intros [= <-].
  by rewrite server_at_insert by (by eapply lookup_lt_Some).
Qed.

(** ** The goroutines end *)

Definition burden (x : goroutine) : nat :=
  match x with Unborn => 3 | Running => 2 | Sending _ => 1 | Finished => 0 end.
Definition group_burden (g : group) : nat := sum_list (burden <$> g_servers g).

Lemma group_step_burden cap g g' :
  group_step cap g g' ->
  group_burden g' < group_burden g \/ (group_burden g' = group_burden g /\ length (g_chan g') < length (g_chan g)).
Proof.
  intros Hs. unfold group_burden. destruct Hs as [i g g' H|quiet i r g g' H|i g g' H|r g g' H];
    unfold go_serve, serve_returns, send, receive in H.
  - destruct (g_servers g !! i) as [[]|] eqn:Hi; simplify_eq/=.
    pose proof (sum_list_insert burden _ _ _ Running Hi). simpl in *. lia.
  - destruct (g_servers g !! i) as [[]|] eqn:Hi; simplify_eq/=.
    pose proof (sum_list_insert burden _ _ _ (if quiet then Finished else Sending (i, r)) Hi).
    destruct quiet; simpl in *; lia.
  - destruct (g_servers g !! i) as [[]|] eqn:Hi; try done. destruct (Nat.ltb _ _); simplify_eq/=.
    pose proof (sum_list_insert burden _ _ _ Finished Hi). simpl in *. lia.
  - destruct (g_chan g) as [|x l] eqn:Hc; simplify_eq/=. right. lia.
Qed.
