(* ===== verification/CellServer.v ===== *)
(** * The life of the cell proxy ([internal/pkg/cellproxy/proxy.go], [cmd/cellproxy])

    [Server.Run] with the goroutines of [serve] and its [shutdown], as a
    labelled transition system over the servers of [Servers]: server 0 is the
    SOCKS5 proxy, server 1 the control server. *)

From S2P Require Import Prelude Servers.

Definition socks5 : nat := 0.
Definition control : nat := 1.
Definition serverErrorChannelSize : nat := 2.

(** What [Run] returns: the listen error or a server's report. *)
Inductive cell_error := ErrListenSocks | ErrServer (r : report).

(** [Run]: not entered, listening (the servers are created in order), in its
    [select], in [shutdown] before the listener and before the control server is
    closed, returned. *)
Inductive cell_phase :=
  | CellFresh
  | CellServing (i : nat)
  | CellSelect
  | CellCloseSocks (ret : option cell_error)
  | CellCloseControl (ret : option cell_error)
  | CellReturned (ret : option cell_error).

Record cell_server := mkCellServer {
  k_phase : cell_phase;
  k_done : bool;                (** the context has ended *)
  k_group : group;
  k_socksClosed : bool;
  k_controlClosed : bool;
}.

Definition cell_server_init : cell_server :=
  mkCellServer CellFresh false (new_group 2) false false.

Definition cell_goto (p : cell_phase) (s : cell_server) : cell_server :=
  mkCellServer p (k_done s) (k_group s) (k_socksClosed s) (k_controlClosed s).
Definition cell_with_group (g : group) (s : cell_server) : cell_server :=
  mkCellServer (k_phase s) (k_done s) g (k_socksClosed s) (k_controlClosed s).

Definition cell_closed (i : nat) (s : cell_server) : bool :=
  if Nat.eqb i socks5 then k_socksClosed s else k_controlClosed s.

(** The returns [serve] does not report. *)
Definition clean_return (r : serve_return) : bool :=
  match r with
  | ServeNil | ServeErr ErrServerClosed | ServeErr ErrNetClosed => true
  | _ => false
  end.

(** How a serving call may end: a closed listener or server ends it with its
    own sentinel, anything else only ends it before; it may panic. *)
Definition serve_may (closed : bool) (sentinel : serve_error) (r : serve_return) : bool :=
  match r with
  | ServeNil => false
  | ServeErr (ErrOther _) => negb closed
  | ServeErr e => closed && bool_decide (e = sentinel)
  | ServePanic _ => true
  end.

Definition cell_sentinel (i : nat) : serve_error := if Nat.eqb i socks5 then ErrNetClosed else ErrServerClosed.

Inductive cell_action :=
  (** environment: a signal ends the context; a serving call returns *)
  | KCancel
  | KReturn (i : nat) (r : serve_return)
  (** [Run] *)
  | KListen (ok : bool)
  | KServe
  | KSelectDone
  | KSelectErr
  | KCloseSocks
  | KShutdownControl
  (** the goroutine of a server *)
  | KSend (i : nat).

Definition cell_fire (a : cell_action) (s : cell_server) : option cell_server :=
  match a with
  | KCancel =>
      if k_done s then None
      else Some (mkCellServer (k_phase s) true (k_group s) (k_socksClosed s) (k_controlClosed s))
  | KReturn i r =>
      if serve_may (cell_closed i s) (cell_sentinel i) r then
        g ← serve_returns (clean_return r) i r (k_group s); Some (cell_with_group g s)
      else None
  | KListen ok =>
      match k_phase s with
      | CellFresh => Some (cell_goto (if ok then CellServing socks5 else CellReturned (Some ErrListenSocks)) s)
      | _ => None
      end
  | KServe =>
      match k_phase s with
      | CellServing i =>
          g ← go_serve i (k_group s);
          Some (cell_goto (if Nat.eqb i socks5 then CellServing control else CellSelect) (cell_with_group g s))
      | _ => None
      end
  | KSelectDone =>
      match k_phase s with
      | CellSelect => if k_done s then Some (cell_goto (CellCloseSocks None) s) else None
      | _ => None
      end
  | KSelectErr =>
      match k_phase s with
      | CellSelect =>
          '(r, g) ← receive (k_group s);
          Some (cell_goto (CellCloseSocks (Some (ErrServer r))) (cell_with_group g s))
      | _ => None
      end
  | KCloseSocks =>
      match k_phase s with
      | CellCloseSocks ret =>
          Some (mkCellServer (CellCloseControl ret) (k_done s) (k_group s) true (k_controlClosed s))
      | _ => None
      end
  | KShutdownControl =>
      match k_phase s with
      | CellCloseControl ret =>
          Some (mkCellServer (CellReturned ret) (k_done s) (k_group s) (k_socksClosed s) true)
      | _ => None
      end
  | KSend i =>
      g ← send serverErrorChannelSize i (k_group s); Some (cell_with_group g s)
  end.

Definition cell_server_step (s s' : cell_server) : Prop := exists a, cell_fire a s = Some s'.
Definition cell_server_reachable (s : cell_server) : Prop := rtc cell_server_step cell_server_init s.

(** [main] of [cmd/cellproxy]: the exit status, from what loading the
    configuration and [Run] returned. *)
Definition cell_main (config_ok : bool) (ret : option cell_error) : Z :=
  if config_ok then match ret with None => 0 | Some _ => 1 end else 1.

(** ** Invariant *)

(** What a server may be doing at each phase of [Run]. *)
Definition cell_stage (s : cell_server) : Prop :=
  let a := server_at socks5 (k_group s) in
  let b := server_at control (k_group s) in
  match k_phase s with
  | CellFresh => a = Unborn /\ b = Unborn /\ k_socksClosed s = false /\ k_controlClosed s = false
  | CellServing i =>
      (i = socks5 /\ a = Unborn \/ i = control /\ a <> Unborn) /\ b = Unborn /\
      k_socksClosed s = false /\ k_controlClosed s = false
  | CellSelect | CellCloseSocks _ =>
      a <> Unborn /\ b <> Unborn /\ k_socksClosed s = false /\ k_controlClosed s = false
  | CellCloseControl _ => a <> Unborn /\ b <> Unborn /\ k_socksClosed s = true /\ k_controlClosed s = false
  | CellReturned (Some ErrListenSocks) => a = Unborn /\ b = Unborn
  | CellReturned _ => a <> Unborn /\ b <> Unborn /\ k_socksClosed s = true /\ k_controlClosed s = true
  end.

(** Why [Run] returns what it is about to return. *)
Definition cell_why (s : cell_server) (ret : option cell_error) : Prop :=
  match ret with
  | None => k_done s = true
  | Some ErrListenSocks => server_at socks5 (k_group s) = Unborn
  | Some (ErrServer r) => clean_return r.2 = false
  end.

Definition cell_reason (s : cell_server) : Prop :=
  match k_phase s with
  | CellCloseSocks ret | CellCloseControl ret | CellReturned ret => cell_why s ret
  | _ => True
  end.

Record cell_server_inv (s : cell_server) : Prop := {
  ks_group : group_ok (k_group s);
  ks_two : length (g_servers (k_group s)) = 2;
  ks_reports : reports_all (fun r => clean_return r.2 = false) (k_group s);
  ks_stage : cell_stage s;
  ks_reason : cell_reason s;
}.


Lemma cell_stage_frame g s :
  (forall j, server_at j (k_group s) = Unborn <-> server_at j g = Unborn) ->
  cell_stage s -> cell_stage (cell_with_group g s).
Proof.
  intros Hj. unfold cell_stage. simpl. pose proof (Hj socks5) as H0. pose proof (Hj control) as H1.
  destruct (k_phase s) as [| | | | |[[]|]]; tauto.
Qed.

Lemma cell_reason_frame g s :
  (forall j, server_at j (k_group s) = Unborn <-> server_at j g = Unborn) ->
  cell_reason s -> cell_reason (cell_with_group g s).
Proof.
  intros Hj. unfold cell_reason, cell_why. simpl. pose proof (Hj socks5).
  destruct (k_phase s) as [| | |[[]|]|[[]|]|[[]|]]; tauto.
Qed.

Lemma cell_server_inv_init : cell_server_inv cell_server_init.
Proof.
  constructor; [apply group_ok_new|done|apply reports_all_new|done|done].
Qed.

(** A step of the group inside, with [Run] where it was. *)
Lemma cell_server_inv_group cap g s :
  cell_server_inv s -> group_step cap (k_group s) g ->
  reports_all (fun r => clean_return r.2 = false) g ->
  (forall j, server_at j (k_group s) = Unborn <-> server_at j g = Unborn) ->
  cell_server_inv (cell_with_group g s).
Proof.
  intros [Hg Hn Hr Hs Hw] Hstep HR Hj. constructor; simpl; [|..|by apply cell_stage_frame|by apply cell_reason_frame].
  - by eapply group_ok_step.
  - by rewrite (group_step_length _ _ _ Hstep).
  - done.
Qed.

Lemma cell_server_inv_step a s s' : cell_server_inv s -> cell_fire a s = Some s' -> cell_server_inv s'.
Proof.
  intros Hinv E. pose proof Hinv as [Hg Hn Hr Hs Hw]. destruct a as [|i r|ok| | | | | |i]; simpl in E.
  - destruct (k_done s); [done|]. injection E as <-. constructor; simpl; try done.
    unfold cell_reason in *. simpl. by destruct (k_phase s) as [| | |[[]|]|[[]|]|[[]|]].
  - destruct (serve_may _ _ _); [|done]. apply bind_Some in E as (g & E & [= <-]).
    eapply (cell_server_inv_group 2); [done|eauto with pr0x| |by intros; eapply server_at_returns].
    eapply reports_all_returns; [done| |exact E]. done.
  - unfold cell_stage in Hs. destruct (k_phase s) eqn:Hp; try done. injection E as <-.
    destruct Hs as (Ha & Hb & Hc & Hd). constructor; simpl; try done; unfold cell_stage, cell_reason; simpl; destruct ok; naive_solver.
  - unfold cell_stage in Hs. destruct (k_phase s) eqn:Hp; try done. apply bind_Some in E as (g & E & [= <-]).
    pose proof (fun j => server_at_go _ _ _ j E) as Hj.
    constructor; simpl.
    + eapply (group_ok_step 2); [exact Hg|eauto with pr0x].
    + by rewrite (group_step_length 2 _ _ (step_go 2 _ _ _ E)).
    + by eapply reports_all_go.
    + unfold cell_stage. simpl. rewrite !Hj. destruct Hs as ([[-> ?]|[-> ?]] & ? & ? & ?); simpl; naive_solver.
    + unfold cell_reason. simpl. by destruct (Nat.eqb i socks5).
  - unfold cell_stage in Hs. destruct (k_phase s) eqn:Hp; try done. destruct (k_done s) eqn:Hd; [|done]. injection E as <-.
    constructor; try done.
  - unfold cell_stage in Hs. destruct (k_phase s) eqn:Hp; try done. apply bind_Some in E as ([r g] & E & [= <-]).
    destruct (reports_all_receive _ _ _ _ Hr E) as [Hrr Hr']. constructor; simpl; try done.
    + eapply (group_ok_step 2); [exact Hg|eauto with pr0x].
    + by rewrite (group_step_length 2 _ _ (step_receive 2 _ _ _ E)).
    + unfold receive in E. destruct (g_chan (k_group s)); [done|]. injection E as <- <-. done.
  - unfold cell_stage, cell_reason in *. destruct (k_phase s) eqn:Hp; try done. injection E as <-. constructor; try done.
    unfold cell_stage. simpl. tauto.
  - unfold cell_stage, cell_reason in *. destruct (k_phase s) eqn:Hp; try done. injection E as <-. constructor; try done.
    unfold cell_stage. simpl. destruct ret as [[]|]; tauto.
  - apply bind_Some in E as (g & E & [= <-]).
    eapply (cell_server_inv_group 2); [done|eauto with pr0x|by eapply reports_all_send|by intros; eapply server_at_send].
Qed.

Lemma cell_server_reachable_inv s : cell_server_reachable s -> cell_server_inv s.
Proof.
  apply (rtc_invariant _ cell_server_inv); [|apply cell_server_inv_init].
  intros x y Hx [a E]. by eapply cell_server_inv_step.
Qed.

(** ** What [Run] returns *)

(** [Run] returns no error only after the context has ended; an error is the
    failed listen, before any server was started, or a report of a server that
    did not end by being shut down. *)
Theorem cell_run_reports s ret :
  cell_server_reachable s -> k_phase s = CellReturned ret ->
  match ret with
  | None => k_done s = true
  | Some ErrListenSocks => server_at socks5 (k_group s) = Unborn /\ server_at control (k_group s) = Unborn
  | Some (ErrServer (i, r)) => clean_return r = false
  end.
Proof.
  intros [_ _ _ Hs Hw]%cell_server_reachable_inv Hp. unfold cell_stage, cell_reason in *. rewrite Hp in Hs, Hw.
  by destruct ret as [[|[i r]]|].
Qed.

(** ** Shutting down *)

(** The steps that wait for nothing outside: all but the end of the context and
    the failure of a server that has not been closed. *)
Definition cell_own (a : cell_action) (s : cell_server) : bool :=
  match a with
  | KCancel => false
  | KReturn i _ => cell_closed i s
  | _ => true
  end.

Definition cell_at_rest (s : cell_server) : Prop :=
  forall a s', cell_own a s = true -> cell_fire a s <> Some s'.

Definition cell_phase_rank (p : cell_phase) : nat :=
  match p with
  | CellFresh => 6 | CellServing 0 => 5 | CellServing _ => 4 | CellSelect => 3
  | CellCloseSocks _ => 2 | CellCloseControl _ => 1 | CellReturned _ => 0
  end.
Definition cell_measure (s : cell_server) : nat := cell_phase_rank (k_phase s) + group_burden (k_group s).

Lemma cell_fire_measure a s s' :
  a <> KCancel -> cell_fire a s = Some s' -> cell_measure s' < cell_measure s.
Proof.
  intros Hc E. unfold cell_measure. destruct a as [|i r|ok| | | | | |i]; simpl in E; [done|..].
  - destruct (serve_may _ _ _); [|done]. apply bind_Some in E as (g & E & [= <-]). simpl.
    destruct (group_step_burden 2 _ _ (step_returns 2 _ _ _ _ _ E)) as [|[_ Hl]]; [lia|].
    unfold serve_returns in E. repeat case_match; simplify_eq/=; lia.
  - destruct (k_phase s); try done. injection E as <-. destruct ok; simpl; lia.
  - destruct (k_phase s) as [|i| | | |]; try done. apply bind_Some in E as (g & E & [= <-]). simpl.
    destruct (group_step_burden 2 _ _ (step_go 2 _ _ _ E)) as [|[_ Hl]]; [destruct i; simpl; lia|].
    unfold go_serve in E. repeat case_match; simplify_eq/=; lia.
  - destruct (k_phase s); try done. destruct (k_done s); [|done]. injection E as <-. simpl. lia.
  - destruct (k_phase s); try done. apply bind_Some in E as ([r g] & E & [= <-]). simpl.
    unfold receive in E. destruct (g_chan (k_group s)); [done|]. injection E as <- <-. unfold group_burden. simpl. lia.
  - destruct (k_phase s); try done. injection E as <-. simpl. lia.
  - destruct (k_phase s); try done. injection E as <-. simpl. lia.
  - apply bind_Some in E as (g & E & [= <-]). simpl.
    destruct (group_step_burden 2 _ _ (step_send 2 _ _ _ E)) as [|[_ Hl]]; [lia|].
    unfold send in E. repeat case_match; simplify_eq/=. rewrite length_app in Hl. simpl in Hl. lia.
Qed.

(** At rest no goroutine is stuck in its send, and none whose server is closed
    is left. *)
Lemma cell_rest_server s i :
  cell_server_inv s -> cell_at_rest s -> i < 2 ->
  server_at i (k_group s) = Unborn \/ server_at i (k_group s) = Finished \/
  (server_at i (k_group s) = Running /\ cell_closed i s = false).
Proof.
  intros [Hg Hn _ _ _] Hrest Hi. unfold server_at.
  destruct (lookup_lt_is_Some_2 (g_servers (k_group s)) i ltac:(lia)) as [x Hx]. rewrite Hx. simpl.
  destruct x as [| |r|]; [by left| |exfalso|by right; left].
  - right; right. split; [done|]. destruct (cell_closed i s) eqn:Hc; [|done]. exfalso.
    assert (Hm : serve_may (cell_closed i s) (cell_sentinel i) (ServeErr (cell_sentinel i)) = true).
    { rewrite Hc. unfold cell_sentinel, serve_may. by destruct (Nat.eqb i socks5). }
    eapply (Hrest (KReturn i (ServeErr (cell_sentinel i)))); [done|].
    cbn [cell_fire]. rewrite Hm. unfold serve_returns. by rewrite Hx.
  - destruct (send_enabled serverErrorChannelSize i r (k_group s) Hg) as [g E]; [unfold serverErrorChannelSize; lia|done|].
    by apply (Hrest (KSend i) (cell_with_group g s)); simpl; [|rewrite E].
Qed.

(** Without a failure or a signal nothing happens for ever: the steps [Run] and
    its goroutines take by themselves end, and where none is left [Run] is
    waiting in its [select], with the context alive and both servers running
    (or ended cleanly), or it has returned and left no goroutine behind, blocked
    in its send or serving. *)
Theorem cell_run_settles s :
  cell_server_reachable s ->
  Acc (fun s' s => exists a, cell_own a s = true /\ cell_fire a s = Some s') s /\
  (cell_at_rest s ->
   (k_phase s = CellSelect /\ k_done s = false /\
    forall i, i < 2 -> server_at i (k_group s) = Running \/ server_at i (k_group s) = Finished) \/
   (exists ret, k_phase s = CellReturned ret /\
    forall i, i < 2 -> server_at i (k_group s) = Unborn \/ server_at i (k_group s) = Finished)).
Proof.
  intros Hinv%cell_server_reachable_inv. split.
  - clear Hinv. remember (cell_measure s) as n eqn:Hm. revert s Hm.
    induction (lt_wf n) as [n _ IH]. intros s ->. constructor. intros s' (a & Ho & E).
    eapply IH; [|reflexivity]. eapply cell_fire_measure; [|exact E]. by intros ->.
  - intros Hrest. pose proof (fun i => cell_rest_server s i Hinv Hrest) as Hsrv.
    destruct Hinv as [_ Hn _ Hs _]. unfold cell_stage in Hs. destruct (k_phase s) as [|i| |ret|ret|ret] eqn:Hp.
    + exfalso. apply (Hrest (KListen true) (cell_goto (CellServing socks5) s)); [done|]. simpl. by rewrite Hp.
    + exfalso. destruct Hs as (Ha & Hb & _). assert (server_at i (k_group s) = Unborn) as Hi
        by (destruct Ha as [[-> ?]|[-> ?]]; done).
      assert (i < 2) by (unfold socks5, control in Ha; lia).
      destruct (lookup_lt_is_Some_2 (g_servers (k_group s)) i ltac:(lia)) as [x Hx].
      unfold server_at in Hi. rewrite Hx in Hi. simpl in Hi. subst x.
      eapply (Hrest KServe); [done|]. simpl. rewrite Hp. unfold go_serve. rewrite Hx. done.
    + left. split; [done|]. split.
      * destruct (k_done s) eqn:Hd; [|done]. exfalso.
        apply (Hrest KSelectDone (cell_goto (CellCloseSocks None) s)); [done|]. simpl. by rewrite Hp, Hd.
      * intros i Hi. destruct (Hsrv i Hi) as [Hu|[?|[? _]]]; [|by right|by left]. exfalso.
        destruct Hs as (Ha & Hb & _). destruct i as [|[|]]; [done|done|lia].
    + exfalso. eapply (Hrest KCloseSocks); [done|]. simpl. by rewrite Hp.
    + exfalso. eapply (Hrest KShutdownControl); [done|]. simpl. by rewrite Hp.
    + right. exists ret. split; [done|]. intros i Hi. destruct (Hsrv i Hi) as [?|[?|[Hr Hc]]]; [by left|by right|].
      exfalso. unfold socks5, control in Hs.
      destruct ret as [[|r]|], i as [|[|]]; try lia; destruct_and?; unfold cell_closed in Hc; simpl in Hc; congruence.
Qed.

Module CellServerExamples.

Fixpoint cell_fire_all (l : list cell_action) (s : cell_server) : option cell_server :=
  match l with
  | [] => Some s
  | a :: l => s ← cell_fire a s; cell_fire_all l s
  end.

Lemma cell_replay l s0 s : cell_fire_all l s0 = Some s -> rtc cell_server_step s0 s.
Proof.
  revert s0. induction l as [|a l IH]; intros s0 H; simpl in H; [by simplify_eq|].
  apply bind_Some in H as (s1 & E & H). eapply rtc_l; [by exists a|by apply IH].
Qed.

(** The control port is taken: the control server reports, [Run] shuts the
    SOCKS5 server down and both goroutines end. *)
Definition port_taken : serve_return := ServeErr (ErrOther "address already in use").

Definition failed_control : list cell_action :=
  [KListen true; KServe; KServe; KReturn 1 port_taken; KSend 1; KSelectErr; KCloseSocks; KShutdownControl;
   KReturn 0 (ServeErr ErrNetClosed)].

Definition after_failure : cell_server := default cell_server_init (cell_fire_all failed_control cell_server_init).

Lemma after_failure_reachable : cell_server_reachable after_failure.
Proof. apply (cell_replay failed_control). vm_compute. reflexivity. Qed.

Lemma cell_run_reports_witness :
  k_phase after_failure = CellReturned (Some (ErrServer (1, port_taken))) /\ clean_return port_taken = false.
Proof.
  split; [reflexivity|].
  exact (cell_run_reports after_failure _ after_failure_reachable eq_refl).
Defined.

Lemma after_failure_rests : cell_at_rest after_failure.
Proof.
  intros a s' Ho E. destruct a as [|i r|ok| | | | | |i]; try discriminate Ho; try discriminate E.
  - cbn [cell_fire] in E. destruct (serve_may _ _ _); [|done].
    apply bind_Some in E as (g & E & _). destruct i as [|[|]]; discriminate E.
  - cbn [cell_fire] in E. apply bind_Some in E as (g & E & _). destruct i as [|[|]]; discriminate E.
Qed.

Lemma cell_run_settles_witness :
  (k_phase after_failure = CellSelect /\ k_done after_failure = false /\
   forall i, i < 2 -> server_at i (k_group after_failure) = Running \/ server_at i (k_group after_failure) = Finished) \/
  (exists ret, k_phase after_failure = CellReturned ret /\
   forall i, i < 2 -> server_at i (k_group after_failure) = Unborn \/ server_at i (k_group after_failure) = Finished).
Proof. exact (proj2 (cell_run_settles after_failure after_failure_reachable) after_failure_rests). Defined.

End CellServerExamples.
