(* ===== verification/ServiceLife.v ===== *)
(** * The life of the controller service ([service.go]: [Run] and [Stop], [reaper.go]: the loops)

    [Service.Run], its four servers and their goroutines, the loops of the
    reaper and [Service.Stop], as one labelled transition system over the servers
    of [Servers].  The servers are numbered in the order [Run] starts them:
    SOCKS gateway, HTTP proxy gateway, API, metrics.  Closing a gateway takes its
    listener or server out of its field ([l_set]), so that only one of the closing
    goroutines closes it; the API server is shut down by [Stop] or by itself when
    the context ends, whichever is first. *)

From S2P Require Import Prelude Servers.

Definition sGateway : nat := 0.
Definition sHTTPProxy : nat := 1.
Definition sAPI : nat := 2.
Definition sMetrics : nat := 3.
Definition httpErrCapacity : nat := 4.

(** What [Run] returns: a server could not be started, or one failed. *)
Inductive life_error := StartFailed (i : nat) | ServerFailed (r : report).

(** [Run]: not entered, past the boot-time reap, starting the server [i], in its
    [select], returned. *)
Inductive life_phase :=
  | LifeFresh
  | LifeReaper
  | LifeStart (i : nat)
  | LifeSelect
  | LifeReturned (ret : option life_error).

(** [Stop]: not called, at each of its calls, returned.  [stopAPI] shuts the
    server down and waits for its requests. *)
Inductive stop_phase :=
  | StopNone | StopAPI | StopDrain | StopMetrics | StopGateway | StopHTTPProxy | StopReaper | StopManager | StopReturned.

(** A loop of the reaper: waiting, with a tick pending or not; in a pass;
    returned. *)
Inductive reap_loop := LoopWaits (tick : bool) | LoopBusy (tick : bool) | LoopExited.

(** The step of a loop: the context has ended, it takes a tick, or its pass ends. *)
Inductive loop_case := CaseDone | CaseTick | CasePassEnds.

Definition reaperLoop (done : bool) (c : loop_case) (l : reap_loop) : option reap_loop :=
  match c, l with
  | CaseDone, LoopWaits _ => if done then Some LoopExited else None
  | CaseTick, LoopWaits true => Some (LoopBusy false)
  | CasePassEnds, LoopBusy tick => Some (LoopWaits tick)
  | _, _ => None
  end.

(** [idleLoop], [healthLoop] and [orphanLoop] differ in their tick and their
    pass. *)
Definition idleLoop : bool -> loop_case -> reap_loop -> option reap_loop := reaperLoop.
Definition healthLoop : bool -> loop_case -> reap_loop -> option reap_loop := reaperLoop.
Definition orphanLoop : bool -> loop_case -> reap_loop -> option reap_loop := reaperLoop.

Definition loopOf (k : nat) : bool -> loop_case -> reap_loop -> option reap_loop :=
  match k with 0 => idleLoop | 1 => healthLoop | _ => orphanLoop end.

#[global] Instance reap_loop_eq_dec : EqDecision reap_loop.
Proof. solve_decision. Defined.

Record life := mkLife {
  l_phase : life_phase;
  l_stop : stop_phase;
  l_done : bool;                (** the context of [Run] has ended *)
  l_group : group;
  l_set : gset nat;             (** the fields that hold a listener or a server *)
  l_closed : gset nat;          (** the servers that were closed or shut down *)
  l_watch : gset nat;           (** the gateways' goroutines waiting for the context *)
  l_loops : list reap_loop;
  l_handlers : nat;             (** API requests being handled *)
  l_missed : bool;              (** [stopMetrics] found no server *)
  l_expired : bool;             (** the deadline of [stopAPI] passed *)
  l_mgrClosed : bool;           (** [Manager.Close] was called *)
}.

Definition life_init : life :=
  mkLife LifeFresh StopNone false (new_group 4) ∅ ∅ ∅ [] 0 false false false.

Definition at_life (p : life_phase) (s : life) : life :=
  mkLife p (l_stop s) (l_done s) (l_group s) (l_set s) (l_closed s) (l_watch s) (l_loops s) (l_handlers s)
    (l_missed s) (l_expired s) (l_mgrClosed s).
Definition at_stop (p : stop_phase) (s : life) : life :=
  mkLife (l_phase s) p (l_done s) (l_group s) (l_set s) (l_closed s) (l_watch s) (l_loops s) (l_handlers s)
    (l_missed s) (l_expired s) (l_mgrClosed s).
Definition life_group (g : group) (s : life) : life :=
  mkLife (l_phase s) (l_stop s) (l_done s) g (l_set s) (l_closed s) (l_watch s) (l_loops s) (l_handlers s)
    (l_missed s) (l_expired s) (l_mgrClosed s).
Definition with_loops (ls : list reap_loop) (s : life) : life :=
  mkLife (l_phase s) (l_stop s) (l_done s) (l_group s) (l_set s) (l_closed s) (l_watch s) ls (l_handlers s)
    (l_missed s) (l_expired s) (l_mgrClosed s).
Definition with_handlers (n : nat) (s : life) : life :=
  mkLife (l_phase s) (l_stop s) (l_done s) (l_group s) (l_set s) (l_closed s) (l_watch s) (l_loops s) n
    (l_missed s) (l_expired s) (l_mgrClosed s).
Definition with_fields (set closed watch : gset nat) (s : life) : life :=
  mkLife (l_phase s) (l_stop s) (l_done s) (l_group s) set closed watch (l_loops s) (l_handlers s)
    (l_missed s) (l_expired s) (l_mgrClosed s).

(** Taking the field [i] of a gateway and closing what it held, if it was set. *)
Definition closeGateway (i : nat) (s : life) : life :=
  if bool_decide (i ∈ l_set s)
  then with_fields (l_set s ∖ {[i]}) ({[i]} ∪ l_closed s) (l_watch s) s else s.

(** [ProxyGateway.Close]; [HTTPProxyGateway.Close] as far as its server is
    concerned ([Tunnels] has the rest). *)
Definition gatewayClose : life -> life := closeGateway sGateway.
Definition httpProxyClose : life -> life := closeGateway sHTTPProxy.

(** Shutting down the API or the metrics server, if the field is set. *)
Definition shutdownServer (i : nat) (s : life) : life :=
  if bool_decide (i ∈ l_set s) then with_fields (l_set s) ({[i]} ∪ l_closed s) (l_watch s) s else s.

(** The returns each goroutine does not report. *)
Definition life_quiet (i : nat) (r : serve_return) : bool :=
  match r with
  | ServeNil => true
  | ServeErr ErrNetClosed => Nat.eqb i sGateway
  | ServeErr ErrServerClosed => Nat.eqb i sHTTPProxy || Nat.eqb i sMetrics
  | ServeErr ErrCanceled => Nat.eqb i sAPI
  | _ => false
  end.

(** How the serving calls may end.  [serbewr.Server.Start] returns nothing after
    [Stop] and the context's error when it ends; the others return their
    sentinel after they were closed; another error only before. *)
Definition life_may (i : nat) (r : serve_return) (s : life) : bool :=
  let closed := bool_decide (i ∈ l_closed s) in
  match r with
  | ServeNil => Nat.eqb i sAPI && closed
  | ServeErr ErrCanceled => Nat.eqb i sAPI && l_done s
  | ServeErr ErrNetClosed => Nat.eqb i sGateway && closed
  | ServeErr ErrServerClosed => (Nat.eqb i sHTTPProxy || Nat.eqb i sMetrics) && closed
  | ServeErr (ErrOther _) => negb closed
  | ServePanic _ => false
  end.

(** Starting a server: its field, the goroutine that serves, and for a gateway
    the goroutine that waits for the context. *)
Definition launchServer (i : nat) (watched : bool) (next : life_phase) (s : life) : option life :=
  g ← go_serve i (l_group s);
  Some (with_fields ({[i]} ∪ l_set s) (l_closed s) (if watched then {[i]} ∪ l_watch s else l_watch s)
          (at_life next (life_group g s))).

(** [ProxyGateway.Start] and [HTTPProxyGateway.Start] once they listen, [startAPI]
    once the server is built, [startMetrics]. *)
Definition gatewayStart : life -> option life := launchServer sGateway true (LifeStart sHTTPProxy).
Definition httpProxyStart : life -> option life := launchServer sHTTPProxy true (LifeStart sAPI).
Definition startAPI : life -> option life := launchServer sAPI false (LifeStart sMetrics).
Definition startMetrics : life -> option life := launchServer sMetrics false LifeSelect.

Definition startServer (i : nat) : life -> option life :=
  match i with 0 => gatewayStart | 1 => httpProxyStart | 2 => startAPI | _ => startMetrics end.

(** [Reaper.Start]. *)
Definition reaperStart (s : life) : life := with_loops (replicate 3 (LoopWaits false)) s.

Definition all_loops_exited (s : life) : bool := forallb (fun l => bool_decide (l = LoopExited)) (l_loops s).

(** [stopAPI]: the server's own [Stop] runs once; when it has run there is
    nothing to wait for. *)
Definition stopAPI (s : life) : life :=
  if bool_decide (sAPI ∈ l_set s) && bool_decide (sAPI ∉ l_closed s)
  then shutdownServer sAPI (at_stop StopDrain s) else at_stop StopMetrics s.

Definition stopMetrics (s : life) : life :=
  let s := shutdownServer sMetrics (at_stop StopGateway s) in
  mkLife (l_phase s) (l_stop s) (l_done s) (l_group s) (l_set s) (l_closed s) (l_watch s) (l_loops s)
    (l_handlers s) (negb (bool_decide (sMetrics ∈ l_set s))) (l_expired s) (l_mgrClosed s).

Definition stopSOCKSGateway (s : life) : life := gatewayClose (at_stop StopHTTPProxy s).
Definition stopHTTPProxy (s : life) : life := httpProxyClose (at_stop StopReaper s).

(** [Manager.Close], called last. *)
Definition closeManager (s : life) : life :=
  let s := at_stop StopReturned s in
  mkLife (l_phase s) (l_stop s) (l_done s) (l_group s) (l_set s) (l_closed s) (l_watch s) (l_loops s)
    (l_handlers s) (l_missed s) (l_expired s) true.

(** The next call of [Stop]; [Reaper.Shutdown] waits for the loops. *)
Definition stopStep (s : life) : option life :=
  match l_stop s with
  | StopAPI => Some (stopAPI s)
  | StopDrain => if Nat.eqb (l_handlers s) 0 then Some (at_stop StopMetrics s) else None
  | StopMetrics => Some (stopMetrics s)
  | StopGateway => Some (stopSOCKSGateway s)
  | StopHTTPProxy => Some (stopHTTPProxy s)
  | StopReaper => if all_loops_exited s then Some (at_stop StopManager s) else None
  | StopManager => Some (closeManager s)
  | _ => None
  end.

Inductive life_action :=
  (** environment: the context ends; [Stop] is called; a ticker fires; an API
      request arrives; the deadline of [stopAPI] passes *)
  | ECancel
  | EStop
  | ETick (k : nat)
  | ERequest
  | EDrainExpires
  (** [Run] *)
  | LBootReap
  | LReaperStart
  | LStart (ok : bool)
  | LSelectDone
  | LSelectErr
  (** the goroutines of the servers and of the gateways *)
  | LReturn (i : nat) (r : serve_return)
  | LSend (i : nat)
  | LWatch (i : nat)
  (** the loops of the reaper, a request, [Stop] *)
  | LLoop (k : nat) (c : loop_case)
  | LRequestEnds
  | LStop.

Definition life_fire (a : life_action) (s : life) : option life :=
  match a with
  | ECancel =>
      if l_done s then None
      else Some (mkLife (l_phase s) (l_stop s) true (l_group s) (l_set s) (l_closed s) (l_watch s) (l_loops s)
                   (l_handlers s) (l_missed s) (l_expired s) (l_mgrClosed s))
  | EStop => match l_stop s with StopNone => Some (at_stop StopAPI s) | _ => None end
  | ETick k =>
      match l_loops s !! k with
      | Some (LoopWaits _) => Some (with_loops (<[k := LoopWaits true]> (l_loops s)) s)
      | Some (LoopBusy _) => Some (with_loops (<[k := LoopBusy true]> (l_loops s)) s)
      | _ => None
      end
  | ERequest =>
      if bool_decide (server_at sAPI (l_group s) = Running) && bool_decide (sAPI ∉ l_closed s)
      then Some (with_handlers (S (l_handlers s)) s) else None
  | EDrainExpires =>
      match l_stop s with
      | StopDrain =>
          Some (mkLife (l_phase s) StopMetrics (l_done s) (l_group s) (l_set s) (l_closed s) (l_watch s) (l_loops s)
                  (l_handlers s) (l_missed s) true (l_mgrClosed s))
      | _ => None
      end
  | LBootReap => match l_phase s with LifeFresh => Some (at_life LifeReaper s) | _ => None end
  | LReaperStart =>
      match l_phase s with
      | LifeReaper => Some (reaperStart (at_life (LifeStart sGateway) s))
      | _ => None
      end
  | LStart ok =>
      match l_phase s with
      | LifeStart i =>
          if ok then startServer i s
          else if Nat.eqb i sMetrics then None else Some (at_life (LifeReturned (Some (StartFailed i))) s)
      | _ => None
      end
  | LSelectDone =>
      match l_phase s with
      | LifeSelect => if l_done s then Some (at_life (LifeReturned None) s) else None
      | _ => None
      end
  | LSelectErr =>
      match l_phase s with
      | LifeSelect =>
          '(r, g) ← receive (l_group s); Some (at_life (LifeReturned (Some (ServerFailed r))) (life_group g s))
      | _ => None
      end
  | LReturn i r =>
      if life_may i r s then
        g ← serve_returns (life_quiet i r) i r (l_group s);
        Some (with_fields (l_set s) (if Nat.eqb i sAPI then {[i]} ∪ l_closed s else l_closed s) (l_watch s)
                (life_group g s))
      else None
  | LSend i => g ← send httpErrCapacity i (l_group s); Some (life_group g s)
  | LWatch i =>
      if l_done s && bool_decide (i ∈ l_watch s)
      then let s := closeGateway i s in Some (with_fields (l_set s) (l_closed s) (l_watch s ∖ {[i]}) s) else None
  | LLoop k c =>
      l ← l_loops s !! k; l' ← loopOf k (l_done s) c l; Some (with_loops (<[k := l']> (l_loops s)) s)
  | LRequestEnds => match l_handlers s with O => None | S n => Some (with_handlers n s) end
  | LStop => stopStep s
  end.

Definition life_step (s s' : life) : Prop := exists a, life_fire a s = Some s'.
Definition life_reachable (s : life) : Prop := rtc life_step life_init s.

(** ** Invariant *)

(** How many servers [Run] has started. *)
Definition born (p : life_phase) : nat :=
  match p with
  | LifeFresh | LifeReaper => 0
  | LifeStart i | LifeReturned (Some (StartFailed i)) => i
  | LifeSelect | LifeReturned _ => 4
  end.

(** Where [Run] is, and why it returned. *)
Definition phase_ok (s : life) : Prop :=
  match l_phase s with
  | LifeStart i => i < 4
  | LifeReturned None => l_done s = true
  | LifeReturned (Some (StartFailed i)) => i < 3
  | LifeReturned (Some (ServerFailed r)) => life_quiet r.1 r.2 = false
  | _ => True
  end.

Definition loops_ok (s : life) : Prop :=
  match l_phase s with LifeFresh | LifeReaper => l_loops s = [] | _ => length (l_loops s) = 3 end.

Definition past_metrics (p : stop_phase) : bool :=
  match p with StopNone | StopAPI | StopDrain | StopMetrics => false | _ => true end.

(** The servers that were started are those not unborn; a gateway that was
    started is closed, or its field is set and a goroutine waits for the
    context; the other fields stay set. *)
Record life_inv (s : life) : Prop := {
  li_group : group_ok (l_group s);
  li_four : length (g_servers (l_group s)) = 4;
  li_reports : reports_all (fun r => life_quiet r.1 r.2 = false) (l_group s);
  li_born : forall j, j < 4 -> server_at j (l_group s) = Unborn <-> born (l_phase s) <= j;
  li_phase : phase_ok s;
  li_loops : loops_ok s;
  li_gateways : forall j, j < sAPI -> j < born (l_phase s) -> j ∈ l_closed s \/ (j ∈ l_set s /\ j ∈ l_watch s);
  li_watch : forall j, j ∈ l_watch s -> j < sAPI /\ j < born (l_phase s);
  li_fields : forall j, sAPI <= j < 4 -> j ∈ l_set s <-> j < born (l_phase s);
  li_missed : past_metrics (l_stop s) = true -> sMetrics ∈ l_closed s \/ l_missed s = true;
  li_manager : l_mgrClosed s = true <-> l_stop s = StopReturned;
}.

Lemma life_inv_init : life_inv life_init.
Proof.
  constructor; simpl; try done; [apply group_ok_new|apply reports_all_new|..].
  - intros j Hj. unfold server_at. simpl. destruct j as [|[|[|[|]]]]; simpl; try lia; split; intros; try lia; done.
  - intros j _ ?. lia.
  - intros j _. set_solver by lia.
Qed.

(** A step of a goroutine of a server, with [Run] where it was. *)
Lemma life_inv_group cap g closed s :
  life_inv s -> group_step cap (l_group s) g -> reports_all (fun r => life_quiet r.1 r.2 = false) g ->
  (forall j, server_at j (l_group s) = Unborn <-> server_at j g = Unborn) -> l_closed s ⊆ closed ->
  life_inv (with_fields (l_set s) closed (l_watch s) (life_group g s)).
Proof.
  intros [H1 H2 H3 H4 H5 H6 H7 Hw H8 H9 H10] Hs Hr Hu Hc. constructor; simpl; try done.
  - by eapply group_ok_step.
  - by rewrite (group_step_length _ _ _ Hs).
  - intros j Hj. rewrite <- Hu. by apply H4.
  - intros j Hj Hb. destruct (H7 j Hj Hb) as [?|?]; [left; set_solver|by right].
  - intros Hp. destruct (H9 Hp); [left; set_solver|by right].
Qed.

(** A step that changes only the fields and what [Stop] has seen. *)
Lemma life_inv_fields set closed watch stop missed expired s :
  life_inv s ->
  (forall j, j < sAPI -> j ∈ l_closed s \/ (j ∈ l_set s /\ j ∈ l_watch s) -> j ∈ closed \/ (j ∈ set /\ j ∈ watch)) ->
  (forall j, j ∈ watch -> j ∈ l_watch s) ->
  (forall j, sAPI <= j < 4 -> j ∈ set <-> j ∈ l_set s) ->
  (past_metrics stop = true -> sMetrics ∈ closed \/ missed = true) ->
  (l_stop s <> StopReturned /\ stop <> StopReturned) ->
  life_inv (mkLife (l_phase s) stop (l_done s) (l_group s) set closed watch (l_loops s) (l_handlers s)
              missed expired (l_mgrClosed s)).
Proof.
  intros [H1 H2 H3 H4 H5 H6 H7 Hw H8 H9 H10] Hg Hwatch Hset Hm [Hs Hs']. constructor; simpl; try done.
  - auto.
  - auto.
  - intros j Hj. rewrite Hset by done. auto.
  - rewrite H10. naive_solver.
Qed.

Lemma closeGateway_spec i s :
  closeGateway i s = with_fields (l_set (closeGateway i s)) (l_closed (closeGateway i s)) (l_watch s) s /\
  (forall j, j ∈ l_closed s -> j ∈ l_closed (closeGateway i s)) /\
  (forall j, j <> i -> j ∈ l_set (closeGateway i s) <-> j ∈ l_set s) /\
  (i ∈ l_set s -> i ∈ l_closed (closeGateway i s)).
Proof.
  unfold closeGateway. case_bool_decide; [|by destruct s]. split_and!; simpl; set_solver.
Qed.

Lemma shutdownServer_spec i s :
  shutdownServer i s = with_fields (l_set s) (l_closed (shutdownServer i s)) (l_watch s) s /\
  (forall j, j ∈ l_closed s -> j ∈ l_closed (shutdownServer i s)) /\
  (i ∈ l_set s -> i ∈ l_closed (shutdownServer i s)).
Proof.
  unfold shutdownServer. case_bool_decide; [|by destruct s]. split_and!; simpl; set_solver.
Qed.

Lemma life_inv_stop s s' : life_inv s -> stopStep s = Some s' -> life_inv s'.
Proof.
  intros Hinv E. pose proof (li_missed _ Hinv) as Hm. unfold stopStep in E. destruct (l_stop s) eqn:Hs; try done.
  - injection E as <-. unfold stopAPI. destruct (_ && _).
    + destruct (shutdownServer_spec sAPI (at_stop StopDrain s)) as (-> & Hc & _).
      apply (life_inv_fields _ _ _ _ _ _ s); rewrite ?Hs; try done; try (by split). intros j _ [?|?]; [left; by apply Hc|by right].
    + by apply (life_inv_fields _ _ _ _ _ _ s); rewrite ?Hs; try done; try (by split); auto.
  - destruct (Nat.eqb _ _); [|done]. injection E as <-. by apply (life_inv_fields _ _ _ _ _ _ s); rewrite ?Hs; try done; try (by split); auto.
  - injection E as <-. unfold stopMetrics. destruct (shutdownServer_spec sMetrics (at_stop StopGateway s)) as (-> & Hc & Hi).
    apply (life_inv_fields _ _ _ _ _ _ s); rewrite ?Hs; try done; try (by split); [intros j _ [?|?]; [left; by apply Hc|by right]|]. intros _. simpl.
    destruct (decide (sMetrics ∈ l_set s)); [left; by apply Hi|right]. by rewrite bool_decide_false.
  - injection E as <-. unfold stopSOCKSGateway, gatewayClose.
    destruct (closeGateway_spec sGateway (at_stop StopHTTPProxy s)) as (-> & Hc & Hset & Hi).
    simpl in *. apply (life_inv_fields _ _ _ _ _ _ s); rewrite ?Hs; try done; try (by split).
    + intros j _ [?|[? ?]]; [auto|]. destruct (decide (j = sGateway)) as [->|]; [left; auto|right]. by rewrite Hset.
    + intros j Hj. rewrite Hset; [done|]. unfold sAPI, sGateway in *. lia.
    + intros _. destruct (Hm eq_refl); auto.
  - injection E as <-. unfold stopHTTPProxy, httpProxyClose.
    destruct (closeGateway_spec sHTTPProxy (at_stop StopReaper s)) as (-> & Hc & Hset & Hi).
    simpl in *. apply (life_inv_fields _ _ _ _ _ _ s); rewrite ?Hs; try done; try (by split).
    + intros j _ [?|[? ?]]; [auto|]. destruct (decide (j = sHTTPProxy)) as [->|]; [left; auto|right]. by rewrite Hset.
    + intros j Hj. rewrite Hset; [done|]. unfold sAPI, sHTTPProxy in *. lia.
    + intros _. destruct (Hm eq_refl); auto.
  - destruct (all_loops_exited s); [|done]. injection E as <-. by apply (life_inv_fields _ _ _ _ _ _ s); rewrite ?Hs; try done; try (by split); auto.
  - injection E as <-. destruct Hinv as [H1 H2 H3 H4 H5 H6 H7 Hw H8 H9 H10]. rewrite Hs in *. by constructor; simpl; auto.
Qed.

Lemma life_inv_watch i s :
  life_inv s -> i ∈ l_watch s ->
  life_inv (with_fields (l_set (closeGateway i s)) (l_closed (closeGateway i s)) (l_watch (closeGateway i s) ∖ {[i]})
              (closeGateway i s)).
Proof.
  intros Hinv Hi. pose proof Hinv as [H1 H2 H3 H4 H5 H6 H7 Hw H8 H9 H10].
  destruct (Hw i Hi) as [Hi2 Hib]. destruct (closeGateway_spec i s) as (E & Hc & Hset & Hcl). rewrite E. simpl.
  constructor; simpl; try done.
  - intros j Hj Hb. destruct (decide (j = i)) as [->|Hne].
    + left. destruct (H7 i Hj Hb) as [?|[? _]]; auto.
    + destruct (H7 j Hj Hb) as [?|[? ?]]; [left; auto|right]. rewrite Hset by done. set_solver.
  - intros j Hj. apply Hw. set_solver.
  - intros j Hj. rewrite Hset by lia. auto.
  - intros Hp. destruct (H9 Hp); auto.
Qed.

(** [startServer], for every server at once. *)
Lemma startServer_alt i s :
  i < 4 -> startServer i s = launchServer i (Nat.ltb i sAPI) (if Nat.eqb i sMetrics then LifeSelect else LifeStart (S i)) s.
Proof. intros Hi. destruct i as [|[|[|[|]]]]; [done..|lia]. Qed.

Lemma life_inv_start i s s' :
  life_inv s -> l_phase s = LifeStart i -> startServer i s = Some s' -> life_inv s'.
Proof.
  intros [H1 H2 H3 H4 H5 H6 H7 Hw H8 H9 H10] Hp E.
  unfold phase_ok, loops_ok in *. rewrite Hp in *. simpl in *. rewrite startServer_alt in E by done.
  unfold launchServer in E. apply bind_Some in E as (g & E & [= <-]).
  assert (Hb : born (if Nat.eqb i sMetrics then LifeSelect else LifeStart (S i)) = S i).
  { destruct (Nat.eqb_spec i sMetrics) as [->|]; done. }
  constructor; simpl; rewrite ?Hb.
  - eapply (group_ok_step 4); [exact H1|eauto with pr0x].
  - by rewrite (group_step_length 4 _ _ (step_go 4 _ _ _ E)).
  - by eapply reports_all_go.
  - intros j Hj. rewrite (server_at_go _ _ _ _ E). destruct (Nat.eqb_spec j i) as [->|Hne].
    + split; [done|lia].
    + rewrite (H4 j Hj). lia.
  - unfold phase_ok. simpl. destruct (Nat.eqb_spec i sMetrics) as [->|]; [done|]. unfold sMetrics in *. lia.
  - unfold loops_ok. simpl. by destruct (Nat.eqb i sMetrics).
  - intros j Hj Hji. unfold sAPI in *. destruct (decide (j = i)) as [->|Hne].
    + right. rewrite (proj2 (Nat.ltb_lt i 2)) by done. set_solver.
    + destruct (H7 j Hj ltac:(lia)) as [?|[? ?]]; [by left|right]. destruct (Nat.ltb i 2); set_solver.
  - unfold sAPI in *. intros j. destruct (Nat.ltb_spec i 2); [intros [->%elem_of_singleton|Hj]%elem_of_union; [lia|]|intros Hj];
      destruct (Hw j Hj); lia.
  - intros j Hj. rewrite elem_of_union, elem_of_singleton, (H8 j Hj). lia.
  - intros Hpm. destruct (H9 Hpm); [by left|by right].
  - done.
Qed.

(** A change of the loops or of the requests. *)
Lemma life_inv_loops ls n s :
  life_inv s -> length ls = length (l_loops s) -> life_inv (with_handlers n (with_loops ls s)).
Proof.
  intros [H1 H2 H3 H4 H5 H6 H7 Hw H8 H9 H10] Hl. constructor; simpl; try done.
  unfold loops_ok in *. simpl. destruct (l_phase s); try (by rewrite Hl).
  all: apply nil_length_inv; rewrite Hl, H6; done.
Qed.

Lemma life_inv_step a s s' : life_inv s -> life_fire a s = Some s' -> life_inv s'.
Proof.
  intros Hinv E. pose proof Hinv as [H1 H2 H3 H4 H5 H6 H7 Hw H8 H9 H10].
  destruct a as [| |k| | | | |ok| | |i r|i|i|k c| |]; simpl in E.
  - destruct (l_done s); [done|]. injection E as <-. constructor; try done. unfold phase_ok in *. simpl.
    by destruct (l_phase s) as [| | | |[[]|]].
  - destruct (l_stop s) eqn:Hs; try done. injection E as <-.
    by apply (life_inv_fields _ _ _ _ _ _ s); rewrite ?Hs; try done; try (by split).
  - destruct (l_loops s !! k) as [[]|]; simplify_eq; apply (life_inv_loops _ (l_handlers s) s Hinv), length_insert.
  - destruct (_ && _); simplify_eq. by apply (life_inv_loops (l_loops s) _ s Hinv).
  - destruct (l_stop s) eqn:Hs; try done. injection E as <-.
    by apply (life_inv_fields _ _ _ _ _ _ s); rewrite ?Hs; try done; try (by split).
  - destruct (l_phase s) eqn:Hp; try done. injection E as <-. unfold loops_ok in H6. rewrite Hp in *. by constructor.
  - destruct (l_phase s) eqn:Hp; try done. injection E as <-. constructor; try done. unfold phase_ok, sGateway. simpl. lia.
  - destruct (l_phase s) as [| |i| |] eqn:Hp; try done. destruct ok; [by eapply life_inv_start|].
    destruct (Nat.eqb_spec i sMetrics); [done|]. injection E as <-. unfold phase_ok, loops_ok in *. rewrite Hp in *.
    constructor; try done. unfold phase_ok, sMetrics in *. simpl. lia.
  - destruct (l_phase s) eqn:Hp; try done. destruct (l_done s) eqn:Hd; [|done]. injection E as <-.
    unfold loops_ok in *. rewrite Hp in *. constructor; try done.
  - destruct (l_phase s) eqn:Hp; try done. apply bind_Some in E as ([r g] & E & [= <-]).
    destruct (reports_all_receive _ _ _ _ H3 E) as [Hr H3']. unfold loops_ok in *. rewrite Hp in *.
    constructor; try done; simpl.
    + eapply (group_ok_step 4); [exact H1|eauto with pr0x].
    + by rewrite (group_step_length 4 _ _ (step_receive 4 _ _ _ E)).
    + unfold receive in E. destruct (g_chan (l_group s)); [done|]. injection E as <- <-. done.
  - destruct (life_may i r s); [|done]. apply bind_Some in E as (g & E & [= <-]).
    eapply (life_inv_group 4); [done|eauto with pr0x|by eapply reports_all_returns|by intros; eapply server_at_returns|].
    destruct (Nat.eqb i sAPI); set_solver.
  - apply bind_Some in E as (g & E & [= <-]).
    eapply (life_inv_group 4 g (l_closed s) s); [done|eauto with pr0x|by eapply reports_all_send
      |by intros; eapply server_at_send|done].
  - destruct (l_done s && _) eqn:Hb; [|done]. injection E as <-.
    apply andb_true_iff in Hb as [_ Hi%bool_decide_eq_true]. by apply life_inv_watch.
  - apply bind_Some in E as (l & Hk & E). apply bind_Some in E as (l' & Hl & [= <-]).
    apply (life_inv_loops _ (l_handlers s) s Hinv), length_insert.
  - destruct (l_handlers s); simplify_eq. by apply (life_inv_loops (l_loops s) _ s Hinv).
  - by eapply life_inv_stop.
Qed.

Lemma life_reachable_inv s : life_reachable s -> life_inv s.
Proof.
  apply (rtc_invariant _ life_inv); [|apply life_inv_init]. intros x y Hx [a E]. by eapply life_inv_step.
Qed.

(** ** What [Run] returns *)

(** [served_error i r s]: on the way to [s] the serving call of the server [i]
    returned [r], an error that is none of the sentinels of a shutdown, while the
    server was running and nobody had closed it. *)
Definition served_error (i : nat) (r : serve_return) (s : life) : Prop :=
  exists msg s0 s1, r = ServeErr (ErrOther msg) /\ life_reachable s0 /\
    server_at i (l_group s0) = Running /\ (i ∉ l_closed s0) /\
    life_fire (LReturn i r) s0 = Some s1 /\ rtc life_step s1 s.

Lemma served_error_step i r s s' : served_error i r s -> life_step s s' -> served_error i r s'.
Proof.
  intros (msg & s0 & s1 & -> & H0 & Hr & Hc & Hf & Hs) Hstep.
  exists msg, s0, s1. split_and!; try done. by eapply rtc_r.
Qed.

(** A return that is not ignored is such an error. *)
Lemma reported_served_error i r s s' :
  life_reachable s -> life_quiet i r = false -> life_fire (LReturn i r) s = Some s' -> served_error i r s'.
Proof.
  intros Hs Hq Hf. pose proof Hf as E. simpl in E. destruct (life_may i r s) eqn:Hm; [|done].
  apply bind_Some in E as (g & E & _). unfold serve_returns in E.
  destruct (g_servers (l_group s) !! i) as [[]|] eqn:Hi; try done.
  assert (Hm' : exists msg, r = ServeErr (ErrOther msg) /\ i ∉ l_closed s).
  { unfold life_may, life_quiet in *. destruct r as [|[]|]; try done.
    - destruct (Nat.eqb i sHTTPProxy || Nat.eqb i sMetrics); done.
    - destruct (Nat.eqb i sGateway); done.
    - destruct (Nat.eqb i sAPI); done.
    - eexists. split; [done|]. by apply negb_true_iff, bool_decide_eq_false in Hm. }
  destruct Hm' as (msg & -> & Hc). exists msg, s, s'. split_and!; try done. unfold server_at. by rewrite Hi.
Qed.

(** Every report on its way, in the channel or returned is such an error. *)
Record origins (s : life) : Prop := {
  or_group : reports_all (fun r => served_error r.1 r.2 s) (l_group s);
  or_return : forall r, l_phase s = LifeReturned (Some (ServerFailed r)) -> served_error r.1 r.2 s;
}.

(** A step that leaves the servers and the return value alone. *)
Lemma origins_frame s s' :
  origins s -> life_step s s' -> reports_all (fun r => served_error r.1 r.2 s') (l_group s') ->
  (forall r, l_phase s' = LifeReturned (Some (ServerFailed r)) ->
     l_phase s = LifeReturned (Some (ServerFailed r)) \/ served_error r.1 r.2 s') ->
  origins s'.
Proof.
  intros [_ Hr] Hs Hg Hp. constructor; [done|]. intros r E. destruct (Hp r E) as [E'|]; [|done].
  eapply served_error_step; [by apply Hr|done].
Qed.

Lemma stopStep_frame s s' : stopStep s = Some s' -> l_group s' = l_group s /\ l_phase s' = l_phase s.
Proof.
  unfold stopStep, stopAPI, stopMetrics, stopSOCKSGateway, stopHTTPProxy, gatewayClose, httpProxyClose, closeManager,
    shutdownServer, closeGateway. intros E. repeat case_match; by simplify_eq.
Qed.

Lemma origins_step a s s' : life_reachable s -> origins s -> life_fire a s = Some s' -> origins s'.
Proof.
  intros Hre Ho E. assert (Hs : life_step s s') by (by exists a).
  assert (Hg : reports_all (fun r => served_error r.1 r.2 s') (l_group s)).
  { apply (reports_all_mono (fun r => served_error r.1 r.2 s)); [|apply Ho].
    intros r Hr. by eapply served_error_step. }
  assert (Hsame : l_group s' = l_group s -> l_phase s' = l_phase s -> origins s').
  { intros Eg Ep. apply (origins_frame s s' Ho Hs); [by rewrite Eg|]. rewrite Ep. auto. }
  destruct a as [| |k| | | | |ok| | |i r|i|i|k c| |]; pose proof E as E'; simpl in E.
  1-5, 15: repeat case_match; simplify_eq; by apply Hsame.
  - destruct (l_phase s); try done. simplify_eq. by apply (origins_frame s _ Ho Hs).
  - destruct (l_phase s); try done. simplify_eq. by apply (origins_frame s _ Ho Hs).
  - destruct (l_phase s) as [| |i| |] eqn:Hp; try done. destruct ok.
    + assert (exists j w n, launchServer j w n s = Some s' /\ forall ret, n <> LifeReturned ret) as (j & w & n & El & Hn).
      { unfold startServer, gatewayStart, httpProxyStart, startAPI, startMetrics in E.
        destruct i as [|[|[|]]]; eexists _, _, _; (split; [exact E|done]). }
      unfold launchServer in El. apply bind_Some in El as (g & Eg & [= <-]).
      apply (origins_frame s _ Ho Hs); simpl; [by eapply reports_all_go|]. intros r Er. by destruct (Hn _ Er).
    + destruct (Nat.eqb i sMetrics); simplify_eq. by apply (origins_frame s _ Ho Hs).
  - destruct (l_phase s); try done. destruct (l_done s); simplify_eq. by apply (origins_frame s _ Ho Hs).
  - destruct (l_phase s); try done. apply bind_Some in E as ([r g] & E & [= <-]).
    destruct (reports_all_receive _ _ _ _ Hg E) as [Hr Hg'].
    apply (origins_frame s _ Ho Hs); simpl; [done|]. intros r' [= <-]. by right.
  - destruct (life_may i r s); [|done]. apply bind_Some in E as (g & E & [= <-]).
    apply (origins_frame s _ Ho Hs); simpl; [|auto]. eapply reports_all_returns; [exact Hg| |exact E].
    intros Hq. by eapply (reported_served_error i r s).
  - apply bind_Some in E as (g & E & [= <-]).
    apply (origins_frame s _ Ho Hs); simpl; [by eapply reports_all_send|auto].
  - destruct (_ && _); [|done]. simplify_eq. destruct (closeGateway_spec i s) as (Ec & _). by apply Hsame; rewrite Ec.
  - apply bind_Some in E as (l & _ & E). apply bind_Some in E as (l' & _ & [= <-]). by apply Hsame.
  - apply stopStep_frame in E as [Eg Ep]. by apply Hsame.
Qed.

Lemma life_reachable_origins s : life_reachable s -> origins s.
Proof.
  intros Hs. unfold life_reachable in Hs.
  assert (Hi : life_reachable life_init /\ origins life_init).
  { split; [apply rtc_refl|]. constructor; [apply reports_all_new|done]. }
  revert Hi. induction Hs as [s|s1 s2 s3 [a E] _ IH]; intros [Hr Ho]; [done|]. apply IH. split.
  - eapply rtc_r; [exact Hr|by exists a].
  - by eapply origins_step.
Qed.


(** ** Shutting down *)

(** The steps that wait for nothing outside. *)
Definition life_own (a : life_action) (s : life) : bool :=
  match a with
  | ECancel | EStop | ETick _ | ERequest | EDrainExpires => false
  | LReturn i _ => bool_decide (i ∈ l_closed s) || (Nat.eqb i sAPI && l_done s)
  | _ => true
  end.

Definition life_at_rest (s : life) : Prop := forall a s', life_own a s = true -> life_fire a s <> Some s'.

Definition life_rank (p : life_phase) : nat :=
  match p with
  | LifeFresh => 7 | LifeReaper => 6 | LifeStart i => 5 - i | LifeSelect => 1 | LifeReturned _ => 0
  end.
Definition stop_rank (p : stop_phase) : nat :=
  match p with
  | StopNone => 8 | StopAPI => 7 | StopDrain => 6 | StopMetrics => 5 | StopGateway => 4 | StopHTTPProxy => 3
  | StopReaper => 2 | StopManager => 1 | StopReturned => 0
  end.
Definition loop_rank (l : reap_loop) : nat :=
  match l with LoopWaits tick => if tick then 3 else 1 | LoopBusy tick => if tick then 4 else 2 | LoopExited => 0 end.

Definition life_measure (s : life) : nat :=
  5 * life_rank (l_phase s) + stop_rank (l_stop s) + group_burden (l_group s) + size (l_watch s) +
  sum_list (loop_rank <$> l_loops s) + l_handlers s.

Lemma loops_measure k l l' ls :
  ls !! k = Some l -> loop_rank l' < loop_rank l ->
  sum_list (loop_rank <$> <[k := l']> ls) < sum_list (loop_rank <$> ls).
Proof. intros Hk Hl. pose proof (sum_list_insert loop_rank _ _ _ l' Hk). lia. Qed.

Lemma loopOf_rank k done c l l' : loopOf k done c l = Some l' -> loop_rank l' < loop_rank l.
Proof.
  assert (loopOf k = reaperLoop) as -> by by destruct k as [|[|]]. unfold reaperLoop. intros E.
  destruct c, l as [[]|[]|], done; simplify_eq/=; lia.
Qed.

Lemma stopStep_measure s s' : stopStep s = Some s' -> life_measure s' < life_measure s.
Proof.
  unfold stopStep, life_measure. intros E. destruct (l_stop s) eqn:Hs; try done.
  - injection E as <-. unfold stopAPI. destruct (_ && _); [|simpl; lia]. destruct (shutdownServer_spec sAPI (at_stop StopDrain s)) as [-> _].
    simpl. lia.
  - destruct (Nat.eqb _ _); [|done]. injection E as <-. simpl. lia.
  - injection E as <-. unfold stopMetrics. destruct (shutdownServer_spec sMetrics (at_stop StopGateway s)) as [-> _].
    simpl. lia.
  - injection E as <-. unfold stopSOCKSGateway, gatewayClose.
    destruct (closeGateway_spec sGateway (at_stop StopHTTPProxy s)) as [-> _]. simpl. lia.
  - injection E as <-. unfold stopHTTPProxy, httpProxyClose.
    destruct (closeGateway_spec sHTTPProxy (at_stop StopReaper s)) as [-> _]. simpl. lia.
  - destruct (all_loops_exited s); [|done]. injection E as <-. simpl. lia.
  - injection E as <-. simpl. lia.
Qed.

Lemma life_own_measure a s s' :
  life_inv s -> life_own a s = true -> life_fire a s = Some s' -> life_measure s' < life_measure s.
Proof.
  intros Hinv Ho E.
  destruct a as [| |k| | | | |ok| | |i r|i|i|k c| |]; try done; simpl in E; [..|by apply stopStep_measure];
    unfold life_measure.
  - destruct (l_phase s); try done. injection E as <-. simpl. lia.
  - pose proof (li_loops _ Hinv) as Hl. unfold loops_ok in Hl. destruct (l_phase s); try done. injection E as <-. rewrite Hl.
    simpl. lia.
  - pose proof (li_phase _ Hinv) as Hp. unfold phase_ok in Hp.
    destruct (l_phase s) as [| |i| |]; try done. destruct ok.
    + rewrite startServer_alt in E by done. unfold launchServer in E. apply bind_Some in E as (g & E & [= <-]). simpl.
      destruct (group_step_burden 4 _ _ (step_go 4 _ _ _ E)) as [Hb|[_ Hl]].
      2:{ unfold go_serve in E. repeat case_match; simplify_eq/=; lia. }
      assert (size (if Nat.ltb i sAPI then {[i]} ∪ l_watch s else l_watch s) <= S (size (l_watch s))).
      { destruct (Nat.ltb i sAPI); [|lia]. rewrite size_union_alt, size_singleton.
        pose proof (subseteq_size (l_watch s ∖ {[i]}) (l_watch s) ltac:(set_solver)). lia. }
      unfold sMetrics. destruct (Nat.eqb_spec i 3) as [->|]; simpl; lia.
    + destruct (Nat.eqb i sMetrics); [done|]. injection E as <-. simpl. lia.
  - destruct (l_phase s); try done. destruct (l_done s); [|done]. injection E as <-. simpl. lia.
  - destruct (l_phase s); try done. apply bind_Some in E as ([r g] & E & [= <-]). simpl.
    unfold receive in E. destruct (g_chan (l_group s)); [done|]. injection E as <- <-. unfold group_burden. simpl. lia.
  - destruct (life_may i r s); [|done]. apply bind_Some in E as (g & E & [= <-]). simpl.
    destruct (group_step_burden 4 _ _ (step_returns 4 _ _ _ _ _ E)) as [Hb|[_ Hl]]; [lia|].
    unfold serve_returns in E. repeat case_match; simplify_eq/=; lia.
  - apply bind_Some in E as (g & E & [= <-]). simpl.
    destruct (group_step_burden 4 _ _ (step_send 4 _ _ _ E)) as [Hb|[_ Hl]]; [lia|].
    unfold send in E. repeat case_match; simplify_eq/=. rewrite length_app in Hl. simpl in Hl. lia.
  - destruct (l_done s && _) eqn:Hb; [|done]. injection E as <-.
    apply andb_true_iff in Hb as [_ Hi%bool_decide_eq_true]. destruct (closeGateway_spec i s) as [-> _]. simpl.
    rewrite size_difference, size_singleton by set_solver.
    assert (size (l_watch s) <> 0) by (intros ?%size_empty_inv; set_solver). lia.
  - apply bind_Some in E as (l & Hk & E). apply bind_Some in E as (l' & Hl & [= <-]). simpl.
    pose proof (loops_measure _ _ l' _ Hk (loopOf_rank _ _ _ _ _ Hl)). lia.
  - destruct (l_handlers s) eqn:Hh; simplify_eq/=. lia.
Qed.

Section rest.
Context (s : life) (Hinv : life_inv s) (Hrest : life_at_rest s) (Hdone : l_done s = true).

Lemma rest_enabled a s' : life_own a s = true -> life_fire a s = Some s' -> False.
Proof. intros Ho E. by apply (Hrest a s'). Qed.

Lemma rest_loops : Forall (eq LoopExited) (l_loops s).
Proof.
  apply Forall_lookup. intros k l Hk. destruct l as [tick|tick|]; [exfalso|exfalso|done].
  - eapply (rest_enabled (LLoop k CaseDone)); [done|]. simpl. rewrite Hk, Hdone. simpl. by destruct k as [|[|]].
  - eapply (rest_enabled (LLoop k CasePassEnds)); [done|]. simpl. rewrite Hk. simpl. by destruct k as [|[|]].
Qed.

Lemma rest_handlers : l_handlers s = 0.
Proof.
  destruct (l_handlers s) eqn:E; [done|]. exfalso. eapply (rest_enabled LRequestEnds); [done|]. simpl. by rewrite E.
Qed.

Lemma rest_stop : l_stop s <> StopNone -> l_stop s = StopReturned.
Proof.
  intros Hn. pose proof (fun s' => rest_enabled LStop s' eq_refl) as Hs. simpl in Hs. unfold stopStep in Hs.
  assert (Hl : all_loops_exited s = true).
  { unfold all_loops_exited. apply forallb_forall. intros l Hl%list_elem_of_In. rewrite bool_decide_eq_true.
    symmetry. exact (proj1 (Forall_forall _ _) rest_loops l Hl). }
  rewrite rest_handlers, Hl in Hs. destruct (l_stop s); try done; exfalso; by eapply Hs.
Qed.

(** The serving call of a closed server, or of the API server, can return. *)
Lemma rest_running i : i < 4 -> server_at i (l_group s) = Running -> i ∉ l_closed s /\ i <> sAPI.
Proof.
  intros Hi Hr.
  assert (Hx : g_servers (l_group s) !! i = Some Running).
  { unfold server_at in Hr. pose proof (li_four _ Hinv).
    destruct (lookup_lt_is_Some_2 (g_servers (l_group s)) i ltac:(lia)) as [x Hx]. rewrite Hx in *. by simpl in Hr; subst. }
  assert (Hret : forall r, life_may i r s = true -> life_own (LReturn i r) s = true -> False).
  { intros r Hm Ho. eapply (rest_enabled (LReturn i r)); [exact Ho|]. cbn [life_fire]. rewrite Hm.
    unfold serve_returns. by rewrite Hx. }
  split.
  - intros Hc. destruct i as [|[|[|[|]]]]; [| | | |lia].
    + apply (Hret (ServeErr ErrNetClosed)); unfold life_own, life_may; simpl; by rewrite bool_decide_true.
    + apply (Hret (ServeErr ErrServerClosed)); unfold life_own, life_may; simpl; by rewrite bool_decide_true.
    + apply (Hret ServeNil); unfold life_own, life_may; simpl; by rewrite bool_decide_true.
    + apply (Hret (ServeErr ErrServerClosed)); unfold life_own, life_may; simpl; by rewrite bool_decide_true.
  - intros ->. apply (Hret (ServeErr ErrCanceled)); unfold life_own, life_may; simpl; rewrite Hdone; [done|].
    by rewrite orb_true_r.
Qed.

Lemma rest_server i :
  i < 4 -> l_stop s <> StopNone ->
  server_at i (l_group s) = Unborn \/ server_at i (l_group s) = Finished \/
  (i = sMetrics /\ l_missed s = true).
Proof.
  intros Hi Hn. destruct (server_at i (l_group s)) as [| |r|] eqn:Hx; [by left| |exfalso|by right; left].
  - destruct (rest_running i Hi Hx) as [Hc Ha]. right; right.
    assert (Hb : i < born (l_phase s)).
    { destruct (decide (i < born (l_phase s))); [done|]. assert (server_at i (l_group s) = Unborn); [|congruence].
      apply (li_born _ Hinv); [done|lia]. }
    unfold sAPI, sMetrics in *. destruct (decide (i < 2)) as [H2|H2].
    + exfalso. destruct (li_gateways _ Hinv i H2 Hb) as [?|[_ Hw]]; [done|].
      eapply (rest_enabled (LWatch i)); [done|]. simpl. rewrite Hdone, bool_decide_true by done. simpl. reflexivity.
    + assert (i = 3) as -> by lia. split; [done|].
      destruct (li_missed _ Hinv) as [?|?]; [by rewrite rest_stop|done|done].
  - unfold server_at in Hx. pose proof (li_four _ Hinv) as H4.
    destruct (g_servers (l_group s) !! i) as [x|] eqn:Hl; simpl in Hx; [subst|done].
    destruct (send_enabled httpErrCapacity i r (l_group s) (li_group _ Hinv)) as [g E]; [unfold httpErrCapacity; lia|done|].
    eapply (rest_enabled (LSend i)); [done|]. simpl. by rewrite E.
Qed.

Lemma rest_run : exists ret, l_phase s = LifeReturned ret.
Proof.
  destruct (l_phase s) as [| |i| |ret] eqn:Hp; [exfalso..|by exists ret].
  - eapply (rest_enabled LBootReap); [done|]. simpl. by rewrite Hp.
  - eapply (rest_enabled LReaperStart); [done|]. simpl. by rewrite Hp.
  - pose proof (li_phase _ Hinv) as Hi. pose proof (li_born _ Hinv i) as Hb. pose proof (li_four _ Hinv).
    unfold phase_ok in Hi. rewrite Hp in Hi, Hb. specialize (proj2 (Hb Hi) (le_n i)) as Hu.
    destruct (lookup_lt_is_Some_2 (g_servers (l_group s)) i ltac:(lia)) as [x Hx].
    unfold server_at in Hu. rewrite Hx in Hu. simpl in Hu. subst x.
    eapply (rest_enabled (LStart true)); [done|]. simpl. rewrite Hp, startServer_alt by done.
    unfold launchServer, go_serve. by rewrite Hx.
  - eapply (rest_enabled LSelectDone); [done|]. simpl. by rewrite Hp, Hdone.
Qed.
End rest.

(** C37. Shutdown completes: the steps the service takes by itself end, and when
    its context has ended, [Stop] was called and no such step is left, [Stop] has
    closed the manager and returned, [Run] has returned, the loops of the reaper
    and the requests are over, and every server's goroutine has ended (none is
    blocked on the error channel), except that the metrics server is left serving
    when [Stop] passed it before [Run] had started it. *)
Theorem service_shutdown_completes s :
  life_reachable s ->
  Acc (fun s' s => exists a, life_own a s = true /\ life_fire a s = Some s') s /\
  (life_at_rest s -> l_done s = true -> l_stop s <> StopNone ->
   l_stop s = StopReturned /\ l_mgrClosed s = true /\ (exists ret, l_phase s = LifeReturned ret) /\
   Forall (eq LoopExited) (l_loops s) /\ l_handlers s = 0 /\
   forall i, i < 4 -> server_at i (l_group s) = Unborn \/ server_at i (l_group s) = Finished \/
                      (i = sMetrics /\ l_missed s = true)).
Proof.
  intros Hinv%life_reachable_inv. split.
  - remember (life_measure s) as n eqn:Hm. revert s Hm Hinv. induction (lt_wf n) as [n _ IH]. intros s -> Hinv.
    constructor. intros s' (a & Ho & E).
    eapply IH; [by eapply life_own_measure|reflexivity|by eapply life_inv_step].
  - intros Hrest Hdone Hstop. pose proof (rest_stop s Hrest Hdone Hstop) as Hs. split_and!; [done|..].
    + by apply (li_manager _ Hinv).
    + by apply rest_run.
    + by apply rest_loops.
    + by apply rest_handlers.
    + intros i Hi. by apply rest_server.
Qed.

Module LifeExamples.

Fixpoint life_fire_all (l : list life_action) (s : life) : option life :=
  match l with
  | [] => Some s
  | a :: l => s ← life_fire a s; life_fire_all l s
  end.

Lemma life_replay l s0 s : life_fire_all l s0 = Some s -> rtc life_step s0 s.
Proof.
  revert s0. induction l as [|a l IH]; intros s0 H; simpl in H; [by simplify_eq|].
  apply bind_Some in H as (s1 & E & H). eapply rtc_l; [by exists a|by apply IH].
Qed.

Definition startup : list life_action := [LBootReap; LReaperStart; LStart true; LStart true; LStart true; LStart true].
Definition loops_exit : list life_action := [LLoop 0 CaseDone; LLoop 1 CaseDone; LLoop 2 CaseDone].
Definition servers_end : list life_action :=
  [LReturn 0 (ServeErr ErrNetClosed); LReturn 1 (ServeErr ErrServerClosed); LReturn 3 (ServeErr ErrServerClosed)].

(** A clean shutdown: the API server sees the end of the context first. *)
Definition clean_run : list life_action :=
  startup ++ [ECancel; EStop; LSelectDone; LReturn 2 (ServeErr ErrCanceled)] ++ replicate 4 LStop ++
  [LWatch 0; LWatch 1] ++ loops_exit ++ replicate 2 LStop ++ servers_end.

Definition clean : life :=
  mkLife (LifeReturned None) StopReturned true (mkGroup [Finished; Finished; Finished; Finished] [])
    {[2; 3]} {[0; 1; 2; 3]} ∅ [LoopExited; LoopExited; LoopExited] 0 false false true.

Lemma clean_reachable : life_reachable clean.
Proof. apply (life_replay clean_run). vm_compute. reflexivity. Qed.

Lemma clean_rests : life_at_rest clean.
Proof.
  intros a s' Ho E. destruct a as [| |k| | | | |ok| | |i r|i|i|k c| |]; try discriminate Ho; try discriminate E.
  - cbn [life_fire] in E. destruct (life_may i r clean); [|done]. apply bind_Some in E as (g & E & _).
    unfold serve_returns in E. by destruct i as [|[|[|[|]]]].
  - cbn [life_fire] in E. apply bind_Some in E as (g & E & _). unfold send in E. by destruct i as [|[|[|[|]]]].
  - destruct k as [|[|[|]]], c; discriminate E.
Qed.

Lemma service_shutdown_completes_witness :
  Forall (eq LoopExited) (l_loops clean) /\ l_mgrClosed clean = true.
Proof.
  destruct (proj2 (service_shutdown_completes clean clean_reachable) clean_rests eq_refl ltac:(discriminate))
    as (_ & Hm & _ & Hl & _). exact (conj Hl Hm).
Defined.

(** The metrics port is taken: [Run] reports it. *)
Definition port_taken : serve_return := ServeErr (ErrOther "address already in use").

Definition metrics_down : life :=
  mkLife (LifeReturned (Some (ServerFailed (3, port_taken)))) StopNone false
    (mkGroup [Running; Running; Running; Finished] []) {[0; 1; 2; 3]} ∅ {[0; 1]}
    [LoopWaits false; LoopWaits false; LoopWaits false] 0 false false false.

Lemma metrics_down_reachable : life_reachable metrics_down.
Proof. apply (life_replay (startup ++ [LReturn 3 port_taken; LSend 3; LSelectErr])). vm_compute. reflexivity. Qed.


(** [Stop] is called once the context has ended, and so does the API server's own
    loop, which then shuts itself down without waiting: [stopAPI] finds nothing
    left to do, and the manager is closed with a request still running, though
    no deadline has passed. *)
Theorem request_outlives_stop :
  exists s, life_reachable s /\ l_stop s = StopReturned /\ l_mgrClosed s = true /\ l_expired s = false /\ l_handlers s = 1.
Proof.
  eexists. split_and!; [|shelve..]. Unshelve.
  1: eapply (life_replay (startup ++ [ERequest; ECancel; LReturn 2 (ServeErr ErrCanceled); EStop] ++ loops_exit ++
                          replicate 6 LStop)); vm_compute; reflexivity.
  all: reflexivity.
Qed.

(** [Stop] passes the metrics server before [Run] has started it: the server is
    left serving when both have returned. *)
Theorem metrics_outlives_stop :
  exists s, life_reachable s /\ l_stop s = StopReturned /\ l_phase s = LifeReturned None /\ l_watch s = ∅ /\
    server_at sMetrics (l_group s) = Running /\ sMetrics ∉ l_closed s.
Proof.
  eexists. split_and!; [|shelve..]. Unshelve.
  1: eapply (life_replay ([LBootReap; LReaperStart; LStart true; LStart true; LStart true; ECancel; EStop] ++ loops_exit ++
                          [LStop; LReturn 2 (ServeErr ErrCanceled)] ++ replicate 6 LStop ++
                          [LStart true; LWatch 0; LWatch 1; LSelectDone])); vm_compute; reflexivity.
  1-4: reflexivity.
  refine (bool_decide_unpack _ _). vm_compute. exact I.
Qed.

End LifeExamples.
