(* ===== verification/ServiceOrder.v ===== *)
(** * Start order of the services ([internal/pkg/service-manager])

    Services, the factories that create them, and the grouping of a set of
    services by their dependencies: [buildDepGraphContext] counts the
    in-process dependencies and [topoSort] peels off the services with none
    left, group by group. *)

From S2P Require Import Prelude.

(** A service and the optional interfaces it implements: [Dependent],
    [Retryable] (retries and delay), [AllowedFailure], [ReadyNotifier]. *)
Record service := mkService {
  Name : string;
  Dependencies : option (list string);
  Retries : option (Z * Z);
  IsAllowedFailure : option bool;
  ReadyNotifier : bool;
}.

Inductive order_error := ErrCyclicDependency.

(** ** Instantiation *)

Inductive factory_error := FactoryError (msg : string) | ErrServiceNotFound (name : string).

(** A factory, by what it returns. *)
Definition ServiceFactory := result string service.

(** [Add]: keyed by the service's own name. *)
Definition Add (added : list service) (services : gmap string service) : gmap string service :=
  fold_left (fun services svc => <[Name svc := svc]> services) added services.

(** [Instantiate]. *)
Definition Instantiate (name : string) (factories : gmap string ServiceFactory) :
    result factory_error service :=
  match factories !! name with
  | None => Err (ErrServiceNotFound name)
  | Some (Ok svc) => Ok svc
  | Some (Err e) => Err (FactoryError e)
  end.

(** [parseEnabledServicesContext], from the parsed [SERVICES_ENABLED] list. *)
Definition parseEnabledServices (enabled : list string) : list string * bool :=
  match enabled with [] => ([], true) | _ => (enabled, false) end.

(** The loop of [instantiateAllContext]: the services added before a factory
    fails stay added. *)
Fixpoint instantiate_loop (enabled : list string) (allEnabled : bool)
    (factories : list (string * ServiceFactory)) (services : gmap string service) :
    gmap string service * option factory_error :=
  match factories with
  | [] => (services, None)
  | (name, factory) :: rest =>
      if negb allEnabled && negb (bool_decide (name ∈ enabled)) then
        instantiate_loop enabled allEnabled rest services
      else
        match factory with
        | Err e => (services, Some (FactoryError e))
        | Ok svc => instantiate_loop enabled allEnabled rest (Add [svc] services)
        end
  end.

Definition instantiateAll `{MapOrder} (enabledServices : list string)
    (factories : gmap string ServiceFactory) (services : gmap string service) :
    gmap string service * option factory_error :=
  let '(enabled, allEnabled) := parseEnabledServices enabledServices in
  instantiate_loop enabled allEnabled (range factories) services.

(** ** The dependency graph *)

Definition degree (inDegree : gmap string Z) (name : string) : Z := default 0%Z (inDegree !! name).
Definition dependents_of (dependents : gmap string (list string)) (name : string) : list string :=
  default [] (dependents !! name).

(** One declared dependency: skipped when it is not in the process. *)
Definition add_dependency (services : gmap string service) (name : string)
    (graph : gmap string Z * gmap string (list string)) (depName : string) : gmap string Z * gmap string (list string) :=
  let '(inDegree, dependents) := graph in
  match services !! depName with
  | None => graph
  | Some _ =>
      (<[name := (degree inDegree name + 1)%Z]> inDegree,
       <[depName := dependents_of dependents depName ++ [name]]> dependents)
  end.

Definition add_service (services : gmap string service) (graph : gmap string Z * gmap string (list string))
    (kv : string * service) : gmap string Z * gmap string (list string) :=
  match Dependencies kv.2 with
  | None => graph
  | Some deps => fold_left (add_dependency services kv.1) deps graph
  end.

(** [buildDepGraphContext]. *)
Definition buildDepGraph `{MapOrder} (services : gmap string service) :
    gmap string Z * gmap string (list string) :=
  let inDegree := fold_left (fun m kv => <[kv.1 := 0%Z]> m) (range services) (∅ : gmap string Z) in
  fold_left (add_service services) (range services) (inDegree, ∅).

(** ** The topological sort *)

(** One dependent of a started service: it joins the next group when its last
    dependency is gone. *)
Definition release_dependent (acc : list string * gmap string Z) (dep : string) :
    list string * gmap string Z :=
  let '(nextQueue, inDegree) := acc in
  let inDegree := <[dep := (degree inDegree dep - 1)%Z]> inDegree in
  if (degree inDegree dep =? 0)%Z then (nextQueue ++ [dep], inDegree)
  else (nextQueue, inDegree).

Definition next_queue (dependents : gmap string (list string)) (queue : list string) (inDegree : gmap string Z) :
    list string * gmap string Z :=
  fold_left (fun acc name => fold_left release_dependent (dependents_of dependents name) acc)
    queue ([], inDegree).

(** The services of a queue; every queued name is a key of [services]. *)
Definition members (services : gmap string service) (queue : list string) : list service :=
  omap (fun name => services !! name) queue.

(** The loop of [topoSort]; [None] when the fuel runs out. *)
Fixpoint topo_loop (fuel : nat) (services : gmap string service) (dependents : gmap string (list string))
    (queue : list string) (inDegree : gmap string Z) (groups : list (list service)) (processed : nat) :
    option (list (list service) * nat) :=
  match queue with
  | [] => Some (groups, processed)
  | _ =>
      match fuel with
      | O => None
      | S fuel =>
          let group := members services queue in
          let '(nextQueue, inDegree) := next_queue dependents queue inDegree in
          topo_loop fuel services dependents nextQueue inDegree (groups ++ [group])
            (processed + length queue)
      end
  end.

(** [topoSort]. *)
Definition topoSort `{MapOrder} (fuel : nat) (services : gmap string service) (inDegree : gmap string Z)
    (dependents : gmap string (list string)) : option (result order_error (list (list service))) :=
  let queue := (filter (fun kv => kv.2 = 0%Z) (range inDegree)).*1 in
  match topo_loop fuel services dependents queue inDegree [] 0 with
  | None => None
  | Some (groups, processed) =>
      Some (if Nat.eqb processed (size services) then Ok groups else Err ErrCyclicDependency)
  end.

(** [resolveOrderContext]: every pass of the loop takes at least one service
    off the graph, so the number of services is enough fuel. *)
Definition resolveOrder `{MapOrder} (services : gmap string service) :
    option (result order_error (list (list service))) :=
  let '(inDegree, dependents) := buildDepGraph services in
  topoSort (size services) services inDegree dependents.

(** ** Specification *)

(** Every service is filed under its own name. *)
Definition keyed (services : gmap string service) : Prop :=
  forall name svc, services !! name = Some svc -> Name svc = name.

(** The dependencies of a service that are in the process, as declared. *)
Definition deps_of (services : gmap string service) (name : string) : list string :=
  match services !! name with
  | Some svc => filter (fun d => is_Some (services !! d)) (default [] (Dependencies svc))
  | None => []
  end.

Definition depends (services : gmap string service) (name dep : string) : Prop :=
  dep ∈ deps_of services name.

(** Some service depends on itself, through any number of others. *)
Definition cyclic (services : gmap string service) : Prop :=
  exists name, tc (depends services) name name.

(** [name] is in the [i]-th group. *)
Definition in_group (groups : list (list service)) (i : nat) (name : string) : Prop :=
  exists group, groups !! i = Some group /\ name ∈ Name <$> group.

(** Every service is in exactly one group, after the groups of all of its
    dependencies, and as early as that allows. *)
Definition start_order (services : gmap string service) (groups : list (list service)) : Prop :=
  concat groups ≡ₚ (map_to_list services).*2 /\
  (forall i name dep, in_group groups i name -> depends services name dep ->
     exists j, j < i /\ in_group groups j dep) /\
  (forall i name, in_group groups (S i) name ->
     exists dep, depends services name dep /\ in_group groups i dep).

(** A reference layering, with sets and no counting: the services whose
    in-process dependencies have all started start next, until none is left to
    start; services that never start are on or behind a cycle. *)
Definition ready (services : gmap string service) (started : gset string) : gset string :=
  filter (fun name => name ∉ started /\ Forall (fun dep => dep ∈ started) (deps_of services name)) (dom services).

Fixpoint layers (fuel : nat) (services : gmap string service) (started : gset string) : list (gset string) :=
  match fuel with
  | O => []
  | S fuel =>
      let next := ready services started in
      if decide (next = ∅) then [] else next :: layers fuel services (started ∪ next)
  end.

Definition layered (services : gmap string service) : result order_error (list (gset string)) :=
  let ls := layers (size services) services ∅ in
  if decide (⋃ ls = dom services) then Ok ls else Err ErrCyclicDependency.

(** ** Counting *)

Definition occ (x : string) (l : list string) : Z := Z.of_nat (length (filter (fun y => y = x) l)).

Lemma occ_nil x : occ x [] = 0%Z.
Proof. done. Qed.

Lemma occ_cons x y l : occ x (y :: l) = ((if decide (y = x) then 1 else 0) + occ x l)%Z.
Proof. unfold occ. rewrite filter_cons. case_decide; simpl length; lia. Qed.

Lemma occ_app x l1 l2 : occ x (l1 ++ l2) = (occ x l1 + occ x l2)%Z.
Proof. unfold occ. rewrite filter_app, length_app. lia. Qed.

Lemma occ_nonneg x l : (0 <= occ x l)%Z.
Proof. unfold occ. lia. Qed.

Lemma occ_pos x l : (0 < occ x l)%Z <-> x ∈ l.
Proof.
  induction l as [|y l IH]; [rewrite occ_nil, elem_of_nil; lia|].
  rewrite occ_cons, elem_of_cons, <- IH. pose proof (occ_nonneg x l).
  case_decide; [naive_solver lia|]. split; [|intros [->|?]; [done|lia]]. intros; right; lia.
Qed.

Lemma degree_insert m k v n :
  degree (<[k := v]> m) n = if decide (k = n) then v else degree m n.
Proof. unfold degree. rewrite lookup_insert. by case_decide. Qed.

Lemma dependents_insert (m : gmap string (list string)) k v n :
  dependents_of (<[k := v]> m) n = if decide (k = n) then v else dependents_of m n.
Proof. unfold dependents_of. rewrite lookup_insert. by case_decide. Qed.

(** ** The graph counts what the services declare *)

Section graph.
Context (services : gmap string service).

Definition known (deps : list string) : list string :=
  filter (fun d => is_Some (services !! d)) deps.

Lemma known_cons d deps :
  known (d :: deps) = if decide (is_Some (services !! d)) then d :: known deps else known deps.
Proof. unfold known. by rewrite filter_cons. Qed.

Lemma add_dependencies_spec name deps : forall g g',
  fold_left (add_dependency services name) deps g = g' ->
  (forall n, degree g'.1 n
             = (degree g.1 n + if decide (name = n) then Z.of_nat (length (known deps)) else 0)%Z) /\
  (forall d n, occ n (dependents_of g'.2 d)
             = (occ n (dependents_of g.2 d) + if decide (name = n) then occ d (known deps) else 0)%Z) /\
  (is_Some (services !! name) ->
   (forall n, is_Some (g.1 !! n) <-> is_Some (services !! n)) ->
   forall n, is_Some (g'.1 !! n) <-> is_Some (services !! n)).
Proof.
  induction deps as [|d deps IH]; intros [inD dep] g' <-; cbn [fold_left].
  - split_and!; [intros n | intros d n | done]; case_decide; simpl; rewrite ?occ_nil; lia.
  - rewrite known_cons.
    destruct (IH (add_dependency services name (inD, dep) d) _ eq_refl) as (H1 & H2 & H3).
    destruct (services !! d) as [sd|] eqn:Hd.
    2: { assert (add_dependency services name (inD, dep) d = (inD, dep)) as ->
           by (unfold add_dependency; by rewrite Hd).
         rewrite decide_False by (intros [? ?]; done). by apply IH. }
    rewrite decide_True by done.
    assert (Hs : add_dependency services name (inD, dep) d
      = (<[name := (degree inD name + 1)%Z]> inD, <[d := dependents_of dep d ++ [name]]> dep))
      by (unfold add_dependency; by rewrite Hd).
    rewrite Hs in *. cbn [fst snd] in *.
    split_and!.
    + intros n. rewrite H1. cbn [fst]. rewrite degree_insert. simpl length.
      repeat case_decide; subst; try done; lia.
    + intros d' n. rewrite H2. cbn [snd]. rewrite dependents_insert, occ_cons.
      destruct (decide (d = d')) as [->|]; [rewrite occ_app, occ_cons, occ_nil|]; repeat case_decide; subst; try done; lia.
    + intros Hn Hdom. apply H3; [done|]. intros n. rewrite lookup_insert.
      case_decide; [subst|apply Hdom]. split; [done|by intros _; eexists].
Qed.

(** The known dependencies that a list of entries declares for [name]. *)
Definition declared (entries : list (string * service)) (name : string) : list string :=
  concat ((fun kv => if decide (kv.1 = name) then known (default [] (Dependencies kv.2)) else [])
          <$> entries).

Lemma add_services_spec entries : forall g g',
  fold_left (add_service services) entries g = g' ->
  (forall n, degree g'.1 n = (degree g.1 n + Z.of_nat (length (declared entries n)))%Z) /\
  (forall d n, occ n (dependents_of g'.2 d)
             = (occ n (dependents_of g.2 d) + occ d (declared entries n))%Z) /\
  ((forall k v, (k, v) ∈ entries -> is_Some (services !! k)) ->
   (forall n, is_Some (g.1 !! n) <-> is_Some (services !! n)) ->
   forall n, is_Some (g'.1 !! n) <-> is_Some (services !! n)).
Proof.
  induction entries as [|[k svc] entries IH]; intros g g' <-; cbn [fold_left].
  - split_and!; [intros n | intros d n | done]; unfold declared; simpl; rewrite ?occ_nil; lia.
  - destruct (IH (add_service services g (k, svc)) _ eq_refl) as (H1 & H2 & H3).
    assert (Hg : add_service services g (k, svc)
                 = fold_left (add_dependency services k) (default [] (Dependencies svc)) g)
      by (unfold add_service; simpl; by destruct (Dependencies svc)).
    destruct (add_dependencies_spec k _ _ _ (eq_sym Hg)) as (G1 & G2 & G3).
    split_and!.
    + intros n. rewrite H1, G1. unfold declared. rewrite fmap_cons. simpl concat.
      rewrite length_app. case_decide; simpl; lia.
    + intros d n. rewrite H2, G2. unfold declared. rewrite fmap_cons. simpl concat.
      rewrite occ_app. case_decide; simpl; rewrite ?occ_nil; lia.
    + intros Hk Hdom. apply H3.
      * intros k' v' Hin. eapply Hk. by right.
      * apply G3; [eapply Hk; left|done].
Qed.

Lemma declared_absent entries name : name ∉ entries.*1 -> declared entries name = [].
Proof.
  induction entries as [|[k svc] entries IH]; [done|]. rewrite fmap_cons, not_elem_of_cons.
  intros [Hne Hni]. unfold declared. rewrite fmap_cons. cbn [fst snd concat].
  rewrite decide_False by (intros ->; done). by apply IH.
Qed.

Lemma declared_entry entries name svc :
  NoDup entries.*1 -> (name, svc) ∈ entries ->
  declared entries name = known (default [] (Dependencies svc)).
Proof.
  induction entries as [|[k s] entries IH]; [by intros _ ?%elem_of_nil|].
  rewrite fmap_cons. intros [Hk Hnd]%NoDup_cons [[= <- <-]|Hin]%elem_of_cons;
    unfold declared; rewrite fmap_cons; cbn [fst snd concat].
  - rewrite decide_True by done. change (concat _) with (declared entries name).
    by rewrite declared_absent, app_nil_r.
  - rewrite decide_False; [by apply IH|]. intros ->. destruct Hk.
    by apply (list_elem_of_fmap_2 fst _ (name, svc)).
Qed.

Lemma declared_range `{MapOrder} name : declared (range services) name = deps_of services name.
Proof.
  unfold deps_of. destruct (services !! name) as [svc|] eqn:Hs.
  - apply declared_entry; [apply range_nodup|]. by apply elem_of_range.
  - apply declared_absent. intros ([k v] & -> & Hin)%list_elem_of_fmap.
    apply elem_of_range in Hin. simpl in Hs. congruence.
Qed.

Lemma zero_degrees (entries : list (string * service)) : forall m : gmap string Z,
  (forall n, degree m n = 0%Z) ->
  (forall n, degree (fold_left (fun m kv => <[kv.1 := 0%Z]> m) entries m) n = 0%Z) /\
  (forall n, is_Some (fold_left (fun m kv => <[kv.1 := 0%Z]> m) entries m !! n)
             <-> n ∈ entries.*1 \/ is_Some (m !! n)).
Proof.
  induction entries as [|[k s] entries IH]; intros m Hm; cbn [fold_left].
  - split; [done|]. intros n. simpl. rewrite elem_of_nil. naive_solver.
  - destruct (IH (<[k := 0%Z]> m)) as [H1 H2].
    + intros n. rewrite degree_insert. by case_decide.
    + split; [done|]. intros n. rewrite H2, fmap_cons, elem_of_cons, lookup_insert. simpl.
      case_decide; [subst; naive_solver|naive_solver].
Qed.

Lemma buildDepGraph_spec `{MapOrder} inDegree dependents :
  buildDepGraph services = (inDegree, dependents) ->
  (forall n, degree inDegree n = Z.of_nat (length (deps_of services n))) /\
  (forall d n, occ n (dependents_of dependents d) = occ d (deps_of services n)) /\
  (forall n, is_Some (inDegree !! n) <-> is_Some (services !! n)).
Proof.
  unfold buildDepGraph. intros Hg.
  destruct (zero_degrees (range services) ∅) as [Z1 Z2]; [done|].
  destruct (add_services_spec _ _ _ Hg) as (H1 & H2 & H3). cbn [fst snd] in *.
  split_and!.
  - intros n. by rewrite H1, Z1, declared_range, Z.add_0_l.
  - intros d n. by rewrite H2, declared_range.
  - apply H3; [intros k v Hin%elem_of_range; by eexists|]. intros n. rewrite Z2, lookup_empty. split.
    + intros [([k v] & -> & Hin)%list_elem_of_fmap|[? ?]]; [|done].
      apply elem_of_range in Hin. by eexists.
    + intros [v Hv]. left. apply elem_of_range in Hv. by apply (list_elem_of_fmap_2 fst _ (n, v)).
Qed.
End graph.

(** ** The sort peels the graph *)

Lemma release_fold l : forall next deg,
  (forall n, (occ n l <= degree deg n)%Z) ->
  exists added deg',
    fold_left release_dependent l (next, deg) = (next ++ added, deg') /\
    NoDup added /\
    (forall n, n ∈ added <-> n ∈ l /\ degree deg n = occ n l) /\
    (forall n, degree deg' n = (degree deg n - occ n l)%Z).
Proof.
  induction l as [|d l IH]; intros next deg Hle.
  - exists [], deg. cbn [fold_left]. rewrite app_nil_r.
    split_and!; [done | by constructor | set_solver | intros n; rewrite occ_nil; lia].
  - cbn [fold_left]. unfold release_dependent at 2. cbv zeta.
    set (deg1 := <[d := (degree deg d - 1)%Z]> deg).
    assert (Hd1 : forall n, degree deg1 n = (degree deg n - if decide (d = n) then 1 else 0)%Z)
      by (intros n; unfold deg1; rewrite degree_insert; case_decide; subst; lia).
    assert (Hle1 : forall n, (occ n l <= degree deg1 n)%Z)
      by (intros n; rewrite Hd1; specialize (Hle n); rewrite occ_cons in Hle; case_decide; lia).
    assert (Hin : forall n, (n ∈ l /\ degree deg1 n = occ n l) \/ (n = d /\ degree deg1 d = 0%Z)
                            <-> n ∈ d :: l /\ degree deg n = occ n (d :: l)).
    { intros n. rewrite occ_cons, elem_of_cons.
      pose proof (Hd1 n) as Hn. pose proof (Hle1 n). pose proof (occ_nonneg n l).
      pose proof (occ_pos n l) as Hp.
      destruct (decide (d = n)) as [->|]; [|naive_solver lia].
      split; [intros [[? ?]|[_ ?]]; (split; [by left|lia])|]. intros [_ Heq].
      destruct (decide (occ n l = 0)%Z); [right; split; [done|lia] | left; split; [|lia]].
      apply Hp. lia. }
    destruct (degree deg1 d =? 0)%Z eqn:Hz.
    + apply Z.eqb_eq in Hz. destruct (IH (next ++ [d]) deg1 Hle1) as (added & deg' & Hf & Hnd & Ha & Hdg).
      exists (d :: added), deg'. split_and!.
      * rewrite Hf. by rewrite <- app_assoc.
      * constructor; [|done]. rewrite Ha, <- occ_pos, Hz. intros [? ?]; lia.
      * intros n. rewrite elem_of_cons, Ha, <- Hin. naive_solver.
      * intros n. rewrite Hdg, Hd1, occ_cons. case_decide; lia.
    + apply Z.eqb_neq in Hz. destruct (IH next deg1 Hle1) as (added & deg' & Hf & Hnd & Ha & Hdg).
      exists added, deg'. split_and!; [done | done | |].
      * intros n. rewrite Ha, <- Hin. naive_solver.
      * intros n. rewrite Hdg, Hd1, occ_cons. case_decide; lia.
Qed.

Lemma next_queue_flat dependents queue inDegree :
  next_queue dependents queue inDegree
  = fold_left release_dependent (concat (dependents_of dependents <$> queue)) ([], inDegree).
Proof.
  unfold next_queue. generalize (([], inDegree) : list string * gmap string Z).
  induction queue as [|q queue IH]; intros acc; [done|]. cbn [fold_left].
  rewrite fmap_cons. cbn [concat]. rewrite fold_left_app. apply IH.
Qed.

(** Dependencies of [n] that are in (outside) a set of names. *)
Definition inside (Q : list string) (deps : list string) : Z :=
  Z.of_nat (length (filter (fun d => d ∈ Q) deps)).
Definition outside (Q : list string) (deps : list string) : Z :=
  Z.of_nat (length (filter (fun d => d ∉ Q) deps)).

Lemma inside_cons_l q Q deps : q ∉ Q -> inside (q :: Q) deps = (occ q deps + inside Q deps)%Z.
Proof.
  intros Hq. unfold inside. induction deps as [|d deps IH]; [done|].
  rewrite occ_cons, !filter_cons. destruct (decide (d = q)) as [->|Hne].
  - assert (q ∈ q :: Q) by left. destruct (decide (q ∈ q :: Q)), (decide (q ∈ Q)); try done.
    simpl length. lia.
  - pose proof (elem_of_cons Q d q).
    destruct (decide (d ∈ q :: Q)), (decide (d ∈ Q)); try naive_solver; simpl length; lia.
Qed.

Lemma outside_app A Q deps :
  (forall q, q ∈ Q -> q ∉ A) -> outside (A ++ Q) deps = (outside A deps - inside Q deps)%Z.
Proof.
  intros Hdj. unfold outside, inside. induction deps as [|d deps IH]; [done|].
  rewrite !filter_cons. pose proof (Hdj d). pose proof (elem_of_app A Q d).
  destruct (decide (d ∈ A)), (decide (d ∈ Q)), (decide (d ∉ A)), (decide (d ∉ A ++ Q));
    simpl length; try lia; naive_solver.
Qed.

Lemma outside_nil deps : outside [] deps = Z.of_nat (length deps).
Proof.
  unfold outside. induction deps as [|d deps IH]; [done|].
  rewrite filter_cons_True by apply not_elem_of_nil. cbn [length]. lia.
Qed.

Lemma outside_zero A deps : outside A deps = 0%Z <-> forall d, d ∈ deps -> d ∈ A.
Proof.
  unfold outside. induction deps as [|d deps IH]; [set_solver|].
  rewrite filter_cons. case_decide as Hd; simpl length.
  - split; [lia|]. intros Hall. destruct Hd. apply Hall. left.
  - rewrite IH. destruct (decide (d ∈ A)); [set_solver|done].
Qed.

Lemma outside_nonneg Q deps : (0 <= outside Q deps)%Z.
Proof. unfold outside. lia. Qed.

Lemma inside_nonneg Q deps : (0 <= inside Q deps)%Z.
Proof. unfold inside. lia. Qed.

Lemma inside_pos Q deps : (0 < inside Q deps)%Z <-> exists d, d ∈ deps /\ d ∈ Q.
Proof.
  unfold inside. split.
  - intros Hp. destruct (filter (fun d => d ∈ Q) deps) as [|d l] eqn:Hf; [simpl in Hp; lia|].
    exists d. assert (d ∈ filter (fun d => d ∈ Q) deps) as Hin by (rewrite Hf; left).
    apply list_elem_of_filter in Hin. tauto.
  - intros (d & Hd & HQ).
    assert (d ∈ filter (fun d => d ∈ Q) deps) as Hin by (by apply list_elem_of_filter).
    destruct (filter (fun d => d ∈ Q) deps); [by apply elem_of_nil in Hin|simpl; lia].
Qed.

Section sort.
Context (services : gmap string service) (dependents : gmap string (list string)).
Context (Hdependents :
  forall d n, occ n (dependents_of dependents d) = occ d (deps_of services n)).

(** [qs] are the queues already turned into groups. *)
Record peeled (qs : list (list string)) (queue : list string) (inDegree : gmap string Z) : Prop := {
  peeled_nodup : NoDup (concat qs ++ queue);
  peeled_known : forall n, n ∈ concat qs ++ queue -> is_Some (services !! n);
  peeled_degree : forall n, degree inDegree n = outside (concat qs) (deps_of services n);
  peeled_queue : forall n, is_Some (services !! n) ->
    (n ∈ concat qs ++ queue <-> outside (concat qs) (deps_of services n) = 0%Z);
  peeled_before : forall i q n d, (qs ++ [queue]) !! i = Some q -> n ∈ q -> d ∈ deps_of services n ->
    exists j q', j < i /\ qs !! j = Some q' /\ d ∈ q';
  peeled_tight : forall i q n, (qs ++ [queue]) !! S i = Some q -> n ∈ q ->
    exists d q', d ∈ deps_of services n /\ qs !! i = Some q' /\ d ∈ q';
}.

Lemma released_count queue n :
  NoDup queue -> occ n (concat (dependents_of dependents <$> queue)) = inside queue (deps_of services n).
Proof.
  induction 1 as [|q queue Hq _ IH].
  - unfold inside. induction (deps_of services n) as [|d l IHl]; [done|].
    rewrite filter_cons_False by apply not_elem_of_nil. done.
  - rewrite fmap_cons. cbn [concat]. by rewrite occ_app, Hdependents, inside_cons_l, IH.
Qed.

Lemma deps_known n d : d ∈ deps_of services n -> is_Some (services !! n) /\ is_Some (services !! d).
Proof.
  unfold deps_of. destruct (services !! n) eqn:Hn; [|by intros ?%elem_of_nil].
  intros [Hd _]%list_elem_of_filter. split; [by eexists|done].
Qed.

Lemma lookup_snoc_last {A} (l : list A) x i y :
  (l ++ [x]) !! i = Some y -> l !! i = Some y \/ (i = length l /\ y = x).
Proof.
  intros [Hi|[Hge Hi]]%lookup_app_Some; [by left|]. right.
  destruct (i - length l) as [|k] eqn:Hk; [|by destruct k]. simpl in Hi. injection Hi as <-. split; [lia|done].
Qed.

Lemma concat_elem (qs : list (list string)) n : n ∈ concat qs <-> exists j q, qs !! j = Some q /\ n ∈ q.
Proof.
  induction qs as [|q qs IH]; cbn [concat].
  - rewrite elem_of_nil. split; [done|by intros (? & ? & ? & ?)].
  - rewrite elem_of_app, IH. split.
    + intros [Hq|(j & q' & Hj & Hn)]; [by exists 0, q|by exists (S j), q'].
    + intros ([|j] & q' & Hj & Hn); simpl in Hj; simplify_eq; eauto.
Qed.

(** What one pass of the loop computes: the services released by the queue, and
    the degrees without its edges. *)
Lemma next_queue_spec qs queue inDegree :
  peeled qs queue inDegree ->
  exists next inDegree', next_queue dependents queue inDegree = (next, inDegree') /\ NoDup next /\
    (forall n, n ∈ next <-> (exists d, d ∈ deps_of services n /\ d ∈ queue) /\
                            outside (concat qs ++ queue) (deps_of services n) = 0%Z) /\
    (forall n, degree inDegree' n = outside (concat qs ++ queue) (deps_of services n)).
Proof.
  intros [Hnd Hkn Hdeg Hq _ _]. pose proof Hnd as (_ & Hdj & Hndq)%NoDup_app.
  assert (Hout : forall n, outside (concat qs ++ queue) (deps_of services n)
                           = (outside (concat qs) (deps_of services n) - inside queue (deps_of services n))%Z)
    by (intros n; apply outside_app; intros q ? ?; by eapply Hdj).
  set (edges := concat (dependents_of dependents <$> queue)).
  assert (Hocc : forall n, occ n edges = inside queue (deps_of services n)) by (intros; by apply released_count).
  assert (Hle : forall n, (occ n edges <= degree inDegree n)%Z).
  { intros n. rewrite Hocc, Hdeg. pose proof (Hout n). pose proof (outside_nonneg (concat qs ++ queue) (deps_of services n)). lia. }
  destruct (release_fold edges [] inDegree Hle) as (next & deg' & Hf & Hndn & Hin & Hd').
  exists next, deg'. rewrite next_queue_flat. fold edges. split_and!; [done|done| |].
  - intros n. rewrite Hin, <- occ_pos, Hocc, Hdeg, inside_pos, Hout. split; intros [? ?]; (split; [done|lia]).
  - intros n. by rewrite Hd', Hocc, Hdeg, Hout.
Qed.

(** One pass of the loop keeps the invariant. *)
Lemma peeled_step qs queue inDegree :
  peeled qs queue inDegree ->
  exists next inDegree', next_queue dependents queue inDegree = (next, inDegree') /\
    peeled (qs ++ [queue]) next inDegree'.
Proof.
  intros Hp. destruct (next_queue_spec _ _ _ Hp) as (next & deg' & Hf & Hndn & Hnext & Hd').
  exists next, deg'. split; [done|]. destruct Hp as [Hnd Hkn Hdeg Hq Hbef Htight].
  pose proof Hnd as (_ & Hdj & _)%NoDup_app.
  assert (Hdj' : forall q, q ∈ queue -> q ∉ concat qs) by (intros q ? ?; by eapply Hdj).
  assert (Hcat : concat (qs ++ [queue]) = concat qs ++ queue)
    by (rewrite concat_app; simpl; by rewrite app_nil_r).
  assert (Hfresh : forall n, n ∈ next -> n ∉ concat qs ++ queue).
  { intros n ([d [Hd HdQ]] & _)%Hnext Hold.
    apply Hq in Hold; [|by apply (deps_known n d)].
    rewrite outside_zero in Hold. by apply (Hdj' d HdQ), Hold. }
  constructor.
  - rewrite Hcat. apply NoDup_app. split_and!; [done| |done]. intros n Hold Hn. by apply (Hfresh n).
  - intros n. rewrite Hcat, elem_of_app. intros [|[[d [Hd _]] _]%Hnext]; [by apply Hkn|].
    by apply (deps_known n d).
  - intros n. by rewrite Hcat.
  - intros n Hn. rewrite elem_of_app, Hcat. specialize (Hq n Hn). rewrite Hnext. split.
    + intros [Hold|[_ ?]]; [|done]. apply Hq in Hold.
      rewrite outside_zero in Hold |- *. intros d Hd. apply elem_of_app. left. by apply Hold.
    + intros Hz. destruct (decide (n ∈ concat qs ++ queue)) as [|Hno]; [by left|]. right.
      split; [|done].
      assert (outside (concat qs) (deps_of services n) <> 0%Z) as Hnz by (rewrite <- Hq; done).
      rewrite outside_app in Hz by done. apply inside_pos. pose proof (outside_nonneg (concat qs) (deps_of services n)). lia.
  - intros i q n d Hi Hn Hd. apply lookup_snoc_last in Hi as [Hi|[-> ->]].
    + destruct (Hbef i q n d Hi Hn Hd) as (j & q' & Hj & Hl & Hdq). exists j, q'. split_and!; [done| |done].
      rewrite lookup_app_l; [done|by eapply lookup_lt_Some].
    + apply Hnext in Hn as [_ Hz]. rewrite <- Hcat, outside_zero in Hz.
      apply Hz, concat_elem in Hd as (j & q' & Hj & Hdq). exists j, q'.
      split_and!; [by eapply lookup_lt_Some|done|done].
  - intros i q n Hi Hn. apply lookup_snoc_last in Hi as [Hi|[Hi ->]].
    + destruct (Htight i q n Hi Hn) as (d & q' & Hd & Hl & Hdq). exists d, q'. split_and!; [done| |done].
      rewrite lookup_app_l; [done|by eapply lookup_lt_Some].
    + apply Hnext in Hn as [(d & Hd & HdQ) _]. exists d, queue. split_and!; [done| |done].
      rewrite length_app in Hi. simpl in Hi. rewrite lookup_app_r by lia.
      by replace (i - length qs) with 0 by lia.
Qed.

Lemma peeled_size qs queue inDegree :
  peeled qs queue inDegree -> length (concat qs) + length queue <= size services.
Proof.
  intros [Hnd Hkn _ _ _ _]. rewrite <- length_app.
  rewrite <- (size_dom services), <- (size_list_to_set (C := gset string)) by done.
  apply subseteq_size. intros n Hn%elem_of_list_to_set. by apply elem_of_dom, Hkn.
Qed.

(** The queue is the next layer of the reference. *)
Lemma peeled_ready qs queue inDegree :
  peeled qs queue inDegree -> list_to_set queue = ready services (list_to_set (concat qs)).
Proof.
  intros [Hnd Hkn _ Hq _ _]. apply NoDup_app in Hnd as (_ & Hdj & _). apply set_eq. intros n.
  rewrite elem_of_list_to_set. unfold ready. rewrite elem_of_filter, elem_of_dom, elem_of_list_to_set, Forall_forall.
  setoid_rewrite elem_of_list_to_set. rewrite <- outside_zero. split.
  - intros Hn. assert (n ∈ concat qs ++ queue) as Hin by (apply elem_of_app; by right).
    pose proof (Hkn n Hin) as Hs. split_and!; [intros Hc; by apply (Hdj n)|by apply Hq|done].
  - intros [[Hn Ho] Hs]. apply Hq in Ho; [|done]. apply elem_of_app in Ho as [?|?]; done.
Qed.

(** The loop ends, with the invariant and an empty queue, and its queues are
    the layers of the reference. *)
Lemma topo_loop_spec fuel : forall qs queue inDegree groups,
  peeled qs queue inDegree ->
  groups = (members services <$> qs) ->
  size services <= fuel + length (concat qs) ->
  exists qs' inDegree',
    topo_loop fuel services dependents queue inDegree groups (length (concat qs))
    = Some (members services <$> qs', length (concat qs')) /\
    peeled qs' [] inDegree' /\
    list_to_set <$> qs' = (list_to_set <$> qs) ++ layers fuel services (list_to_set (concat qs)).
Proof.
  induction fuel as [|fuel IH]; intros qs queue inDegree groups Hp -> Hf;
    pose proof (peeled_ready _ _ _ Hp) as Hready; cbn [layers];
    destruct queue as [|q0 queue'] eqn:Hqe.
  - exists qs, inDegree. by rewrite app_nil_r.
  - apply peeled_size in Hp. simpl in Hp. lia.
  - exists qs, inDegree. rewrite <- Hready. cbn [list_to_set]. by rewrite decide_True, app_nil_r.
  - destruct (peeled_step _ _ _ Hp) as (next & deg' & Hn & Hp').
    cbn [topo_loop]. rewrite Hn.
    replace (length (concat qs) + length (q0 :: queue')) with (length (concat (qs ++ [q0 :: queue'])))
      by (rewrite concat_app, length_app; simpl; by rewrite app_nil_r).
    destruct (IH (qs ++ [q0 :: queue']) next deg' (members services <$> qs ++ [q0 :: queue']) Hp' eq_refl)
      as (qs' & d' & H1 & H2 & H3).
    { rewrite concat_app, length_app. simpl. rewrite app_nil_r. lia. }
    exists qs', d'. rewrite fmap_app in H1. split_and!; [exact H1|done|]. rewrite H3, <- Hready.
    rewrite decide_False by (cbn [list_to_set]; set_solver).
    rewrite concat_app, list_to_set_app_L, fmap_app, <- app_assoc. cbn [concat]. by rewrite app_nil_r.
Qed.
End sort.

(** ** The start order *)

Section resolve.
Context (services : gmap string service) (Hkeyed : keyed services).

Lemma members_names queue :
  (forall n, n ∈ queue -> is_Some (services !! n)) -> Name <$> members services queue = queue.
Proof.
  induction queue as [|q queue IH]; intros Hk; [done|]. unfold members. cbn [omap list_omap].
  destruct (Hk q ltac:(left)) as [svc Hsvc]. rewrite Hsvc, fmap_cons, (Hkeyed _ _ Hsvc). f_equal.
  apply IH. intros n Hn. apply Hk. by right.
Qed.

Lemma in_group_members qs i n :
  (forall n, n ∈ concat qs -> is_Some (services !! n)) ->
  in_group (members services <$> qs) i n <-> exists q, qs !! i = Some q /\ n ∈ q.
Proof.
  intros Hk. unfold in_group. setoid_rewrite list_lookup_fmap. split.
  - intros (group & Hi & Hn). destruct (qs !! i) as [q|] eqn:Hq; [|done]. simpl in Hi. simplify_eq.
    exists q. split; [done|]. rewrite members_names in Hn; [done|]. intros m Hm. apply Hk, concat_elem. eauto.
  - intros (q & Hq & Hn). rewrite Hq. simpl. eexists; split; [done|]. rewrite members_names; [done|].
    intros m Hm. apply Hk, concat_elem. eauto.
Qed.

(** What the sort computes: the peeled queues, all of them. *)
Lemma resolveOrder_peels `{MapOrder} :
  exists qs inDegree,
    peeled services qs [] inDegree /\
    list_to_set <$> qs = layers (size services) services ∅ /\
    resolveOrder services =
      Some (if Nat.eqb (length (concat qs)) (size services) then Ok (members services <$> qs)
            else Err ErrCyclicDependency).
Proof.
  unfold resolveOrder. destruct (buildDepGraph services) as [inDegree dependents] eqn:Hg.
  destruct (buildDepGraph_spec services _ _ Hg) as (H1 & H2 & H3).
  set (queue := (filter (fun kv => kv.2 = 0%Z) (range inDegree)).*1).
  assert (Hq : forall n, n ∈ queue <-> is_Some (services !! n) /\ deps_of services n = []).
  { intros n. unfold queue. rewrite list_elem_of_fmap, <- H3. specialize (H1 n). unfold degree in H1. split.
    - intros ([k v] & -> & [Hz Hin%elem_of_range]%list_elem_of_filter). simpl in *. subst.
      rewrite Hin in *. simpl in H1. split; [done|]. apply nil_length_inv. lia.
    - intros [[v Hv] Hd]. rewrite Hv, Hd in H1. simpl in H1. exists (n, v). split; [done|].
      apply list_elem_of_filter. split; [done|]. by apply elem_of_range. }
  assert (Hp : peeled services [] queue inDegree).
  { constructor; simpl.
    - unfold queue. eapply sublist_NoDup; [apply (range_nodup inDegree)|].
      apply fmap_sublist. apply sublist_filter.
    - intros n Hn. by apply Hq.
    - intros n. by rewrite outside_nil.
    - intros n Hn. rewrite Hq, outside_nil. split; [by intros [_ ->]|]. intros Hl. split; [done|].
      apply nil_length_inv. lia.
    - intros [|i] q n d Hi Hn Hd; [|done]. simpl in Hi. simplify_eq. apply Hq in Hn as [_ Hn].
      rewrite Hn in Hd. by apply elem_of_nil in Hd.
    - done. }
  destruct (topo_loop_spec services dependents H2 (size services) [] queue inDegree [] Hp eq_refl)
    as (qs & deg' & Hl & Hp' & Hlay); [simpl; lia|].
  exists qs, deg'. split; [done|]. split; [exact Hlay|]. unfold topoSort. fold queue.
  change (length (concat [])) with 0 in Hl. by rewrite Hl.
Qed.

(** A set in which every service has a dependency contains a cycle. *)
Lemma walk_cycles (R : gset string) :
  (forall n, n ∈ R -> exists d, d ∈ R /\ depends services n d) ->
  forall k (visited : gset string) n,
    size (R ∖ visited) <= k -> n ∈ R -> n ∉ visited ->
    (forall v, v ∈ visited -> tc (depends services) v n) -> cyclic services.
Proof.
  intros Hnext k. induction k as [|k IH]; intros visited n Hk Hn Hnv Hv.
  - assert (size (R ∖ visited) = 0) as He by lia. apply size_empty_inv in He. exfalso. apply (not_elem_of_empty (C := gset string) n). rewrite <- He. by apply elem_of_difference.
  - destruct (Hnext n Hn) as (d & Hd & Hdep).
    destruct (decide (d ∈ {[n]} ∪ visited)) as [[->%elem_of_singleton|Hin]%elem_of_union|Hni].
    + exists n. by apply tc_once.
    + exists d. eapply tc_r; [by apply Hv|done].
    + apply (IH ({[n]} ∪ visited) d); [|done|done|].
      * assert (R ∖ ({[n]} ∪ visited) ⊂ R ∖ visited) as Hs.
        { split; [intros x; rewrite !elem_of_difference, elem_of_union; tauto|].
          intros Hsub. specialize (Hsub n ltac:(by apply elem_of_difference)).
          apply elem_of_difference in Hsub as [_ Hsub]. apply Hsub, elem_of_union_l, elem_of_singleton. done. }
        apply subset_size in Hs. lia.
      * intros v [->%elem_of_singleton|Hv']%elem_of_union; [by apply tc_once|].
        eapply tc_r; [by apply Hv|done].
Qed.

Lemma peeled_all_or_cycle qs inDegree :
  peeled services qs [] inDegree ->
  length (concat qs) = size services \/ cyclic services.
Proof.
  intros Hp. destruct Hp as [Hnd Hkn _ Hq _ _]. rewrite app_nil_r in *.
  set (R := dom services ∖ list_to_set (concat qs)).
  assert (Hsub : list_to_set (concat qs) ⊆ dom services).
  { intros n Hn%elem_of_list_to_set. by apply elem_of_dom, Hkn. }
  destruct (decide (R = ∅)) as [He|Hne].
  - left. rewrite <- (size_dom services), <- (size_list_to_set (C := gset string)) by done.
    f_equal. apply set_eq. intros n. split; [apply Hsub|]. intros Hn.
    destruct (decide (n ∈ (list_to_set (concat qs) : gset string))) as [|Hno]; [done|].
    exfalso. apply (not_elem_of_empty (C := gset string) n). rewrite <- He. by apply elem_of_difference.
  - right. apply set_choose_L in Hne as [n Hn].
    apply (walk_cycles R) with (k := size (R ∖ ∅)) (visited := ∅) (n := n);
      [|done|done|apply not_elem_of_empty|by intros v ?%elem_of_empty].
    intros m Hm. unfold R in Hm. apply elem_of_difference in Hm as [Hm%elem_of_dom Hout].
    rewrite elem_of_list_to_set in Hout. specialize (Hq m Hm). rewrite Hq, outside_zero in Hout.
    destruct (filter (fun d => d ∉ concat qs) (deps_of services m)) as [|d rest] eqn:Hf.
    + destruct Hout. intros d Hd. destruct (decide (d ∈ concat qs)); [done|].
      assert (d ∈ filter (fun d => d ∉ concat qs) (deps_of services m)) as Hx by (by apply list_elem_of_filter).
      rewrite Hf in Hx. by apply elem_of_nil in Hx.
    + assert (d ∈ filter (fun d => d ∉ concat qs) (deps_of services m)) as Hx by (rewrite Hf; left).
      apply list_elem_of_filter in Hx as [Hno Hd]. exists d. split; [|done].
      unfold R. apply elem_of_difference. rewrite elem_of_list_to_set. split; [|done].
      by apply elem_of_dom, (deps_known _ m).
Qed.

Lemma start_order_acyclic groups : start_order services groups -> ~ cyclic services.
Proof.
  intros (Hperm & Hbef & _) [n Hc].
  assert (Hin : forall m d, depends services m d -> exists i, in_group groups i m).
  { intros m d [[svc Hs] _]%deps_known.
    assert (svc ∈ concat groups) as Hsvc.
    { rewrite Hperm. apply (list_elem_of_fmap_2 snd _ (m, svc)). by apply elem_of_map_to_list. }
    apply list_elem_of_lookup_1 in Hsvc as [k Hk].
    assert (exists i g, groups !! i = Some g /\ svc ∈ g) as (i & g & Hi & Hg).
    { clear -Hk. revert k Hk. induction groups as [|g gs IH]; intros k Hk; [done|]. cbn [concat] in Hk.
      apply lookup_app_Some in Hk as [Hk|[_ Hk]].
      - exists 0, g. split; [done|by eapply list_elem_of_lookup_2].
      - destruct (IH _ Hk) as (i & g' & Hi & Hg). by exists (S i), g'. }
    exists i, g. split; [done|]. rewrite <- (Hkeyed _ _ Hs). by apply list_elem_of_fmap_2. }
  assert (Hdown : forall a b, tc (depends services) a b -> forall i, in_group groups i a ->
                  exists j, j < i /\ in_group groups j b).
  { induction 1 as [a b Hd|a b c Hd _ IH]; intros i Hi; [by eapply Hbef|].
    destruct (Hbef i a b Hi Hd) as (j & Hj & Hb). destruct (IH j Hb) as (l & Hl & Hc'). exists l.
    split; [lia|done]. }
  assert (Hloop : forall i, ~ in_group groups i n).
  { induction i as [i IH] using lt_wf_ind. intros Hi. destruct (Hdown n n Hc i Hi) as (j & Hj & Hn).
    by apply (IH j Hj). }
  assert (exists d, depends services n d) as [d Hd] by (inversion Hc; subst; eauto).
  destruct (Hin n d Hd) as [i Hi]. by apply (Hloop i).
Qed.

Lemma peeled_start_order qs inDegree :
  peeled services qs [] inDegree -> length (concat qs) = size services ->
  start_order services (members services <$> qs).
Proof.
  intros [Hnd Hkn _ _ Hbef Htight] Hlen. rewrite app_nil_r in *.
  assert (Hcat : forall l : list (list string), concat (members services <$> l) = members services (concat l)).
  { induction l as [|q l IH]; [done|]. rewrite fmap_cons. cbn [concat]. rewrite IH.
    unfold members. by rewrite omap_app. }
  split_and!.
  - rewrite Hcat. unfold members.
    assert (Hall : concat qs ≡ₚ (map_to_list services).*1).
    { apply submseteq_length_Permutation.
      - apply NoDup_submseteq; [done|]. intros n Hn. destruct (Hkn n Hn) as [svc Hs].
        apply (list_elem_of_fmap_2 fst _ (n, svc)). by apply elem_of_map_to_list.
      - by rewrite length_fmap, length_map_to_list, Hlen. }
    rewrite Hall. clear Hall. apply reflexive_eq.
    assert (Hlk : Forall (fun kv => services !! kv.1 = Some kv.2) (map_to_list services)).
    { apply Forall_forall. intros [k v] Hin. by apply elem_of_map_to_list in Hin. }
    induction Hlk as [|[k v] l Hk _ IH]; [done|]. rewrite !fmap_cons. cbn [omap list_omap fst snd]. simpl in Hk.
    by rewrite Hk, IH.
  - intros i n d (q & Hq & Hn)%in_group_members Hd; [|done].
    destruct (Hbef i q n d) as (j & q' & Hj & Hl & Hdq); [|done|done|].
    { rewrite lookup_app_l; [done|by eapply lookup_lt_Some]. }
    exists j. split; [done|]. apply in_group_members; eauto.
  - intros i n (q & Hq & Hn)%in_group_members; [|done].
    destruct (Htight i q n) as (d & q' & Hd & Hl & Hdq); [|done|].
    { rewrite lookup_app_l; [done|by eapply lookup_lt_Some]. }
    exists d. split; [done|]. apply in_group_members; eauto.
Qed.
End resolve.

(** The two outcomes of the sort. *)
Lemma resolveOrder_cases `{MapOrder} (services : gmap string service) :
  keyed services ->
  (cyclic services /\ resolveOrder services = Some (Err ErrCyclicDependency)) \/
  (~ cyclic services /\
   exists groups, resolveOrder services = Some (Ok groups) /\ start_order services groups).
Proof.
  intros Hk. destruct (resolveOrder_peels services) as (qs & deg & Hp & _ & ->).
  destruct (Nat.eqb_spec (length (concat qs)) (size services)) as [He|Hne].
  - right. pose proof (peeled_start_order _ Hk _ _ Hp He) as Hs.
    split; [by eapply start_order_acyclic|eauto].
  - left. destruct (peeled_all_or_cycle _ _ _ Hp) as [|Hc]; [done|]. by split.
Qed.

Lemma in_group_names (groups : list (list service)) n :
  (exists i, in_group groups i n) <-> n ∈ Name <$> concat groups.
Proof.
  induction groups as [|g gs IH]; cbn [concat].
  - split; [by intros (i & g & Hg & _) | by intros ?%elem_of_nil].
  - rewrite fmap_app, elem_of_app, <- IH. split.
    + intros ([|i] & g' & Hg & Hn); simpl in Hg; simplify_eq; [by left|]. right. by exists i, g'.
    + intros [Hn|(i & g' & Hg & Hn)]; [by exists 0, g|]. by exists (S i), g'.
Qed.

Lemma in_group_unique (groups : list (list service)) i j n :
  NoDup (Name <$> concat groups) -> in_group groups i n -> in_group groups j n -> i = j.
Proof.
  revert i j. induction groups as [|g gs IH]; intros i j Hnd Hi Hj; [by destruct Hi as (? & ? & _)|].
  cbn [concat] in Hnd. rewrite fmap_app in Hnd. apply NoDup_app in Hnd as (_ & Hdj & Hnd).
  destruct Hi as (gi & Hi & Hni), Hj as (gj & Hj & Hnj).
  destruct i as [|i], j as [|j]; simpl in *; simplify_eq; [done| | |].
  - destruct (Hdj n Hni). apply in_group_names. by exists j, gj.
  - destruct (Hdj n Hnj). apply in_group_names. by exists i, gi.
  - f_equal. apply IH; [done|by exists gi|by exists gj].
Qed.

Lemma start_order_nodup (services : gmap string service) groups :
  keyed services -> start_order services groups -> Name <$> concat groups ≡ₚ (map_to_list services).*1.
Proof.
  intros Hk (Hp & _). rewrite Hp, <- list_fmap_compose. apply reflexive_eq, list_fmap_ext.
  intros i [k v] Hi%list_elem_of_lookup_2%elem_of_map_to_list. simpl. by apply Hk.
Qed.

Lemma start_order_levels (services : gmap string service) g1 g2 :
  keyed services -> start_order services g1 -> start_order services g2 ->
  forall i n, in_group g1 i n -> in_group g2 i n.
Proof.
  intros Hk Hs1 Hs2. pose proof (start_order_nodup _ _ Hk Hs1) as N1.
  pose proof (start_order_nodup _ _ Hk Hs2) as N2.
  assert (U2 : NoDup (Name <$> concat g2)) by (rewrite N2; apply NoDup_fst_map_to_list).
  destruct Hs1 as (_ & B1 & T1), Hs2 as (_ & B2 & T2).
  induction i as [i IH] using lt_wf_ind. intros n Hn.
  assert (exists k, in_group g2 k n) as [k Hkn].
  { apply in_group_names. rewrite N2, <- N1. apply in_group_names. eauto. }
  assert (k = i) as ->; [|done]. apply Nat.le_antisymm.
  - destruct k as [|k]; [lia|]. destruct (T2 k n Hkn) as (d & Hd & Hg).
    destruct (B1 i n d Hn Hd) as (j & Hj & Hdj). pose proof (IH j Hj d Hdj) as Hd2.
    pose proof (in_group_unique _ _ _ _ U2 Hg Hd2). lia.
  - destruct i as [|i]; [lia|]. destruct (T1 i n Hn) as (d & Hd & Hg).
    destruct (B2 k n d Hkn Hd) as (j & Hj & Hdj).
    pose proof (in_group_unique _ _ _ _ U2 Hdj (IH i (Nat.lt_succ_diag_r i) d Hg)). lia.
Qed.

(** C14. The start order.  For every map iteration order the sort ends within
    its fuel; it reports [ErrCyclicDependency] exactly when some service depends
    on itself through in-process dependencies, and otherwise puts every service
    in exactly one group, after the groups of all of its in-process
    dependencies and directly after the group of one of them. *)
Theorem resolveOrder_correct `{MapOrder} (services : gmap string service) :
  keyed services ->
  (cyclic services /\ resolveOrder services = Some (Err ErrCyclicDependency)) \/
  (~ cyclic services /\
   exists groups, resolveOrder services = Some (Ok groups) /\ start_order services groups).
Proof. apply resolveOrder_cases. Qed.

(** C15. The sort is the reference layering.  For every map iteration order the
    in-degree counting of [buildDepGraph] and [topoSort] gives, group by group,
    the services [layered] computes from sets alone: the services whose
    in-process dependencies have all started, round after round, and the cycle
    error exactly when some service never starts. *)
Theorem resolveOrder_layered `{MapOrder} (services : gmap string service) :
  keyed services ->
  match resolveOrder services with
  | Some (Ok groups) => layered services = Ok ((fun group => list_to_set (Name <$> group)) <$> groups)
  | Some (Err e) => layered services = Err e
  | None => False
  end.
Proof.
  intros Hk. destruct (resolveOrder_peels services) as (qs & deg & Hp & Hl & ->). unfold layered. rewrite <- Hl.
  pose proof (peeled_size _ _ _ _ Hp) as Hsize. destruct Hp as [Hnd Hkn _ _ _ _]. rewrite app_nil_r in *.
  assert (⋃ (list_to_set <$> qs) = list_to_set (C := gset string) (concat qs)) as ->.
  { clear. induction qs as [|q qs IH]; [done|]. rewrite fmap_cons. cbn [concat union_list foldr]. cbn in IH.
    by rewrite IH, list_to_set_app_L. }
  assert (list_to_set (concat qs) ⊆ dom services) as Hsub
    by (intros n Hn%elem_of_list_to_set; by apply elem_of_dom, Hkn).
  assert (size (list_to_set (C := gset string) (concat qs)) = length (concat qs)) as Hlen by (by apply size_list_to_set).
  destruct (Nat.eqb_spec (length (concat qs)) (size services)) as [He|Hne].
  - rewrite decide_True.
    + f_equal. rewrite <- list_fmap_compose. apply list_fmap_ext. intros i q Hq. unfold compose.
      rewrite members_names; [done|done|]. intros n Hn. apply Hkn, concat_elem. eauto.
    + apply set_subseteq_size_eq; [done|]. rewrite Hlen, size_dom. lia.
  - rewrite decide_False; [done|]. intros He. apply Hne. by rewrite <- Hlen, He, size_dom.
Qed.

(** The groups do not depend on how Go iterates its maps: two runs on the
    same services either both report the cycle or start every service in the
    same group. *)
Theorem resolveOrder_deterministic (M1 M2 : MapOrder) (services : gmap string service) :
  keyed services ->
  match @resolveOrder M1 services, @resolveOrder M2 services with
  | Some (Ok g1), Some (Ok g2) => forall i n, in_group g1 i n <-> in_group g2 i n
  | Some (Err e1), Some (Err e2) => e1 = e2
  | _, _ => False
  end.
Proof.
  intros Hk.
  destruct (@resolveOrder_cases M1 services Hk) as [[C1 ->]|(C1 & g1 & -> & S1)];
    destruct (@resolveOrder_cases M2 services Hk) as [[C2 ->]|(C2 & g2 & -> & S2)]; try done.
  split; by eapply start_order_levels.
Qed.

(** ** Instantiation *)

(** [SERVICES_ENABLED] selects a service: an empty list selects all. *)
Definition selected (enabled : list string) (name : string) : Prop :=
  enabled = [] \/ name ∈ enabled.

#[global] Instance selected_dec enabled name : Decision (selected enabled name).
Proof. unfold selected. apply _. Defined.

Lemma keyed_insert services svc : keyed services -> keyed (<[Name svc := svc]> services).
Proof.
  intros Hk n s. rewrite lookup_insert. case_decide as Hn; [by intros [= <-] | apply Hk].
Qed.

Lemma instantiate_loop_keyed enabled all factories : forall services,
  keyed services -> keyed (instantiate_loop enabled all factories services).1.
Proof.
  induction factories as [|[name [svc|e]] rest IH]; intros services Hk; cbn [instantiate_loop]; [done| |];
    case_match; auto. apply IH. by apply keyed_insert.
Qed.

Lemma skip_iff enabled name :
  negb (parseEnabledServices enabled).2 && negb (bool_decide (name ∈ (parseEnabledServices enabled).1)) = true
  <-> ~ selected enabled name.
Proof.
  unfold selected, parseEnabledServices. destruct enabled as [|x l]; simpl.
  - naive_solver.
  - rewrite negb_true_iff, bool_decide_eq_false. naive_solver.
Qed.

Lemma instantiate_loop_spec enabled factories : forall services,
  NoDup factories.*1 ->
  (forall name svc, (name, Ok svc) ∈ factories -> Name svc = name) ->
  let '(out, err) := instantiate_loop (parseEnabledServices enabled).1 (parseEnabledServices enabled).2
                       factories services in
  match err with
  | None =>
      (forall name, name ∉ factories.*1 \/ ~ selected enabled name -> out !! name = services !! name) /\
      (forall name f, (name, f) ∈ factories -> selected enabled name ->
         exists svc, f = Ok svc /\ out !! name = Some svc)
  | Some err => exists name e, err = FactoryError e /\ (name, Err e) ∈ factories /\ selected enabled name
  end.
Proof.
  induction factories as [|[name f] rest IH]; intros services Hnd Hh; cbn [instantiate_loop].
  - split; [done|by intros ?? ?%elem_of_nil].
  - rewrite fmap_cons in *. apply NoDup_cons in Hnd as [Hni Hnd]. cbn [fst] in *.
    assert (Hh' : forall n s, (n, Ok s) ∈ rest -> Name s = n) by (intros; apply Hh; by right).
    pose proof (skip_iff enabled name) as Hskip.
    destruct (negb _ && negb _) eqn:Hsk.
    + apply proj1 in Hskip. specialize (Hskip eq_refl).
      specialize (IH services Hnd Hh'). destruct (instantiate_loop _ _ _ _) as [out [err|]].
      * destruct IH as (n & e & ? & ? & ?). exists n, e. split_and!; [done|by right|done].
      * destruct IH as [H1 H2]. split.
        -- intros n Hn. apply H1. rewrite not_elem_of_cons in Hn. naive_solver.
        -- intros n f' [[= -> ->]|Hin]%elem_of_cons Hs; [done|by apply H2].
    + assert (Hsel : selected enabled name) by (apply dec_stable; rewrite <- Hskip; done).
      destruct f as [svc|e]; [|exists name, e; split_and!; [done|left|done]].
      assert (Hname : Name svc = name) by (apply Hh; left).
      specialize (IH (Add [svc] services) Hnd Hh'). destruct (instantiate_loop _ _ _ _) as [out [err|]].
      * destruct IH as (n & e & ? & ? & ?). exists n, e. split_and!; [done|by right|done].
      * destruct IH as [H1 H2]. unfold Add in H1. cbn [fold_left] in H1. rewrite Hname in H1. split.
        -- intros n Hn. rewrite not_elem_of_cons in Hn. rewrite H1 by naive_solver.
           apply lookup_insert_ne. naive_solver.
        -- intros n f' [[= -> ->]|Hin]%elem_of_cons Hs; [|by apply H2].
           exists svc. split; [done|]. rewrite H1 by (by left). apply lookup_insert_eq.
Qed.

(** Instantiation runs exactly the selected factories: on success every
    selected service is registered under its name and nothing else changed, and
    the only failure is the error of a selected factory. *)
Theorem instantiateAll_exact `{MapOrder} enabled (factories : gmap string ServiceFactory) services :
  (forall name svc, factories !! name = Some (Ok svc) -> Name svc = name) ->
  match instantiateAll enabled factories services with
  | (out, None) => forall name,
      match factories !! name with
      | Some f => if decide (selected enabled name)
                  then exists svc, f = Ok svc /\ out !! name = Some svc
                  else out !! name = services !! name
      | None => out !! name = services !! name
      end
  | (_, Some err) => exists name e,
      err = FactoryError e /\ factories !! name = Some (Err e) /\ selected enabled name
  end.
Proof.
  intros Hh. unfold instantiateAll.
  pose proof (instantiate_loop_spec enabled (range factories) services (range_nodup _)) as Hl.
  destruct (parseEnabledServices enabled) as [en all]. cbn [fst snd] in Hl.
  destruct (instantiate_loop _ _ _ _) as [out [err|]].
  - destruct Hl as (n & e & -> & Hin%elem_of_range & Hs); [|eauto].
    intros n s Hin%elem_of_range. by apply Hh.
  - destruct Hl as [H1 H2]; [intros n s Hin%elem_of_range; by apply Hh|]. intros name.
    destruct (factories !! name) as [f|] eqn:Hf.
    + case_decide; [|apply H1; by right]. apply H2; [|done]. by apply elem_of_range.
    + apply H1. left. intros ([k v] & Hk & Hin)%list_elem_of_fmap. cbn [fst] in Hk. subst k.
      apply elem_of_range in Hin. by pose proof (eq_trans (eq_sym Hf) Hin).
Qed.

(** ** Concrete orders *)
Module OrderExamples.

Definition plain (name : string) (deps : list string) : service :=
  mkService name (Some deps) None None false.

Definition table (l : list service) : gmap string service :=
  list_to_map ((fun s => (Name s, s)) <$> l).

Definition diamond : gmap string service :=
  table [plain "web" ["api"; "cache"]; plain "api" ["db"; "external"]; plain "cache" ["db"]; plain "db" []].
Definition loop2 : gmap string service := table [plain "a" ["b"]; plain "b" ["a"]; plain "c" []].

#[local] Existing Instance canonical_order.

Example diamond_groups :
  match resolveOrder diamond with
  | Some (Ok groups) => (sort_strings ∘ fmap Name <$> groups) = [["db"]; ["api"; "cache"]; ["web"]]
  | _ => False
  end.
Proof. vm_compute. reflexivity. Qed.

Example loop2_rejected : resolveOrder loop2 = Some (Err ErrCyclicDependency).
Proof. vm_compute. reflexivity. Qed.

Lemma diamond_keyed : keyed diamond.
Proof.
  apply map_Forall_to_list with (P := fun n s => Name s = n).
  vm_compute. repeat constructor.
Qed.

Lemma resolveOrder_correct_witness :
  keyed diamond /\
  ((cyclic diamond /\ resolveOrder diamond = Some (Err ErrCyclicDependency)) \/
   (~ cyclic diamond /\
    exists groups, resolveOrder diamond = Some (Ok groups) /\ start_order diamond groups)).
Proof. split; [exact diamond_keyed|]. exact (resolveOrder_correct diamond diamond_keyed). Defined.

Example diamond_layers :
  elements <$> layers (size diamond) diamond ∅ = [["db"]; ["cache"; "api"]; ["web"]].
Proof. vm_compute. reflexivity. Qed.

Lemma resolveOrder_layered_witness :
  match resolveOrder diamond with
  | Some (Ok groups) => layered diamond = Ok ((fun group => list_to_set (Name <$> group)) <$> groups)
  | Some (Err e) => layered diamond = Err e
  | None => False
  end.
Proof. pose proof (@resolveOrder_layered canonical_order diamond diamond_keyed) as H. exact H. Defined.

Lemma resolveOrder_deterministic_witness :
  keyed diamond /\
  match resolveOrder diamond, resolveOrder diamond with
  | Some (Ok g1), Some (Ok g2) => forall i n, in_group g1 i n <-> in_group g2 i n
  | Some (Err e1), Some (Err e2) => e1 = e2
  | _, _ => False
  end.
Proof.
  split; [exact diamond_keyed|].
  exact (resolveOrder_deterministic canonical_order canonical_order diamond diamond_keyed).
Defined.

Definition two_factories : gmap string ServiceFactory :=
  <["db" := Ok (plain "db" [])]> (<["web" := Ok (plain "web" ["db"])]> ∅).

Lemma two_factories_honest name svc : two_factories !! name = Some (Ok svc) -> Name svc = name.
Proof.
  unfold two_factories. rewrite !lookup_insert, lookup_empty. by repeat case_decide; intros; simplify_eq.
Qed.

Lemma only_db : instantiateAll ["db"] two_factories ∅ = (table [plain "db" []], None).
Proof. vm_compute. reflexivity. Qed.

Lemma instantiateAll_exact_witness :
  exists svc, two_factories !! "db" = Some (Ok svc) /\
    (instantiateAll ["db"] two_factories ∅).1 !! "db" = Some svc /\
    (instantiateAll ["db"] two_factories ∅).1 !! "web" = None.
Proof.
  pose proof (instantiateAll_exact ["db"] two_factories ∅ two_factories_honest) as Hx.
  rewrite only_db in Hx |- *. pose proof (Hx "db") as (svc & Hf & Hdb).
  exists svc. split; [by rewrite <- Hf|]. split; [exact Hdb|exact (Hx "web")].
Defined.
End OrderExamples.
