(* ===== verification/Registry.v ===== *)
(** * The registry of service factories ([service_manager.go]: [Register],
      [RegisteredNames], [Commands], [ClearServices])

    The maps of the manager as one record, its operations, and the command a
    registered service gets.  [cobra] is a parameter: what executing a
    service's own commands with some arguments returns. *)

From S2P Require Import Prelude ServiceOrder.

Record factoryRegistry := mkRegistry {
  factories : gmap string ServiceFactory;
  services : gmap string service;
}.

(** [GetInstance], the first time. *)
Definition GetInstance : factoryRegistry := mkRegistry ∅ ∅.

(** [Register]. *)
Definition Register (name : string) (factory : ServiceFactory) (r : factoryRegistry) : factoryRegistry :=
  mkRegistry (<[name := factory]> (factories r)) (services r).

(** [RegisteredNames]. *)
Definition RegisteredNames `{MapOrder} (r : factoryRegistry) : list string := (range (factories r)).*1.

(** [ClearServices]. *)
Definition ClearServices (r : factoryRegistry) : factoryRegistry := mkRegistry (factories r) ∅.

(** [Run]'s first step. *)
Definition instantiate_registered `{MapOrder} (enabled : list string) (r : factoryRegistry) : factoryRegistry * option factory_error :=
  let '(s, err) := instantiateAll enabled (factories r) (services r) in (mkRegistry (factories r) s, err).

Section commands.
Context {command : Type} (Commands : service -> option (list command)).
Context (execute : string -> list command -> list string -> option string).

Inductive command_error := InstantiateFailed (e : factory_error) | ErrNoCommands (name : string) | CommandFailed (msg : string).

(** The [RunE] of [buildServiceCommand]. *)
Definition runServiceCommand (r : factoryRegistry) (name : string) (args : list string) : option command_error :=
  match Instantiate name (factories r) with
  | Err e => Some (InstantiateFailed e)
  | Ok svc =>
      match Commands svc with
      | None => Some (ErrNoCommands name)
      | Some cmds => CommandFailed <$> execute name cmds args
      end
  end.

(** [Commands]: the name and the [RunE] of each. *)
Definition serviceCommands `{MapOrder} (r : factoryRegistry) : list (string * (list string -> option command_error)) :=
  (fun name => (name, runServiceCommand r name)) <$> RegisteredNames r.

Lemma elem_of_RegisteredNames `{MapOrder} r name : name ∈ RegisteredNames r <-> is_Some (factories r !! name).
Proof.
  unfold RegisteredNames. rewrite list_elem_of_fmap. split.
  - intros ([n f] & -> & Hin%elem_of_range). by exists f.
  - intros [f Hf]. exists (name, f). split; [done|]. by apply elem_of_range.
Qed.

(** Commands are lazy: there is one for each registered name, the last factory
    registered under it is the one it calls, and it does not depend on the other
    factories, on the services created so far or on the enabled list. *)
Theorem commands_lazy `{MapOrder} r r' name factory args :
  (forall n, n ∈ (serviceCommands r).*1 <-> is_Some (factories r !! n)) /\
  runServiceCommand (Register name factory r) name args = runServiceCommand (Register name factory r') name args /\
  (forall other f, other <> name -> runServiceCommand (Register other f r) name args = runServiceCommand r name args) /\
  (forall enabled, runServiceCommand (instantiate_registered enabled r).1 name args = runServiceCommand r name args) /\
  runServiceCommand (ClearServices r) name args = runServiceCommand r name args.
Proof.
  split_and!.
  - intros n. unfold serviceCommands. rewrite <- list_fmap_compose. rewrite <- elem_of_RegisteredNames.
    rewrite list_elem_of_fmap. cbn. naive_solver.
  - unfold runServiceCommand, Instantiate. cbn. by rewrite !lookup_insert_eq.
  - intros other f Hne. unfold runServiceCommand, Instantiate. cbn. by rewrite lookup_insert_ne.
  - intros enabled. unfold instantiate_registered. by destruct (instantiateAll _ _ _).
  - done.
Qed.
End commands.
