(* ===== verification/ServiceRun.v ===== *)
(** * Running and stopping the services ([internal/pkg/service-manager])

    [Run], the goroutine of each service ([runService] and what it calls) and
    [Stop], as one labelled transition system: [fire] performs one action of
    the main goroutine, of a service goroutine, of a [Stop] or of the
    environment, when it is enabled.  Channels are state: the error channel of
    capacity one, the failure signal, the context, the ready and exited
    channels, the start-groups lock (held from the first group to the last),
    the [sync.Once] of [Stop] and the wait group. *)

From Stdlib Require Import Wellfounded.
From S2P Require Import Prelude ServiceOrder.

Inductive run_error := ServiceError (msg : string) | ErrServicePanic (msg : string).

(** What the [Run] method of a service does when it ends. *)
Inductive run_outcome := RunNil | RunErr (msg : string) | RunPanic (msg : string).

(** [safeRun]: a panic becomes an error. *)
Definition safeRun (o : run_outcome) : option run_error :=
  match o with
  | RunNil => None
  | RunErr msg => Some (ServiceError msg)
  | RunPanic msg => Some (ErrServicePanic msg)
  end.

(** The states of a service goroutine: created, inside the attempt [k], in the
    retry delay after the attempt [k], about to report, about to trigger the
    failure signal, returned. *)
Inductive task :=
  | Pending
  | Attempt (k : Z)
  | Backoff (k : Z) (err : option run_error)
  | Report (err : option run_error)
  | Trigger
  | Exited.

#[global] Instance run_error_eq_dec : EqDecision run_error.
Proof. solve_decision. Defined.
#[global] Instance task_eq_dec : EqDecision task.
Proof. solve_decision. Defined.

(** What [Run] returns. *)
Inductive run_result :=
  | RetNil
  | RetNoEnabledServices
  | RetOrder (e : order_error)
  | RetFailed (e : option run_error).

(** The states of [Run]: not entered, entered (the cancel function is stored),
    in the loop of [runServiceGroups] with the groups left, launching a group,
    in [waitGroupReady], in the final [select], and in its deferred calls:
    [Stop], waiting for the stop to finish, [wg.Wait], returned. *)
Inductive phase :=
  | Fresh
  | Entered
  | Starting (todo : list (list service))
  | Launching (group rest : list service) (todo : list (list service))
  | Readying (group rest : list service) (todo : list (list service))
  | Serving
  | DeferStop (ret : run_result)
  | StopWait (ret : run_result)
  | Joining (ret : run_result)
  | Returned (ret : run_result).

(** The body of [Stop] under its [sync.Once]: the groups left (last first) and
    the members of the current group still stopping. *)
Inductive stop_state :=
  | NotStopped
  | StoppingGroups (todo : list (list service)) (current : list service)
  | StopDone.

Record mgr := mkMgr {
  at_phase : phase;
  tasks : gmap string task;
  readyCh : gset string;
  errCh : option (option run_error);
  failure : bool;
  cancelled : bool;
  startGroups : list (list service);
  stop : stop_state;
  (** history: attempts begun per service, failures reported, services
      launched and stopped, oldest first. *)
  attempts : gmap string Z;
  reports : list (option run_error);
  launched : list string;
  stopped : list string;
}.

Definition init : mgr := mkMgr Fresh ∅ ∅ None false false [] NotStopped ∅ [] [] [].

Definition goto (p : phase) (m : mgr) : mgr :=
  mkMgr p (tasks m) (readyCh m) (errCh m) (failure m) (cancelled m) (startGroups m) (stop m)
    (attempts m) (reports m) (launched m) (stopped m).
Definition set_task (name : string) (t : task) (m : mgr) : mgr :=
  mkMgr (at_phase m) (<[name := t]> (tasks m)) (readyCh m) (errCh m) (failure m) (cancelled m)
    (startGroups m) (stop m) (attempts m) (reports m) (launched m) (stopped m).
Definition set_stop (s : stop_state) (m : mgr) : mgr :=
  mkMgr (at_phase m) (tasks m) (readyCh m) (errCh m) (failure m) (cancelled m)
    (startGroups m) s (attempts m) (reports m) (launched m) (stopped m).
Definition cancel (m : mgr) : mgr :=
  mkMgr (at_phase m) (tasks m) (readyCh m) (errCh m) (failure m) true
    (startGroups m) (stop m) (attempts m) (reports m) (launched m) (stopped m).

Definition attempts_of (name : string) (m : mgr) : Z := default 0%Z (attempts m !! name).
Definition task_of (name : string) (m : mgr) : option task := tasks m !! name.

(** ** The service goroutine *)

(** [maxRetries] of [runService]: 0 for a service that is not [Retryable]. *)
Definition maxRetries (svc : service) : Z := match Retries svc with Some (n, _) => n | None => 0 end.

(** The number of iterations of [range maxRetries + 1]. *)
Definition iterations (svc : service) : Z := Z.max 0 (wrap64 (maxRetries svc + 1)).

(** Begin the attempt [k]. *)
Definition begin_attempt (name : string) (k : Z) (m : mgr) : mgr :=
  let m := set_task name (Attempt k) m in
  mkMgr (at_phase m) (tasks m) (readyCh m) (errCh m) (failure m) (cancelled m) (startGroups m)
    (stop m) (<[name := (attempts_of name m + 1)%Z]> (attempts m)) (reports m) (launched m) (stopped m).

(** The loop head: the next iteration, or the report after the last one. *)
Definition loop_head (svc : service) (k : Z) (lastErr : option run_error) (m : mgr) : mgr :=
  if (k <? iterations svc)%Z then begin_attempt (Name svc) k m
  else set_task (Name svc) (Report lastErr) m.

(** [runService] from the return of one attempt: a clean exit, a cancelled
    context, the last retry, or [waitRetryDelay]. *)
Definition after_attempt (svc : service) (k : Z) (o : run_outcome) (m : mgr) : mgr :=
  let lastErr := safeRun o in
  match lastErr with
  | None => set_task (Name svc) Exited m
  | Some _ =>
      if cancelled m then set_task (Name svc) Exited m
      else if (maxRetries svc <=? k)%Z then set_task (Name svc) (Report lastErr) m
      else match Retries svc with
           | Some (_, delay) =>
               if (delay <=? 0)%Z then loop_head svc (k + 1) lastErr m
               else set_task (Name svc) (Backoff k lastErr) m
           | None => set_task (Name svc) (Report lastErr) m
           end
  end.

(** [handleServiceError]: an allowed failure is dropped; otherwise the error is
    offered to the channel without blocking, and then the signal is due. *)
Definition handleServiceError (svc : service) (err : option run_error) (m : mgr) : mgr :=
  match IsAllowedFailure svc with
  | Some true => set_task (Name svc) Exited m
  | _ =>
      let m := set_task (Name svc) Trigger m in
      mkMgr (at_phase m) (tasks m) (readyCh m)
        (match errCh m with None => Some err | Some e => Some e end) (failure m) (cancelled m)
        (startGroups m) (stop m) (attempts m) (reports m ++ [err]) (launched m) (stopped m)
  end.

(** [failureSignal.trigger]. *)
Definition trigger (m : mgr) : mgr :=
  mkMgr (at_phase m) (tasks m) (readyCh m) (errCh m) true (cancelled m)
    (startGroups m) (stop m) (attempts m) (reports m) (launched m) (stopped m).

(** ** The main goroutine *)

Section run.
Context `{MO : MapOrder} (services : gmap string service).

(** [Run] up to the start of the groups; with no service or no order it goes
    straight to its deferred calls. *)
Definition resolve (m : mgr) : mgr :=
  if Nat.eqb (size services) 0 then goto (DeferStop RetNoEnabledServices) m
  else match resolveOrder services with
       | Some (Ok groups) => goto (Starting groups) m
       | Some (Err e) => goto (DeferStop (RetOrder e)) m
       | None => goto (DeferStop RetNil) m
       end.

(** The head of the loop of [runServiceGroups]. *)
Definition next_group (todo : list (list service)) (m : mgr) : mgr :=
  match todo with
  | [] => goto Serving m
  | group :: todo => if failure m then goto Serving m else goto (Launching group group todo) m
  end.

(** Create the goroutine of the next member of the group. *)
Definition launch (svc : service) (group rest : list service) (todo : list (list service)) (m : mgr) : mgr :=
  let m := set_task (Name svc) Pending (goto (Launching group rest todo) m) in
  mkMgr (at_phase m) (tasks m) (readyCh m) (errCh m) (failure m) (cancelled m) (startGroups m)
    (stop m) (attempts m) (reports m) (launched m ++ [Name svc]) (stopped m).

(** Every goroutine of the group has sent on the launched channel. *)
Definition all_launched (group : list service) (m : mgr) : bool :=
  forallb (fun svc => match task_of (Name svc) m with
                      | Some Pending | None => false | Some _ => true end) group.

(** The end of an iteration: the group is recorded as started. *)
Definition group_started (group : list service) (todo : list (list service)) (m : mgr) : mgr :=
  mkMgr (Starting todo) (tasks m) (readyCh m) (errCh m) (failure m) (cancelled m)
    (startGroups m ++ [group]) (stop m) (attempts m) (reports m) (launched m) (stopped m).

(** The select of [waitGroupReady] for one service, by the case taken. *)
Inductive ready_case := CaseReady | CaseExited | CaseFailure | CaseDone.

Definition waitGroupReady (c : ready_case) (group rest : list service) (todo : list (list service))
    (m : mgr) : option mgr :=
  match rest with
  | [] => Some (group_started group todo m)
  | svc :: rest' =>
      if negb (ReadyNotifier svc) then Some (goto (Readying group rest' todo) m)
      else match c with
           | CaseReady => if bool_decide (Name svc ∈ readyCh m)
                          then Some (goto (Readying group rest' todo) m) else None
           | CaseExited => if bool_decide (task_of (Name svc) m = Some Exited)
                           then Some (goto (Readying group rest' todo) m) else None
           | CaseFailure => if failure m then Some (group_started group todo m) else None
           | CaseDone => if cancelled m then Some (group_started group todo m) else None
           end
  end.

(** The lock on the start groups is held for the whole of [runServiceGroups]. *)
Definition lock_held (p : phase) : bool :=
  match p with Starting _ | Launching _ _ _ | Readying _ _ _ => true | _ => false end.

(** The start of the body of [Stop]: last group first. *)
Definition begin_stop (m : mgr) : option mgr :=
  if lock_held (at_phase m) then None
  else match stop m with
       | NotStopped => Some (set_stop (StoppingGroups (rev (startGroups m)) []) m)
       | _ => None
       end.

(** [stopGroup]: every member is stopped in its own goroutine (to completion or
    to the timeout), and the next group begins when all are done. *)
Definition stop_member (name : string) (todo : list (list service)) (current : list service) (m : mgr) :
    option mgr :=
  if bool_decide (name ∈ Name <$> current) then
    let m := set_stop (StoppingGroups todo (filter (fun s => Name s <> name) current)) m in
    Some (mkMgr (at_phase m) (tasks m) (readyCh m) (errCh m) (failure m) (cancelled m)
            (startGroups m) (stop m) (attempts m) (reports m) (launched m) (stopped m ++ [name]))
  else None.

Definition next_stop (todo : list (list service)) (m : mgr) : mgr :=
  match todo with
  | [] => set_stop StopDone m
  | group :: todo => set_stop (StoppingGroups todo group) m
  end.

(** ** The transition system *)

Inductive action :=
  (** environment: the parent context ends or a [Stop] cancels it; a service
      signals ready; the [Run] method of a service returns; a timer fires;
      another goroutine calls [Stop] (its cancellation, if it finds the cancel
      function stored, is an [ACancel] of its own) *)
  | ACancel
  | ASignal (name : string)
  | AReturn (name : string) (o : run_outcome)
  | ATimer (name : string)
  | AStopCall
  (** main goroutine *)
  | AEnter
  | AResolve
  | AGroup
  | ALaunch
  | AWait (c : ready_case)
  | ASelectDone
  | ASelectErr
  | ADeferCancel
  | ADeferStop
  | AStopped
  | AJoin
  (** service goroutine *)
  | ATask (name : string)
  (** [Stop] *)
  | AStopMember (name : string)
  | AStopNext.

Definition receive (m : mgr) : mgr :=
  mkMgr (at_phase m) (tasks m) (readyCh m) None (failure m) (cancelled m)
    (startGroups m) (stop m) (attempts m) (reports m) (launched m) (stopped m).
Definition signal (name : string) (m : mgr) : mgr :=
  mkMgr (at_phase m) (tasks m) ({[name]} ∪ readyCh m) (errCh m) (failure m) (cancelled m)
    (startGroups m) (stop m) (attempts m) (reports m) (launched m) (stopped m).

Definition all_exited (m : mgr) : bool :=
  forallb (fun kv => bool_decide (kv.2 = Exited)) (map_to_list (tasks m)).

(** A step of the goroutine of a service that needs nothing from outside. *)
Definition task_step (svc : service) (t : task) (m : mgr) : option mgr :=
  match t with
  | Pending => Some (loop_head svc 0 None m)
  | Attempt _ => None
  | Backoff _ _ => if cancelled m then Some (set_task (Name svc) Exited m) else None
  | Report err => Some (handleServiceError svc err m)
  | Trigger => Some (set_task (Name svc) Exited (trigger m))
  | Exited => None
  end.

Definition with_task (name : string) (f : service -> task -> option mgr) (m : mgr) : option mgr :=
  match services !! name, task_of name m with
  | Some svc, Some t => f svc t
  | _, _ => None
  end.

Definition fire (a : action) (m : mgr) : option mgr :=
  match a with
  | ACancel => if cancelled m then None else Some (cancel m)
  | ASignal name =>
      if bool_decide (is_Some (services !! name) /\ name ∉ readyCh m) then Some (signal name m) else None
  | AReturn name o => with_task name (fun svc t =>
      match t with Attempt k => Some (after_attempt svc k o m) | _ => None end) m
  | ATimer name => with_task name (fun svc t =>
      match t with Backoff k err => Some (loop_head svc (k + 1) err m) | _ => None end) m
  | AStopCall => begin_stop m
  | AEnter => match at_phase m with Fresh => Some (goto Entered m) | _ => None end
  | AResolve => match at_phase m with Entered => Some (resolve m) | _ => None end
  | AGroup => match at_phase m with Starting todo => Some (next_group todo m) | _ => None end
  | ALaunch =>
      match at_phase m with
      | Launching group (svc :: rest) todo => Some (launch svc group rest todo m)
      | Launching group [] todo =>
          if all_launched group m then Some (goto (Readying group group todo) m) else None
      | _ => None
      end
  | AWait c =>
      match at_phase m with Readying group rest todo => waitGroupReady c group rest todo m | _ => None end
  | ASelectDone =>
      match at_phase m with
      | Serving => if cancelled m then Some (goto (DeferStop RetNil) m) else None
      | _ => None
      end
  | ASelectErr =>
      match at_phase m, errCh m with
      | Serving, Some e => Some (goto (DeferStop (RetFailed e)) (receive m))
      | _, _ => None
      end
  | ADeferCancel =>
      match at_phase m with DeferStop ret => Some (goto (StopWait ret) (cancel m)) | _ => None end
  | ADeferStop => match at_phase m with StopWait _ => begin_stop m | _ => None end
  | AStopped =>
      match at_phase m, stop m with
      | StopWait ret, StopDone => Some (goto (Joining ret) m)
      | _, _ => None
      end
  | AJoin =>
      match at_phase m with
      | Joining ret => if all_exited m then Some (goto (Returned ret) m) else None
      | _ => None
      end
  | ATask name => with_task name (fun svc t => task_step svc t m) m
  | AStopMember name =>
      match stop m with StoppingGroups todo current => stop_member name todo current m | _ => None end
  | AStopNext =>
      match stop m with StoppingGroups todo [] => Some (next_stop todo m) | _ => None end
  end.

Definition mstep (m m' : mgr) : Prop := exists a, fire a m = Some m'.
Definition reachable (m : mgr) : Prop := rtc mstep init m.

(** ** Reachability and the shape of a step *)

Lemma reachable_inv (I : mgr -> Prop) :
  I init ->
  (forall m a m', reachable m -> I m -> fire a m = Some m' -> I m') ->
  forall m, reachable m -> I m.
Proof.
  intros H0 Hstep.
  assert (forall m0 m, rtc mstep m0 m -> reachable m0 -> I m0 -> I m) as Hind.
  { induction 1 as [|m0 m1 m [a Hf] _ IH]; intros Hr HI; [done|].
    apply IH; [|by eapply Hstep]. eapply rtc_r; [exact Hr|by exists a]. }
  intros m Hr. eapply Hind; [exact Hr|apply rtc_refl|done].
Qed.

Lemma with_task_inv name f m m' :
  with_task name f m = Some m' ->
  exists svc t, services !! name = Some svc /\ task_of name m = Some t /\ f svc t = Some m'.
Proof. unfold with_task. intros H. repeat case_match; try done. eauto. Qed.

(** What a step of a service goroutine can change: its own task, its attempts,
    the error channel, the reports and the failure signal. *)
Record goroutine_step (name : string) (t' : task) (m m' : mgr) : Prop := {
  gs_phase : at_phase m' = at_phase m;
  gs_tasks : tasks m' = <[name := t']> (tasks m);
  gs_ready : readyCh m' = readyCh m;
  gs_failure : failure m = true -> failure m' = true;
  gs_cancelled : cancelled m' = cancelled m;
  gs_groups : startGroups m' = startGroups m;
  gs_stop : stop m' = stop m;
  gs_launched : launched m' = launched m;
  gs_stopped : stopped m' = stopped m;
}.

Lemma loop_head_goroutine svc k err m :
  exists t', goroutine_step (Name svc) t' m (loop_head svc k err m) /\
    ((t' = Attempt k /\ (k < iterations svc)%Z) \/ (t' = Report err /\ (iterations svc <= k)%Z)).
Proof.
  unfold loop_head. destruct (Z.ltb_spec k (iterations svc)); eexists; (split; [by constructor|eauto]).
Qed.

Lemma after_attempt_goroutine svc k o m :
  exists t', goroutine_step (Name svc) t' m (after_attempt svc k o m).
Proof.
  unfold after_attempt. repeat case_match; try (eexists; by constructor).
  match goal with |- context [loop_head svc ?k ?e m] =>
    destruct (loop_head_goroutine svc k e m) as (t' & ? & _) end. eauto.
Qed.

Lemma task_step_goroutine svc t m m' :
  task_step svc t m = Some m' -> exists t', goroutine_step (Name svc) t' m m'.
Proof.
  unfold task_step, handleServiceError. intros H. repeat case_match; simplify_eq; try (eexists; by constructor).
  destruct (loop_head_goroutine svc 0 None m) as (t' & ? & _). eauto.
Qed.

(** The actions of the service goroutines. *)
Definition of_goroutine (a : action) : option string :=
  match a with AReturn name _ | ATimer name | ATask name => Some name | _ => None end.

Hypothesis Hkeyed : keyed services.

Lemma goroutine_action a name m m' :
  of_goroutine a = Some name -> fire a m = Some m' ->
  exists t t', task_of name m = Some t /\ t <> Exited /\ goroutine_step name t' m m'.
Proof.
  intros Ha H. destruct a; simplify_eq/=;
    apply with_task_inv in H as (svc & t & Hs & Ht & Hf); rewrite <- (Hkeyed _ _ Hs) in *.
  - destruct t; simplify_eq. destruct (after_attempt_goroutine svc k o m) as [t' ?]. eauto 10.
  - destruct t; simplify_eq. destruct (loop_head_goroutine svc (k + 1) err m) as (t' & ? & _). eauto 10.
  - destruct (task_step_goroutine _ _ _ _ Hf) as [t' ?]. exists t, t'. split_and!; [done| |done].
    by intros ->.
Qed.

(** ** Startup follows the groups *)

Definition names (g : list service) : list string := Name <$> g.

Definition start_groups : list (list service) :=
  match resolveOrder services with Some (Ok groups) => groups | _ => [] end.

(** The startup need not wait for a service any more. *)
Definition settled (m : mgr) (svc : service) : Prop :=
  ReadyNotifier svc = false \/ Name svc ∈ readyCh m \/ task_of (Name svc) m = Some Exited \/
  failure m = true \/ cancelled m = true.

Definition startup (m : mgr) : Prop :=
  match at_phase m with
  | Fresh | Entered => startGroups m = [] /\ launched m = []
  | Starting todo => startGroups m ++ todo = start_groups /\ launched m = names (concat (startGroups m))
  | Launching g rest todo =>
      startGroups m ++ g :: todo = start_groups /\
      exists pre, g = pre ++ rest /\ launched m = names (concat (startGroups m) ++ pre)
  | Readying g rest todo =>
      startGroups m ++ g :: todo = start_groups /\
      (exists pre, g = pre ++ rest /\ Forall (settled m) pre) /\
      launched m = names (concat (startGroups m) ++ g)
  | _ =>
      (exists todo, startGroups m ++ todo = start_groups) /\
      launched m = names (concat (startGroups m))
  end.

Record started (m : mgr) : Prop := {
  started_shape : startup m;
  started_settled : Forall (settled m) (concat (startGroups m));
  started_tasks : forall n, is_Some (tasks m !! n) <-> n ∈ launched m;
}.

(** Signals, exits, the failure and the cancellation are never undone. *)
Record grows (m m' : mgr) : Prop := {
  grows_ready : readyCh m ⊆ readyCh m';
  grows_exited : forall n, task_of n m = Some Exited -> task_of n m' = Some Exited;
  grows_failure : failure m = true -> failure m' = true;
  grows_cancelled : cancelled m = true -> cancelled m' = true;
}.

Lemma settled_grows m m' svc : grows m m' -> settled m svc -> settled m' svc.
Proof. intros [H1 H2 H3 H4]. unfold settled. intuition auto. Qed.

Lemma goroutine_grows name t t' m m' :
  task_of name m = Some t -> t <> Exited -> goroutine_step name t' m m' -> grows m m'.
Proof.
  intros Ht Hne [Hp Htk Hr Hf Hc _ _ _ _]. constructor; [by rewrite Hr| |done|by rewrite Hc].
  intros n Hn. unfold task_of in *. rewrite Htk, lookup_insert. case_decide; [subst; congruence|done].
Qed.

Lemma started_frame m m' :
  at_phase m' = at_phase m -> startGroups m' = startGroups m -> launched m' = launched m ->
  (forall n, is_Some (tasks m' !! n) <-> is_Some (tasks m !! n)) -> grows m m' ->
  started m -> started m'.
Proof.
  intros Hp Hg Hl Ht Hgr [H1 H2 H3]. constructor.
  - unfold startup in *. rewrite Hp, Hg, Hl. destruct (at_phase m); try done.
    destruct H1 as (? & (pre & ? & Hs) & ?). split_and!; [done| |done]. exists pre. split; [done|].
    eapply Forall_impl; [exact Hs|]. intros svc. by apply settled_grows.
  - rewrite Hg. eapply Forall_impl; [exact H2|]. intros svc. by apply settled_grows.
  - intros n. by rewrite Ht, Hl, H3.
Qed.

(** A step of the main goroutine that only moves its phase. *)
Lemma started_goto m p :
  started m -> startup (goto p m) -> started (goto p m).
Proof. intros [H1 H2 H3] Hs. by constructor. Qed.

Lemma started_group g rest todo m :
  at_phase m = Readying g rest todo -> Forall (settled m) g ->
  started m -> started (group_started g todo m).
Proof.
  intros Hp Hall [H1 H2 H3]. unfold startup in H1. rewrite Hp in H1. destruct H1 as (Hg & _ & Hl).
  constructor.
  - unfold startup. cbn. rewrite <- app_assoc, concat_app. cbn. by rewrite app_nil_r.
  - cbn. rewrite concat_app. cbn. rewrite app_nil_r. apply Forall_app. by split.
  - done.
Qed.

Lemma started_wait c g rest todo m m' :
  at_phase m = Readying g rest todo -> waitGroupReady c g rest todo m = Some m' ->
  started m -> started m'.
Proof.
  intros Hp Hw Hs. pose proof Hs as [H1 _ _]. unfold startup in H1. rewrite Hp in H1.
  destruct H1 as (Hg & (pre & Hpre & Hset) & Hl).
  assert (Hnext : forall svc rest', rest = svc :: rest' -> settled m svc ->
                  started (goto (Readying g rest' todo) m)).
  { intros svc rest' Hrest Hsv. apply started_goto; [done|]. unfold startup. cbn. split_and!; [done| |done].
    exists (pre ++ [svc]). rewrite <- app_assoc. cbn. rewrite <- Hrest. split; [done|].
    apply Forall_app. split; [exact Hset|by constructor]. }
  assert (Hquit : failure m = true \/ cancelled m = true -> started (group_started g todo m)).
  { intros Hq. eapply started_group; [done| |done]. apply Forall_forall. intros svc _. unfold settled. tauto. }
  unfold waitGroupReady in Hw. destruct rest as [|svc rest'].
  - simplify_eq. eapply started_group; [done| |done]. by rewrite app_nil_r.
  - destruct (ReadyNotifier svc) eqn:Hrn; cbn [negb] in Hw; [|simplify_eq; eapply Hnext; [done|by left]].
    destruct c; case_match; simplify_eq; try (by apply Hquit; auto);
      (eapply Hnext; [done|]); unfold settled.
    + right; left. by eapply bool_decide_eq_true_1.
    + do 2 right; left. by eapply bool_decide_eq_true_1.
Qed.

Lemma start_groups_nodup : NoDup (names (concat start_groups)).
Proof.
  unfold start_groups. destruct (resolveOrder_cases services Hkeyed) as [[_ ->]|(_ & groups & -> & Hs)];
    [constructor|]. unfold names. rewrite (start_order_nodup _ _ Hkeyed Hs). apply NoDup_fst_map_to_list.
Qed.

Lemma start_groups_members svc : svc ∈ concat start_groups -> services !! Name svc = Some svc.
Proof.
  unfold start_groups. destruct (resolveOrder_cases services Hkeyed) as [[_ ->]|(_ & groups & -> & Hs)];
    [by intros ?%elem_of_nil|]. destruct Hs as (Hp & _). rewrite Hp.
  intros ([n s] & -> & Hin%elem_of_map_to_list)%list_elem_of_fmap. cbn. by rewrite (Hkeyed _ _ Hin).
Qed.

Lemma launch_fresh svc g rest todo m :
  at_phase m = Launching g (svc :: rest) todo -> started m ->
  Name svc ∉ launched m /\ services !! Name svc = Some svc.
Proof.
  intros Hp [H1 H2 H3]. unfold startup in H1. rewrite Hp in H1. destruct H1 as (Hg & pre & Hpre & Hl). split.
  - pose proof start_groups_nodup as Hnd. rewrite <- Hg, concat_app in Hnd. cbn [concat] in Hnd.
    unfold names in *. rewrite Hpre, <- app_assoc, app_assoc in Hnd. rewrite Hl, !fmap_app in *.
    cbn [app] in Hnd. rewrite fmap_cons in Hnd. apply NoDup_app in Hnd as (_ & Hdj & _).
    intros Hin. apply (Hdj _ Hin). left.
  - apply start_groups_members. rewrite <- Hg, Hpre, concat_app. cbn [concat].
    rewrite !elem_of_app, elem_of_cons. tauto.
Qed.

Lemma started_launch svc g rest todo m :
  at_phase m = Launching g (svc :: rest) todo -> started m -> started (launch svc g rest todo m).
Proof.
  intros Hp Hs. destruct (launch_fresh _ _ _ _ _ Hp Hs) as [Hfresh _].
  destruct Hs as [H1 H2 H3]. unfold startup in H1. rewrite Hp in H1. destruct H1 as (Hg & pre & Hpre & Hl).
  assert (Hgr : grows m (launch svc g rest todo m)).
  { constructor; try done. intros n Hn. unfold task_of, launch in *. cbn. rewrite lookup_insert_ne; [done|].
    intros <-. apply Hfresh, H3. by eexists. }
  constructor.
  - unfold startup, launch. cbn. split; [done|]. exists (pre ++ [svc]). rewrite <- app_assoc. split; [done|].
    rewrite Hl. unfold names. by rewrite !fmap_app, <- app_assoc.
  - cbn. eapply Forall_impl; [exact H2|]. intros s. by apply settled_grows.
  - intros n. unfold launch. cbn. rewrite lookup_insert, elem_of_app, list_elem_of_singleton, <- H3.
    case_decide; [subst; naive_solver|]. split; [by left|]. by intros [?|?].
Qed.

(** Split a step by the action and the branches its guards take. *)
Ltac fire_cases H a :=
  destruct a; cbn [fire] in H;
  unfold begin_stop, stop_member, next_stop, resolve, next_group, waitGroupReady in H;
  repeat case_match; simplify_eq; try done.

Lemma fire_flags a m m' :
  fire a m = Some m' ->
  readyCh m ⊆ readyCh m' /\ (failure m = true -> failure m' = true) /\
  (cancelled m = true -> cancelled m' = true).
Proof.
  intros H. destruct (of_goroutine a) as [name|] eqn:Ha.
  - destruct (goroutine_action _ _ _ _ Ha H) as (t & t' & _ & _ & [_ _ Hr Hf Hc _ _ _ _]).
    rewrite Hr, Hc. done.
  - fire_cases H a. cbn. split; [set_solver|done].
Qed.

Lemma started_step a m m' : started m -> fire a m = Some m' -> started m'.
Proof.
  intros Hs H. destruct (of_goroutine a) as [name|] eqn:Ha.
  { destruct (goroutine_action _ _ _ _ Ha H) as (t & t' & Ht & Hne & Hg).
    eapply (started_frame m); [apply Hg..| | |done].
    - intros n. rewrite (gs_tasks _ _ _ _ Hg), lookup_insert. case_decide; [|done]. subst.
      unfold task_of in Ht. rewrite Ht. done.
    - by eapply goroutine_grows. }
  pose proof (fire_flags _ _ _ H) as (Fr & Ff & Fc).
  assert (Hquiet : at_phase m' = at_phase m -> startGroups m' = startGroups m ->
            launched m' = launched m -> tasks m' = tasks m -> started m').
  { intros Hp Hg Hl Ht. eapply (started_frame m); [done..|by rewrite Ht| |done].
    constructor; [done| |done..]. intros n. unfold task_of. by rewrite Ht. }
  destruct a; try done; cbn [fire] in H.
  all: try (unfold begin_stop, stop_member, next_stop in H; repeat case_match; simplify_eq; by apply Hquiet).
  all: pose proof Hs as [Hsh _ _]; unfold startup in Hsh;
    destruct (at_phase m) as [| |todo|g rest todo|g rest todo| |ret|ret|ret|ret] eqn:Hp; try done.
  - simplify_eq. by apply started_goto.
  - simplify_eq. unfold resolve. destruct Hsh as [Hg0 Hl0].
    assert (Hdef : forall ret, startup (goto (DeferStop ret) m))
      by (intros ret; unfold startup; cbn; rewrite Hg0, Hl0; split; [by exists start_groups|done]).
    case_match; [by apply started_goto|].
    destruct (resolveOrder services) as [[groups|e]|] eqn:Hro; apply started_goto; try done.
    unfold startup. cbn. rewrite Hg0, Hl0. unfold start_groups. by rewrite Hro.
  - simplify_eq. unfold next_group. destruct Hsh as [Hg Hl].
    destruct todo as [|g todo]; [|destruct (failure m)]; apply started_goto; try done; unfold startup; cbn.
    + split; [by exists []|done].
    + split; [by exists (g :: todo)|done].
    + split; [done|]. exists []. cbn. by rewrite app_nil_r.
  - destruct rest as [|svc rest].
    + case_match; [|done]. simplify_eq. apply started_goto; [done|]. unfold startup. cbn.
      destruct Hsh as (? & pre & -> & ?). rewrite app_nil_r in *. split_and!; [done| |done]. by exists [].
    + simplify_eq. by apply started_launch.
  - by eapply started_wait.
  - case_match; [|done]. simplify_eq. by apply started_goto.
  - case_match; [|done]. simplify_eq.
    eapply (started_frame (goto (DeferStop (RetFailed o)) m)); try done. by apply started_goto.
  - simplify_eq. eapply (started_frame (goto (StopWait ret) m)); try done. by apply started_goto.
  - case_match; try done. simplify_eq. by apply started_goto.
  - case_match; try done. simplify_eq. by apply started_goto.
Qed.

Lemma reachable_started m : reachable m -> started m.
Proof.
  apply (reachable_inv started); [|intros ? a ? _; apply started_step].
  constructor; [done|constructor|]. cbn. intros n. rewrite lookup_empty, elem_of_nil. split; [by intros [? ?]|done].
Qed.

(** ** Dependencies start first *)

Lemma started_prefix m :
  started m -> launched m <> [] -> exists todo, startGroups m ++ todo = start_groups.
Proof.
  intros [Hs _ _] Hne. unfold startup in Hs. destruct (at_phase m); naive_solver.
Qed.

Lemma launched_index m n :
  started m -> n ∈ launched m -> exists i, i <= length (startGroups m) /\ in_group start_groups i n.
Proof.
  intros [Hs _ _] Hn.
  assert (Hold : forall todo, startGroups m ++ todo = start_groups -> n ∈ names (concat (startGroups m)) ->
                 exists i, i <= length (startGroups m) /\ in_group start_groups i n).
  { intros todo Hg (i & g & Hi & Hin)%in_group_names. exists i.
    pose proof (lookup_lt_Some _ _ _ Hi). split; [by apply Nat.lt_le_incl|]. exists g. rewrite <- Hg, lookup_app_l; done. }
  assert (Hcur : forall g todo, startGroups m ++ g :: todo = start_groups -> n ∈ names g ->
                 exists i, i <= length (startGroups m) /\ in_group start_groups i n).
  { intros g todo Hg Hin. exists (length (startGroups m)). split; [done|]. exists g.
    rewrite <- Hg. split; [by apply list_lookup_middle|done]. }
  unfold startup in Hs. destruct (at_phase m) as [| |todo|g rest todo|g rest todo| |ret|ret|ret|ret].
  - destruct Hs as [_ Hl]. rewrite Hl in Hn. by apply elem_of_nil in Hn.
  - destruct Hs as [_ Hl]. rewrite Hl in Hn. by apply elem_of_nil in Hn.
  - destruct Hs as [Hg Hl]. rewrite Hl in Hn. eauto.
  - destruct Hs as (Hg & pre & Hpre & Hl). rewrite Hl in Hn. unfold names in Hn.
    rewrite fmap_app, elem_of_app in Hn. destruct Hn as [Hn|Hn]; [by eapply Hold|].
    eapply Hcur; [done|]. rewrite Hpre. unfold names. rewrite fmap_app. by apply elem_of_app; left.
  - destruct Hs as (Hg & _ & Hl). rewrite Hl in Hn. unfold names in Hn.
    rewrite fmap_app, elem_of_app in Hn. destruct Hn as [Hn|Hn]; [by eapply Hold|by eapply Hcur].
  - destruct Hs as ([todo Hg] & Hl). rewrite Hl in Hn. eauto.
  - destruct Hs as ([todo Hg] & Hl). rewrite Hl in Hn. eauto.
  - destruct Hs as ([todo Hg] & Hl). rewrite Hl in Hn. eauto.
  - destruct Hs as ([todo Hg] & Hl). rewrite Hl in Hn. eauto.
  - destruct Hs as ([todo Hg] & Hl). rewrite Hl in Hn. eauto.
Qed.

Lemma started_launched m n :
  started m -> n ∈ names (concat (startGroups m)) -> n ∈ launched m.
Proof.
  intros [Hs _ _] Hn. unfold startup in Hs. unfold names in *.
  assert (startGroups m = [] -> False) as Hne by (intros He; rewrite He in Hn; by apply elem_of_nil in Hn).
  destruct (at_phase m); destruct Hs as [Hg Hl]; try done; try (by rewrite Hl).
  - destruct Hl as (pre & _ & ->). rewrite fmap_app. by apply elem_of_app; left.
  - destruct Hl as (_ & ->). rewrite fmap_app. by apply elem_of_app; left.
Qed.

Lemma start_groups_order : start_groups <> [] -> start_order services start_groups.
Proof.
  unfold start_groups. by destruct (resolveOrder_cases services Hkeyed) as [[_ ->]|(_ & groups & -> & Hs)].
Qed.

Lemma dependency_group m name dep :
  started m -> name ∈ launched m -> depends services name dep ->
  exists svc, svc ∈ concat (startGroups m) /\ Name svc = dep.
Proof.
  intros Hs Hn Hd. destruct (launched_index m name Hs Hn) as (i & Hi & Hg).
  destruct (started_prefix m Hs) as [todo Hpre]; [by intros He; rewrite He in Hn; apply elem_of_nil in Hn|].
  destruct (start_groups_order) as (_ & Hbef & _); [intros He; rewrite He in Hg; by destruct Hg as (? & ? & _)|].
  destruct (Hbef i name dep Hg Hd) as (j & Hj & g & Hjg & Hin).
  rewrite <- Hpre, lookup_app_l in Hjg by (eapply Nat.lt_le_trans; [exact Hj|exact Hi]).
  apply list_elem_of_fmap in Hin as (svc & -> & Hin). exists svc. split; [|done].
  clear -Hjg Hin. revert j Hjg. induction (startGroups m) as [|g0 gs IH]; intros [|j] Hjg; try done; cbn in *.
  - simplify_eq. by apply elem_of_app; left.
  - apply elem_of_app. right. by eapply IH.
Qed.

(** C22. A service is started only after all of its in-process dependencies: in
    every reachable state, a dependency of a launched service has itself been
    launched, and it has signalled ready, has nothing to signal, or has exited
    for good, unless the startup was released by a failure or a cancellation. *)
Theorem dependencies_first m name dep svc :
  reachable m -> name ∈ launched m -> depends services name dep -> services !! dep = Some svc ->
  dep ∈ launched m /\ settled m svc.
Proof.
  intros Hr%reachable_started Hn Hd Hsvc.
  destruct (dependency_group m name dep Hr Hn Hd) as (s & Hin & <-).
  assert (s = svc) as ->.
  { destruct (started_prefix m Hr) as [todo Hpre]; [by intros He; rewrite He in Hn; apply elem_of_nil in Hn|].
    assert (services !! Name s = Some s) as Hs'; [|congruence].
    apply start_groups_members. rewrite <- Hpre, concat_app. by apply elem_of_app; left. }
  split; [apply started_launched; [done|by apply list_elem_of_fmap_2]|].
  pose proof (started_settled m Hr) as Hall. rewrite Forall_forall in Hall. by apply Hall.
Qed.

(** ** Retries *)

(** How many attempts a service has begun in each state of its goroutine. *)
Definition budget (svc : service) (t : option task) (n : Z) : Prop :=
  match t with
  | None | Some Pending => n = 0%Z
  | Some (Attempt k) => n = (k + 1)%Z /\ (0 <= k < iterations svc)%Z
  | Some (Backoff k err) => n = (k + 1)%Z /\ (0 <= k < maxRetries svc)%Z /\ (k < iterations svc)%Z /\ err <> None
  | Some (Report err) => n = iterations svc /\ (err = None <-> iterations svc = 0%Z)
  | Some Trigger => n = iterations svc
  | Some Exited => (n <= iterations svc)%Z
  end.

Definition int64_retries (svc : service) : Prop := (min_int64 <= maxRetries svc <= max_int64)%Z.

Lemma iterations_int64 svc :
  int64_retries svc ->
  iterations svc = if (maxRetries svc =? max_int64)%Z then 0%Z else Z.max 0 (maxRetries svc + 1).
Proof.
  unfold int64_retries, iterations. intros Hr. destruct (Z.eqb_spec (maxRetries svc) max_int64) as [He|Hne].
  - rewrite He. reflexivity.
  - rewrite wrap64_id; [done|]. unfold min_int64, max_int64 in *. lia.
Qed.

Definition budgets (m : mgr) : Prop :=
  forall name svc, services !! name = Some svc -> int64_retries svc ->
    budget svc (task_of name m) (attempts_of name m).

Lemma begin_attempt_attempts name k m n :
  attempts_of n (begin_attempt name k m) = (attempts_of n m + if decide (name = n) then 1 else 0)%Z.
Proof.
  unfold attempts_of, begin_attempt. cbn. rewrite lookup_insert. case_decide; cbn; [by subst|lia].
Qed.

Lemma loop_head_budget svc k err m :
  (0 <= k)%Z -> attempts_of (Name svc) m = k -> (k <= iterations svc)%Z ->
  (err = None <-> k = 0%Z) ->
  budget svc (task_of (Name svc) (loop_head svc k err m)) (attempts_of (Name svc) (loop_head svc k err m)) /\
  forall n, n <> Name svc -> task_of n (loop_head svc k err m) = task_of n m /\
                             attempts_of n (loop_head svc k err m) = attempts_of n m.
Proof.
  intros Hk Ha Hle Herr. unfold loop_head. destruct (Z.ltb_spec k (iterations svc)).
  - rewrite begin_attempt_attempts, decide_True by done. unfold task_of. cbn. rewrite lookup_insert_eq.
    split; [cbn; lia|]. intros n Hn. rewrite begin_attempt_attempts, decide_False, lookup_insert_ne by done.
    split; [done|lia].
  - unfold task_of. cbn. rewrite lookup_insert_eq. split; [cbn|].
    + change (attempts_of (Name svc) (set_task (Name svc) (Report err) m)) with (attempts_of (Name svc) m).
      assert (k = iterations svc) as Hki by lia. rewrite Ha, <- Hki. by split.
    + intros n Hn. by rewrite lookup_insert_ne.
Qed.

(** A goroutine that only moves to the task [t']. *)
Lemma budgets_move m m' name svc t' :
  budgets m -> services !! name = Some svc ->
  tasks m' = <[name := t']> (tasks m) -> attempts m' = attempts m ->
  (int64_retries svc -> budget svc (Some t') (attempts_of name m)) -> budgets m'.
Proof.
  intros Hb Hs Ht Ha Hnew n s Hn Hi. unfold task_of, attempts_of in *. rewrite Ht, Ha, lookup_insert.
  case_decide; [subst; simplify_eq; by apply Hnew|by apply Hb].
Qed.

Lemma budgets_loop m svc k err :
  budgets m -> services !! Name svc = Some svc ->
  (int64_retries svc -> (0 <= k)%Z /\ attempts_of (Name svc) m = k /\ (k <= iterations svc)%Z /\ (err = None <-> k = 0%Z)) ->
  budgets (loop_head svc k err m).
Proof.
  intros Hb Hs Hpre n s Hn Hi. destruct (decide (n = Name svc)) as [->|Hne].
  - simplify_eq. destruct (Hpre Hi) as (? & ? & ? & ?). by apply loop_head_budget.
  - assert (task_of n (loop_head svc k err m) = task_of n m /\
            attempts_of n (loop_head svc k err m) = attempts_of n m) as [-> ->]; [|by apply Hb].
    unfold loop_head. case_match; unfold task_of, attempts_of; cbn; rewrite !lookup_insert_ne by done; done.
Qed.

Lemma budgets_step a m m' : reachable m -> budgets m -> fire a m = Some m' -> budgets m'.
Proof.
  intros Hr Hb H. destruct (of_goroutine a) as [name|] eqn:Ha.
  - destruct a; simplify_eq/=; apply with_task_inv in H as (svc & t & Hs & Ht & Hf);
      pose proof (Hkeyed _ _ Hs) as <-; pose proof (Hb _ _ Hs) as Hbs; rewrite Ht in Hbs.
    + destruct t as [|k| | | |]; simplify_eq. unfold after_attempt.
      destruct (safeRun o) as [e|];
        [|eapply (budgets_move m); [done..|]; intros Hi; specialize (Hbs Hi); cbn in *; lia].
      destruct (cancelled m); [eapply (budgets_move m); [done..|]; intros Hi; specialize (Hbs Hi); cbn in *; lia|].
      assert (Hrep : (maxRetries svc <= k)%Z -> budgets (set_task (Name svc) (Report (Some e)) m)).
      { intros Hk. eapply (budgets_move m); [done..|]. intros Hi. specialize (Hbs Hi).
        pose proof (iterations_int64 svc Hi) as Hit.
        cbn in *. split; [|split; [done|]]; case_match; lia. }
      destruct (Z.leb_spec (maxRetries svc) k) as [Hk|Hk]; [by apply Hrep|].
      destruct (Retries svc) as [[r delay]|] eqn:Hret.
      * destruct (delay <=? 0)%Z.
        -- apply budgets_loop; [done..|]. intros Hi. specialize (Hbs Hi). cbn in Hbs. split_and!; try lia.
           split; [done|lia].
        -- eapply (budgets_move m); [done..|]. intros Hi. specialize (Hbs Hi). cbn in *. split_and!; try lia; done.
      * eapply (budgets_move m); [done..|]. intros Hi. specialize (Hbs Hi). cbn in Hbs.
        unfold maxRetries in Hk. rewrite Hret in Hk. lia.
    + destruct t; simplify_eq. apply budgets_loop; [done..|]. intros Hi. specialize (Hbs Hi). cbn in Hbs.
      split_and!; try lia. split; [naive_solver|lia].
    + destruct t; simplify_eq/=.
      * apply budgets_loop; [done..|]. intros Hi. specialize (Hbs Hi). cbn in Hbs.
        split_and!; try lia; [unfold iterations; lia|done].
      * case_match; simplify_eq. eapply (budgets_move m); [done..|]. intros Hi. specialize (Hbs Hi). cbn in *. lia.
      * unfold handleServiceError.
        assert (int64_retries svc -> attempts_of (Name svc) m = iterations svc) as Hn by (intros Hi; by apply Hbs).
        repeat case_match; (eapply (budgets_move m); [done..|]); intros Hi; specialize (Hn Hi); cbn; lia.
      * eapply (budgets_move m); [done..|]. intros Hi. specialize (Hbs Hi). cbn in *. lia.
  - assert (Hsame : tasks m' = tasks m -> attempts m' = attempts m -> budgets m').
    { intros Ht Hat n s Hn Hi. unfold task_of, attempts_of. rewrite Ht, Hat. by apply Hb. }
    destruct a; try done; cbn [fire] in H;
      unfold begin_stop, stop_member, next_stop, resolve, next_group, waitGroupReady in H;
      repeat case_match; simplify_eq; try (by apply Hsame).
    match goal with Hp : at_phase m = Launching _ (?svc :: _) _ |- _ =>
      destruct (launch_fresh _ _ _ _ _ Hp (reachable_started _ Hr)) as [Hfresh Hs];
      eapply (budgets_move m _ (Name svc)); [done..|]; intros Hi; specialize (Hb _ _ Hs Hi) end.
    rewrite <- (started_tasks _ (reachable_started _ Hr)) in Hfresh.
    unfold task_of in Hb. by rewrite (proj2 (eq_None_not_Some _) Hfresh) in Hb.
Qed.

Lemma reachable_budgets m : reachable m -> budgets m.
Proof.
  apply (reachable_inv budgets); [|intros ? a ?; apply budgets_step].
  intros n s _ _. done.
Qed.

(** Retries are bounded: in every reachable state a service has begun at
    most [maxRetries + 1] attempts (in 64-bit arithmetic), and its failure is
    reported exactly when all of them were used up. *)
Theorem attempts_bounded m name svc :
  reachable m -> services !! name = Some svc -> int64_retries svc ->
  (attempts_of name m <= iterations svc)%Z /\
  (forall err, task_of name m = Some (Report err) -> attempts_of name m = iterations svc).
Proof.
  intros Hr Hs Hi. pose proof (reachable_budgets m Hr name svc Hs Hi) as Hb.
  assert (0 <= iterations svc)%Z by (unfold iterations; lia).
  split; [|intros err Ht; by rewrite Ht in Hb; apply Hb].
  unfold budget in Hb. repeat case_match; lia.
Qed.

(** ** The first failure *)

Definition returning (p : phase) : option run_result :=
  match p with
  | DeferStop ret | StopWait ret | Joining ret | Returned ret => Some ret
  | _ => None
  end.

(** [Run] was in its final [select] with its context ended before it came to
    [m]: by then only the parent context or a [Stop] can have ended it. *)
Definition interrupted (m : mgr) : Prop :=
  exists m0, reachable m0 /\ at_phase m0 = Serving /\ cancelled m0 = true /\ rtc mstep m0 m.

(** What a return value says about the run. *)
Definition explains (m : mgr) (ret : run_result) : Prop :=
  match ret with
  | RetNil => interrupted m
  | RetNoEnabledServices => services = ∅
  | RetOrder e => cyclic services
  | RetFailed e => head (reports m) = Some e
  end.

Record reported (m : mgr) : Prop := {
  rep_failure : failure m = true -> reports m <> [];
  rep_trigger : forall n, task_of n m = Some Trigger -> reports m <> [];
  rep_channel : returning (at_phase m) = None -> errCh m = head (reports m);
  rep_return : forall ret, returning (at_phase m) = Some ret -> explains m ret;
}.

Lemma head_snoc {A} (l : list A) x : head (l ++ [x]) = match head l with None => Some x | Some y => Some y end.
Proof. by destruct l. Qed.

Lemma interrupted_step m m' : interrupted m -> mstep m m' -> interrupted m'.
Proof. intros (m0 & Hr & Hp & Hc & Hs) Hm. exists m0. split_and!; [done..|]. by eapply rtc_r. Qed.

(** A step that reports nothing and sets no signal. *)
Lemma reported_frame m m' :
  reported m -> reports m' = reports m -> failure m' = failure m ->
  (forall n, task_of n m' = Some Trigger -> task_of n m = Some Trigger) ->
  (returning (at_phase m') = None -> returning (at_phase m) = None /\ errCh m' = errCh m) ->
  (forall ret, returning (at_phase m') = Some ret -> returning (at_phase m) = Some ret \/ explains m' ret) ->
  mstep m m' -> reported m'.
Proof.
  intros [H1 H2 H3 H4] Hr Hf Ht Hc Hret Hm. constructor.
  - by rewrite Hf, Hr.
  - intros n Hn. rewrite Hr. by eapply H2, Ht.
  - intros Hn. destruct (Hc Hn) as [Hn' ->]. rewrite Hr. by apply H3.
  - intros ret Hn. destruct (Hret ret Hn) as [Ho|]; [|done]. specialize (H4 ret Ho).
    destruct ret; cbn in *; try done; [by eapply interrupted_step|by rewrite Hr].
Qed.

Lemma reported_task name t' m m' :
  reported m -> goroutine_step name t' m m' -> t' <> Trigger -> reports m' = reports m ->
  failure m' = failure m -> errCh m' = errCh m -> mstep m m' -> reported m'.
Proof.
  intros Hr Hg Ht Hrep Hf He Hm. eapply (reported_frame m); [done..| | | |done].
  - intros n. unfold task_of. rewrite (gs_tasks _ _ _ _ Hg), lookup_insert. case_decide; [|done].
    by intros [= ->].
  - intros Hn. by rewrite (gs_phase _ _ _ _ Hg) in Hn.
  - intros ret Hn. left. by rewrite (gs_phase _ _ _ _ Hg) in Hn.
Qed.

Lemma reported_loop svc k err m :
  reported m -> mstep m (loop_head svc k err m) -> reported (loop_head svc k err m).
Proof.
  intros Hr. unfold loop_head.
  case_match; intros Hm; eapply (reported_task (Name svc)); [done|by constructor|done..].
Qed.

Lemma reported_handle svc err m :
  reported m -> mstep m (handleServiceError svc err m) -> reported (handleServiceError svc err m).
Proof.
  intros Hr. unfold handleServiceError.
  destruct (IsAllowedFailure svc) as [[]|]; intros Hm;
    [eapply (reported_task (Name svc)); [done|by constructor|done..]|..];
    destruct Hr as [H1 H2 H3 H4]; (constructor; cbn; [intros _ He; by apply app_nil in He as [_ ?]|intros n _ He; by apply app_nil in He as [_ ?]| |]).
  1, 3: intros Hn; rewrite (H3 Hn), head_snoc; by destruct (head (reports m)).
  all: intros ret Hn; specialize (H4 ret Hn); destruct ret; try done; cbn in *;
    [by eapply interrupted_step|rewrite head_snoc, H4; done].
Qed.

Lemma reported_step a m m' : reachable m -> reported m -> fire a m = Some m' -> reported m'.
Proof.
  intros Hre Hr H. assert (Hm : mstep m m') by (by exists a). destruct (of_goroutine a) as [name|] eqn:Ha.
  - destruct a; simplify_eq/=; apply with_task_inv in H as (svc & t & Hs & Ht & Hf).
    + destruct t; simplify_eq. unfold after_attempt in *.
      repeat case_match; try (by apply reported_loop);
        (eapply (reported_task (Name svc)); [done|by constructor|done..]).
    + destruct t; simplify_eq. by apply reported_loop.
    + destruct t; simplify_eq/=.
      * by apply reported_loop.
      * case_match; simplify_eq. eapply (reported_task (Name svc)); [done|by constructor|done..].
      * by apply reported_handle.
      * pose proof (rep_trigger _ Hr _ Ht) as Hne. destruct Hr as [H1 H2 H3 H4].
        constructor; try done. intros ret Hn. specialize (H4 ret Hn).
        destruct ret; try done. by eapply interrupted_step.
  - destruct a; try done; cbn [fire] in H;
      unfold begin_stop, stop_member, next_stop, resolve, next_group, waitGroupReady, launch in H;
      repeat case_match; simplify_eq;
      try (eapply (reported_frame m); cbn; try done; by intros; simplify_eq; auto).
    all: match goal with Hp : at_phase ?x = _ |- _ =>
      eapply (reported_frame x); [done|done|done|try done|rewrite Hp; cbn; done|rewrite Hp; cbn; intros ret' Hret; simplify_eq; try (by left)|done] end.
    all: try (right; cbn; done).
    + right. cbn. apply map_size_empty_inv. by apply Nat.eqb_eq.
    + right. cbn. destruct e. by destruct (resolveOrder_cases services Hkeyed) as [[? _]|(_ & groups & Hro & _)]; [|congruence].
    + destruct (resolveOrder_cases services Hkeyed) as [[_ ?]|(_ & groups & ? & _)]; congruence.
    + intros n. unfold task_of. cbn. rewrite lookup_insert. by case_decide.
    + right. exists m. split_and!; [done..|]. by apply rtc_once.
    + right. cbn. rewrite <- (rep_channel _ Hr); [done|]. by match goal with Hp : at_phase _ = _ |- _ => rewrite Hp end.
Qed.

Lemma reachable_reported m : reachable m -> reported m.
Proof.
  apply (reachable_inv reported); [|intros ? a ?; apply reported_step].
  by constructor.
Qed.

(** At the return of [Run] its goroutines are gone. *)
Definition joined (m : mgr) : Prop :=
  forall ret, at_phase m = Returned ret -> all_exited m = true.

Lemma all_exited_iff m : all_exited m = true <-> forall n t, task_of n m = Some t -> t = Exited.
Proof.
  unfold all_exited, task_of. rewrite forallb_forall. split.
  - intros H n t Hn. apply elem_of_map_to_list, list_elem_of_In in Hn. specialize (H _ Hn).
    by apply bool_decide_eq_true_1 in H.
  - intros H [n t] Hn. apply list_elem_of_In, elem_of_map_to_list in Hn. cbn.
    apply bool_decide_eq_true_2. by eapply H.
Qed.

Lemma joined_step a m m' : joined m -> fire a m = Some m' -> joined m'.
Proof.
  intros Hj H. destruct (of_goroutine a) as [name|] eqn:Ha.
  - destruct (goroutine_action _ _ _ _ Ha H) as (t & t' & Ht & Hne & Hg). intros ret Hp.
    rewrite (gs_phase _ _ _ _ Hg) in Hp. specialize (Hj ret Hp). rewrite all_exited_iff in Hj.
    by destruct (Hne (Hj _ _ Ht)).
  - fire_cases H a; intros ret' Hp; cbn in Hp; try congruence; try (by apply (Hj ret'));
      unfold stop_member, next_stop in *; cbn in *; try (by apply (Hj ret')); simplify_eq.
    done.
Qed.

Lemma reachable_joined m : reachable m -> joined m.
Proof. apply (reachable_inv joined); [by intros ? ?|intros ? a ? _; apply joined_step]. Qed.

(** The deferred [Stop] has cancelled the context it passes on. *)
Definition stops_cancelled (m : mgr) : Prop :=
  forall ret, at_phase m = StopWait ret -> cancelled m = true.

Lemma stops_cancelled_step a m m' : stops_cancelled m -> fire a m = Some m' -> stops_cancelled m'.
Proof.
  intros Hj H ret Hp. destruct (fire_flags _ _ _ H) as (_ & _ & Hmono).
  destruct (of_goroutine a) as [name|] eqn:Ha.
  - destruct (goroutine_action _ _ _ _ Ha H) as (t & t' & _ & _ & Hg).
    rewrite (gs_phase _ _ _ _ Hg) in Hp. eauto.
  - fire_cases H a; cbn in Hp; try congruence; try (by apply Hmono, (Hj ret));
      unfold stop_member, next_stop in *; cbn in *; try (by apply (Hj ret)); simplify_eq.
Qed.

Lemma reachable_stops_cancelled m : reachable m -> stops_cancelled m.
Proof. apply (reachable_inv stops_cancelled); [by intros ? ?|intros ? a ? _; apply stops_cancelled_step]. Qed.



(** ** Stopping *)

(** A history in which nobody calls [Stop] before the startup began. *)
Definition before_startup (p : phase) : bool :=
  match p with Fresh | Entered => true | _ => false end.
Definition ostep (m m' : mgr) : Prop :=
  exists a, fire a m = Some m' /\ (a = AStopCall -> before_startup (at_phase m) = false).
Definition orderly (m : mgr) : Prop := rtc ostep init m.

Lemma orderly_reachable m : orderly m -> reachable m.
Proof. apply rtc_subrel. intros x y (a & Hf & _). by exists a. Qed.

Lemma orderly_inv (I : mgr -> Prop) :
  I init ->
  (forall m a m', reachable m -> I m -> (a = AStopCall -> before_startup (at_phase m) = false) ->
     fire a m = Some m' -> I m') ->
  forall m, orderly m -> I m.
Proof.
  intros H0 Hstep.
  assert (forall m0 m, rtc ostep m0 m -> orderly m0 -> I m0 -> I m) as Hind.
  { induction 1 as [|m0 m1 m (a & Hf & Ho) _ IH]; intros Hr HI; [done|].
    apply IH; [eapply rtc_r; [exact Hr|by exists a]|]. eapply Hstep; eauto using orderly_reachable. }
  intros m Hr. eapply Hind; [exact Hr|apply rtc_refl|done].
Qed.

Definition starting (p : phase) : bool := before_startup p || lock_held p.

(** Where the stop has got to: [gone] are the groups already begun. *)
Definition stopping (m : mgr) : Prop :=
  match stop m with
  | NotStopped => stopped m = []
  | StoppingGroups todo current =>
      starting (at_phase m) = false /\
      exists gone, rev (startGroups m) = gone ++ todo /\
        stopped m ++ names current ≡ₚ names (concat gone) /\
        (current = [] \/ exists gone' g, gone = gone' ++ [g] /\ current ⊆ g)
  | StopDone =>
      starting (at_phase m) = false /\ stopped m ≡ₚ names (concat (startGroups m))
  end.

(** A service is stopped only after every launched service that depends on it. *)
Definition dependents_first (m : mgr) : Prop :=
  forall l1 dep l2 name, stopped m = l1 ++ dep :: l2 -> name ∈ launched m ->
    depends services name dep -> name ∈ l1.

Definition stop_finished (m : mgr) : Prop :=
  match at_phase m with Joining _ | Returned _ => stop m = StopDone | _ => True end.

Record stop_inv (m : mgr) : Prop := {
  stop_progress : stopping m;
  stop_order : dependents_first m;
  stop_end : stop_finished m;
}.

Lemma rev_concat_names (gs : list (list service)) : names (concat (rev gs)) ≡ₚ names (concat gs).
Proof.
  induction gs as [|g gs IH]; [done|]. cbn [rev concat]. unfold names in *.
  rewrite concat_app, !fmap_app, IH. cbn. rewrite app_nil_r. apply Permutation_app_comm.
Qed.

Lemma started_names_nodup m : started m -> launched m <> [] -> NoDup (names (concat (startGroups m))).
Proof.
  intros Hs Hne. destruct (started_prefix m Hs Hne) as [todo Hg]. pose proof start_groups_nodup as Hnd.
  rewrite <- Hg, concat_app in Hnd. unfold names in *. rewrite fmap_app in Hnd. by apply NoDup_app in Hnd as (? & _).
Qed.

(** A member of the group being stopped: its launched dependents are in the
    groups already stopped. *)
Lemma dependents_stopped m gone g todo name dep :
  started m -> rev (startGroups m) = (gone ++ [g]) ++ todo -> dep ∈ names g ->
  name ∈ launched m -> name ∈ names (concat (startGroups m)) -> depends services name dep ->
  name ∈ names (concat gone).
Proof.
  intros Hs Hrev Hdep Hn Hin Hd.
  assert (Hsg : startGroups m = rev todo ++ g :: rev gone).
  { rewrite <- (rev_involutive (startGroups m)), Hrev, !rev_app_distr. done. }
  destruct (started_prefix m Hs) as [rest Hpre]; [by intros He; rewrite He in Hn; apply elem_of_nil in Hn|].
  destruct start_groups_order as (_ & Hbef & _).
  { rewrite <- Hpre, Hsg. intros He. by apply app_nil in He as [He _]; apply app_nil in He as [_ ?]. }
  assert (Hd_at : in_group start_groups (length (rev todo)) dep).
  { exists g. rewrite <- Hpre, Hsg, <- app_assoc. split; [by apply list_lookup_middle|done]. }
  apply in_group_names in Hin as (i & gi & Hi & Hni).
  assert (Hni' : in_group start_groups i name).
  { exists gi. rewrite <- Hpre, lookup_app_l; [done|by eapply lookup_lt_Some]. }
  destruct (Hbef i name dep Hni' Hd) as (j & Hj & Hdj).
  pose proof (in_group_unique _ _ _ _ start_groups_nodup Hd_at Hdj) as <-.
  rewrite Hsg in Hi. rewrite lookup_app_r in Hi by (by apply Nat.lt_le_incl).
  match type of Hi with _ !! ?x = _ => destruct x as [|k] eqn:Hk end.
  - apply Nat.sub_0_le in Hk. destruct (proj1 (Nat.lt_nge _ _) Hj Hk).
  - rewrite <- rev_concat_names. apply in_group_names. exists k, gi. by split.
Qed.

Lemma late_launched m :
  started m -> starting (at_phase m) = false ->
  launched m = names (concat (startGroups m)) /\ NoDup (names (concat (startGroups m))).
Proof.
  intros Hs Hp. pose proof (started_names_nodup m Hs) as Hnd. destruct Hs as [Hs _ _]. unfold startup in Hs.
  assert (launched m = names (concat (startGroups m))) as Hl by (destruct (at_phase m); naive_solver).
  split; [done|]. rewrite <- Hl in *. destruct (launched m); [constructor|by apply Hnd].
Qed.

Lemma names_remove name (g : list service) :
  NoDup (names g) -> name ∈ names g -> names g ≡ₚ name :: names (filter (fun s => Name s <> name) g).
Proof.
  unfold names. induction g as [|s g IH]; [by intros _ ?%elem_of_nil|]. rewrite fmap_cons.
  intros [Hni Hnd]%NoDup_cons Hin. rewrite filter_cons. case_decide as Hs.
  - apply elem_of_cons in Hin as [->|Hin]; [done|]. rewrite fmap_cons, (IH Hnd Hin). apply Permutation_swap.
  - subst. f_equiv. apply reflexive_eq. clear -Hni.
    induction g as [|t g IH]; [done|]. rewrite fmap_cons, not_elem_of_cons in Hni. destruct Hni as [? ?].
    rewrite filter_cons_True, !fmap_cons by congruence. f_equal. by apply IH.
Qed.

(** A step that leaves the stop and the groups alone. *)
Lemma stop_frame m m' :
  stop_inv m -> stop m' = stop m -> stopped m' = stopped m -> startGroups m' = startGroups m ->
  launched m' = launched m ->
  (starting (at_phase m) = false -> starting (at_phase m') = false) -> stop_finished m' -> stop_inv m'.
Proof.
  intros [H1 H2 H3] Hs Hd Hg Hl Hp Hf. constructor; [| |done].
  - unfold stopping in *. rewrite Hs, Hd, Hg. destruct (stop m); intuition auto.
  - unfold dependents_first in *. by rewrite Hd, Hl.
Qed.

(** During the startup nothing has been stopped. *)
Lemma stop_idle m : stop_inv m -> starting (at_phase m) = true -> stop m = NotStopped /\ stopped m = [].
Proof.
  intros [H _ _] Hp. unfold stopping in H. rewrite Hp in H. destruct (stop m); [done|by destruct H..].
Qed.

Lemma stop_inv_idle m' :
  stop m' = NotStopped -> stopped m' = [] -> stop_finished m' -> stop_inv m'.
Proof.
  intros Hs Hd Hf. constructor; [| |done].
  - unfold stopping. by rewrite Hs.
  - intros [|? ?] dep l2 name Heq; by rewrite Hd in Heq.
Qed.

Lemma stop_inv_begin m m' :
  started m -> stop_inv m -> starting (at_phase m) = false -> begin_stop m = Some m' -> stop_inv m'.
Proof.
  intros Hst [H1 H2 H3] Hp H. unfold begin_stop in H.
  destruct (lock_held (at_phase m)); [done|]. destruct (stop m) eqn:Hs; simplify_eq.
  unfold stopping in H1. rewrite Hs in H1. constructor.
  - split; [done|]. exists []. cbn. rewrite H1. split_and!; [done|done|by left].
  - done.
  - unfold stop_finished in *. cbn. destruct (at_phase m); try done; congruence.
Qed.

Lemma stop_inv_member m m' name todo current :
  started m -> stop_inv m -> stop m = StoppingGroups todo current ->
  stop_member name todo current m = Some m' -> stop_inv m'.
Proof.
  intros Hst [H1 H2 H3] Hs H. unfold stop_member in H. case_match eqn:Hin; [|done]. simplify_eq.
  apply bool_decide_eq_true_1 in Hin. fold (names current) in Hin.
  unfold stopping in H1. rewrite Hs in H1. destruct H1 as (Hp & gone & Hrev & Hperm & Hcur).
  destruct (late_launched m Hst Hp) as [Hl Hnd].
  assert (Hndg : NoDup (stopped m ++ names current)).
  { rewrite Hperm. rewrite <- rev_concat_names, Hrev, concat_app in Hnd. unfold names in *.
    rewrite fmap_app in Hnd. by apply NoDup_app in Hnd as (? & _). }
  destruct Hcur as [->|(gone' & g & -> & Hsub)]; [by apply elem_of_nil in Hin|].
  apply NoDup_app in Hndg as (Hnds & Hdisj & Hndc). constructor.
  - split; [done|]. exists (gone' ++ [g]). split_and!; [done| |].
    + cbn. rewrite <- Hperm, (names_remove name current Hndc Hin). by rewrite <- app_assoc.
    + right. exists gone', g. split; [done|]. intros s [_ ?]%list_elem_of_filter. by apply Hsub.
  - intros l1 dep l2 n Heq Hn Hd. cbn in Heq, Hn.
    destruct l2 as [|x l2 _] using rev_ind.
    + apply app_inj_tail in Heq as [<- ->].
      assert (Hg : dep ∈ names g).
      { unfold names in *. apply list_elem_of_fmap in Hin as (s & -> & Hins). by apply list_elem_of_fmap_2, Hsub. }
      assert (Hgone : n ∈ names (concat gone')) by (eapply dependents_stopped; try done; by rewrite <- Hl).
      assert (n ∈ stopped m ++ names current) as [?|Hbad]%elem_of_app; [|done|].
      { rewrite Hperm, concat_app. unfold names in *. rewrite fmap_app. by apply elem_of_app; left. }
      exfalso. rewrite <- rev_concat_names, Hrev, !concat_app in Hnd. unfold names in *. rewrite !fmap_app in Hnd.
      apply NoDup_app in Hnd as (Hnd & _ & _). apply NoDup_app in Hnd as (_ & Hdj & _).
      apply (Hdj n Hgone). cbn. rewrite app_nil_r.
      apply list_elem_of_fmap in Hbad as (s & -> & Hins). by apply list_elem_of_fmap_2, Hsub.
    + rewrite app_comm_cons, app_assoc in Heq. apply app_inj_tail in Heq as [Heq _]. by eapply H2.
  - unfold stop_finished in *. cbn. destruct (at_phase m); try done; congruence.
Qed.

Lemma stop_inv_next m todo :
  started m -> stop_inv m -> stop m = StoppingGroups todo [] -> stop_inv (next_stop todo m).
Proof.
  intros Hst [H1 H2 H3] Hs. unfold stopping in H1. rewrite Hs in H1. destruct H1 as (Hp & gone & Hrev & Hperm & _).
  cbn in Hperm. rewrite app_nil_r in Hperm.
  assert (Hf : stop_finished (next_stop todo m)).
  { unfold stop_finished in *. destruct todo; cbn; destruct (at_phase m); try done; congruence. }
  destruct todo as [|g todo]; cbn [next_stop]; (constructor; [| |done]).
  - split; [done|]. cbn. by rewrite Hperm, <- (rev_concat_names (startGroups m)), Hrev, app_nil_r.
  - done.
  - split; [done|]. exists (gone ++ [g]). cbn. rewrite <- app_assoc. split_and!; [done| |].
    + rewrite Hperm, concat_app. unfold names. rewrite fmap_app. cbn. by rewrite app_nil_r.
    + right. by exists gone, g.
  - done.
Qed.

Lemma stop_inv_step a m m' :
  reachable m -> stop_inv m -> (a = AStopCall -> before_startup (at_phase m) = false) ->
  fire a m = Some m' -> stop_inv m'.
Proof.
  intros Hr%reachable_started Hi Ho H. destruct (of_goroutine a) as [name|] eqn:Ha.
  { destruct (goroutine_action _ _ _ _ Ha H) as (t & t' & _ & _ & [Hp _ _ _ _ Hg Hs Hl Hd]).
    eapply (stop_frame m); [done..|by rewrite Hp|]. unfold stop_finished. rewrite Hp, Hs. apply Hi. }
  destruct a; try done; cbn [fire] in H.
  all: try (destruct (at_phase m) eqn:Hp; try done;
            destruct (stop_idle m Hi ltac:(by rewrite Hp)) as [Hs Hd];
            unfold resolve, next_group, waitGroupReady in H; repeat case_match; simplify_eq;
            by apply stop_inv_idle).
  - case_match; simplify_eq. by apply (stop_frame m); try done; apply Hi.
  - case_match; simplify_eq. by apply (stop_frame m); try done; apply Hi.
  - apply (stop_inv_begin m); [done..| |done].
    specialize (Ho eq_refl). unfold starting. rewrite Ho. unfold begin_stop in H. by destruct (lock_held (at_phase m)).
  - destruct (at_phase m) eqn:Hp; try done. case_match; simplify_eq. by apply (stop_frame m).
  - destruct (at_phase m) eqn:Hp; try done. repeat case_match; simplify_eq. by apply (stop_frame m).
  - destruct (at_phase m) eqn:Hp; try done. simplify_eq. by apply (stop_frame m).
  - destruct (at_phase m) eqn:Hp; try done. apply (stop_inv_begin m); try done. by rewrite Hp.
  - destruct (at_phase m) eqn:Hp; try done. destruct (stop m) eqn:Hs; simplify_eq. by apply (stop_frame m).
  - destruct (at_phase m) eqn:Hp; try done. case_match; simplify_eq. apply (stop_frame m); try done.
    pose proof (stop_end _ Hi) as Hend. unfold stop_finished in *. by rewrite Hp in Hend.
  - destruct (stop m) eqn:Hs; try done. by eapply stop_inv_member.
  - destruct (stop m) as [|todo current|] eqn:Hs; try done. destruct current; simplify_eq. by apply stop_inv_next.
Qed.

(** C16. Stopping mirrors starting: when [Run] returns and nobody called [Stop]
    before the startup began, [Stop] was called exactly once on every launched
    service, and on a service only after all launched services that depend on
    it. *)
Theorem stop_mirrors_start m ret :
  orderly m -> at_phase m = Returned ret ->
  stopped m ≡ₚ launched m /\ dependents_first m.
Proof.
  intros Ho Hp. pose proof (reachable_started m (orderly_reachable m Ho)) as Hst.
  assert (Hi : stop_inv m).
  { revert m Ho Hp Hst. intros m Ho _ _. apply (orderly_inv stop_inv); [|intros ? a ?; apply stop_inv_step|done].
    by apply stop_inv_idle. }
  destruct Hi as [H1 H2 H3]. split; [|done].
  unfold stop_finished in H3. rewrite Hp in H3. unfold stopping in H1. rewrite H3 in H1.
  destruct H1 as [Hs Hperm]. destruct (late_launched m Hst Hs) as [-> _]. done.
Qed.

(** ** Termination

    Every action uses up a bounded resource: attempts, services and groups not
    yet launched, signals, members not yet stopped. *)

#[local] Arguments Z.mul : simpl never.
#[local] Arguments Z.add : simpl never.
#[local] Arguments Z.of_nat : simpl never.

Definition iterations_of (name : string) : Z :=
  match services !! name with Some svc => iterations svc | None => 0 end.

Definition task_weight (name : string) (t : task) : Z :=
  let left k := Z.max 0 (iterations_of name - k) in
  match t with
  | Pending => 3 * iterations_of name + 5
  | Attempt k => 3 * left k + 4
  | Backoff k _ => 3 * left k + 3
  | Report _ => 2
  | Trigger => 1
  | Exited => 0
  end%Z.

Definition tasks_weight (m : gmap string task) : Z :=
  map_fold (fun name t acc => task_weight name t + acc)%Z 0%Z m.

Definition launch_weight (g : list service) : Z :=
  foldr (fun svc acc => 3 * iterations_of (Name svc) + 6 + acc)%Z 0%Z g.

Definition todo_weight (todo : list (list service)) : Z :=
  foldr (fun g acc => launch_weight g + 2 * Z.of_nat (length g) + 6 + acc)%Z 0%Z todo.

Definition stop_todo_weight (todo : list (list service)) : Z :=
  foldr (fun g acc => Z.of_nat (length g) + 2 + acc)%Z 0%Z todo.

#[local] Arguments launch_weight : simpl never.
#[local] Arguments todo_weight : simpl never.
#[local] Arguments stop_todo_weight : simpl never.

Lemma launch_weight_cons svc g :
  launch_weight (svc :: g) = (3 * iterations_of (Name svc) + 6 + launch_weight g)%Z.
Proof. done. Qed.
Lemma todo_weight_cons g todo :
  todo_weight (g :: todo) = (launch_weight g + 2 * Z.of_nat (length g) + 6 + todo_weight todo)%Z.
Proof. done. Qed.
Lemma stop_todo_cons g todo :
  stop_todo_weight (g :: todo) = (Z.of_nat (length g) + 2 + stop_todo_weight todo)%Z.
Proof. done. Qed.

Definition phase_weight (p : phase) : Z :=
  match p with
  | Fresh => todo_weight start_groups + 12
  | Entered => todo_weight start_groups + 11
  | Starting todo => todo_weight todo + 10
  | Launching g rest todo => todo_weight todo + launch_weight rest + 2 * Z.of_nat (length g) + 15
  | Readying g rest todo => todo_weight todo + Z.of_nat (length rest) + Z.of_nat (length g) + 14
  | Serving => 9
  | DeferStop _ => 8
  | StopWait _ => 2
  | Joining _ => 1
  | Returned _ => 0
  end%Z.

Definition stop_weight (m : mgr) : Z :=
  match stop m with
  | NotStopped => stop_todo_weight (startGroups m) + 2
  | StoppingGroups todo current => stop_todo_weight todo + Z.of_nat (length current) + 1
  | StopDone => 0
  end%Z.

Definition unsignalled (m : mgr) : Z := Z.of_nat (size (dom services ∖ readyCh m)).

Definition fuel_left (m : mgr) : Z :=
  (phase_weight (at_phase m) + tasks_weight (tasks m) + stop_weight m + unsignalled m +
   if cancelled m then 0 else 1)%Z.

Lemma iterations_of_nonneg name : (0 <= iterations_of name)%Z.
Proof. unfold iterations_of, iterations. case_match; lia. Qed.

Lemma task_weight_nonneg name t : (0 <= task_weight name t)%Z.
Proof. pose proof (iterations_of_nonneg name). destruct t; cbn; lia. Qed.

Lemma tasks_weight_insert name t m :
  tasks_weight (<[name := t]> m)
  = (tasks_weight m - (match m !! name with Some t0 => task_weight name t0 | None => 0 end) + task_weight name t)%Z.
Proof.
  assert (Hins : forall m t, m !! name = None ->
            tasks_weight (<[name := t]> m) = (task_weight name t + tasks_weight m)%Z).
  { intros m0 t0 Hn. unfold tasks_weight. rewrite map_fold_insert_L; [done|intros; lia|done]. }
  destruct (m !! name) as [t0|] eqn:Hm.
  - rewrite <- (insert_delete_id m name t0 Hm) at 2. rewrite <- insert_delete_eq.
    rewrite !Hins by apply lookup_delete_eq. lia.
  - rewrite Hins by done. lia.
Qed.

Lemma tasks_weight_nonneg m : (0 <= tasks_weight m)%Z.
Proof.
  unfold tasks_weight. apply (map_fold_weak_ind (fun acc _ => (0 <= acc)%Z)); [lia|].
  intros n t m0 acc _ Hacc. pose proof (task_weight_nonneg n t). lia.
Qed.

Lemma launch_weight_nonneg g : (0 <= launch_weight g)%Z.
Proof. induction g as [|s g IH]; [done|]. rewrite launch_weight_cons. pose proof (iterations_of_nonneg (Name s)). lia. Qed.

Lemma todo_weight_nonneg todo : (0 <= todo_weight todo)%Z.
Proof. induction todo as [|g todo IH]; [done|]. rewrite todo_weight_cons. pose proof (launch_weight_nonneg g). lia. Qed.

Lemma stop_todo_nonneg todo : (0 <= stop_todo_weight todo)%Z.
Proof. induction todo as [|g todo IH]; [done|]. rewrite stop_todo_cons. lia. Qed.

Lemma stop_todo_app t1 t2 :
  stop_todo_weight (t1 ++ t2) = (stop_todo_weight t1 + stop_todo_weight t2)%Z.
Proof. induction t1 as [|g t1 IH]; [done|]. cbn [app]. rewrite !stop_todo_cons. lia. Qed.

Lemma stop_todo_rev todo : stop_todo_weight (rev todo) = stop_todo_weight todo.
Proof.
  induction todo as [|g todo IH]; [done|]. cbn [rev]. rewrite stop_todo_app, IH, !stop_todo_cons.
  change (stop_todo_weight []) with 0%Z. lia.
Qed.

Lemma phase_weight_nonneg p : (0 <= phase_weight p)%Z.
Proof.
  pose proof (todo_weight_nonneg start_groups).
  destruct p; cbn; try lia; try pose proof (todo_weight_nonneg todo); try pose proof (launch_weight_nonneg rest); lia.
Qed.

Lemma fuel_left_nonneg m : (0 <= fuel_left m)%Z.
Proof.
  unfold fuel_left, stop_weight, unsignalled. pose proof (phase_weight_nonneg (at_phase m)).
  pose proof (tasks_weight_nonneg (tasks m)).
  destruct (stop m) as [|todo current|]; case_match; try pose proof (stop_todo_nonneg (startGroups m));
    try pose proof (stop_todo_nonneg todo); lia.
Qed.

(** A goroutine that moves to a lighter task. *)
Lemma fuel_task name t t' m m' :
  task_of name m = Some t -> goroutine_step name t' m m' ->
  (task_weight name t' < task_weight name t)%Z -> (fuel_left m' < fuel_left m)%Z.
Proof.
  intros Ht [Hp Htk Hr _ Hc Hg Hs _ _] Hlt. unfold fuel_left, stop_weight, unsignalled.
  rewrite Hp, Htk, Hr, Hc, Hg, Hs, tasks_weight_insert. unfold task_of in Ht. rewrite Ht. lia.
Qed.

Lemma fuel_loop svc t k err m :
  services !! Name svc = Some svc -> task_of (Name svc) m = Some t ->
  (k < iterations svc -> 3 * (iterations svc - k) + 4 < task_weight (Name svc) t)%Z ->
  (iterations svc <= k -> 2 < task_weight (Name svc) t)%Z ->
  (fuel_left (loop_head svc k err m) < fuel_left m)%Z.
Proof.
  intros Hs Ht H1 H2. destruct (loop_head_goroutine svc k err m) as (t' & Hg & Hc).
  eapply fuel_task; [done|done|]. assert (iterations_of (Name svc) = iterations svc) as Hi
    by (unfold iterations_of; by rewrite Hs).
  destruct Hc as [[-> Hk]|[-> Hk]]; [specialize (H1 Hk)|specialize (H2 Hk)];
    cbn [task_weight]; rewrite ?Hi; cbv zeta; lia.
Qed.

Lemma fuel_goroutine a name m m' :
  of_goroutine a = Some name -> fire a m = Some m' -> (fuel_left m' < fuel_left m)%Z.
Proof.
  intros Ha H. destruct a; simplify_eq/=; apply with_task_inv in H as (svc & t & Hs & Ht & Hf);
    pose proof (Hkeyed _ _ Hs) as <-;
    assert (Hi : iterations_of (Name svc) = iterations svc) by (unfold iterations_of; by rewrite Hs);
    pose proof (iterations_of_nonneg (Name svc)) as Hn.
  - destruct t as [|k| | | |]; simplify_eq. unfold after_attempt.
    repeat case_match;
      try (eapply fuel_task; [done|by constructor|]; cbn [task_weight]; cbv zeta; lia).
    eapply fuel_loop; [done|done|..]; cbn [task_weight]; cbv zeta; rewrite Hi in *; lia.
  - destruct t as [| |k e| | |]; simplify_eq.
    eapply fuel_loop; [done|done|..]; cbn [task_weight]; cbv zeta; rewrite Hi in *; lia.
  - destruct t; simplify_eq/=; try done.
    + eapply fuel_loop; [done|done|..]; cbn [task_weight]; rewrite Hi in *; lia.
    + case_match; simplify_eq. eapply fuel_task; [done|by constructor|]. cbn [task_weight]. cbv zeta. lia.
    + unfold handleServiceError. repeat case_match; (eapply fuel_task; [done|by constructor|]; cbn; lia).
    + eapply fuel_task; [done|by constructor|]. cbn. lia.
Qed.

Lemma fuel_goto p m :
  (phase_weight p < phase_weight (at_phase m))%Z -> (fuel_left (goto p m) < fuel_left m)%Z.
Proof. intros H. unfold fuel_left, stop_weight, unsignalled. cbn. lia. Qed.

Lemma fuel_group g rest todo m :
  at_phase m = Readying g rest todo -> (fuel_left (group_started g todo m) < fuel_left m)%Z.
Proof.
  intros Hp. unfold fuel_left, stop_weight, unsignalled. rewrite Hp. cbn. destruct (stop m).
  - rewrite stop_todo_app, stop_todo_cons. change (stop_todo_weight []) with 0%Z. lia.
  - lia.
  - lia.
Qed.

Lemma fuel_begin_stop m m' : begin_stop m = Some m' -> (fuel_left m' < fuel_left m)%Z.
Proof.
  unfold begin_stop. intros H. repeat case_match; simplify_eq.
  unfold fuel_left, stop_weight, unsignalled. cbn.
  match goal with Hs : stop m = _ |- _ => rewrite Hs end. rewrite stop_todo_rev. lia.
Qed.

Lemma fuel_stop_member name todo current m m' :
  stop m = StoppingGroups todo current -> stop_member name todo current m = Some m' ->
  (fuel_left m' < fuel_left m)%Z.
Proof.
  intros Hs H. unfold stop_member in H. case_match eqn:Hin; simplify_eq.
  apply bool_decide_eq_true_1, list_elem_of_fmap in Hin as (svc & -> & Hin).
  unfold fuel_left, stop_weight, unsignalled. rewrite Hs. cbn.
  assert (length (filter (fun s => Name s <> Name svc) current) < length current); [|lia].
  apply (length_filter_lt _ _ svc); [done|]. by intros ?.
Qed.

Lemma fuel_step a m m' : fire a m = Some m' -> (fuel_left m' < fuel_left m)%Z.
Proof.
  intros H. destruct (of_goroutine a) as [name|] eqn:Ha; [by eapply fuel_goroutine|].
  destruct a; try done; cbn [fire] in H.
  - case_match eqn:Hc; simplify_eq. unfold fuel_left, stop_weight, unsignalled. cbn. rewrite Hc. lia.
  - case_match eqn:Hb; simplify_eq. apply bool_decide_eq_true_1 in Hb as [Hk Hn].
    unfold fuel_left, stop_weight, unsignalled. cbn.
    assert (size (dom services ∖ ({[name]} ∪ readyCh m)) < size (dom services ∖ readyCh m)); [|lia].
    apply subset_size. split; [set_solver|]. intros Hsub.
    specialize (Hsub name ltac:(apply elem_of_difference; split; [by apply elem_of_dom|done])). set_solver.
  - by apply fuel_begin_stop.
  - destruct (at_phase m) eqn:Hp; simplify_eq. apply fuel_goto. rewrite Hp. cbn. lia.
  - destruct (at_phase m) eqn:Hp; simplify_eq. unfold resolve. pose proof (todo_weight_nonneg start_groups).
    repeat case_match; apply fuel_goto; rewrite Hp; cbn; try lia. unfold start_groups.
    match goal with Ho : resolveOrder services = _ |- _ => rewrite Ho end. lia.
  - destruct (at_phase m) eqn:Hp; simplify_eq. unfold next_group. pose proof (todo_weight_nonneg []).
    destruct todo as [|g todo]; [|case_match]; apply fuel_goto; rewrite Hp; cbn; rewrite ?todo_weight_cons;
      try pose proof (todo_weight_nonneg todo); try pose proof (launch_weight_nonneg g); lia.
  - destruct (at_phase m) as [| | |g rest todo| | | | | |] eqn:Hp; try done. destruct rest as [|svc rest].
    + case_match; simplify_eq. apply fuel_goto. rewrite Hp. cbn. pose proof (launch_weight_nonneg []). lia.
    + simplify_eq. unfold fuel_left, stop_weight, unsignalled, launch. cbn. rewrite tasks_weight_insert, Hp. cbn.
      pose proof (iterations_of_nonneg (Name svc)).
      assert (0 <= match tasks m !! Name svc with Some t0 => task_weight (Name svc) t0 | None => 0 end)%Z
        by (case_match; [apply task_weight_nonneg|lia]). rewrite launch_weight_cons. lia.
  - destruct (at_phase m) as [| | | |g rest todo| | | | |] eqn:Hp; try done. unfold waitGroupReady in H.
    repeat case_match; simplify_eq; try (by eapply fuel_group); apply fuel_goto; rewrite Hp; cbn; lia.
  - destruct (at_phase m) eqn:Hp; try done. case_match; simplify_eq. apply fuel_goto. rewrite Hp. cbn. lia.
  - destruct (at_phase m) eqn:Hp; try done. case_match; simplify_eq.
    unfold fuel_left, stop_weight, unsignalled. rewrite Hp. cbn. lia.
  - destruct (at_phase m) eqn:Hp; simplify_eq. unfold fuel_left, stop_weight, unsignalled. rewrite Hp. cbn.
    destruct (cancelled m); lia.
  - destruct (at_phase m) eqn:Hp; try done. by apply fuel_begin_stop.
  - destruct (at_phase m) eqn:Hp; try done. case_match; simplify_eq. apply fuel_goto. rewrite Hp. cbn. lia.
  - destruct (at_phase m) eqn:Hp; try done. case_match; simplify_eq. apply fuel_goto. rewrite Hp. cbn. lia.
  - destruct (stop m) eqn:Hs; try done. by eapply fuel_stop_member.
  - destruct (stop m) as [|todo current|] eqn:Hs; try done. destruct current; simplify_eq.
    pose proof (stop_todo_nonneg []). unfold next_stop, fuel_left, stop_weight, unsignalled. destruct todo; cbn; rewrite Hs; cbn; rewrite ?stop_todo_cons; lia.
Qed.

(** C21. Every execution of the service manager ends: there is no infinite
    sequence of actions, whatever the services do and however the goroutines
    interleave. *)
Theorem run_terminates : well_founded (fun m' m => mstep m m').
Proof.
  apply (wf_incl _ _ (fun m' m => (0 <= fuel_left m' < fuel_left m)%Z)).
  - intros m' m [a Hf]. split; [apply fuel_left_nonneg|by eapply fuel_step].
  - apply (wf_projected (fun a b => (0 <= a < b)%Z) fuel_left); [done|apply (Z.lt_wf 0)].
Qed.

(** ** Shutdown is never blocked *)

(** The actions of the manager itself: no service, timer or caller is needed. *)
Definition own_action (a : action) : bool :=
  match a with ACancel | ASignal _ | AReturn _ _ | ATimer _ | AStopCall => false | _ => true end.

Definition enabled (m : mgr) : Prop := exists a m', own_action a = true /\ fire a m = Some m'.

Definition late (p : phase) : bool :=
  match p with StopWait _ | Joining _ | Returned _ => true | _ => false end.
Definition cancelled_late (m : mgr) : Prop := late (at_phase m) = true -> cancelled m = true.

Lemma cancelled_late_step a m m' : cancelled_late m -> fire a m = Some m' -> cancelled_late m'.
Proof.
  intros Hc H Hl. pose proof (fire_flags a m m' H) as (_ & _ & Hmono).
  destruct (late (at_phase m)) eqn:Hm; [by apply Hmono, Hc|].
  destruct (of_goroutine a) as [name|] eqn:Ha.
  - destruct (goroutine_action _ _ _ _ Ha H) as (t & t' & _ & _ & [Hp _ _ _ _ _ _ _ _]). rewrite Hp in Hl. congruence.
  - fire_cases H a; cbn in Hl; try congruence;
      match goal with Hp : at_phase m = _ |- _ => rewrite Hp in Hm end; done.
Qed.

Lemma task_enabled m n t :
  reachable m -> task_of n m = Some t -> t <> Exited -> (forall k, t <> Attempt k) ->
  (forall k err, t = Backoff k err -> cancelled m = true) -> enabled m.
Proof.
  intros Hr Ht Hne Hatt Hback. pose proof (reachable_started m Hr) as Hs.
  assert (is_Some (services !! n)) as [svc Hsvc].
  { assert (n ∈ launched m) as Hn by (apply (started_tasks m Hs); by exists t).
    destruct (launched_index m n Hs Hn) as (i & _ & Hg).
    assert (n ∈ names (concat start_groups)) as Hin by (apply in_group_names; by exists i).
    apply list_elem_of_fmap in Hin as (svc & -> & Hin). exists svc. by apply start_groups_members. }
  assert (exists m', fire (ATask n) m = Some m') as [m' Hf]; [|by exists (ATask n), m'].
  cbn [fire]. unfold with_task. rewrite Hsvc, Ht. unfold task_step.
  destruct t as [|k|k err|err| |]; eauto; [by destruct (Hatt k)| |done].
  rewrite (Hback k err eq_refl). eauto.
Qed.

(** The last goroutine of a group to be scheduled. *)
Lemma launching_enabled m g todo : reachable m -> at_phase m = Launching g [] todo -> enabled m.
Proof.
  intros Hr Hp. pose proof (reachable_started m Hr) as Hs.
  destruct (all_launched g m) eqn:Hall.
  { exists ALaunch. eexists. split; [done|]. cbn [fire]. by rewrite Hp, Hall. }
    apply not_true_iff_false in Hall. unfold all_launched in Hall. rewrite forallb_forall in Hall.
    assert (exists n, task_of n m = Some Pending) as [n Hn].
    { destruct (filter (fun s => task_of (Name s) m = Some Pending) g) as [|s l] eqn:Hf.
      - destruct Hall. intros s Hin%list_elem_of_In.
        destruct (task_of (Name s) m) as [t|] eqn:Ht.
        + destruct t; try done. exfalso. apply (not_elem_of_nil s). rewrite <- Hf. by apply list_elem_of_filter.
        + exfalso. apply eq_None_not_Some in Ht. apply Ht, (started_tasks m Hs).
          destruct Hs as [Hsh _ _]. unfold startup in Hsh. rewrite Hp in Hsh. destruct Hsh as (_ & pre & Hpre & Hl).
          rewrite app_nil_r in Hpre. subst pre. rewrite Hl. unfold names. rewrite fmap_app.
          apply elem_of_app; right. by apply list_elem_of_fmap_2.
      - exists (Name s). assert (s ∈ filter (fun s => task_of (Name s) m = Some Pending) g) as Hin by (rewrite Hf; left).
        by apply list_elem_of_filter in Hin as [? _]. }
    by eapply task_enabled.
Qed.

(** The last goroutine to exit. *)
Lemma joining_enabled m ret :
  reachable m -> at_phase m = Joining ret -> cancelled m = true ->
  (forall n k, task_of n m <> Some (Attempt k)) -> enabled m.
Proof.
  intros Hr Hp Hlate Hatt.
  destruct (all_exited m) eqn:Hex; [exists AJoin; eexists; split; [done|]; cbn [fire]; by rewrite Hp, Hex|].
    unfold all_exited in Hex. apply not_true_iff_false in Hex. rewrite forallb_forall in Hex.
    destruct (filter (fun kv => kv.2 <> Exited) (map_to_list (tasks m))) as [|[n t] l] eqn:Hf.
    + destruct Hex. intros [n t] Hin%list_elem_of_In. apply bool_decide_eq_true_2. cbn.
      destruct (decide (t = Exited)); [done|]. exfalso. apply (not_elem_of_nil (n, t)). rewrite <- Hf.
      by apply list_elem_of_filter.
    + assert ((n, t) ∈ filter (fun kv => kv.2 <> Exited) (map_to_list (tasks m))) as Hin by (rewrite Hf; left).
      apply list_elem_of_filter in Hin as [Hne Hin%elem_of_map_to_list].
      eapply (task_enabled m n t); [done|done|done| |done]. intros k ->. by apply (Hatt n k).
Qed.

Lemma manager_moves m :
  reachable m -> cancelled m = true \/ failure m = true ->
  (forall n k, task_of n m <> Some (Attempt k)) ->
  (exists ret, at_phase m = Returned ret) \/ enabled m.
Proof.
  intros Hr Hflag Hatt. pose proof (reachable_reported m Hr) as Hrep. pose proof (reachable_started m Hr) as Hs.
  assert (Hlate : cancelled_late m)
    by (apply (reachable_inv cancelled_late); [done|intros ? a ? _; apply cancelled_late_step|done]).
  unfold cancelled_late in Hlate.
  destruct (at_phase m) as [| |todo|g rest todo|g rest todo| |ret|ret|ret|ret] eqn:Hp;
    [right..|by left; exists ret].
  - exists AEnter. eexists. split; [done|]. cbn [fire]. by rewrite Hp.
  - exists AResolve. eexists. split; [done|]. cbn [fire]. by rewrite Hp.
  - exists AGroup. eexists. split; [done|]. cbn [fire]. by rewrite Hp.
  - destruct rest as [|svc rest]; [|exists ALaunch; eexists; split; [done|]; cbn [fire]; by rewrite Hp].
    by eapply launching_enabled.
  - destruct rest as [|svc rest]; [exists (AWait CaseReady); eexists; split; [done|]; cbn [fire]; by rewrite Hp|].
    destruct Hflag as [Hc|Hf].
    + exists (AWait CaseDone). cbn [fire]. rewrite Hp. unfold waitGroupReady. rewrite Hc. case_match; by eexists.
    + exists (AWait CaseFailure). cbn [fire]. rewrite Hp. unfold waitGroupReady. rewrite Hf. case_match; by eexists.
  - destruct Hflag as [Hc|Hf].
    + exists ASelectDone. eexists. split; [done|]. cbn [fire]. by rewrite Hp, Hc.
    + pose proof (rep_failure m Hrep Hf) as Hne. pose proof (rep_channel m Hrep) as Hch. rewrite Hp in Hch.
      specialize (Hch eq_refl). destruct (reports m) as [|e l]; [done|].
      exists ASelectErr. eexists. split; [done|]. cbn [fire]. by rewrite Hp, Hch.
  - exists ADeferCancel. eexists. split; [done|]. cbn [fire]. by rewrite Hp.
  - destruct (stop m) as [|todo current|] eqn:Hst.
    + exists ADeferStop. eexists. split; [done|]. cbn [fire]. rewrite Hp. unfold begin_stop. by rewrite Hp, Hst.
    + destruct current as [|svc current].
      * exists AStopNext. eexists. split; [done|]. cbn [fire]. by rewrite Hst.
      * exists (AStopMember (Name svc)). eexists. split; [done|]. cbn [fire]. rewrite Hst. unfold stop_member.
        rewrite bool_decide_eq_true_2; [done|]. rewrite fmap_cons. left.
    + exists AStopped. eexists. split; [done|]. cbn [fire]. by rewrite Hp, Hst.
  - eapply joining_enabled; [done|done| |done]. by apply Hlate.
Qed.

(** Shutdown never blocks on the manager itself: once the context is
    cancelled or a failure is signalled, and no [Run] method of a service is
    still executing, either [Run] has returned or the manager can take another
    step by itself. *)
Theorem shutdown_progress m :
  reachable m -> cancelled m = true \/ failure m = true ->
  (forall n k, task_of n m <> Some (Attempt k)) ->
  (exists ret, at_phase m = Returned ret) \/ enabled m.
Proof. apply manager_moves. Qed.
End run.

(** ** Concrete runs *)

Section replay.
Context `{MO : MapOrder} (services : gmap string service).

Fixpoint fire_all (l : list action) (m : mgr) : option mgr :=
  match l with
  | [] => Some m
  | a :: l => match fire services a m with Some m' => fire_all l m' | None => None end
  end.

Lemma fire_all_reachable l m : fire_all l init = Some m -> reachable services m.
Proof.
  unfold reachable. generalize init. induction l as [|a l IH]; intros m0 H; cbn in H; [by simplify_eq; apply rtc_refl|].
  destruct (fire services a m0) as [m1|] eqn:Hf; [|done]. eapply rtc_l; [by exists a|by apply IH].
Qed.

(** The same, for a history without an early [Stop]. *)
Fixpoint orderly_all (l : list action) (m : mgr) : bool :=
  match l with
  | [] => true
  | a :: l =>
      (match a with AStopCall => negb (before_startup (at_phase m)) | _ => true end) &&
      match fire services a m with Some m' => orderly_all l m' | None => false end
  end.

Lemma fire_all_orderly l m : orderly_all l init = true -> fire_all l init = Some m -> orderly services m.
Proof.
  unfold orderly. generalize init. induction l as [|a l IH]; intros m0 Ho H; cbn in H, Ho; [by simplify_eq; apply rtc_refl|].
  apply andb_true_iff in Ho as [Ha Ho]. destruct (fire services a m0) as [m1|] eqn:Hf; [|done].
  eapply rtc_l; [|by apply IH]. exists a. split; [done|]. intros ->. by apply negb_true_iff.
Qed.
End replay.

Module RunExamples.

#[local] Existing Instance canonical_order.

(** A database that signals ready and retries once, and a server that needs it. *)
Definition db : service := mkService "db" None (Some (1, 0)%Z) None true.
Definition web : service := mkService "web" (Some ["db"]) None None false.
Definition pair : gmap string service := OrderExamples.table [web; db].

Lemma pair_keyed : keyed pair.
Proof.
  apply map_Forall_to_list with (P := fun n s => Name s = n).
  vm_compute. repeat constructor.
Qed.

(** Both services come up, the server fails, everything is stopped. *)
Definition web_fails : list action :=
  [AEnter; AResolve; AGroup; ALaunch; ATask "db"; ALaunch;
   AReturn "db" (RunErr "busy"); ASignal "db"; AWait CaseReady; AWait CaseReady;
   AGroup; ALaunch; ATask "web"; ALaunch; AWait CaseReady; AWait CaseReady; AGroup;
   AReturn "web" (RunPanic "nil map"); ATask "web"; ATask "web";
   ASelectErr; ADeferCancel; ADeferStop; AStopNext; AStopMember "web"; AStopNext; AStopMember "db";
   AStopNext; AReturn "db" RunNil; AStopped; AJoin].

Definition web_failed : mgr := default init (fire_all pair web_fails init).

Lemma web_fails_runs : fire_all pair web_fails init = Some web_failed.
Proof. vm_compute. reflexivity. Qed.

Lemma web_failed_orderly : orderly pair web_failed.
Proof. apply (fire_all_orderly pair web_fails); [vm_compute; reflexivity|exact web_fails_runs]. Qed.

Lemma web_failed_reachable : reachable pair web_failed.
Proof. exact (fire_all_reachable pair web_fails _ web_fails_runs). Qed.

Lemma stop_mirrors_start_witness :
  stopped web_failed = ["web"; "db"] /\
  stopped web_failed ≡ₚ launched web_failed /\ dependents_first pair web_failed.
Proof.
  split; [vm_compute; reflexivity|].
  apply (stop_mirrors_start pair pair_keyed web_failed (RetFailed (Some (ErrServicePanic "nil map"))) web_failed_orderly).
  vm_compute. reflexivity.
Defined.


Lemma attempts_bounded_witness :
  attempts_of "db" web_failed = 2%Z /\
  (attempts_of "db" web_failed <= iterations db)%Z /\
  (forall err, task_of "db" web_failed = Some (Report err) -> attempts_of "db" web_failed = iterations db).
Proof.
  split; [vm_compute; reflexivity|].
  apply (attempts_bounded pair pair_keyed web_failed "db" db web_failed_reachable).
  - vm_compute. reflexivity.
  - vm_compute. split; discriminate.
Defined.

Lemma dependencies_first_witness : "db" ∈ launched web_failed /\ settled web_failed db.
Proof.
  apply (dependencies_first pair pair_keyed web_failed "web" "db" db web_failed_reachable).
  - apply (bool_decide_unpack _). vm_compute. exact I.
  - unfold depends. apply (bool_decide_unpack _). vm_compute. exact I.
  - vm_compute. reflexivity.
Defined.

Lemma run_terminates_witness : keyed pair /\ well_founded (fun m' m => mstep pair m m').
Proof. split; [exact pair_keyed|exact (run_terminates pair pair_keyed)]. Defined.

(** The context ends while the database is waiting for its turn to be joined. *)
Definition draining : mgr :=
  default init (fire_all pair
    [AEnter; AResolve; AGroup; ALaunch; ATask "db"; ALaunch; ACancel; AReturn "db" RunNil] init).

Lemma draining_reachable : reachable pair draining.
Proof.
  apply (fire_all_reachable pair
    [AEnter; AResolve; AGroup; ALaunch; ATask "db"; ALaunch; ACancel; AReturn "db" RunNil]).
  vm_compute. reflexivity.
Qed.

Lemma draining_idle n k : task_of n draining <> Some (Attempt k).
Proof.
  assert (Ht : tasks draining = {["db" := Exited]}) by (vm_compute; reflexivity).
  unfold task_of. rewrite Ht. intros [_ ?]%lookup_singleton_Some. done.
Qed.

Lemma shutdown_progress_witness :
  (exists ret, at_phase draining = Returned ret) \/ enabled pair draining.
Proof.
  apply (shutdown_progress pair pair_keyed draining draining_reachable).
  - left. vm_compute. reflexivity.
  - exact draining_idle.
Defined.

(** [Stop] called after [Run] stored its cancel function but before it took the
    start-groups lock uses up the [sync.Once] with no group recorded: the
    services are launched afterwards, and their [Stop] is never called. *)
Definition early_stop : list action :=
  [AEnter; ACancel; AStopCall; AStopNext; AResolve; AGroup; ALaunch; ATask "db"; ALaunch;
   AWait CaseDone; AGroup; ALaunch; ATask "web"; ALaunch; AWait CaseDone; AWait CaseDone; AGroup;
   ASelectDone; AReturn "web" RunNil; AReturn "db" RunNil; ADeferCancel; AStopped; AJoin].

Theorem early_stop_skips_services :
  exists m, reachable pair m /\ at_phase m = Returned RetNil /\
    launched m = ["db"; "web"] /\ stopped m = [].
Proof.
  exists (default init (fire_all pair early_stop init)). split.
  - apply (fire_all_reachable pair early_stop). vm_compute. reflexivity.
  - vm_compute. auto.
Qed.

(** A service whose [MaxRetries] is [-1] is never run, and stops the process
    with a nil error. *)
Definition never : service := mkService "never" None (Some (-1, 0)%Z) None false.

Theorem negative_retries_never_run :
  exists m, reachable (OrderExamples.table [never]) m /\
    at_phase m = Returned (RetFailed None) /\ attempts_of "never" m = 0%Z.
Proof.
  pose (l := [AEnter; AResolve; AGroup; ALaunch; ATask "never"; ALaunch; AWait CaseReady; AWait CaseReady;
              ATask "never"; ATask "never"; AGroup; ASelectErr; ADeferCancel; ADeferStop; AStopNext;
              AStopMember "never"; AStopNext; AStopped; AJoin]).
  exists (default init (fire_all (OrderExamples.table [never]) l init)). split.
  - apply (fire_all_reachable _ l). vm_compute. reflexivity.
  - vm_compute. auto.
Qed.
End RunExamples.
