(* ===== verification/Shutdown.v ===== *)
(** * Closing the manager at shutdown ([pool.go]: [Close], as [Service.Stop] calls it)

    What [Manager.Close] does to the pools and which cells it kills; and the
    context it is given: the service manager's own deferred [Stop] hands on the
    context it has just cancelled, with which Docker refuses to work. *)

From S2P Require Import Prelude GoStrings Encoding UrlParse Types Config Routing PoolState Lease Prog System.
From S2P Require Import Manager Behaviour Reaper Cells Spawner Gateway Api Invariant Concurrency Scenarios.
From S2P Require Import ServiceOrder ServiceRun.

(** The cell a pool holds, if it is named. *)
Definition held (p : PoolState) : option string :=
  match tunnel p with
  | Some t => if String.eqb (ContainerID t) "" then None else Some (ContainerID t)
  | None => None
  end.

(** The pool after [Close]. *)
Definition closed_pool (p : PoolState) : PoolState :=
  match held p with Some _ => setTunnel None p | None => p end.

(** The kills so far with their results, latest first. *)
Definition kills (w : world) : list (string * option error) :=
  omap (fun e => match e with EvKill id r => Some (id, r) | _ => None end) (w_events w).

Section close.
Context `{MO : MapOrder, SC : SpawnerContract}.

(** One iteration of the loop. *)
Definition close_one (st : poolRef) : sys unit :=
  t ← snapshotOf st;
  match t with
  | None => Ret tt
  | Some t =>
      if String.eqb (ContainerID t) "" then Ret tt else
      _ ← call (OpKill (ContainerID t));
      write st (setTunnel None)
  end.

Lemma close_one_runs tid st w u w' p :
  w_pools w !! ref_key st = Some p -> runs tid (close_one st) w u w' ->
  w_pools w' = <[ref_key st := closed_pool p]> (w_pools w) /\
  exists new, kills w' = new ++ kills w /\ new.*1 = option_list (held p).
Proof.
  intros Hp Hr. unfold close_one in Hr. apply runs_bind in Hr as (t & w1 & Hs & Hr).
  apply runs_section in Hs as (p' & ? & ? & Hp' & -> & ->). assert (p' = p) as -> by congruence.
  unfold closed_pool, held. unfold Snapshot in Hr. cbn [fst snd] in Hr. destruct (tunnel p) as [t|].
  2:{ destruct Hr as [_ ->]. simpl. split; [done|]. by exists []. }
  destruct (String.eqb (ContainerID t) "").
  { destruct Hr as [_ ->]. simpl. split; [done|]. by exists []. }
  apply runs_bind in Hr as (r & w2 & Hk%runs_call & Hr). destruct Hk as (a & _ & He). simpl in He. simplify_eq/=.
  apply runs_section in Hr as (q & ? & ? & Hq & -> & ->). simpl in Hq. rewrite lookup_insert_eq in Hq.
  simplify_eq/=. split; [by rewrite insert_insert_eq|]. by exists [(ContainerID t, a_kill a)].
Qed.

Lemma close_loop_runs tid l : forall w u w',
  NoDup (ref_key <$> l) -> (forall st, st ∈ l -> is_Some (w_pools w !! ref_key st)) ->
  runs tid (for_each l close_one) w u w' ->
  (forall key, w_pools w' !! key =
     if bool_decide (key ∈ ref_key <$> l) then closed_pool <$> w_pools w !! key else w_pools w !! key) /\
  exists new, kills w' = new ++ kills w /\
    new.*1 ≡ₚ omap (fun st => w_pools w !! ref_key st ≫= held) l.
Proof.
  induction l as [|st l IH]; intros w u w' Hnd Hin Hr.
  { destruct Hr as [_ ->]. split; [done|]. by exists []. }
  apply NoDup_cons in Hnd as [Hst Hnd]. cbn [for_each] in Hr. apply runs_bind in Hr as (? & w1 & H1 & Hr).
  destruct (Hin st ltac:(left)) as [p Hp]. destruct (close_one_runs _ _ _ _ _ _ Hp H1) as (Hw1 & new1 & Hk1 & Hn1).
  assert (Hother : forall key, key <> ref_key st -> w_pools w1 !! key = w_pools w !! key).
  { intros key Hne. by rewrite Hw1, lookup_insert_ne. }
  assert (Hl : forall st', st' ∈ l -> w_pools w1 !! ref_key st' = w_pools w !! ref_key st').
  { intros st' Hs. apply Hother. intros E. apply Hst. rewrite <- E. by apply list_elem_of_fmap_2. }
  destruct (IH w1 u w' Hnd) as (Hk & new2 & Hk2 & Hn2); [|done|].
  { intros st' Hs. rewrite Hl by done. apply Hin. by right. }
  split.
  - intros key. rewrite Hk, fmap_cons. destruct (decide (key = ref_key st)) as [->|Hne].
    + rewrite bool_decide_false by done. rewrite bool_decide_true by left. by rewrite Hw1, lookup_insert_eq, Hp.
    + rewrite Hother by done. do 2 case_bool_decide; set_solver.
  - assert (Ho : omap (fun st => w_pools w1 !! ref_key st ≫= held) l = omap (fun st => w_pools w !! ref_key st ≫= held) l).
    { clear -Hl. induction l as [|x l IHl]; [done|]. simpl. rewrite (Hl x) by left.
      destruct (w_pools w !! ref_key x ≫= held); [f_equal|]; apply IHl; intros; apply Hl; by right. }
    rewrite Ho in Hn2. exists (new2 ++ new1). rewrite Hk2, Hk1, app_assoc. split; [done|]. rewrite fmap_app, Hn1, Hn2.
    rewrite (Permutation_app_comm _ (option_list _)). simpl. rewrite Hp. simpl. by destruct (held p).
Qed.

Lemma held_refs (pools : gmap string PoolState) l :
  (forall k p, (k, p) ∈ l -> pools !! k = Some p) ->
  omap (fun st => pools !! ref_key st ≫= held) (map (fun kv => mkRef kv.1 kv.2) (prod_map id Spec <$> l)) =
  omap held l.*2.
Proof.
  induction l as [|[k p] l IH]; intros Hl; [done|]. simpl. rewrite (Hl k p) by left. simpl.
  destruct (held p); [f_equal|]; apply IH; intros; apply Hl; by right.
Qed.

(** Closing the manager, whatever the kills answer: every pool that held a
    named cell is empty afterwards and the others are as they were, and exactly
    the cells that were held have been killed, each once. *)
Theorem Close_exact tid w u w' :
  runs tid Close w u w' ->
  w_pools w' = closed_pool <$> w_pools w /\
  exists new, kills w' = new ++ kills w /\ new.*1 ≡ₚ omap held (map_to_list (w_pools w)).*2.
Proof.
  intros Hr. unfold Close in Hr. apply runs_bind in Hr as (states & w1 & Ha & Hr).
  unfold allPools in Ha. apply runs_bind in Ha as (specs & w2 & Hp%runs_call & [-> ->]).
  destruct Hp as (a & _ & He). simpl in He. injection He as <- <-.
  set (l := map (fun kv => mkRef kv.1 kv.2) (range (Spec <$> w_pools w))) in Hr.
  assert (Hl : ref_key <$> l = (range (Spec <$> w_pools w)).*1).
  { unfold l. rewrite <- list_fmap_compose. done. }
  destruct (close_loop_runs tid l (tick w) u w') as (Hk & new & Hn & Hperm); [|..|exact Hr|].
  - rewrite Hl. apply range_nodup.
  - intros st Hst. apply (list_elem_of_fmap_2 ref_key) in Hst. rewrite Hl in Hst.
    apply list_elem_of_fmap in Hst as ([k sp] & -> & Hst%elem_of_range). simpl. rewrite lookup_fmap in Hst.
    by destruct (w_pools w !! k).
  - split.
    + apply map_eq. intros key. rewrite Hk, lookup_fmap. case_bool_decide as Hin; [done|].
      destruct (w_pools w !! key) as [p|] eqn:Hp; [|by simpl; rewrite Hp]. exfalso. apply Hin. rewrite Hl.
      apply list_elem_of_fmap. exists (key, Spec p). split; [done|]. apply elem_of_range. by rewrite lookup_fmap, Hp.
    + exists new. split; [exact Hn|]. rewrite Hperm. unfold l. rewrite range_perm, map_to_list_fmap. simpl.
      apply reflexive_eq, held_refs. intros k p. by rewrite elem_of_map_to_list.
Qed.
End close.

(** ** The context of the stop *)

(** When the deferred [Stop] of [ServiceManager.Run] gets to stop the services,
    the context it passes on, which is the one it cancels first, has ended. *)
Lemma deferred_stop_context `{MapOrder} services m m' :
  keyed services -> reachable services m -> fire services ADeferStop m = Some m' -> cancelled m = true.
Proof.
  intros Hk Hr%(reachable_stops_cancelled _ Hk). simpl. destruct (at_phase m) eqn:Hp; try done. eauto.
Qed.

(** With such a context the Docker client answers with the context's error:
    [Kill] gives up after the stop and does not remove the container. *)
Definition contextCanceled : string := "context canceled".

Lemma kill_gives_up id : exists k, Spawner.Kill id = Op (DStop id) k /\ k (Some contextCanceled) = Ret (Some ErrForeign).
Proof. eexists. split; [reflexivity|vm_compute; reflexivity]. Qed.

Module ShutdownExamples.
Import Deployment ScenarioWitnesses.

(** Closing the warm deployment, the kills answering [r]. *)
Definition answering (r : option error) (a : answer) : answer :=
  mkAnswer (a_now a) (a_draw a) (a_bytes a) (a_spawn a) r (a_list a) (a_orphans a) (a_healthy a) (a_status a) (a_dial a).
Definition closing (r : option error) : unit * world := ends (answering r a1) Close warm tt.

Lemma closing_runs r : runs 0 Close warm (closing r).1 (closing r).2.
Proof. apply (ends_runs (answering r a1) Close warm tt). destruct r; vm_compute; reflexivity. Qed.

Lemma Close_exact_witness : held <$> w_pools warm !! "us" = Some (Some "c1") /\ held <$> w_pools (closing None).2 !! "us" = Some None.
Proof.
  split; [vm_compute; reflexivity|].
  destruct (Close_exact 0 warm _ _ (closing_runs None)) as [Hp _]. rewrite Hp, lookup_fmap.
  vm_compute. reflexivity.
Defined.

(** A service fails, and the service manager stops the services with the context
    it has cancelled: [Close] asks Docker to stop the cell, is refused, and
    empties the slot; the cell runs on and the controller no longer knows it. *)
Theorem cancelled_stop_leaves_cell :
  exists w', runs 0 Close warm tt w' /\ head (kills w') = Some ("c1", Some ErrForeign) /\
    held <$> w_pools w' !! "us" = Some None.
Proof.
  exists (closing (Some ErrForeign)).2. split; [|split; vm_compute; reflexivity].
  pose proof (closing_runs (Some ErrForeign)) as Hr. by destruct (closing (Some ErrForeign)).1.
Qed.
End ShutdownExamples.
