(* ===== verification/AppRun.v ===== *)
(** * The application ([internal/app/app.go])

    [App.Run] and [App.Stop] around the service manager of [ServiceRun], as one
    labelled transition system: the application's own goroutines take the steps
    below, and the service manager inside takes the steps of [fire].  The
    application context, the [sync.Once] of [Stop], the wait group and the error
    channel are state. *)

From Stdlib Require Import Wellfounded.
From S2P Require Import Prelude ServiceOrder ServiceRun.

(** What [App.Run] reports: the services could not be created, or the service
    manager's error. *)
Inductive app_error :=
  | ErrInstantiate
  | ErrServices (ret : run_result).

(** The error [ServiceManager.Run] returns, if any; wrapping no error gives none. *)
Definition manager_error (ret : run_result) : option app_error :=
  match ret with
  | RetNil | RetFailed None => None
  | ret => Some (ErrServices ret)
  end.

(** [App.Run]: not entered, running the pre-run hooks left, in its [select], and
    in its deferred calls: [Stop] before and after it cancelled the context,
    waiting for it, [wg.Wait], returned. *)
Inductive app_phase :=
  | AppFresh
  | AppPreRun (todo : list nat)
  | AppSelect
  | AppDefer (ret : option app_error)
  | AppDeferOnce (ret : option app_error)
  | AppStopWait (ret : option app_error)
  | AppJoin (ret : option app_error)
  | AppReturned (ret : option app_error).

(** The body of [App.Stop] under its [sync.Once]: calling
    [serviceManager.Stop], inside its own [sync.Once], waiting for the service
    manager's goroutine, running the post-stop hooks left, done. *)
Inductive app_stop :=
  | OnceFree
  | OnceCalled
  | OnceStopping
  | OnceWaiting
  | OnceHooks (todo : list nat)
  | OnceDone.

(** The one call of [App.Stop] from outside, by the runner: not made, past the
    cancellation, inside or past the [sync.Once]. *)
Inductive outside_call := NoCall | CallCancelled | CallEntered.

(** The goroutine that runs the service manager. *)
Inductive manager_goroutine := GoNone | GoRunning | GoDone.

Inductive app_event := PreRun (hook : nat) | ManagerUp | ManagerDown | PostStop (hook : nat).

Record app := mkApp {
  a_phase : app_phase;
  a_once : app_stop;
  a_outside : outside_call;
  a_goroutine : manager_goroutine;
  a_errCh : option app_error;
  (** the application context has ended; [Run] has stored its cancel function *)
  a_done : bool;
  a_cancel : bool;
  a_mgr : mgr;
  (** history, oldest first *)
  a_events : list app_event;
}.

Definition app_init : app := mkApp AppFresh OnceFree NoCall GoNone None false false init [].

Definition at_app (p : app_phase) (a : app) : app :=
  mkApp p (a_once a) (a_outside a) (a_goroutine a) (a_errCh a) (a_done a) (a_cancel a) (a_mgr a) (a_events a).
Definition at_once (o : app_stop) (a : app) : app :=
  mkApp (a_phase a) o (a_outside a) (a_goroutine a) (a_errCh a) (a_done a) (a_cancel a) (a_mgr a) (a_events a).
Definition at_mgr (m : mgr) (a : app) : app :=
  mkApp (a_phase a) (a_once a) (a_outside a) (a_goroutine a) (a_errCh a) (a_done a) (a_cancel a) m (a_events a).
Definition log_event (e : app_event) (a : app) : app :=
  mkApp (a_phase a) (a_once a) (a_outside a) (a_goroutine a) (a_errCh a) (a_done a) (a_cancel a) (a_mgr a) (a_events a ++ [e]).
Definition end_context (a : app) : app :=
  mkApp (a_phase a) (a_once a) (a_outside a) (a_goroutine a) (a_errCh a) true (a_cancel a) (a_mgr a) (a_events a).

Definition set_outside (c : outside_call) (a : app) : app :=
  mkApp (a_phase a) (a_once a) c (a_goroutine a) (a_errCh a) (a_done a) (a_cancel a) (a_mgr a) (a_events a).

(** The first part of [App.Stop]: cancel the context if [Run] has stored the
    cancel function. *)
Definition stop_cancel (a : app) : app := if a_cancel a then end_context a else a.
(** Its [sync.Once]. *)
Definition stop_once (a : app) : app :=
  match a_once a with OnceFree => at_once OnceCalled a | _ => a end.

(** The service manager's goroutine ends with an error or without one. *)
Definition manager_ends (err : option app_error) (a : app) : app :=
  log_event ManagerDown
    (mkApp (a_phase a) (a_once a) (a_outside a) GoDone
       (match err with Some e => Some e | None => a_errCh a end) (a_done a) (a_cancel a) (a_mgr a) (a_events a)).

Definition wait_group_free (a : app) : bool :=
  match a_goroutine a with GoRunning => false | _ => true end.

(** Steps of [ServiceManager.Run] itself. *)
Definition main_action (a : action) : bool :=
  match a with
  | AEnter | AResolve | AGroup | ALaunch | AWait _ | ASelectDone | ASelectErr
  | ADeferCancel | ADeferStop | AStopped | AJoin => true
  | _ => false
  end.

Inductive app_action :=
  (** environment: the parent context ends; [Stop] is called from outside; the
      factory of a service fails *)
  | BParentDone
  | BStopCall
  | BStopOnce
  | BInstantiateFails
  (** [App.Run] *)
  | BEnter
  | BPreRun
  | BLaunch
  | BSelectDone
  | BSelectErr
  | BDeferStop
  | BDeferOnce
  | BStopped
  | BJoin
  (** [App.Stop] *)
  | BManagerCancel
  | BManagerStop
  | BManagerStopped
  | BWaited
  | BPostStop
  (** the goroutine of the service manager *)
  | BManager (a : action)
  | BManagerReturns.

(** Who takes a step: the environment, [Run], or [Stop] and the service manager. *)
Inductive app_actor := ByEnvironment | ByRun | ByStop.
Definition actor_of (b : app_action) : app_actor :=
  match b with
  | BParentDone | BStopCall | BStopOnce | BInstantiateFails => ByEnvironment
  | BEnter | BPreRun | BLaunch | BSelectDone | BSelectErr | BDeferStop | BDeferOnce | BStopped | BJoin => ByRun
  | BManagerCancel | BManagerStop | BManagerStopped | BWaited | BPostStop | BManager _ | BManagerReturns => ByStop
  end.

Section app.
Context `{MO : MapOrder} (services : gmap string service).
(** The numbers of registered hooks. *)
Context (preRunHooks postStopHooks : nat).

Definition app_fire (b : app_action) (a : app) : option app :=
  match b with
  | BParentDone => if a_done a then None else Some (end_context a)
  | BStopCall =>
      match a_outside a with NoCall => Some (set_outside CallCancelled (stop_cancel a)) | _ => None end
  | BStopOnce =>
      match a_outside a with CallCancelled => Some (set_outside CallEntered (stop_once a)) | _ => None end
  | BInstantiateFails =>
      match a_goroutine a, at_phase (a_mgr a) with
      | GoRunning, Fresh => Some (manager_ends (Some ErrInstantiate) a)
      | _, _ => None
      end
  | BEnter =>
      match a_phase a with
      | AppFresh => Some (mkApp (AppPreRun (seq 0 preRunHooks)) (a_once a) (a_outside a) (a_goroutine a) (a_errCh a) (a_done a) true
                            (a_mgr a) (a_events a))
      | _ => None
      end
  | BPreRun =>
      match a_phase a with
      | AppPreRun (hook :: todo) => Some (log_event (PreRun hook) (at_app (AppPreRun todo) a))
      | _ => None
      end
  | BLaunch =>
      match a_phase a with
      | AppPreRun [] =>
          Some (log_event ManagerUp
            (mkApp AppSelect (a_once a) (a_outside a) GoRunning (a_errCh a) (a_done a) (a_cancel a) (a_mgr a) (a_events a)))
      | _ => None
      end
  | BSelectDone =>
      match a_phase a with
      | AppSelect => if a_done a then Some (at_app (AppDefer None) a) else None
      | _ => None
      end
  | BSelectErr =>
      match a_phase a, a_errCh a with
      | AppSelect, Some e => Some (at_app (AppDefer (Some e)) a)
      | _, _ => None
      end
  | BDeferStop =>
      match a_phase a with AppDefer ret => Some (stop_cancel (at_app (AppDeferOnce ret) a)) | _ => None end
  | BDeferOnce =>
      match a_phase a with AppDeferOnce ret => Some (stop_once (at_app (AppStopWait ret) a)) | _ => None end
  | BStopped =>
      match a_phase a, a_once a with
      | AppStopWait ret, OnceDone => Some (at_app (AppJoin ret) a)
      | _, _ => None
      end
  | BJoin =>
      match a_phase a with
      | AppJoin ret => if wait_group_free a then Some (at_app (AppReturned ret) a) else None
      | _ => None
      end
  | BManagerCancel =>
      match a_once a with
      | OnceCalled =>
          Some (at_once OnceStopping
            (if match at_phase (a_mgr a) with Fresh => true | _ => cancelled (a_mgr a) end then a
             else at_mgr (cancel (a_mgr a)) a))
      | _ => None
      end
  | BManagerStop =>
      match a_once a with
      | OnceStopping => m ← fire services AStopCall (a_mgr a); Some (at_mgr m a)
      | _ => None
      end
  | BManagerStopped =>
      match a_once a, stop (a_mgr a) with
      | OnceStopping, StopDone => Some (at_once OnceWaiting a)
      | _, _ => None
      end
  | BWaited =>
      match a_once a with
      | OnceWaiting => if wait_group_free a then Some (at_once (OnceHooks (seq 0 postStopHooks)) a) else None
      | _ => None
      end
  | BPostStop =>
      match a_once a with
      | OnceHooks (hook :: todo) => Some (log_event (PostStop hook) (at_once (OnceHooks todo) a))
      | OnceHooks [] => Some (at_once OnceDone a)
      | _ => None
      end
  | BManager x =>
      let ready := match x with
                   | ACancel => a_done a
                   | AStopCall => false
                   | x => if main_action x then negb (wait_group_free a) else true
                   end in
      if ready then m ← fire services x (a_mgr a); Some (at_mgr m a) else None
  | BManagerReturns =>
      match a_goroutine a, at_phase (a_mgr a) with
      | GoRunning, Returned ret => Some (manager_ends (manager_error ret) a)
      | _, _ => None
      end
  end.

Definition app_step (a a' : app) : Prop := exists b, app_fire b a = Some a'.
Definition app_reachable (a : app) : Prop := rtc app_step app_init a.

(** ** The service manager inside *)

Context (Hkeyed : keyed services).

(** Only [ServiceManager.Run] moves its own phase. *)
Lemma fire_phase x m m' :
  fire services x m = Some m' -> main_action x = false -> at_phase m' = at_phase m.
Proof.
  intros H Hx. destruct (of_goroutine x) as [name|] eqn:Ho.
  { destruct (goroutine_action services Hkeyed _ _ _ _ Ho H) as (t & t' & _ & _ & [Hp _ _ _ _ _ _ _ _]). exact Hp. }
  destruct x; try done; cbn [fire] in H.
  - by destruct (cancelled m); simplify_eq.
  - by case_bool_decide; simplify_eq.
  - unfold begin_stop in H. destruct (lock_held _); [done|]. by destruct (stop m); simplify_eq.
  - destruct (stop m) as [|todo current|]; try done. unfold stop_member in H. by case_bool_decide; simplify_eq.
  - destruct (stop m) as [|todo [|]|]; try done. simplify_eq. by destruct todo.
Qed.

Lemma cancel_step m : cancelled m = false -> mstep services m (cancel m).
Proof. intros Hc. exists ACancel. cbn. by rewrite Hc. Qed.

Definition app_return (p : app_phase) : option (option app_error) :=
  match p with
  | AppDefer ret | AppDeferOnce ret | AppStopWait ret | AppJoin ret | AppReturned ret => Some ret
  | _ => None
  end.

(** What the goroutine of the service manager has left behind. *)
Definition goroutine_state (a : app) : Prop :=
  match a_goroutine a with
  | GoNone => a_errCh a = None /\ at_phase (a_mgr a) = Fresh
  | GoRunning => a_errCh a = None
  | GoDone =>
      (a_errCh a = Some ErrInstantiate /\ at_phase (a_mgr a) = Fresh) \/
      (exists ret, at_phase (a_mgr a) = Returned ret /\ a_errCh a = manager_error ret)
  end.

Record app_inv (a : app) : Prop := {
  ai_mgr : reachable services (a_mgr a);
  ai_state : goroutine_state a;
  ai_launched : match a_phase a with
                | AppFresh | AppPreRun _ => a_goroutine a = GoNone
                | _ => a_goroutine a <> GoNone
                end;
  ai_cancel : a_phase a <> AppFresh -> a_cancel a = true;
  ai_return : forall e, app_return (a_phase a) = Some (Some e) -> a_errCh a = Some e;
  ai_stopped : match a_phase a with
               | AppDeferOnce _ => a_done a = true
               | AppStopWait _ => a_done a = true /\ a_once a <> OnceFree
               | AppJoin _ | AppReturned _ => a_done a = true /\ a_once a = OnceDone
               | _ => True
               end;
  ai_joined : match a_phase a with AppReturned _ => a_goroutine a = GoDone | _ => True end;
  ai_outside : a_outside a = CallEntered -> a_once a <> OnceFree;
}.

(** A step of the service manager that does not belong to its [Run]. *)
Lemma app_inv_mgr a m :
  app_inv a -> reachable services m ->
  (at_phase m = at_phase (a_mgr a) \/ a_goroutine a = GoRunning) -> app_inv (at_mgr m a).
Proof.
  intros [H1 H2 H3 H4 H5 H6 H7 H8] Hm Hp. constructor; try done.
  unfold goroutine_state in *. cbn. destruct (a_goroutine a) eqn:Hg; [|done|].
  - destruct Hp as [Hp|]; [|done]. by rewrite Hp.
  - destruct Hp as [Hp|]; [|done]. by rewrite Hp.
Qed.

(** The invariant is kept by the environment, by [Run], and by [Stop] and the
    service manager. *)
Lemma app_inv_environment b a a' : actor_of b = ByEnvironment -> app_inv a -> app_fire b a = Some a' -> app_inv a'.
Proof.
  intros Hwho Hi H. pose proof Hi as [H1 H2 H3 H4 H5 H6 H7 H8]. destruct b; try discriminate Hwho; cbn [app_fire] in H.
  - destruct (a_done a) eqn:Hd; simplify_eq. constructor; try done. cbn. destruct (a_phase a); naive_solver.
  - destruct (a_outside a); simplify_eq. unfold stop_cancel. destruct (a_cancel a) eqn:Hc; constructor; try done;
      cbn; try (by rewrite Hc); destruct (a_phase a); naive_solver.
  - destruct (a_outside a); simplify_eq. unfold stop_once.
    destruct (a_once a) eqn:Ho; constructor; cbn; try done; rewrite ?Ho; try done; destruct (a_phase a); naive_solver.
  - destruct (a_goroutine a) eqn:Hg; try done. destruct (at_phase (a_mgr a)) eqn:Hp; simplify_eq.
    unfold goroutine_state in H2. rewrite Hg in H2. constructor; try done.
    + left. done.
    + cbn. destruct (a_phase a); congruence.
    + intros e He. cbn in He. apply H5 in He. congruence.
    + cbn. by destruct (a_phase a).
Qed.

Lemma app_inv_run b a a' : actor_of b = ByRun -> app_inv a -> app_fire b a = Some a' -> app_inv a'.
Proof.
  intros Hwho Hi H. pose proof Hi as [H1 H2 H3 H4 H5 H6 H7 H8]. destruct b; try discriminate Hwho; cbn [app_fire] in H.
  - destruct (a_phase a) eqn:Hp; simplify_eq. by constructor.
  - destruct (a_phase a) as [|[|hook todo]| | | | | |] eqn:Hp; simplify_eq. constructor; try done. intros _. by apply H4.
  - destruct (a_phase a) as [|[|hook todo]| | | | | |] eqn:Hp; simplify_eq.
    unfold goroutine_state in H2. rewrite H3 in H2. destruct H2 as [H2 _]. constructor; try done. intros _. by apply H4.
  - destruct (a_phase a) eqn:Hp; try done. destruct (a_done a) eqn:Hd; simplify_eq. constructor; try done.
    intros _. by apply H4.
  - destruct (a_phase a) eqn:Hp; try done. destruct (a_errCh a) eqn:He; simplify_eq. constructor; try done.
    + intros _. by apply H4.
    + cbn. intros e' [= <-]. exact He.
  - destruct (a_phase a) eqn:Hp; simplify_eq. unfold stop_cancel. cbn. rewrite H4 by done. constructor; try done.
    cbn. intros _. by apply H4.
  - destruct (a_phase a) eqn:Hp; simplify_eq. unfold stop_once. cbn.
    destruct (a_once a) eqn:Ho; constructor; cbn; try done; rewrite ?Ho; try done; intros _; by apply H4.
  - destruct (a_phase a) eqn:Hp; try done. destruct (a_once a) eqn:Ho; simplify_eq. constructor; try done.
    + intros _. by apply H4.
    + cbn. split; [by apply H6|done].
    + cbn. congruence.
  - destruct (a_phase a) eqn:Hp; try done. destruct (wait_group_free a) eqn:Hw; simplify_eq. constructor; try done.
    + intros _. by apply H4.
    + cbn. unfold wait_group_free in Hw. by destruct (a_goroutine a).
Qed.

Lemma app_inv_stop b a a' : actor_of b = ByStop -> app_inv a -> app_fire b a = Some a' -> app_inv a'.
Proof.
  intros Hwho Hi H. pose proof Hi as [H1 H2 H3 H4 H5 H6 H7 H8]. destruct b; try discriminate Hwho; cbn [app_fire] in H.
  - destruct (a_once a) eqn:Ho; simplify_eq.
    assert (Hb : app_inv (at_once OnceStopping a)).
    { constructor; try done. cbn. destruct (a_phase a); naive_solver. }
    destruct (match at_phase (a_mgr a) with Fresh => true | _ => cancelled (a_mgr a) end) eqn:Hm; [done|].
    apply (app_inv_mgr (at_once OnceStopping a)); [done| |by left].
    eapply rtc_r; [exact H1|]. apply cancel_step. by destruct (at_phase (a_mgr a)).
  - destruct (a_once a) eqn:Ho; try done. apply bind_Some in H as (m & Hf & [= <-]).
    apply app_inv_mgr; [done|eapply rtc_r; [exact H1|by eexists]|]. left. by eapply fire_phase.
  - destruct (a_once a) eqn:Ho; try done. destruct (stop (a_mgr a)); simplify_eq. constructor; try done.
    cbn. destruct (a_phase a); naive_solver.
  - destruct (a_once a) eqn:Ho; try done. destruct (wait_group_free a); simplify_eq. constructor; try done.
    cbn. destruct (a_phase a); naive_solver.
  - destruct (a_once a) as [| | | |[|hook todo]|] eqn:Ho; simplify_eq; constructor; try done;
      cbn; destruct (a_phase a); naive_solver.
  - destruct (match a0 with ACancel => a_done a | AStopCall => false | _ => _ end) eqn:Hr; [|done].
    apply bind_Some in H as (m & Hf & [= <-]). apply app_inv_mgr; [done|eapply rtc_r; [exact H1|by eexists]|].
    destruct (main_action a0) eqn:Hx; [right|left; by eapply fire_phase].
    unfold wait_group_free in Hr. by destruct a0; try done; destruct (a_goroutine a).
  - destruct (a_goroutine a) eqn:Hg; try done. destruct (at_phase (a_mgr a)) eqn:Hp; simplify_eq.
    unfold goroutine_state in H2. rewrite Hg in H2. constructor; try done.
    + right. exists ret. split; [done|]. cbn. rewrite H2. by destruct (manager_error ret).
    + cbn. destruct (a_phase a); congruence.
    + intros e He. cbn in He. apply H5 in He. congruence.
    + cbn. by destruct (a_phase a).
Qed.

Lemma app_inv_step b a a' : app_inv a -> app_fire b a = Some a' -> app_inv a'.
Proof. destruct (actor_of b) eqn:Hb; [by apply app_inv_environment|by apply app_inv_run|by apply app_inv_stop]. Qed.

Lemma app_inv_init : app_inv app_init.
Proof. constructor; try done. apply rtc_refl. Qed.

Lemma app_reachable_inv a : app_reachable a -> app_inv a.
Proof.
  unfold app_reachable. generalize app_inv_init. generalize app_init as c. intros c Hi Hr.
  induction Hr as [|c c' a [b Hb] _ IH]; [done|]. by eapply IH, app_inv_step.
Qed.

(** ** Termination *)

Definition phase_steps (p : app_phase) : Z :=
  match p with
  | AppFresh => Z.of_nat preRunHooks + 10
  | AppPreRun todo => Z.of_nat (length todo) + 9
  | AppSelect => 6 | AppDefer _ => 5 | AppDeferOnce _ => 4 | AppStopWait _ => 3 | AppJoin _ => 2 | AppReturned _ => 1
  end.
Definition once_steps (o : app_stop) : Z :=
  match o with
  | OnceFree => Z.of_nat postStopHooks + 6 | OnceCalled => Z.of_nat postStopHooks + 5
  | OnceStopping => Z.of_nat postStopHooks + 4 | OnceWaiting => Z.of_nat postStopHooks + 3
  | OnceHooks todo => Z.of_nat (length todo) + 1 | OnceDone => 0
  end.
Definition outside_steps (c : outside_call) : Z := match c with NoCall => 2 | CallCancelled => 1 | CallEntered => 0 end.
Definition goroutine_steps (g : manager_goroutine) : Z := match g with GoNone => 2 | GoRunning => 1 | GoDone => 0 end.

Definition app_steps_left (a : app) : Z :=
  fuel_left services (a_mgr a) + phase_steps (a_phase a) + once_steps (a_once a) + outside_steps (a_outside a) +
  goroutine_steps (a_goroutine a) + (if a_done a then 0 else 1).

Lemma app_steps_nonneg a : (0 <= app_steps_left a)%Z.
Proof.
  unfold app_steps_left. pose proof (fuel_left_nonneg services (a_mgr a)).
  destruct (a_phase a), (a_once a), (a_outside a), (a_goroutine a), (a_done a);
    cbn [phase_steps once_steps outside_steps goroutine_steps]; lia.
Qed.

Lemma app_steps_mgr a m x :
  fire services x (a_mgr a) = Some m -> (app_steps_left (at_mgr m a) < app_steps_left a)%Z.
Proof. intros Hf%(fuel_step services Hkeyed). unfold app_steps_left. cbn. lia. Qed.

Lemma app_steps_once a : (app_steps_left (stop_once a) <= app_steps_left a)%Z.
Proof.
  unfold stop_once. destruct (a_once a) eqn:Ho; try lia. unfold app_steps_left. cbn. rewrite Ho. cbn. lia.
Qed.

Lemma app_steps_cancel a : (app_steps_left (stop_cancel a) <= app_steps_left a)%Z.
Proof. unfold stop_cancel. destruct (a_cancel a); [|lia]. unfold app_steps_left. cbn. destruct (a_done a); lia. Qed.

Ltac count_steps := unfold app_steps_left in *; cbn in *; repeat match goal with H : _ = _ |- _ => rewrite H in * end;
  cbn in *; rewrite ?length_seq in *; lia.

Lemma app_step_decreases b a a' : app_fire b a = Some a' -> (app_steps_left a' < app_steps_left a)%Z.
Proof.
  intros H. destruct b; cbn [app_fire] in H.
  - destruct (a_done a) eqn:Hd; simplify_eq. count_steps.
  - destruct (a_outside a) eqn:Ho; simplify_eq. pose proof (app_steps_cancel a).
    assert (Hout : a_outside (stop_cancel a) = NoCall) by (unfold stop_cancel; by destruct (a_cancel a)). count_steps.
  - destruct (a_outside a) eqn:Ho; simplify_eq. pose proof (app_steps_once a).
    assert (Hout : a_outside (stop_once a) = CallCancelled) by (unfold stop_once; by destruct (a_once a)). count_steps.
  - destruct (a_goroutine a) eqn:Hg; try done. destruct (at_phase (a_mgr a)); simplify_eq. count_steps.
  - destruct (a_phase a) eqn:Hp; simplify_eq. count_steps.
  - destruct (a_phase a) as [|[|hook todo]| | | | | |] eqn:Hp; simplify_eq. count_steps.
  - destruct (a_phase a) as [|[|hook todo]| | | | | |] eqn:Hp; simplify_eq.
    assert (0 <= goroutine_steps (a_goroutine a))%Z by (by destruct (a_goroutine a)). count_steps.
  - destruct (a_phase a) eqn:Hp; try done. destruct (a_done a) eqn:Hd; simplify_eq. count_steps.
  - destruct (a_phase a) eqn:Hp; try done. destruct (a_errCh a); simplify_eq. count_steps.
  - destruct (a_phase a) eqn:Hp; simplify_eq. pose proof (app_steps_cancel (at_app (AppDeferOnce ret) a)).
    assert (app_steps_left (at_app (AppDeferOnce ret) a) < app_steps_left a)%Z by count_steps. lia.
  - destruct (a_phase a) eqn:Hp; simplify_eq. pose proof (app_steps_once (at_app (AppStopWait ret) a)).
    assert (app_steps_left (at_app (AppStopWait ret) a) < app_steps_left a)%Z by count_steps. lia.
  - destruct (a_phase a) eqn:Hp; try done. destruct (a_once a) eqn:Ho; simplify_eq. count_steps.
  - destruct (a_phase a) eqn:Hp; try done. destruct (wait_group_free a); simplify_eq. count_steps.
  - destruct (a_once a) eqn:Ho; simplify_eq.
    assert (Hb : (app_steps_left (at_once OnceStopping a) < app_steps_left a)%Z) by count_steps.
    destruct (match at_phase (a_mgr a) with Fresh => true | _ => cancelled (a_mgr a) end) eqn:Hm; [exact Hb|].
    assert (Hc : cancelled (a_mgr a) = false) by (by destruct (at_phase (a_mgr a))).
    destruct (cancel_step (a_mgr a) Hc) as [x Hx]. apply (app_steps_mgr (at_once OnceStopping a)) in Hx.
    unfold app_steps_left in *. cbn in *. lia.
  - destruct (a_once a) eqn:Ho; try done. apply bind_Some in H as (m & Hf & [= <-]). by eapply app_steps_mgr.
  - destruct (a_once a) eqn:Ho; try done. destruct (stop (a_mgr a)); simplify_eq. count_steps.
  - destruct (a_once a) eqn:Ho; try done. destruct (wait_group_free a); simplify_eq. count_steps.
  - destruct (a_once a) as [| | | |[|hook todo]|] eqn:Ho; simplify_eq; count_steps.
  - destruct (match a0 with ACancel => a_done a | AStopCall => false | _ => _ end); [|done].
    apply bind_Some in H as (m & Hf & [= <-]). by eapply app_steps_mgr.
  - destruct (a_goroutine a) eqn:Hg; try done. destruct (at_phase (a_mgr a)); simplify_eq. count_steps.
Qed.

(** Every execution of the application ends: whatever the services, the
    hooks' goroutines, the runner and the scheduler do, there is no infinite
    sequence of steps of the application and the service manager inside it. *)
Theorem app_terminates : well_founded (fun a' a => app_step a a').
Proof.
  apply (wf_incl _ _ (fun a' a => (0 <= app_steps_left a' < app_steps_left a)%Z)).
  - intros a' a [b Hb]. split; [apply app_steps_nonneg|by eapply app_step_decreases].
  - apply (wf_projected (fun x y => (0 <= x < y)%Z) app_steps_left); [done|apply (Z.lt_wf 0)].
Qed.

(** ** Order of hooks and services *)

(** Histories in which [Stop] is not called before the services are launched. *)
Definition app_ostep (a a' : app) : Prop :=
  exists b, app_fire b a = Some a' /\ (b = BStopCall -> a_goroutine a <> GoNone).
Definition app_orderly (a : app) : Prop := rtc app_ostep app_init a.

Definition before_services : list app_event := (PreRun <$> seq 0 preRunHooks) ++ [ManagerUp].
Definition post_stop : list app_event := PostStop <$> seq 0 postStopHooks.

Definition early_stage (o : app_stop) : bool := match o with OnceHooks _ | OnceDone => false | _ => true end.

Definition history (a : app) : Prop :=
  match a_goroutine a with
  | GoNone =>
      a_once a = OnceFree /\ a_outside a = NoCall /\
      match a_phase a with
      | AppFresh => a_events a = []
      | AppPreRun todo => exists ran, seq 0 preRunHooks = ran ++ todo /\ a_events a = PreRun <$> ran
      | _ => True
      end
  | GoRunning => early_stage (a_once a) = true /\ a_events a = before_services
  | GoDone =>
      match a_once a with
      | OnceHooks todo => exists ran, seq 0 postStopHooks = ran ++ todo /\
          a_events a = before_services ++ ManagerDown :: (PostStop <$> ran)
      | OnceDone => a_events a = before_services ++ ManagerDown :: post_stop
      | _ => a_events a = before_services ++ [ManagerDown]
      end
  end.

Lemma history_ends err a : a_goroutine a = GoRunning -> history a -> history (manager_ends err a).
Proof.
  unfold history. intros Hg. rewrite Hg. intros [Hh He]. cbn. rewrite He. by destruct (a_once a).
Qed.

Lemma history_at_once o a :
  history a -> early_stage (a_once a) = true -> early_stage o = true -> a_goroutine a <> GoNone -> history (at_once o a).
Proof.
  unfold history. cbn. intros Hh He Ho Hg. destruct (a_goroutine a); [done|by destruct Hh|].
  by destruct (a_once a), o.
Qed.

Lemma history_at_app p a : history a -> a_goroutine a <> GoNone -> history (at_app p a).
Proof. unfold history. cbn. by destruct (a_goroutine a). Qed.

Lemma history_stop_once a : history a -> a_goroutine a <> GoNone -> history (stop_once a).
Proof. intros Hh Hg. unfold stop_once. destruct (a_once a) eqn:Ho; try done. apply history_at_once; by rewrite ?Ho. Qed.

(** [Stop] runs only after the services were launched. *)
Lemma history_launched a : history a -> a_once a <> OnceFree \/ a_outside a <> NoCall -> a_goroutine a <> GoNone.
Proof. unfold history. intros Hh Ho Hg. rewrite Hg in Hh. naive_solver. Qed.

(** The history is kept by the environment, by [Run], and by [Stop] and the
    service manager. *)
Lemma history_environment b a a' : actor_of b = ByEnvironment -> app_inv a -> history a -> app_fire b a = Some a' ->
  (b = BStopCall -> a_goroutine a <> GoNone) -> history a'.
Proof.
  intros Hk Hi H H0 Hb. destruct b; try discriminate Hk; cbn [app_fire] in H0.
  - destruct (a_done a); simplify_eq. exact H.
  - destruct (a_outside a) eqn:Ho; simplify_eq. specialize (Hb eq_refl). unfold history, stop_cancel in *.
    by destruct (a_cancel a); cbn; destruct (a_goroutine a).
  - destruct (a_outside a) eqn:Ho; simplify_eq.
    assert (Hg : a_goroutine a <> GoNone) by (apply history_launched; [done|right; congruence]).
    pose proof (history_stop_once a H Hg) as Hs. unfold history in *. cbn.
    assert (Hsame : a_goroutine (stop_once a) = a_goroutine a) by (unfold stop_once; by destruct (a_once a)).
    by destruct (a_goroutine (stop_once a)).
  - destruct (a_goroutine a) eqn:Hg; try done. destruct (at_phase (a_mgr a)); simplify_eq. by apply history_ends.
Qed.

Lemma history_run b a a' : actor_of b = ByRun -> app_inv a -> history a -> app_fire b a = Some a' ->
  (b = BStopCall -> a_goroutine a <> GoNone) -> history a'.
Proof.
  intros Hk Hi H H0 Hb. destruct b; try discriminate Hk; cbn [app_fire] in H0.
  - destruct (a_phase a) eqn:Hp; simplify_eq. unfold history in *. cbn. pose proof (ai_launched a Hi) as Hl.
    rewrite Hp in Hl. rewrite Hl in *. rewrite Hp in H. destruct H as (Ho & Hc & He). split_and!; [exact Ho|exact Hc|].
    by exists [].
  - destruct (a_phase a) as [|[|hook todo]| | | | | |] eqn:Hp; simplify_eq. pose proof (ai_launched a Hi) as Hl.
    rewrite Hp in Hl. unfold history in *. cbn. rewrite Hl in *. rewrite Hp in H. destruct H as (Ho & Hc & ran & Hr & He).
    split_and!; [exact Ho|exact Hc|]. exists (ran ++ [hook]). rewrite <- app_assoc, fmap_app, He. done.
  - destruct (a_phase a) as [|[|hook todo]| | | | | |] eqn:Hp; simplify_eq. pose proof (ai_launched a Hi) as Hl.
    rewrite Hp in Hl. unfold history in *. cbn. rewrite Hl, Hp in H. destruct H as (Ho & _ & ran & Hr & He).
    rewrite Ho. split; [done|]. unfold before_services. by rewrite He, Hr, app_nil_r.
  - destruct (a_phase a) eqn:Hp; try done. destruct (a_done a); simplify_eq. pose proof (ai_launched a Hi) as Hl.
    rewrite Hp in Hl. by apply history_at_app.
  - destruct (a_phase a) eqn:Hp; try done. destruct (a_errCh a); simplify_eq. pose proof (ai_launched a Hi) as Hl.
    rewrite Hp in Hl. by apply history_at_app.
  - destruct (a_phase a) eqn:Hp; simplify_eq. pose proof (ai_launched a Hi) as Hl. rewrite Hp in Hl.
    pose proof (history_at_app (AppDeferOnce ret) a H Hl) as Hh. unfold stop_cancel. by destruct (a_cancel _).
  - destruct (a_phase a) eqn:Hp; simplify_eq. pose proof (ai_launched a Hi) as Hl. rewrite Hp in Hl.
    by apply history_stop_once; [apply history_at_app|].
  - destruct (a_phase a) eqn:Hp; try done. destruct (a_once a) eqn:Ho; simplify_eq. pose proof (ai_launched a Hi) as Hl.
    rewrite Hp in Hl. by apply history_at_app.
  - destruct (a_phase a) eqn:Hp; try done. destruct (wait_group_free a); simplify_eq. pose proof (ai_launched a Hi) as Hl.
    rewrite Hp in Hl. by apply history_at_app.
Qed.

Lemma history_stop b a a' : actor_of b = ByStop -> app_inv a -> history a -> app_fire b a = Some a' ->
  (b = BStopCall -> a_goroutine a <> GoNone) -> history a'.
Proof.
  intros Hk Hi H H0 Hb. destruct b; try discriminate Hk; cbn [app_fire] in H0.
  - destruct (a_once a) eqn:Ho; simplify_eq.
    assert (Hb' : history (at_once OnceStopping a)).
    { apply history_at_once; rewrite ?Ho; try done. apply history_launched; [done|left; congruence]. }
    by destruct (match at_phase (a_mgr a) with Fresh => true | _ => cancelled (a_mgr a) end).
  - destruct (a_once a) eqn:Ho; try done. apply bind_Some in H0 as (m & _ & [= <-]). exact H.
  - destruct (a_once a) eqn:Ho; try done. destruct (stop (a_mgr a)); simplify_eq.
    apply history_at_once; rewrite ?Ho; try done. apply history_launched; [done|left; congruence].
  - destruct (a_once a) eqn:Ho; try done. destruct (wait_group_free a) eqn:Hw; simplify_eq. unfold history in *. cbn.
    rewrite Ho in H. unfold wait_group_free in Hw. destruct (a_goroutine a); [by destruct H|done|].
    exists []. by rewrite H.
  - destruct (a_once a) as [| | | |[|hook todo]|] eqn:Ho; simplify_eq; unfold history in *; cbn; rewrite Ho in H;
      destruct (a_goroutine a); try (by destruct H).
    + destruct H as (ran & Hr & He). rewrite He. unfold post_stop. by rewrite Hr, app_nil_r.
    + destruct H as (ran & Hr & He). exists (ran ++ [hook]). rewrite <- app_assoc. split; [done|].
      rewrite He, fmap_app, <- app_assoc. done.
  - destruct (match a0 with ACancel => a_done a | AStopCall => false | _ => _ end); [|done].
    apply bind_Some in H0 as (m & _ & [= <-]). exact H.
  - destruct (a_goroutine a) eqn:Hg; try done. destruct (at_phase (a_mgr a)); simplify_eq. by apply history_ends.
Qed.

Lemma history_step b a a' :
  app_inv a -> history a -> app_fire b a = Some a' -> (b = BStopCall -> a_goroutine a <> GoNone) -> history a'.
Proof. destruct (actor_of b) eqn:Hb; [by apply history_environment|by apply history_run|by apply history_stop]. Qed.

Lemma orderly_history a : app_orderly a -> app_inv a /\ history a.
Proof.
  unfold app_orderly. assert (Hi : app_inv app_init /\ history app_init) by (split; [apply app_inv_init|done]).
  revert Hi. generalize app_init as c. intros c Hi Hr.
  induction Hr as [|c c' a (b & Hb & Ho) _ IH]; [done|]. destruct Hi as [Hi Hh].
  apply IH. split; [by eapply app_inv_step|by eapply history_step].
Qed.

(** No service goroutine is left when the service manager's goroutine is not
    there. *)
Lemma goroutine_gone a : app_inv a -> a_goroutine a = GoDone -> all_exited (a_mgr a) = true.
Proof.
  intros Hi Hg. pose proof (ai_state a Hi) as Hs. unfold goroutine_state in Hs. rewrite Hg in Hs.
  destruct Hs as [[_ Hp]|(ret & Hp & _)].
  - apply all_exited_iff. intros n t Ht. exfalso.
    pose proof (reachable_started services Hkeyed _ (ai_mgr a Hi)) as Hst.
    assert (n ∈ launched (a_mgr a)) as Hn by (apply (started_tasks _ _ Hst); by exists t).
    pose proof (started_shape _ _ Hst) as Hsh. unfold startup in Hsh. rewrite Hp in Hsh. destruct Hsh as [_ Hl].
    rewrite Hl in Hn. by apply elem_of_nil in Hn.
  - by eapply (reachable_joined services Hkeyed _ (ai_mgr a Hi)).
Qed.

(** What an error of [App.Run] says. *)
Definition app_explains (a : app) (e : app_error) : Prop :=
  match e with
  | ErrInstantiate => launched (a_mgr a) = []
  | ErrServices ret => at_phase (a_mgr a) = Returned ret /\ explains services (a_mgr a) ret
  end.

Lemma error_explained a e : app_inv a -> a_errCh a = Some e -> app_explains a e.
Proof.
  intros Hi He. pose proof (ai_state a Hi) as Hs. unfold goroutine_state in Hs.
  destruct (a_goroutine a); [destruct Hs; congruence|congruence|]. destruct Hs as [[He' Hp]|(ret & Hp & He')].
  - assert (e = ErrInstantiate) as -> by congruence. cbn.
    pose proof (started_shape _ _ (reachable_started services Hkeyed _ (ai_mgr a Hi))) as Hsh.
    unfold startup in Hsh. rewrite Hp in Hsh. apply Hsh.
  - rewrite He in He'.
    assert (Hex : explains services (a_mgr a) ret).
    { apply (rep_return _ _ (reachable_reported services Hkeyed _ (ai_mgr a Hi))). by rewrite Hp. }
    destruct ret as [| |o|[f|]]; cbn in He'; simplify_eq; by split.
Qed.

(** C36. An application run is properly bracketed: when [App.Run] returns, and
    [Stop] was not called before the services were launched, every pre-run hook
    ran once, in order, before the services, every post-stop hook ran once, in
    order, after the last service goroutine was gone, and an error is the
    reason the services could not run or the first failure among them. *)
Theorem app_run_bracketed a ret :
  app_orderly a -> a_phase a = AppReturned ret ->
  a_events a = (PreRun <$> seq 0 preRunHooks) ++ [ManagerUp; ManagerDown] ++ (PostStop <$> seq 0 postStopHooks) /\
  all_exited (a_mgr a) = true /\
  (forall e, ret = Some e -> app_explains a e).
Proof.
  intros [Hi Hh]%orderly_history Hp. pose proof (ai_joined a Hi) as Hg. pose proof (ai_stopped a Hi) as Hs.
  rewrite Hp in Hg, Hs. destruct Hs as [_ Ho]. unfold history in Hh. rewrite Hg, Ho in Hh. split_and!.
  - rewrite Hh. unfold before_services. by rewrite <- app_assoc.
  - by apply goroutine_gone.
  - intros e ->. apply error_explained; [done|]. apply (ai_return a Hi). by rewrite Hp.
Qed.

(** ** Progress *)

(** Steps that need no service, caller or parent. *)
Definition app_own (b : app_action) : bool :=
  match b with
  | BParentDone | BStopCall | BInstantiateFails => false
  | BManager ACancel => true
  | BManager x => own_action x
  | _ => true
  end.
Definition app_enabled (a : app) : Prop := exists b a', app_own b = true /\ app_fire b a = Some a'.

Lemma app_enables b a a' : app_own b = true -> app_fire b a = Some a' -> app_enabled a.
Proof. intros. by exists b, a'. Qed.

(** While the goroutine of the service manager runs after the end of the context,
    it can go on, or return. *)
Lemma manager_enabled a :
  app_inv a -> a_done a = true -> a_goroutine a = GoRunning ->
  (forall n k, task_of n (a_mgr a) <> Some (Attempt k)) -> app_enabled a.
Proof.
  intros Hi Hd Hg Hatt. destruct (cancelled (a_mgr a)) eqn:Hc.
  - destruct (manager_moves services Hkeyed (a_mgr a) (ai_mgr a Hi)) as [[ret Hp]|(x & m & Hown & Hf)]; [by left|done| |].
    + eapply (app_enables BManagerReturns); [done|]. cbn. rewrite Hg, Hp. done.
    + eapply (app_enables (BManager x)); [by destruct x|]. cbn. unfold wait_group_free. rewrite Hg.
      destruct x; try done; cbn [main_action negb]; rewrite Hf; done.
  - eapply (app_enables (BManager ACancel)); [done|]. cbn. by rewrite Hd, Hc.
Qed.

Lemma goroutine_waited a :
  app_inv a -> a_done a = true -> (forall n k, task_of n (a_mgr a) <> Some (Attempt k)) ->
  wait_group_free a = true \/ app_enabled a.
Proof.
  intros Hi Hd Hatt. unfold wait_group_free. destruct (a_goroutine a) eqn:Hg; [by left| |by left].
  right. by apply manager_enabled.
Qed.

(** The stop never blocks. *)
Lemma stop_enabled a :
  app_inv a -> a_done a = true -> (forall n k, task_of n (a_mgr a) <> Some (Attempt k)) ->
  a_once a <> OnceFree -> a_once a = OnceDone \/ app_enabled a.
Proof.
  intros Hi Hd Hatt Hfree. destruct (a_once a) as [| | | |todo|] eqn:Ho; [done|right..|by left].
  - eapply (app_enables BManagerCancel); [done|]. cbn. by rewrite Ho.
  - destruct (stop (a_mgr a)) as [|todo current|] eqn:Hs.
    + destruct (lock_held (at_phase (a_mgr a))) eqn:Hl.
      * apply manager_enabled; try done. pose proof (ai_state a Hi) as Hst. unfold goroutine_state in Hst.
        destruct (a_goroutine a); [destruct Hst as [_ Hp]; by rewrite Hp in Hl|done|].
        destruct Hst as [[_ Hp]|(ret & Hp & _)]; by rewrite Hp in Hl.
      * eapply (app_enables BManagerStop); [done|]. cbn. rewrite Ho. unfold begin_stop. by rewrite Hl, Hs.
    + destruct current as [|svc current].
      * eapply (app_enables (BManager AStopNext)); [done|]. cbn. by rewrite Hs.
      * eapply (app_enables (BManager (AStopMember (Name svc)))); [done|]. cbn. rewrite Hs. unfold stop_member.
        rewrite bool_decide_eq_true_2; [done|]. rewrite fmap_cons. left.
    + eapply (app_enables BManagerStopped); [done|]. cbn. by rewrite Ho, Hs.
  - destruct (goroutine_waited a Hi Hd Hatt) as [Hw|]; [|done].
    eapply (app_enables BWaited); [done|]. cbn. by rewrite Ho, Hw.
  - destruct todo as [|hook todo]; (eapply (app_enables BPostStop); [done|]; cbn; by rewrite Ho).
Qed.

(** The shutdown of the application is never stuck: once its context has
    ended and no [Run] method of a service is still executing, [App.Run] has
    returned or some goroutine of the application or of the service manager can
    take another step; with termination, [App.Run] returns. *)
Theorem app_shutdown_progress a :
  app_reachable a -> a_done a = true ->
  (forall n k, task_of n (a_mgr a) <> Some (Attempt k)) ->
  (exists ret, a_phase a = AppReturned ret) \/ app_enabled a.
Proof.
  intros Hi%app_reachable_inv Hd Hatt. pose proof (ai_stopped a Hi) as Hs.
  destruct (a_phase a) as [|todo| |ret|ret|ret|ret|ret] eqn:Hp; [right..|by left; exists ret].
  - eapply (app_enables BEnter); [done|]. cbn. by rewrite Hp.
  - destruct todo as [|hook todo].
    + eapply (app_enables BLaunch); [done|]. cbn. by rewrite Hp.
    + eapply (app_enables BPreRun); [done|]. cbn. by rewrite Hp.
  - eapply (app_enables BSelectDone); [done|]. cbn. by rewrite Hp, Hd.
  - eapply (app_enables BDeferStop); [done|]. cbn. by rewrite Hp.
  - eapply (app_enables BDeferOnce); [done|]. cbn. by rewrite Hp.
  - destruct (stop_enabled a Hi Hd Hatt (proj2 Hs)) as [Ho|]; [|done].
    eapply (app_enables BStopped); [done|]. cbn. by rewrite Hp, Ho.
  - destruct (goroutine_waited a Hi Hd Hatt) as [Hw|]; [|done].
    eapply (app_enables BJoin); [done|]. cbn. by rewrite Hp, Hw.
Qed.
End app.

(** ** Concrete runs *)

Section replay.
Context `{MO : MapOrder} (services : gmap string service) (preRunHooks postStopHooks : nat).

Fixpoint app_fire_all (l : list app_action) (a : app) : option app :=
  match l with
  | [] => Some a
  | b :: l => match app_fire services preRunHooks postStopHooks b a with Some a' => app_fire_all l a' | None => None end
  end.

Lemma app_replay l a : app_fire_all l app_init = Some a -> app_reachable services preRunHooks postStopHooks a.
Proof.
  unfold app_reachable. generalize app_init. induction l as [|b l IH]; intros a0 H; cbn in H; [by simplify_eq; apply rtc_refl|].
  destruct (app_fire _ _ _ b a0) as [a1|] eqn:Hf; [|done]. eapply rtc_l; [by exists b|by apply IH].
Qed.

(** A replay without a call of [Stop] from outside. *)
Lemma app_replay_orderly l a :
  BStopCall ∉ l -> app_fire_all l app_init = Some a -> app_orderly services preRunHooks postStopHooks a.
Proof.
  unfold app_orderly. generalize app_init. induction l as [|b l IH]; intros a0 Hn H; cbn in H; [by simplify_eq; apply rtc_refl|].
  apply not_elem_of_cons in Hn as [Hb Hn]. destruct (app_fire _ _ _ b a0) as [a1|] eqn:Hf; [|done].
  eapply rtc_l; [|by apply IH]. exists b. split; [done|]. intros He. by destruct Hb.
Qed.
End replay.

Module AppExamples.
Import RunExamples.
#[local] Existing Instance canonical_order.

(** One hook on each side; the server fails and everything is stopped. *)
Definition failing_run : list app_action :=
  [BEnter; BPreRun; BLaunch] ++ (BManager <$> web_fails) ++
  [BManagerReturns; BSelectErr; BDeferStop; BDeferOnce; BManagerCancel; BManagerStopped; BWaited;
   BPostStop; BPostStop; BStopped; BJoin].
Definition failed_app : app := default app_init (app_fire_all pair 1 1 failing_run app_init).

Lemma failing_run_runs : app_fire_all pair 1 1 failing_run app_init = Some failed_app.
Proof. vm_compute. reflexivity. Qed.

Lemma failed_orderly : app_orderly pair 1 1 failed_app.
Proof.
  apply (app_replay_orderly pair 1 1 failing_run); [|exact failing_run_runs].
  unfold failing_run. rewrite !elem_of_app, list_elem_of_fmap. intros [H|[(x & ? & _)|H]]; [|done|];
    repeat (apply elem_of_cons in H as [H|H]; [done|]); by apply elem_of_nil in H.
Qed.

Lemma app_run_bracketed_witness :
  a_events failed_app = [PreRun 0; ManagerUp; ManagerDown; PostStop 0] /\
  all_exited (a_mgr failed_app) = true /\
  app_explains pair failed_app (ErrServices (RetFailed (Some (ErrServicePanic "nil map")))).
Proof.
  destruct (app_run_bracketed pair 1 1 pair_keyed failed_app
    (Some (ErrServices (RetFailed (Some (ErrServicePanic "nil map"))))) failed_orderly) as (He & Hx & Herr);
    [vm_compute; reflexivity|].
  split; [exact He|]. split; [exact Hx|]. by apply Herr.
Defined.

Lemma app_terminates_witness : keyed pair /\ well_founded (fun a' a => app_step pair 1 1 a a').
Proof. split; [exact pair_keyed|exact (app_terminates pair 1 1 pair_keyed)]. Defined.

(** The context ends while the database is starting, and its [Run] returns. *)
Definition interrupted_run : list app_action :=
  [BEnter; BLaunch; BParentDone] ++
  (BManager <$> [AEnter; AResolve; AGroup; ALaunch; ATask "db"; ALaunch; AReturn "db" RunNil]).
Definition interrupted : app := default app_init (app_fire_all pair 0 0 interrupted_run app_init).

Lemma interrupted_reachable : app_reachable pair 0 0 interrupted.
Proof. apply (app_replay pair 0 0 interrupted_run). vm_compute. reflexivity. Qed.

Lemma interrupted_idle n k : task_of n (a_mgr interrupted) <> Some (Attempt k).
Proof.
  assert (Ht : tasks (a_mgr interrupted) = {["db" := Exited]}) by (vm_compute; reflexivity).
  unfold task_of. rewrite Ht. intros [_ ?]%lookup_singleton_Some. done.
Qed.

Lemma app_shutdown_progress_witness :
  (exists ret, a_phase interrupted = AppReturned ret) \/ app_enabled pair 0 0 interrupted.
Proof.
  apply (app_shutdown_progress pair 0 0 pair_keyed interrupted interrupted_reachable).
  - vm_compute. reflexivity.
  - exact interrupted_idle.
Defined.

(** A service that is never attempted makes the service manager return without
    an error: the application then waits for its context with no service left. *)
Definition idle_run : list app_action :=
  [BEnter; BLaunch] ++
  (BManager <$> [AEnter; AResolve; AGroup; ALaunch; ATask "never"; ALaunch; AWait CaseReady; AWait CaseReady;
                 ATask "never"; ATask "never"; AGroup; ASelectErr; ADeferCancel; ADeferStop; AStopNext;
                 AStopMember "never"; AStopNext; AStopped; AJoin]) ++
  [BManagerReturns].

Theorem app_idles_without_services :
  exists a, app_reachable (OrderExamples.table [never]) 0 0 a /\
    a_phase a = AppSelect /\ a_goroutine a = GoDone /\ a_errCh a = None /\ a_done a = false.
Proof.
  exists (default app_init (app_fire_all (OrderExamples.table [never]) 0 0 idle_run app_init)). split.
  - apply (app_replay _ 0 0 idle_run). vm_compute. reflexivity.
  - vm_compute. auto.
Qed.
End AppExamples.
