(* ===== verification/Runner.v ===== *)
(** * The process runner ([pkg/runner/runner.go])

    [RunContext] over anything with a [Run] and a [Stop]: the goroutine that
    runs the application, the [select] that waits for a reason to stop, and the
    graceful shutdown with its deadline.  The theorems hold for every [Runnable]
    whose returned calls stay returned; the application of [AppRun] is one. *)

From S2P Require Import Prelude ServiceOrder ServiceRun AppRun.

(** ** The interface *)

(** What the runner sees of an application: its own steps, the end of the
    context it was given, the call of its [Stop], and what its [Run] and [Stop]
    have returned. *)
Record Runnable (E : Type) := mkRunnable {
  rb_state : Type;
  rb_action : Type;
  rb_init : rb_state;
  rb_fire : rb_action -> rb_state -> option rb_state;
  rb_cancel : rb_state -> rb_state;
  rb_stop : rb_state -> rb_state;
  rb_run : rb_state -> option (option E);
  rb_stopped : rb_state -> option (option E);
}.
Arguments mkRunnable {E}.
Arguments rb_state {E}.
Arguments rb_action {E}.
Arguments rb_init {E}.
Arguments rb_fire {E}.
Arguments rb_cancel {E}.
Arguments rb_stop {E}.
Arguments rb_run {E}.
Arguments rb_stopped {E}.

Definition rb_moves {E} (R : Runnable E) (s s' : rb_state R) : Prop :=
  s' = rb_cancel R s \/ s' = rb_stop R s \/ exists x, rb_fire R x s = Some s'.

(** A call that has returned stays returned. *)
Class RunnableLaws {E} (R : Runnable E) := {
  run_stays : forall s s' v, rb_moves R s s' -> rb_run R s = Some v -> rb_run R s' = Some v;
  stopped_stays : forall s s' v, rb_moves R s s' -> rb_stopped R s = Some v -> rb_stopped R s' = Some v;
}.

(** ** The runner *)

Inductive runner_error (E : Type) :=
  | RunApplication (e : E)
  | StopApplication (shutdownErr : option (runner_error E)) (e : E)
  | ErrShutdownTimeout
  | ErrShutdown (shutdownErr : option (runner_error E)).
Arguments RunApplication {E}.
Arguments StopApplication {E}.
Arguments ErrShutdownTimeout {E}.
Arguments ErrShutdown {E}.

Inductive context_error := DeadlineExceeded | Canceled.

(** [handleShutdownTimeout], by the error of the shutdown context. *)
Definition handleShutdownTimeout {E} (err : option context_error) (shutdownErr : option (runner_error E)) :
    option (runner_error E) :=
  match err with
  | None => shutdownErr
  | Some DeadlineExceeded => Some ErrShutdownTimeout
  | Some Canceled => Some (ErrShutdown shutdownErr)
  end.

(** The main goroutine: in [waitForShutdown], in [gracefulShutdown], returned. *)
Inductive runner_phase (E : Type) :=
  | Waiting
  | ShuttingDown (shutdownErr : option (runner_error E))
  | Finished (result : option (runner_error E)).
Arguments Waiting {E}.
Arguments ShuttingDown {E}.
Arguments Finished {E}.

(** [runApp]: inside [Run], value sent, channel closed, [wg.Done]. *)
Inductive run_goroutine := RunActive | RunSent | RunClosed | RunDone.
#[global] Instance run_goroutine_eq_dec : EqDecision run_goroutine.
Proof. solve_decision. Defined.

(** The goroutine of [Stop]: not there, created, inside, returned, [wg.Done]. *)
Inductive stop_goroutine := StopIdle | StopCreated | StopActive | StopReturned | StopOver.

Section runner.
Context {E : Type} (R : Runnable E).

Record runner := mkRunner {
  r_phase : runner_phase E;
  r_app : rb_state R;
  r_run : run_goroutine;
  r_stop : stop_goroutine;
  (** the error channel, with its value until it is received *)
  r_errCh : option (option E);
  r_sigCh : bool;
  r_ctx : bool;
  r_stopErrCh : option E;
  r_doneCh : bool;
  r_expired : bool;
}.

Definition runner_init : runner :=
  mkRunner Waiting (rb_init R) RunActive StopIdle None false false None false false.

Definition with_app (s : rb_state R) (r : runner) : runner :=
  mkRunner (r_phase r) s (r_run r) (r_stop r) (r_errCh r) (r_sigCh r) (r_ctx r) (r_stopErrCh r) (r_doneCh r) (r_expired r).
Definition with_run (g : run_goroutine) (ch : option (option E)) (r : runner) : runner :=
  mkRunner (r_phase r) (r_app r) g (r_stop r) ch (r_sigCh r) (r_ctx r) (r_stopErrCh r) (r_doneCh r) (r_expired r).
Definition with_stop (g : stop_goroutine) (ch : option E) (r : runner) : runner :=
  mkRunner (r_phase r) (r_app r) (r_run r) g (r_errCh r) (r_sigCh r) (r_ctx r) ch (r_doneCh r) (r_expired r).
Definition with_flags (sig ctx done expired : bool) (r : runner) : runner :=
  mkRunner (r_phase r) (r_app r) (r_run r) (r_stop r) (r_errCh r) sig ctx (r_stopErrCh r) done expired.
Definition with_phase (p : runner_phase E) (r : runner) : runner :=
  mkRunner p (r_app r) (r_run r) (r_stop r) (r_errCh r) (r_sigCh r) (r_ctx r) (r_stopErrCh r) (r_doneCh r) (r_expired r).

(** The start of [gracefulShutdown]: the goroutine of [Stop] is created. *)
Definition gracefulShutdown (shutdownErr : option (runner_error E)) (r : runner) : runner :=
  mkRunner (ShuttingDown shutdownErr) (r_app r) (r_run r) StopCreated (r_errCh r) (r_sigCh r) (r_ctx r)
    (r_stopErrCh r) (r_doneCh r) (r_expired r).

(** What [waitForShutdown] makes of a value of the error channel. *)
Definition applicationError (v : option E) : option (runner_error E) := RunApplication <$> v.

Inductive runner_action :=
  (** environment: a signal, the end of the parent context, the deadline *)
  | CSignal
  | CParent
  | CExpire
  (** the application *)
  | CApp (x : rb_action R)
  (** the goroutine of [Run] *)
  | CRunReturns
  | CRunClose
  | CRunDone
  (** [waitForShutdown] *)
  | CTakeContext
  | CTakeSignal
  | CTakeError
  (** the goroutine of [Stop], and the one that waits for both *)
  | CStopCall
  | CStopReturns
  | CStopDone
  | CAllDone
  (** the [select] of [gracefulShutdown] *)
  | CTakeStopError
  | CTakeExpired
  | CTakeDone.

(** Who takes a step: the application and its goroutine, the goroutine that
    waits for the shutdown, or a goroutine of the shutdown. *)
Inductive runner_actor := ByApplication | ByWait | ByShutdown.
Definition runner_actor_of (c : runner_action) : runner_actor :=
  match c with
  | CSignal | CParent | CExpire | CApp _ | CRunReturns | CRunClose | CRunDone => ByApplication
  | CTakeContext | CTakeSignal | CTakeError | CTakeStopError | CTakeExpired | CTakeDone => ByWait
  | CStopCall | CStopReturns | CStopDone | CAllDone => ByShutdown
  end.

Definition runner_fire (c : runner_action) (r : runner) : option runner :=
  match c with
  | CSignal => if r_sigCh r then None else Some (with_flags true (r_ctx r) (r_doneCh r) (r_expired r) r)
  | CParent =>
      if r_ctx r then None
      else Some (with_app (rb_cancel R (r_app r)) (with_flags (r_sigCh r) true (r_doneCh r) (r_expired r) r))
  | CExpire =>
      match r_phase r with
      | ShuttingDown _ => if r_expired r then None
                          else Some (with_flags (r_sigCh r) (r_ctx r) (r_doneCh r) true r)
      | _ => None
      end
  | CApp x => s ← rb_fire R x (r_app r); Some (with_app s r)
  | CRunReturns =>
      match r_run r, rb_run R (r_app r) with
      | RunActive, Some v => Some (with_run RunSent (Some v) r)
      | _, _ => None
      end
  | CRunClose => match r_run r with RunSent => Some (with_run RunClosed (r_errCh r) r) | _ => None end
  | CRunDone => match r_run r with RunClosed => Some (with_run RunDone (r_errCh r) r) | _ => None end
  | CTakeContext =>
      match r_phase r with
      | Waiting => if r_ctx r then Some (gracefulShutdown None r) else None
      | _ => None
      end
  | CTakeSignal =>
      match r_phase r with
      | Waiting => if r_sigCh r
                   then Some (gracefulShutdown None (with_flags false (r_ctx r) (r_doneCh r) (r_expired r) r)) else None
      | _ => None
      end
  | CTakeError =>
      match r_phase r, r_errCh r with
      | Waiting, Some v => Some (gracefulShutdown (applicationError v) (with_run (r_run r) None r))
      | _, _ => None
      end
  | CStopCall =>
      match r_stop r with
      | StopCreated => Some (with_app (rb_stop R (r_app r)) (with_stop StopActive (r_stopErrCh r) r))
      | _ => None
      end
  | CStopReturns =>
      match r_stop r, rb_stopped R (r_app r) with
      | StopActive, Some v => Some (with_stop StopReturned v r)
      | _, _ => None
      end
  | CStopDone => match r_stop r with StopReturned => Some (with_stop StopOver (r_stopErrCh r) r) | _ => None end
  | CAllDone =>
      match r_phase r, r_run r, r_stop r with
      | Waiting, _, _ => None
      | _, RunDone, StopOver => if r_doneCh r then None
                                else Some (with_flags (r_sigCh r) (r_ctx r) true (r_expired r) r)
      | _, _, _ => None
      end
  | CTakeStopError =>
      match r_phase r, r_stopErrCh r with
      | ShuttingDown shutdownErr, Some e => Some (with_phase (Finished (Some (StopApplication shutdownErr e))) r)
      | _, _ => None
      end
  | CTakeExpired =>
      match r_phase r with
      | ShuttingDown shutdownErr =>
          if r_expired r
          then Some (with_phase (Finished (handleShutdownTimeout (Some DeadlineExceeded) shutdownErr)) r) else None
      | _ => None
      end
  | CTakeDone =>
      match r_phase r with
      | ShuttingDown shutdownErr =>
          if r_doneCh r then Some (with_phase (Finished shutdownErr) r) else None
      | _ => None
      end
  end.

Definition runner_step (r r' : runner) : Prop := exists c, runner_fire c r = Some r'.
Definition runner_reachable (r : runner) : Prop := rtc runner_step runner_init r.

(** ** What the runner returns *)

Context `{L : !RunnableLaws R}.

(** The reason for the shutdown: none, or what [Run] returned. *)
Definition reason (r : runner) (shutdownErr : option (runner_error E)) : Prop :=
  match shutdownErr with
  | None => True
  | Some (RunApplication e) => rb_run R (r_app r) = Some (Some e)
  | _ => False
  end.

Definition outcome (r : runner) (result : option (runner_error E)) : Prop :=
  match result with
  | Some (StopApplication shutdownErr e) => reason r shutdownErr /\ rb_stopped R (r_app r) = Some (Some e)
  | Some ErrShutdownTimeout => r_expired r = true
  | Some (ErrShutdown _) => False
  | result =>
      reason r result /\ is_Some (rb_run R (r_app r)) /\ is_Some (rb_stopped R (r_app r)) /\
      r_run r = RunDone /\ r_stop r = StopOver
  end.

(** What holds of the main goroutine. *)
Definition phase_ok (r : runner) : Prop :=
  match r_phase r with
  | Waiting => r_stop r = StopIdle
  | ShuttingDown shutdownErr => r_stop r <> StopIdle /\ reason r shutdownErr
  | Finished result => r_stop r <> StopIdle /\ outcome r result
  end.

Record runner_inv (r : runner) : Prop := {
  ri_run : r_run r <> RunActive -> is_Some (rb_run R (r_app r));
  ri_errCh : forall v, r_errCh r = Some v -> rb_run R (r_app r) = Some v;
  ri_stop : r_stop r = StopReturned \/ r_stop r = StopOver -> is_Some (rb_stopped R (r_app r));
  ri_stopErr : forall e, r_stopErrCh r = Some e -> rb_stopped R (r_app r) = Some (Some e);
  ri_done : r_doneCh r = true -> r_run r = RunDone /\ r_stop r = StopOver;
  ri_waiting : r_phase r = Waiting -> r_run r <> RunActive -> r_errCh r <> None;
  ri_phase : phase_ok r;
}.

Lemma phase_ok_frame r r' :
  phase_ok r -> r_phase r' = r_phase r -> r_app r' = r_app r ->
  (r_expired r = true -> r_expired r' = true) -> (r_run r = RunDone -> r_run r' = RunDone) ->
  (r_stop r = StopOver -> r_stop r' = StopOver) -> (r_stop r' = StopIdle <-> r_stop r = StopIdle) -> phase_ok r'.
Proof.
  unfold phase_ok. intros H Hp Ha Hx Hr Hs Hi. rewrite Hp. destruct (r_phase r) as [|e|result].
  - by apply Hi.
  - destruct H as [Hn He]. split; [by rewrite Hi|]. unfold reason in *. by rewrite Ha.
  - destruct H as [Hn Ho]. split; [by rewrite Hi|]. unfold outcome, reason in *. rewrite Ha.
    destruct result as [[]|]; try done; try (by apply Hx); destruct Ho as (? & ? & ? & ? & ?); split_and!; auto.
Qed.

(** The application moves under the runner. *)
Lemma runner_inv_app s r : runner_inv r -> rb_moves R (r_app r) s -> runner_inv (with_app s r).
Proof.
  intros [H1 H2 H3 H4 H5 H7 H6] Hm.
  assert (Hrun : forall v, rb_run R (r_app r) = Some v -> rb_run R s = Some v) by (intros v; by apply run_stays).
  assert (Hstop : forall v, rb_stopped R (r_app r) = Some v -> rb_stopped R s = Some v) by (intros v; by apply stopped_stays).
  assert (Hrun' : is_Some (rb_run R (r_app r)) -> is_Some (rb_run R s)) by (intros [v Hv]; eauto).
  assert (Hstop' : is_Some (rb_stopped R (r_app r)) -> is_Some (rb_stopped R s)) by (intros [v Hv]; eauto).
  assert (Hreason : forall e, reason r e -> reason (with_app s r) e).
  { intros [[]|]; cbn; eauto. }
  constructor; cbn; eauto. unfold phase_ok in *. cbn. destruct (r_phase r) as [|e|result]; [done| |].
  - destruct H6 as [? ?]. split; [done|by apply Hreason].
  - destruct H6 as [? Ho]. split; [done|]. unfold outcome in *. cbn.
    destruct result as [[e|e1 e| |e1]|]; try done; [|destruct Ho; split; auto|];
      (destruct Ho as (? & ? & ? & ? & ?); split_and!; auto).
Qed.

(** The invariant is kept by the application, by the goroutine that waits, and by
    those of the shutdown. *)
Lemma runner_inv_application c r r' :
  runner_actor_of c = ByApplication -> runner_inv r -> runner_fire c r = Some r' -> runner_inv r'.
Proof.
  intros Hb Hi H. pose proof Hi as [H1 H2 H3 H4 H5 H7 H6]. destruct c; try discriminate Hb; cbn [runner_fire] in H.
  - destruct (r_sigCh r); simplify_eq. by constructor.
  - destruct (r_ctx r); simplify_eq. apply runner_inv_app; [|by left]. by constructor.
  - destruct (r_phase r) eqn:Hp; try done. destruct (r_expired r) eqn:Hx; simplify_eq. constructor; try done.
    + cbn. congruence.
    + by apply (phase_ok_frame r).
  - apply bind_Some in H as (s & Hs & [= <-]). apply runner_inv_app; [done|]. right. right. eauto.
  - destruct (r_run r) eqn:Hr; try done. destruct (rb_run R (r_app r)) as [v|] eqn:Hv; simplify_eq.
    constructor; cbn; try done.
    + intros v' [= <-]. exact Hv.
    + intros Hd. destruct (H5 Hd). congruence.
    + apply (phase_ok_frame r); try done. by rewrite Hr.
  - destruct (r_run r) eqn:Hr; simplify_eq. constructor; cbn; try done; [intros _; by apply H1| |intros ? _; by apply H7|].
    + intros Hd. destruct (H5 Hd). congruence.
    + apply (phase_ok_frame r); try done. by rewrite Hr.
  - destruct (r_run r) eqn:Hr; simplify_eq. constructor; cbn; try done; [intros _; by apply H1| |intros ? _; by apply H7|].
    + intros Hd. destruct (H5 Hd). congruence.
    + by apply (phase_ok_frame r).
Qed.

Lemma runner_inv_wait c r r' :
  runner_actor_of c = ByWait -> runner_inv r -> runner_fire c r = Some r' -> runner_inv r'.
Proof.
  intros Hb Hi H. pose proof Hi as [H1 H2 H3 H4 H5 H7 H6]. destruct c; try discriminate Hb; cbn [runner_fire] in H.
  - unfold phase_ok in H6. destruct (r_phase r) eqn:Hp; try done. destruct (r_ctx r); simplify_eq.
    constructor; cbn; try done; [by intros [?|?]|]. intros Hd. destruct (H5 Hd). congruence.
  - unfold phase_ok in H6. destruct (r_phase r) eqn:Hp; try done. destruct (r_sigCh r); simplify_eq.
    constructor; cbn; try done; [by intros [?|?]|]. intros Hd. destruct (H5 Hd). congruence.
  - unfold phase_ok in H6. destruct (r_phase r) eqn:Hp; try done. destruct (r_errCh r) as [v|] eqn:Hv; simplify_eq.
    constructor; cbn; try done; [by intros [?|?]|intros Hd; destruct (H5 Hd); congruence|].
    split; [done|]. destruct v as [e|]; [|done]. cbn. by apply H2.
  - unfold phase_ok in H6. destruct (r_phase r) eqn:Hp; try done. destruct (r_stopErrCh r) eqn:Hv; simplify_eq.
    constructor; cbn; try done; [by rewrite Hv|]. destruct H6. split; [done|]. split; [done|]. by apply H4.
  - unfold phase_ok in H6. destruct (r_phase r) eqn:Hp; try done. destruct (r_expired r) eqn:Hx; simplify_eq.
    constructor; cbn; try done. by destruct H6.
  - unfold phase_ok in H6. destruct (r_phase r) eqn:Hp; try done. destruct (r_doneCh r) eqn:Hd; simplify_eq.
    destruct (H5 eq_refl) as [Hrun Hstop]. constructor; cbn; try done. destruct H6 as [H6 Hreason]. split; [done|].
    assert (Hboth : is_Some (rb_run R (r_app r)) /\ is_Some (rb_stopped R (r_app r))).
    { split; [apply H1; congruence|apply H3; by right]. }
    destruct Hboth. destruct shutdownErr as [[]|]; cbn in *; try done; split_and!; done.
Qed.

Lemma runner_inv_shutdown c r r' :
  runner_actor_of c = ByShutdown -> runner_inv r -> runner_fire c r = Some r' -> runner_inv r'.
Proof.
  intros Hb Hi H. pose proof Hi as [H1 H2 H3 H4 H5 H7 H6]. destruct c; try discriminate Hb; cbn [runner_fire] in H.
  - destruct (r_stop r) eqn:Hs; simplify_eq. apply runner_inv_app; [|right; by left]. constructor; cbn; try done.
    + by intros [?|?].
    + intros Hd. destruct (H5 Hd). congruence.
    + apply (phase_ok_frame r); try done; by rewrite Hs.
  - destruct (r_stop r) eqn:Hs; try done. destruct (rb_stopped R (r_app r)) as [v|] eqn:Hv; simplify_eq.
    constructor; cbn; try done.
    + intros e ->. exact Hv.
    + intros Hd. destruct (H5 Hd). congruence.
    + apply (phase_ok_frame r); try done; by rewrite Hs.
  - destruct (r_stop r) eqn:Hs; simplify_eq. constructor; cbn; try done.
    + intros _. apply H3. by left.
    + intros Hd. destruct (H5 Hd). congruence.
    + apply (phase_ok_frame r); try done; by rewrite Hs.
  - destruct (r_phase r) eqn:Hp; try done; destruct (r_run r) eqn:Hr; try done; destruct (r_stop r) eqn:Hs; try done;
      destruct (r_doneCh r); simplify_eq; (constructor; cbn; rewrite ?Hp, ?Hr, ?Hs; try done; by apply (phase_ok_frame r)).
Qed.

Lemma runner_inv_step c r r' : runner_inv r -> runner_fire c r = Some r' -> runner_inv r'.
Proof.
  destruct (runner_actor_of c) eqn:Hb; [by apply runner_inv_application|by apply runner_inv_wait|by apply runner_inv_shutdown].
Qed.

Lemma runner_reachable_inv r : runner_reachable r -> runner_inv r.
Proof.
  assert (Hi : runner_inv runner_init) by by constructor; cbn; try done; intros [?|?].
  unfold runner_reachable. revert Hi. generalize runner_init as r0. intros r0 Hi Hr.
  induction Hr as [|r0 r1 r [c Hc] _ IH]; [done|]. by eapply IH, runner_inv_step.
Qed.

(** What the process reports is what happened: unless the shutdown deadline
    passed, [Run] and [Stop] of the application have both returned when the
    runner returns without a stop error, and an error is the one [Run] returned,
    joined with the one [Stop] returned. *)
Theorem runner_reports r result :
  runner_reachable r -> r_phase r = Finished result -> outcome r result.
Proof.
  intros Hi%runner_reachable_inv Hp. pose proof (ri_phase r Hi) as H. unfold phase_ok in H. rewrite Hp in H. apply H.
Qed.

(** ** Progress *)

(** The runner's own steps. *)
Definition runner_own (c : runner_action) : bool :=
  match c with CSignal | CParent | CExpire | CApp _ => false | _ => true end.
Definition runner_enabled (r : runner) : Prop := exists c r', runner_own c = true /\ runner_fire c r = Some r'.

(** The runner has what it waits for: a reason to stop, and then the deadline
    or the return of both calls (or it has not called [Stop] yet). *)
Definition runner_due (r : runner) : Prop :=
  match r_phase r with
  | Waiting => r_ctx r = true \/ r_sigCh r = true \/ is_Some (rb_run R (r_app r))
  | ShuttingDown _ =>
      r_expired r = true \/ r_stop r = StopCreated \/
      (is_Some (rb_run R (r_app r)) /\ is_Some (rb_stopped R (r_app r)))
  | Finished _ => False
  end.

Lemma enabled_by c r r' : runner_own c = true -> runner_fire c r = Some r' -> runner_enabled r.
Proof. intros. by exists c, r'. Qed.

Lemma run_goroutine_moves r :
  is_Some (rb_run R (r_app r)) -> r_run r <> RunDone -> runner_enabled r.
Proof.
  intros [v Hv] Hd. destruct (r_run r) eqn:Hr; [| | |done].
  - eapply (enabled_by CRunReturns); [done|]. cbn. by rewrite Hr, Hv.
  - eapply (enabled_by CRunClose); [done|]. cbn. by rewrite Hr.
  - eapply (enabled_by CRunDone); [done|]. cbn. by rewrite Hr.
Qed.

(** The runner never waits for nothing: when it is due it can take a step of
    its own; in particular no signal, error or deadline is missed, and the
    return of both calls always lets it finish. *)
Theorem runner_progress r : runner_reachable r -> runner_due r -> runner_enabled r.
Proof.
  intros Hi%runner_reachable_inv Hdue. pose proof (ri_phase r Hi) as Hp. unfold runner_due, phase_ok in *.
  destruct (r_phase r) as [|shutdownErr|result] eqn:Hph; [| |done].
  - destruct Hdue as [Hc|[Hs|Hr]].
    + eapply (enabled_by CTakeContext); [done|]. cbn. by rewrite Hph, Hc.
    + eapply (enabled_by CTakeSignal); [done|]. cbn. by rewrite Hph, Hs.
    + destruct (r_errCh r) as [v|] eqn:Hv.
      * eapply (enabled_by CTakeError); [done|]. cbn. by rewrite Hph, Hv.
      * apply run_goroutine_moves; [done|]. intros Hd. by apply (ri_waiting r Hi Hph); [congruence|].
  - destruct Hdue as [Hx|[Hs|[Hr Hs]]].
    + eapply (enabled_by CTakeExpired); [done|]. cbn. by rewrite Hph, Hx.
    + eapply (enabled_by CStopCall); [done|]. cbn. by rewrite Hs.
    + destruct (decide (r_run r = RunDone)) as [Hd|Hd]; [|by apply run_goroutine_moves].
      destruct Hp as [Hni _], Hs as [v Hs]. destruct (r_stop r) eqn:Hst; [done| | | |].
      * eapply (enabled_by CStopCall); [done|]. cbn. by rewrite Hst.
      * eapply (enabled_by CStopReturns); [done|]. cbn. by rewrite Hst, Hs.
      * eapply (enabled_by CStopDone); [done|]. cbn. by rewrite Hst.
      * destruct (r_doneCh r) eqn:Hdone.
        -- eapply (enabled_by CTakeDone); [done|]. cbn. by rewrite Hph, Hdone.
        -- eapply (enabled_by CAllDone); [done|]. cbn. by rewrite Hph, Hd, Hst, Hdone.
Qed.
End runner.

(** ** The application under the runner *)

Section process.
Context `{MO : MapOrder} (services : gmap string service) (preRunHooks postStopHooks : nat).
Context (Hkeyed : keyed services).

Definition app_runnable : Runnable app_error :=
  mkRunnable app app_action app_init
    (fun b a => match b with
                | BParentDone | BStopCall => None
                | b => app_fire services preRunHooks postStopHooks b a
                end)
    end_context
    (fun a => default a (app_fire services preRunHooks postStopHooks BStopCall a))
    (fun a => match a_phase a with AppReturned ret => Some ret | _ => None end)
    (fun a => match a_outside a, a_once a with CallEntered, OnceDone => Some None | _, _ => None end).

Lemma app_returned_stays b a a' ret :
  app_fire services preRunHooks postStopHooks b a = Some a' -> a_phase a = AppReturned ret -> a_phase a' = AppReturned ret.
Proof.
  intros H Hp. destruct b; cbn [app_fire] in H; rewrite ?Hp in H; try done;
    repeat (case_match; try done); simplify_eq; try done;
    try (apply bind_Some in H as (m & _ & [= <-]); done).
  - unfold stop_cancel. by destruct (a_cancel a).
  - unfold stop_once. by destruct (a_once a).
Qed.

Lemma app_stopped_stays b a a' :
  app_fire services preRunHooks postStopHooks b a = Some a' -> a_outside a = CallEntered -> a_once a = OnceDone ->
  a_outside a' = CallEntered /\ a_once a' = OnceDone.
Proof.
  intros H Ho Hd. destruct b; cbn [app_fire] in H; rewrite ?Ho, ?Hd in H; try done;
    repeat (case_match; try done); simplify_eq; try done;
    try (apply bind_Some in H as (m & _ & [= <-]); done).
  - unfold stop_cancel. cbn. by destruct (a_cancel a).
  - unfold stop_once. cbn. by rewrite Hd.
Qed.

#[global] Instance app_laws : RunnableLaws app_runnable.
Proof.
  assert (Hcases : forall (s s' : app), rb_moves app_runnable s s' ->
    s' = end_context s \/ s' = s \/ exists b, app_fire services preRunHooks postStopHooks b s = Some s').
  { intros s s' [->|[->|[x Hx]]]; [by left| |].
    - right. cbn [rb_stop app_runnable]. destruct (app_fire _ _ _ BStopCall s) eqn:E; [right; eauto|by left].
    - right. right. exists x. by destruct x. }
  split.
  - intros s s' v Hm. cbn. destruct (a_phase s) eqn:Hp; try done. intros [= <-].
    destruct (Hcases s s' Hm) as [->|[->|[b Hb]]]; [cbn; by rewrite Hp|by rewrite Hp|].
    by rewrite (app_returned_stays _ _ _ _ Hb Hp).
  - intros s s' v Hm. cbn. destruct (a_outside s) eqn:Ho; try done. destruct (a_once s) eqn:Hd; try done. intros Hv.
    destruct (Hcases s s' Hm) as [->|[->|[b Hb]]]; [cbn; by rewrite Ho, Hd|by rewrite Ho, Hd|].
    by destruct (app_stopped_stays _ _ _ Hb Ho Hd) as [-> ->].
Qed.

(** Under the runner the application takes its own steps only. *)
Lemma process_app r :
  runner_reachable app_runnable r -> app_reachable services preRunHooks postStopHooks (r_app app_runnable r).
Proof.
  unfold runner_reachable, app_reachable.
  assert (Hi : rtc (app_step services preRunHooks postStopHooks) app_init (r_app app_runnable (runner_init app_runnable)))
    by apply rtc_refl.
  revert Hi. generalize (runner_init app_runnable) as r0. intros r0 Hi Hr.
  induction Hr as [|r0 r1 r [c Hc] _ IH]; [done|]. apply IH. clear IH.
  assert (Hmove : r_app app_runnable r1 = r_app app_runnable r0 \/
    exists b, app_fire services preRunHooks postStopHooks b (r_app app_runnable r0) = Some (r_app app_runnable r1)).
  { destruct c; cbn [runner_fire] in Hc.
    all: try (repeat (case_match; try done); simplify_eq; by left).
    - destruct (r_ctx _ r0); simplify_eq. destruct (a_done (r_app app_runnable r0)) eqn:Hd.
      + left. cbn. destruct (r_app app_runnable r0). cbn in Hd. by subst.
      + right. exists BParentDone. cbn. by rewrite Hd.
    - apply bind_Some in Hc as (s & Hs & [= <-]). right. exists x. cbn in *. by destruct x.
    - destruct (r_stop _ r0); simplify_eq. cbn [rb_stop app_runnable r_app with_app].
      destruct (app_fire _ _ _ BStopCall _) eqn:E; [right; by exists BStopCall|by left]. }
  destruct Hmove as [->|[b Hb]]; [done|]. eapply rtc_r; [done|by exists b].
Qed.

(** C34. A process that ends in time leaves nothing behind: when the runner
    returns anything but a shutdown timeout, [App.Run] and [App.Stop] have
    returned, the service manager is down and no service goroutine is left, and
    a reported error is the reason the services could not run or the first
    failure among them. *)
Theorem process_exit r result :
  runner_reachable app_runnable r -> r_phase app_runnable r = Finished result -> result <> Some ErrShutdownTimeout ->
  let a := r_app app_runnable r in
  (exists ret, a_phase a = AppReturned ret) /\ a_once a = OnceDone /\ a_goroutine a = GoDone /\
  all_exited (a_mgr a) = true /\
  (result = None \/ exists e, result = Some (RunApplication e) /\ app_explains services a e).
Proof.
  intros Hr Hp Hne a. pose proof (process_app r Hr) as Ha.
  pose proof (app_reachable_inv services preRunHooks postStopHooks Hkeyed a Ha) as Hi.
  pose proof (ri_phase _ r (runner_reachable_inv app_runnable r Hr)) as Ho. unfold phase_ok in Ho. rewrite Hp in Ho.
  destruct Ho as [_ Ho].
  assert (Hstop : rb_stopped app_runnable a <> None -> rb_stopped app_runnable a = Some None).
  { cbn. by destruct (a_outside a), (a_once a). }
  assert (Hboth : reason app_runnable r result /\ is_Some (rb_run app_runnable a) /\ is_Some (rb_stopped app_runnable a)).
  { destruct result as [[e|e1 e| |e1]|]; try done; [by destruct Ho as (? & ? & ? & _)| |by destruct Ho as (? & ? & ? & _)].
    destruct Ho as [_ Ho]. fold a in Ho. exfalso. rewrite Hstop in Ho; congruence. }
  destruct Hboth as (Hreason & [ret Hrun] & [v Hv]). cbn in Hrun, Hv.
  destruct (a_phase a) as [| | | | | | |ret'] eqn:Hph; try done. injection Hrun as ->.
  assert (Hg : a_goroutine a = GoDone) by (pose proof (ai_joined _ _ Hi) as H; by rewrite Hph in H).
  split_and!; [by exists ret| |done|by eapply goroutine_gone|].
  - pose proof (ai_stopped _ _ Hi) as H. rewrite Hph in H. apply H.
  - destruct result as [[e|e1 e| |e1]|]; try done; [right|by left]. exists e. split; [done|]. cbn in Hreason. fold a in Hreason.
    rewrite Hph in Hreason. injection Hreason as ->.
    eapply error_explained; [done|done|]. apply (ai_return _ _ Hi). by rewrite Hph.
Qed.
End process.

(** ** Concrete runs *)

Section replay.
Context {E : Type} (R : Runnable E).

Fixpoint runner_fire_all (l : list (runner_action R)) (r : runner R) : option (runner R) :=
  match l with
  | [] => Some r
  | c :: l => match runner_fire R c r with Some r' => runner_fire_all l r' | None => None end
  end.

Lemma runner_replay l r : runner_fire_all l (runner_init R) = Some r -> runner_reachable R r.
Proof.
  unfold runner_reachable. generalize (runner_init R). induction l as [|c l IH]; intros r0 H; cbn in H; [by simplify_eq; apply rtc_refl|].
  destruct (runner_fire R c r0) as [r1|] eqn:Hf; [|done]. eapply rtc_l; [by exists c|by apply IH].
Qed.

(** The end of a replay. *)
Definition replayed (l : list (runner_action R)) : runner R :=
  default (runner_init R) (runner_fire_all l (runner_init R)).
Definition replays (l : list (runner_action R)) : bool :=
  match runner_fire_all l (runner_init R) with Some _ => true | None => false end.

Lemma replayed_reachable l : replays l = true -> runner_reachable R (replayed l).
Proof.
  unfold replays, replayed. destruct (runner_fire_all l _) as [r|] eqn:Hr; [|done]. intros _. by apply (runner_replay l).
Qed.
End replay.

Module RunnerExamples.
Import RunExamples AppExamples.
#[local] Existing Instance canonical_order.

Definition process : Runnable app_error := app_runnable pair 1 1.

(** The application fails by itself and the process shuts down. *)
Definition failing_process : list (runner_action process) :=
  (CApp process <$> failing_run) ++
  [CRunReturns process; CTakeError process; CStopCall process; CApp process BStopOnce; CRunClose process;
   CStopReturns process; CRunDone process; CStopDone process; CAllDone process; CTakeDone process].
Definition failed_process : runner process := replayed process failing_process.

Lemma failed_process_reachable : runner_reachable process failed_process.
Proof. apply replayed_reachable. vm_compute. reflexivity. Qed.

Definition web_error : app_error := ErrServices (RetFailed (Some (ErrServicePanic "nil map"))).

Lemma runner_reports_witness : outcome process failed_process (Some (RunApplication web_error)).
Proof. apply (runner_reports process failed_process); [exact failed_process_reachable|vm_compute; reflexivity]. Defined.

Lemma process_exit_witness :
  a_goroutine (r_app process failed_process) = GoDone /\ app_explains pair (r_app process failed_process) web_error.
Proof.
  destruct (process_exit pair 1 1 pair_keyed failed_process (Some (RunApplication web_error)) failed_process_reachable)
    as (_ & _ & Hg & _ & Hres); [vm_compute; reflexivity|done|].
  split; [exact Hg|]. destruct Hres as [?|(e & [= <-] & He)]; [done|exact He].
Defined.

Lemma runner_progress_witness :
  runner_enabled process (replayed process [CSignal process]).
Proof.
  apply (runner_progress process).
  - apply replayed_reachable. vm_compute. reflexivity.
  - right. left. vm_compute. reflexivity.
Defined.

(** A signal before [App.Run] has stored its cancel function: [Stop] finds
    nothing to cancel and uses up its [sync.Once]; the services then start, and
    the process ends by the deadline while they are still running. *)
Definition early_signal : list (runner_action process) :=
  [CSignal process; CTakeSignal process; CStopCall process] ++
  (CApp process <$> [BStopOnce; BManagerCancel; BManagerStop; BManager AStopNext; BManagerStopped; BWaited;
                     BPostStop; BPostStop]) ++
  [CStopReturns process; CStopDone process] ++
  (CApp process <$> [BEnter; BPreRun; BLaunch; BManager AEnter; BManager AResolve; BManager AGroup;
                     BManager ALaunch; BManager (ATask "db"); BManager ALaunch; BManager (ASignal "db");
                     BManager (AWait CaseReady); BManager (AWait CaseReady); BManager AGroup]) ++
  [CExpire process; CTakeExpired process].

Theorem early_signal_times_out :
  exists r, runner_reachable process r /\
    r_phase process r = Finished (Some ErrShutdownTimeout) /\
    a_done (r_app process r) = false /\ a_once (r_app process r) = OnceDone /\
    task_of "db" (a_mgr (r_app process r)) = Some (Attempt 0) /\ stopped (a_mgr (r_app process r)) = [].
Proof.
  exists (replayed process early_signal). split.
  - apply replayed_reachable. vm_compute. reflexivity.
  - vm_compute. auto 10.
Qed.

(** An application whose [Run] returns at once and whose [Stop] fails. *)
Definition stop_fails : Runnable string :=
  mkRunnable bool unit false (fun _ _ => None) (fun s => s) (fun _ => true)
    (fun _ => Some None) (fun s => if s then Some (Some "cannot stop") else None).

(** Both channels of [gracefulShutdown] can be ready, and its [select] may take
    the one that drops the error of [Stop]. *)
Theorem stop_error_can_be_lost :
  exists r, runner_reachable stop_fails r /\
    r_phase stop_fails r = Finished None /\ r_stopErrCh stop_fails r = Some "cannot stop".
Proof.
  pose (l := [CRunReturns stop_fails; CTakeError stop_fails; CStopCall stop_fails; CStopReturns stop_fails;
              CRunClose stop_fails; CRunDone stop_fails; CStopDone stop_fails; CAllDone stop_fails; CTakeDone stop_fails]).
  exists (replayed stop_fails l). split.
  - apply replayed_reachable. vm_compute. reflexivity.
  - vm_compute. auto.
Qed.
End RunnerExamples.
