(* ===== verification/Cobra.v ===== *)
(** * The command line library ([src/vendor/github.com/spf13/{cobra,pflag}])

    The part of the vendored cobra and pflag that the process uses: a tree of
    commands with string and bool flags, how [Find] walks it, how [Parse] reads
    flags, and what [ExecuteC] then does.  What a command does is a value of the
    type [action]; printing help, usage and suggestions is not modelled. *)

From S2P Require Import Prelude GoStrings.

(** A flag; a bool flag has the [NoOptDefVal] "true", a string flag none. *)
Inductive flagKind := StringFlag | BoolFlag.

#[global] Instance flagKind_eq_dec : EqDecision flagKind.
Proof. solve_decision. Defined.

Record flag := mkFlag { flag_name : string; flag_shorthand : option ascii; flag_kind : flagKind }.

#[global] Instance flag_eq_dec : EqDecision flag.
Proof. solve_decision. Defined.

Definition NoOptDefVal (f : flag) : string := match flag_kind f with StringFlag => "" | BoolFlag => "true" end.

Definition flag_lookup (name : string) (fs : list flag) : option flag :=
  List.find (fun f => String.eqb (flag_name f) name) fs.
Definition shorthand_lookup (c : ascii) (fs : list flag) : option flag :=
  List.find (fun f => match flag_shorthand f with Some c' => byte_eqb c c' | None => false end) fs.

(** ** Commands *)

(** The [Args] field: unset, [NoArgs], or [MinimumNArgs(1)]. *)
Inductive positionalArgs := ArgsUnset | NoArgs | MinimumOne.

Inductive Command (action : Type) := mkCommand {
  cmd_name : string;
  cmd_aliases : list string;
  cmd_args : positionalArgs;
  cmd_flags : list flag;
  cmd_disableFlagParsing : bool;
  cmd_run : option action;
  cmd_commands : list (Command action);
}.
Arguments mkCommand {_}.
Arguments cmd_name {_}.
Arguments cmd_aliases {_}.
Arguments cmd_args {_}.
Arguments cmd_flags {_}.
Arguments cmd_disableFlagParsing {_}.
Arguments cmd_run {_}.
Arguments cmd_commands {_}.

Inductive cli_error :=
  | ErrHelp
  | UnknownCommand (arg : string)
  | TooFewArgs
  | InvalidSyntax (arg : string)
  | UnknownFlag (name : string)
  | ValueRequired (name : string)
  | InvalidValue (name value : string).

(** ** Finding the command *)

(** [hasNoOptDefVal] and [shortHasNoOptDefVal]. *)
Definition hasNoOptDefVal (name : string) (fs : list flag) : bool :=
  match flag_lookup name fs with Some f => negb (String.eqb (NoOptDefVal f) "") | None => false end.
Definition shortHasNoOptDefVal (name : string) (fs : list flag) : bool :=
  match name with
  | "" => false
  | String c _ => match shorthand_lookup c fs with Some f => negb (String.eqb (NoOptDefVal f) "") | None => false end
  end.

(** The two cases in which the next argument is taken for the value of a flag. *)
Definition takes_next (s : string) (fs : list flag) : bool :=
  (has_prefix "--" s && negb (contains s "=") && negb (hasNoOptDefVal (string_drop 2 s) fs)) ||
  (has_prefix "-" s && negb (contains s "=") && Nat.eqb (String.length s) 2
     && negb (shortHasNoOptDefVal (string_drop 1 s) fs)).

(** [stripFlags]. *)
Fixpoint stripFlags (args : list string) (fs : list flag) : list string :=
  match args with
  | [] => []
  | s :: args =>
      if String.eqb s "--" then []
      else if takes_next s fs then
        match args with [] | [_] => [] | _ :: args => stripFlags args fs end
      else if negb (String.eqb s "") && negb (has_prefix "-" s) then s :: stripFlags args fs
      else stripFlags args fs
  end.

(** [argsMinusFirstX]. *)
Fixpoint argsMinusFirstX (args : list string) (x : string) (fs : list flag) : list string :=
  match args with
  | [] => []
  | s :: rest =>
      if String.eqb s "--" then args
      else if takes_next s fs then
        match rest with [] => args | v :: rest' => s :: v :: argsMinusFirstX rest' x fs end
      else if negb (has_prefix "-" s) && String.eqb s x then rest
      else s :: argsMinusFirstX rest x fs
  end.

Section commands.
Context {action : Type}.
Implicit Types c : Command action.

Definition called (c : Command action) (next : string) : bool :=
  String.eqb (cmd_name c) next || bool_decide (next ∈ cmd_aliases c).

(** [innerfind] of [Find], with the first command of the path that was entered
    ([false] while still at the root). *)
Fixpoint innerfind (c : Command action) (child : bool) (args : list string) : Command action * bool * list string :=
  match stripFlags args (cmd_flags c) with
  | [] => (c, child, args)
  | next :: _ =>
      (fix findNext (cs : list (Command action)) : Command action * bool * list string :=
         match cs with
         | [] => (c, child, args)
         | cmd :: cs => if called cmd next then innerfind cmd true (argsMinusFirstX args next (cmd_flags c)) else findNext cs
         end) (cmd_commands c)
  end.

Lemma innerfind_stop c child args : stripFlags args (cmd_flags c) = [] -> innerfind c child args = (c, child, args).
Proof. destruct c. cbn [innerfind cmd_flags]. by intros ->. Qed.

Lemma innerfind_none c child args next more :
  stripFlags args (cmd_flags c) = next :: more -> Forall (fun x => called x next = false) (cmd_commands c) ->
  innerfind c child args = (c, child, args).
Proof.
  destruct c as [n al ar fs dis run cs]. cbn [innerfind cmd_flags cmd_commands]. intros -> Hall.
  set (found := mkCommand n al ar fs dis run cs). clearbody found.
  induction Hall as [|x cs' Hx _ IH]; [done|]. by rewrite Hx.
Qed.

(** [legacyArgs]. *)
Definition legacyArgs (c : Command action) (hasParent : bool) (args : list string) : option cli_error :=
  match cmd_commands c, args with
  | [], _ => None
  | _, arg :: _ => if hasParent then None else Some (UnknownCommand arg)
  | _, [] => None
  end.

(** [Find]. *)
Definition Find (root : Command action) (args : list string) : result cli_error (Command action * list string) :=
  let '(c, child, a) := innerfind root false args in
  match cmd_args c with
  | ArgsUnset =>
      match legacyArgs c child (stripFlags a (cmd_flags c)) with Some e => Err e | None => Ok (c, a) end
  | _ => Ok (c, a)
  end.
End commands.

(** ** Parsing flags ([pflag]) *)

Inductive flagValue := StringValue (s : string) | BoolValue (b : bool).

#[global] Instance flagValue_eq_dec : EqDecision flagValue.
Proof. solve_decision. Defined.

(** [strconv.ParseBool]. *)
Definition parseBool (s : string) : option bool :=
  if bool_decide (s ∈ ["1"; "t"; "T"; "TRUE"; "true"; "True"]) then Some true
  else if bool_decide (s ∈ ["0"; "f"; "F"; "FALSE"; "false"; "False"]) then Some false
  else None.

Abbreviation flagSet := (gmap string flagValue) (only parsing).

(** [Set]. *)
Definition set_flag (f : flag) (value : string) (vals : flagSet) : result cli_error flagSet :=
  match flag_kind f with
  | StringFlag => Ok (<[flag_name f := StringValue value]> vals)
  | BoolFlag =>
      match parseBool value with
      | Some b => Ok (<[flag_name f := BoolValue b]> vals)
      | None => Err (InvalidValue (flag_name f) value)
      end
  end.

(** [parseLongArg]: the flags left after [s], and the new values. *)
Definition parseLongArg (fs : list flag) (s : string) (args : list string) (vals : flagSet) :
    result cli_error (list string * flagSet) :=
  let name := string_drop 2 s in
  if String.eqb name "" || has_prefix "-" name || has_prefix "=" name then Err (InvalidSyntax s)
  else
    let '(name, value, assigned) := cut name "=" in
    match flag_lookup name fs with
    | None => Err (if String.eqb name "help" then ErrHelp else UnknownFlag name)
    | Some f =>
        if assigned then vals ← set_flag f value vals; Ok (args, vals)
        else if negb (String.eqb (NoOptDefVal f) "") then vals ← set_flag f (NoOptDefVal f) vals; Ok (args, vals)
        else match args with
             | value :: args => vals ← set_flag f value vals; Ok (args, vals)
             | [] => Err (ValueRequired name)
             end
    end.

(** The loop of [parseShortArg]: every letter starts again from the same
    arguments, and the ones the last letter left are kept. *)
Fixpoint parseShortArg (fuel : nat) (fs : list flag) (shorthands : string) (args a : list string) (vals : flagSet) :
    result cli_error (list string * flagSet) :=
  match fuel, shorthands with
  | O, _ | _, "" => Ok (a, vals)
  | S fuel, String c rest =>
      if has_prefix "test." shorthands then Ok (args, vals)
      else
        match shorthand_lookup c fs with
        | None => Err (if byte_eqb c "h" then ErrHelp else UnknownFlag (String c ""))
        | Some f =>
            if Nat.ltb 2 (String.length shorthands) && has_prefix "=" rest
            then vals ← set_flag f (string_drop 1 rest) vals; Ok (args, vals)
            else if negb (String.eqb (NoOptDefVal f) "")
            then vals ← set_flag f (NoOptDefVal f) vals; parseShortArg fuel fs rest args args vals
            else if negb (String.eqb rest "") then vals ← set_flag f rest vals; Ok (args, vals)
            else match args with
                 | value :: args' => vals ← set_flag f value vals; Ok (args', vals)
                 | [] => Err (ValueRequired (String c ""))
                 end
        end
  end.

(** [parseArgs], with the positional arguments collected so far.  Every round
    drops at least one argument. *)
Fixpoint parseArgs (fuel : nat) (fs : list flag) (args positional : list string) (vals : flagSet) :
    result cli_error (list string * flagSet) :=
  match fuel, args with
  | O, _ | _, [] => Ok (positional, vals)
  | S fuel, s :: args =>
      if negb (has_prefix "-" s) || String.eqb s "-" then parseArgs fuel fs args (positional ++ [s]) vals
      else if String.eqb s "--" then Ok (positional ++ args, vals)
      else
        rest ← (if has_prefix "--" s then parseLongArg fs s args vals
                else parseShortArg (String.length s) fs (string_drop 1 s) args args vals);
        parseArgs fuel fs rest.1 positional rest.2
  end.

Definition Parse (fs : list flag) (args : list string) : result cli_error (list string * flagSet) :=
  parseArgs (length args) fs args [] ∅.

(** ** Executing *)

Definition helpFlag : flag := mkFlag "help" (Some "h"%char) BoolFlag.

(** What [ExecuteC] comes to: help is shown (and no error is returned), an error
    of the command line, or the command's [Run] with the positional arguments
    and the flags that were set. *)
Inductive execution (action : Type) :=
  | Helped
  | Rejected (e : cli_error)
  | Invoked (a : action) (args : list string) (vals : flagSet).
Arguments Helped {_}.
Arguments Rejected {_}.
Arguments Invoked {_}.

Section execute.
Context {action : Type}.

(** [ValidateArgs]. *)
Definition ValidateArgs (c : Command action) (args : list string) : option cli_error :=
  match cmd_args c, args with
  | NoArgs, arg :: _ => Some (UnknownCommand arg)
  | MinimumOne, [] => Some TooFewArgs
  | _, _ => None
  end.

(** [InitDefaultHelpFlag]. *)
Definition with_help (fs : list flag) : list flag :=
  match flag_lookup "help" fs with Some _ => fs | None => fs ++ [helpFlag] end.

(** [execute]. *)
Definition execute (c : Command action) (a : list string) : execution action :=
  match (if cmd_disableFlagParsing c then Ok (a, ∅) else Parse (with_help (cmd_flags c)) a) with
  | Err ErrHelp => Helped
  | Err e => Rejected e
  | Ok (args, vals) =>
      if decide (vals !! "help" = Some (BoolValue true)) then Helped
      else match cmd_run c with
           | None => Helped
           | Some run => match ValidateArgs c args with Some e => Rejected e | None => Invoked run args vals end
           end
  end.

(** [ExecuteC] of a root command to which the default commands were added. *)
Definition ExecuteC (root : Command action) (args : list string) : execution action :=
  match Find root args with
  | Err e => Rejected e
  | Ok (c, a) => execute c a
  end.
End execute.

(** ** Flags on a command line

    A flag and its value, written [--name=value] or [--name value]; a bool flag
    may stand alone. *)

Inductive writing := Joined | Separate | Alone.
Record given := mkGiven { g_flag : flag; g_value : string; g_writing : writing }.

Definition render (g : given) : list string :=
  let name := "--" +:+ flag_name (g_flag g) in
  match g_writing g with
  | Joined => [name +:+ "=" +:+ g_value g]
  | Separate => [name; g_value g]
  | Alone => [name]
  end.

(** A name that can be written so. *)
Definition plain_name (name : string) : bool :=
  negb (String.eqb name "") && negb (has_prefix "-" name) && negb (has_byte "=" name).

(** The flag is one of [fs], and it is written in a way its kind allows. *)
Definition writable (fs : list flag) (g : given) : bool :=
  plain_name (flag_name (g_flag g)) &&
  bool_decide (flag_lookup (flag_name (g_flag g)) fs = Some (g_flag g)) &&
  match g_writing g, flag_kind (g_flag g) with
  | Joined, StringFlag | Separate, StringFlag => true
  | Joined, BoolFlag => bool_decide (is_Some (parseBool (g_value g)))
  | Alone, BoolFlag => String.eqb (g_value g) "true"
  | _, _ => false
  end.

(** The values the flags end with: the last one given of each. *)
Definition assigned (g : given) : flagValue :=
  match flag_kind (g_flag g) with
  | StringFlag => StringValue (g_value g)
  | BoolFlag => BoolValue (default false (parseBool (g_value g)))
  end.
Definition assign (vals : flagSet) (l : list given) : flagSet :=
  foldl (fun vals g => <[flag_name (g_flag g) := assigned g]> vals) vals l.

Lemma contains_byte c s : contains s (String c "") = has_byte c s.
Proof.
  induction s as [|d s IH]; [done|]. cbn [contains has_prefix has_byte]. rewrite IH, andb_true_r.
  f_equal. apply Stdlib.Strings.Ascii.eqb_sym.
Qed.

Lemma flag_lookup_name name fs f : flag_lookup name fs = Some f -> flag_name f = name.
Proof. intros [_ H]%List.find_some. by apply String.eqb_eq in H. Qed.

Lemma with_help_lookup name fs f : flag_lookup name fs = Some f -> flag_lookup name (with_help fs) = Some f.
Proof.
  unfold with_help. intros H. destruct (flag_lookup "help" fs); [done|]. revert H. unfold flag_lookup.
  induction fs as [|g fs IH]; [done|]. cbn. destruct (String.eqb _ _); auto.
Qed.

Section rendered.
Context (fs : list flag).

(** What is known of a flag that can be written. *)
Lemma writable_spec g : writable fs g = true ->
  let name := flag_name (g_flag g) in
  name <> "" /\ has_prefix "-" name = false /\ has_byte "=" name = false /\ flag_lookup name fs = Some (g_flag g) /\
  (g_writing g = Separate -> flag_kind (g_flag g) = StringFlag) /\
  (g_writing g = Alone -> flag_kind (g_flag g) = BoolFlag /\ g_value g = "true") /\
  (flag_kind (g_flag g) = BoolFlag -> is_Some (parseBool (g_value g))).
Proof.
  unfold writable, plain_name. rewrite !andb_true_iff, !negb_true_iff, bool_decide_eq_true, String.eqb_neq.
  intros [[[[H1 H2] H3] H4] H5]. split_and!; try done.
  - intros E. rewrite E in H5. by destruct (flag_kind (g_flag g)).
  - intros E. rewrite E in H5. destruct (flag_kind (g_flag g)); [done|]. by apply String.eqb_eq in H5.
  - intros E. rewrite E in H5. destruct (g_writing g); [by apply bool_decide_eq_true in H5|done|].
    apply String.eqb_eq in H5 as ->. by eexists.
Qed.

Lemma lookup_no_opt g : flag_lookup (flag_name (g_flag g)) fs = Some (g_flag g) ->
  hasNoOptDefVal (flag_name (g_flag g)) fs = match flag_kind (g_flag g) with StringFlag => false | BoolFlag => true end.
Proof. unfold hasNoOptDefVal, NoOptDefVal. intros ->. by destruct (flag_kind _). Qed.

(** The first word of a written flag is one, and takes the next word exactly
    when that is its value. *)
Lemma takes_next_render g : writable fs g = true ->
  takes_next ("--" +:+ flag_name (g_flag g)) fs = match flag_kind (g_flag g) with StringFlag => true | BoolFlag => false end /\
  takes_next (("--" +:+ flag_name (g_flag g)) +:+ "=" +:+ g_value g) fs = false.
Proof.
  intros (H1 & H2 & H3 & H4 & _)%writable_spec. unfold takes_next. rewrite !contains_byte. split.
  - change (has_prefix "--" ("--" +:+ ?n)) with true. change (has_byte "=" ("--" +:+ ?n)) with (has_byte "=" n).
    change (string_drop 2 ("--" +:+ ?n)) with n. rewrite H3, lookup_no_opt by done.
    replace (Nat.eqb _ 2) with false; [by destruct (flag_kind _)|].
    symmetry. apply Nat.eqb_neq. by destruct (flag_name (g_flag g)).
  - rewrite !has_byte_app. change (has_byte "=" "=") with true. rewrite orb_true_l, orb_true_r. cbn [negb].
    by rewrite !andb_false_r.
Qed.

(** [Find] sees no command in written flags. *)
Lemma strip_rendered l : Forall (fun g => writable fs g = true) l -> stripFlags (concat (render <$> l)) fs = [].
Proof.
  induction 1 as [|g l Hg _ IH]; [done|]. rewrite fmap_cons. cbn [concat].
  set (rest := concat (render <$> l)) in *. clearbody rest.
  destruct (takes_next_render g Hg) as [N1 N2]. destruct (writable_spec g Hg) as (H1 & _ & _ & _ & Hs & Ha & _).
  assert (forall s, String.eqb ("--" +:+ s) "--" = false \/ s = "") as Hdd
    by (intros [|c s]; [by right|left; done]).
  unfold render. destruct (g_writing g) eqn:Hw; cbn [app stripFlags].
  - change (("--" +:+ ?n) +:+ ?t) with ("--" +:+ (n +:+ t)) in *. rewrite N2.
    destruct (Hdd (flag_name (g_flag g) +:+ "=" +:+ g_value g)) as [->|E]; [done|by destruct (flag_name (g_flag g))].
  - rewrite N1, (Hs eq_refl). destruct (Hdd (flag_name (g_flag g))) as [->|?]; [|done].
    destruct rest; [done|exact IH].
  - destruct (Ha eq_refl) as [E _]. rewrite N1, E. by destruct (Hdd (flag_name (g_flag g))) as [->|?].
Qed.

(** Parsing one written flag. *)
Lemma set_rendered g vals : writable fs g = true ->
  set_flag (g_flag g) (g_value g) vals = Ok (<[flag_name (g_flag g) := assigned g]> vals).
Proof.
  intros (_ & _ & _ & _ & _ & _ & Hb)%writable_spec. unfold set_flag, assigned.
  destruct (flag_kind (g_flag g)); [done|]. by destruct (Hb eq_refl) as [b ->].
Qed.

Lemma parse_long fs' g rest vals :
  writable fs g = true -> flag_lookup (flag_name (g_flag g)) fs' = Some (g_flag g) ->
  exists s args, render g ++ rest = s :: args /\
    has_prefix "--" s = true /\ s <> "--" /\
    parseLongArg fs' s args vals = Ok (rest, <[flag_name (g_flag g) := assigned g]> vals).
Proof.
  intros Hg Hl. pose proof (set_rendered g vals Hg) as Hset. unfold render, parseLongArg.
  destruct (writable_spec g Hg) as (H1 & H2 & H3 & _ & Hs & Ha & _).
  assert (has_prefix "=" (flag_name (g_flag g)) = false) as He.
  { destruct (flag_name (g_flag g)) as [|c n]; [done|]. cbn [has_byte] in H3. apply orb_false_iff in H3 as [H3 _].
    cbn [has_prefix]. rewrite andb_true_r. unfold byte_eqb in *. by rewrite Stdlib.Strings.Ascii.eqb_sym. }
  assert (forall t, has_prefix "-" (flag_name (g_flag g) +:+ t) = false /\ has_prefix "=" (flag_name (g_flag g) +:+ t) = false /\
    String.eqb (flag_name (g_flag g) +:+ t) "" = false) as Hp.
  { intros t. destruct (flag_name (g_flag g)) as [|c n]; [done|]. done. }
  destruct (g_writing g) eqn:Hw.
  - eexists _, _. split; [done|]. change (("--" +:+ ?n) +:+ ?t) with ("--" +:+ (n +:+ t)).
    change (string_drop 2 ("--" +:+ ?n)) with n. destruct (Hp ("=" +:+ g_value g)) as (P1 & P2 & P3).
    split; [done|]. split; [by destruct (flag_name (g_flag g))|]. rewrite P1, P2, P3. cbn [orb].
    change ("=" +:+ g_value g) with (String "=" (g_value g)). rewrite cut_app by done. rewrite Hl, Hset. done.
  - eexists _, _. split; [done|]. change (string_drop 2 ("--" +:+ ?n)) with n.
    split; [done|]. split; [by destruct (flag_name (g_flag g))|].
    apply String.eqb_neq in H1. rewrite H1, H2, He. cbn [orb]. rewrite cut_none by done. rewrite Hl.
    unfold NoOptDefVal. rewrite (Hs eq_refl). cbn [String.eqb negb]. by rewrite Hset.
  - eexists _, _. split; [done|]. change (string_drop 2 ("--" +:+ ?n)) with n.
    split; [done|]. split; [by destruct (flag_name (g_flag g))|].
    apply String.eqb_neq in H1. rewrite H1, H2, He. cbn [orb]. rewrite cut_none by done. rewrite Hl.
    destruct (Ha eq_refl) as [Hk Hv]. unfold NoOptDefVal. rewrite Hk.
    change (negb (String.eqb "true" "")) with true. cbn iota. by rewrite <- Hv, Hset.
Qed.

(** Round trip: parsing written flags gives the last value of each. *)
Lemma parse_rendered fs' l : forall fuel vals,
  Forall (fun g => writable fs g = true) l ->
  (forall g, g ∈ l -> flag_lookup (flag_name (g_flag g)) fs' = Some (g_flag g)) ->
  length (concat (render <$> l)) <= fuel ->
  parseArgs fuel fs' (concat (render <$> l)) [] vals = Ok ([], assign vals l).
Proof.
  induction l as [|g l IH]; intros fuel vals Hl Hlook Hf; [by destruct fuel|].
  apply Forall_cons in Hl as [Hg Hl]. rewrite fmap_cons in *. cbn [concat] in *.
  destruct (parse_long fs' g (concat (render <$> l)) vals Hg (Hlook g ltac:(left))) as (s & args & E & Hp & Hne & Hlong).
  assert (length (concat (render <$> l)) <= length args).
  { assert (length (render g ++ concat (render <$> l)) = S (length args)) as El by (by rewrite E).
    assert (1 <= length (render g)) by (unfold render; destruct (g_writing g); cbn; lia).
    rewrite length_app in El. lia. }
  rewrite E in *. destruct fuel as [|fuel]; [cbn in Hf; lia|]. cbn [parseArgs].
  assert (has_prefix "-" s = true /\ String.eqb s "-" = false) as [-> ->].
  { destruct s as [|a [|b s]]; [done| |]; cbn [has_prefix] in Hp |- *; apply andb_prop in Hp as [Ha Hb]; [done|].
    rewrite Ha. split; [done|]. by destruct (String.eqb_spec (String a (String b s)) "-"). }
  apply String.eqb_neq in Hne. rewrite Hne, Hp. cbn [negb orb]. rewrite Hlong. cbn [mbind result_bind fst snd].
  apply IH; [done|intros; apply Hlook; by right|]. cbn in Hf. lia.
Qed.
End rendered.

(** A flag that does not exist is not given. *)
Lemma assign_unknown fs name l : forall vals,
  Forall (fun g => writable fs g = true) l -> flag_lookup name fs = None -> assign vals l !! name = vals !! name.
Proof.
  induction l as [|g l IH]; intros vals Hl Hn; [done|]. apply Forall_cons in Hl as [Hg Hl].
  change (assign vals (g :: l)) with (assign (<[flag_name (g_flag g) := assigned g]> vals) l).
  etrans; [by apply IH|]. apply lookup_insert_ne. intros E. apply writable_spec in Hg as (_ & _ & _ & Hg & _). congruence.
Qed.

(** A command given flags and nothing else runs with them. *)
Lemma execute_rendered {action} (c : Command action) run l :
  cmd_disableFlagParsing c = false -> cmd_run c = Some run -> cmd_args c <> MinimumOne ->
  flag_lookup "help" (cmd_flags c) = None ->
  Forall (fun g => writable (cmd_flags c) g = true) l ->
  execute c (concat (render <$> l)) = Invoked run [] (assign ∅ l).
Proof.
  intros Hd Hr Ha Hh Hl. unfold execute, Parse. rewrite Hd.
  assert (forall g, g ∈ l -> flag_lookup (flag_name (g_flag g)) (with_help (cmd_flags c)) = Some (g_flag g)) as Hlook.
  { intros g Hg. rewrite Forall_forall in Hl. apply with_help_lookup.
    by destruct (writable_spec _ _ (Hl g Hg)) as (_ & _ & _ & ? & _). }
  rewrite (parse_rendered (cmd_flags c)) by done.
  rewrite decide_False; [|].
  - rewrite Hr. unfold ValidateArgs. by destruct (cmd_args c).
  - by rewrite (assign_unknown (cmd_flags c)).
Qed.

(** The last thing given for a flag. *)
Definition last_given (name : string) (l : list given) : option given :=
  last (filter (fun g => flag_name (g_flag g) = name) l).

Lemma assign_last name l vals :
  assign vals l !! name = match last_given name l with Some g => Some (assigned g) | None => vals !! name end.
Proof.
  unfold last_given. induction l as [|g l IH] using rev_ind; [done|].
  unfold assign. rewrite foldl_app. cbn [foldl]. fold (assign vals l). rewrite filter_app, lookup_insert.
  destruct (decide (flag_name (g_flag g) = name)) as [E|E].
  - rewrite (filter_cons_True _ g []) by done. rewrite filter_nil, last_snoc. done.
  - rewrite (filter_cons_False _ g []) by done. rewrite filter_nil, app_nil_r. exact IH.
Qed.

(** A writable flag has the kind its name is declared with. *)
Lemma last_given_kind fs name l g f :
  Forall (fun g => writable fs g = true) l -> last_given name l = Some g -> flag_lookup name fs = Some f -> g_flag g = f.
Proof.
  intros Hl Hg Hf. apply last_Some_elem_of, list_elem_of_filter in Hg as [Hn Hin].
  rewrite Forall_forall in Hl. apply Hl, writable_spec in Hin as (_ & _ & _ & H & _). congruence.
Qed.
