(* ===== verification/Process.v ===== *)
(** * The process ([src/cmd])

    What [main] does: the identity it sets for the process, the services it
    registers, the command tree it builds, and what running a command line ends
    with: the exit code and the disk.  The command line library is [Cobra]; the
    commands are [Bootstrap.initializeConfig], [Bootstrap.checkCommand],
    [Registry.runServiceCommand] and the application under [Runner]. *)

From S2P Require Import Prelude GoStrings Types Config Pools Routing FileSystem Bootstrap BootstrapRun ServiceOrder Registry AppRun Runner Cobra.

(** ** The process-wide log scope ([src/vendor/github.com/psyb0t/ctxscope/global.go]) *)

Definition SetGlobal (attrs : list (string * string)) (s : gmap string string) : gmap string string :=
  foldl (fun next attr => <[attr.1 := attr.2]> next) s attrs.
Definition RemoveGlobal (keys : list string) (s : gmap string string) : gmap string string := foldl (fun next key => delete key next) s keys.

Definition scopeKeyBinary : string := "binary".
Definition scopeKeyCommit : string := "commit".
Definition scopeKeyVersion : string := "version".

(** [setProcessScope]. *)
Definition setProcessScope (binary commit version : string) (s : gmap string string) : gmap string string :=
  let attrs := [(scopeKeyBinary, binary)] in
  let '(s, attrs) := if String.eqb commit "" then (RemoveGlobal [scopeKeyCommit] s, attrs)
                     else (s, attrs ++ [(scopeKeyCommit, commit)]) in
  let '(s, attrs) := if String.eqb version "" then (RemoveGlobal [scopeKeyVersion] s, attrs)
                     else (s, attrs ++ [(scopeKeyVersion, version)]) in
  SetGlobal attrs s.

(** The whole scope of the three keys is set anew; every other key is kept. *)
Lemma setProcessScope_spec binary commit version s key :
  setProcessScope binary commit version s !! key =
  if decide (key = scopeKeyBinary) then Some binary
  else if decide (key = scopeKeyCommit) then (if decide (commit = "") then None else Some commit)
  else if decide (key = scopeKeyVersion) then (if decide (version = "") then None else Some version)
  else s !! key.
Proof.
  unfold setProcessScope, scopeKeyBinary, scopeKeyCommit, scopeKeyVersion.
  destruct (String.eqb_spec commit "") as [->|Hc], (String.eqb_spec version "") as [->|Hv];
    unfold SetGlobal, RemoveGlobal; cbn [foldl Datatypes.app fst snd];
    repeat (rewrite lookup_insert || rewrite lookup_delete); repeat case_decide; subst; try done; try congruence.
Qed.

(** [setProcessScope] of the cell proxy ([src/cmd/cellproxy/main.go]). *)
Definition cellProcessScope (buildCommit cellID parentID : string) (s : gmap string string) : gmap string string :=
  let attr (key value : string) := if String.eqb value "" then [] else [(key, value)] in
  SetGlobal ([(scopeKeyBinary, "cellproxy")] ++ attr scopeKeyCommit buildCommit ++ attr "cell_id" cellID
             ++ attr "parent_id" parentID) s.

(** ** The command tree *)

Inductive process_action :=
  | RunApp
  | ServiceCommand (name : string)
  | ConfigInit
  | ConfigCheck
  | LibraryCommand (name : string).

Definition leaf (name : string) (args : positionalArgs) (fs : list flag) (run : process_action) : Command process_action :=
  mkCommand name [] args fs false (Some run) [].

(** [buildRunCommand]. *)
Definition buildRunCommand : Command process_action := leaf "run" ArgsUnset [] RunApp.

(** [buildServiceCommand]: flags are left to the service's own commands. *)
Definition buildServiceCommand (name : string) : Command process_action :=
  mkCommand name [] ArgsUnset [] true (Some (ServiceCommand name)) [].

(** [configureConfigInitFlags]. *)
Definition configInitFlags : list flag :=
  [mkFlag "config-dir" None StringFlag; mkFlag "host-config-dir" None StringFlag;
   mkFlag "controller-image" None StringFlag; mkFlag "runtime-user" None StringFlag;
   mkFlag "development" None BoolFlag; mkFlag "refresh-runtime-templates" None BoolFlag].

(** [buildConfigInitCommand], [buildConfigCheckCommand], [buildConfigCommand]. *)
Definition buildConfigInitCommand : Command process_action := leaf "init" NoArgs configInitFlags ConfigInit.
Definition buildConfigCheckCommand : Command process_action :=
  leaf "check" NoArgs [mkFlag "config-dir" None StringFlag] ConfigCheck.
Definition buildConfigCommand : Command process_action :=
  mkCommand "config" [] ArgsUnset [] false None [buildConfigInitCommand; buildConfigCheckCommand].

(** [commands]. *)
Definition commands : list (Command process_action) := [buildConfigCommand].

(** [buildRootCommand]. *)
Definition buildRootCommand `{MapOrder} (appName : string) (r : factoryRegistry) : Command process_action :=
  mkCommand appName [] ArgsUnset [] false None
    ([buildRunCommand] ++ (buildServiceCommand <$> RegisteredNames r) ++ commands).

(** The commands [ExecuteC] adds to a root with subcommands: [help], the hidden
    completion request when it is the one called, and [completion]. *)
Definition helpCommand : Command process_action := leaf "help" ArgsUnset [] (LibraryCommand "help").
Definition completeCommand : Command process_action :=
  mkCommand "__complete" ["__completeNoDesc"] MinimumOne [] true (Some (LibraryCommand "__complete")) [].
Definition completionShell (shell : string) : Command process_action :=
  leaf shell NoArgs [mkFlag "no-descriptions" None BoolFlag] (LibraryCommand shell).
Definition completionCommand : Command process_action :=
  mkCommand "completion" [] NoArgs [] false None (completionShell <$> ["bash"; "zsh"; "fish"; "powershell"]).

Definition with_commands (root : Command process_action) (added : list (Command process_action)) : Command process_action :=
  mkCommand (cmd_name root) (cmd_aliases root) (cmd_args root) (cmd_flags root) (cmd_disableFlagParsing root)
    (cmd_run root) (cmd_commands root ++ added).

Definition with_defaults (root : Command process_action) (args : list string) : Command process_action :=
  let root := with_commands root [helpCommand] in
  let asked := with_commands root [completeCommand] in
  let root := match Find asked args with
              | Ok (c, _) => if String.eqb (cmd_name c) "__complete" then asked else root
              | Err _ => root
              end in
  if existsb (fun c => called c "completion") (cmd_commands root) then root
  else with_commands root [completionCommand].

(** ** [main] *)

(** [services.Init]. *)
Definition ServiceName : string := "pr0xteus".
Definition Init (newService : ServiceFactory) (r : factoryRegistry) : factoryRegistry := Register ServiceName newService r.

(** Before [main]: [init] pins the cell image to the version of the binary
    ([configuredCellImage], which [LoadConfig] reads); then [main] sets the
    scope and registers the services. *)
Definition configurePr0xteusCellImage (version : string) : string := cellImageForVersion version.

Record startup := mkStartup { st_cellImage : string; st_scope : gmap string string; st_registry : factoryRegistry }.

Definition started (appName buildCommit buildVersion : string) (newService : ServiceFactory) : startup :=
  mkStartup (configurePr0xteusCellImage buildVersion) (setProcessScope appName buildCommit buildVersion ∅)
    (Init newService GetInstance).

Definition string_flag (vals : flagSet) (name default : string) : string :=
  match vals !! name with Some (StringValue s) => s | _ => default end.
Definition bool_flag (vals : flagSet) (name : string) (default : bool) : bool :=
  match vals !! name with Some (BoolValue b) => b | _ => default end.

(** The options of [config init] after its flags were parsed. *)
Definition optionsOf (vals : flagSet) : BootstrapOptions :=
  mkBootstrapOptions
    (string_flag vals "config-dir" (o_ConfigDir configInitDefaults))
    (string_flag vals "host-config-dir" (o_HostConfigDir configInitDefaults))
    (string_flag vals "controller-image" (o_ControllerImage configInitDefaults))
    (string_flag vals "runtime-user" (o_RuntimeUser configInitDefaults))
    (bool_flag vals "development" (o_Development configInitDefaults))
    (bool_flag vals "refresh-runtime-templates" (o_RefreshRuntimeTemplates configInitDefaults)).

(** What the process has besides its arguments: the identity of its build, the
    templates and the user it runs as, what the YAML files and bundle directories of a
    configuration directory hold, the factory of the service and the commands
    its services expose, the enabled services, the shutdown timeout of the
    runner ([None] when its variable does not parse), and what the library's
    own commands end with. *)
Record environment := mkEnvironment {
  en_buildCommit : string;
  en_buildVersion : string;
  en_templates : Templates;
  en_proc : Bootstrap.Process;
  en_pools : string -> option poolsFile;
  en_bundle : string -> option (list dirEntry);
  en_routing : string -> option routingFile;
  en_newService : ServiceFactory;
  en_enabled : list string;
  en_shutdownTimeout : option Z;
  en_serviceCommands : service -> option (list (list string -> option string));
  en_executeService : string -> list (list string -> option string) -> list string -> option string;
  en_library : string -> list string -> bool;
}.

Section process.
Context `{GoUnicode, MapOrder} (env : environment) (appName : string).

Definition registry : factoryRegistry := 
  st_registry (started appName (en_buildCommit env) (en_buildVersion env) (en_newService env)).

(** The services [run] starts with. *)
Definition started_services : gmap string service :=
  services (instantiate_registered (en_enabled env) registry).1.

(** What a command's [Run] can end with: whether it returned an error, and the
    disk, which is left open for the commands that are not about the
    configuration. *)
Inductive performs (d : Disk) : process_action -> list string -> flagSet -> bool -> Disk -> Prop :=
  | performs_init args vals r d' :
      initializeConfig (en_templates env) (en_proc env) (optionsOf vals) d = (r, d') ->
      performs d ConfigInit args vals (match r with Ok _ => false | Err _ => true end) d'
  | performs_check args vals dir r d' :
      dir = string_flag vals "config-dir" "/config" ->
      checkCommand dir (en_pools env dir) (en_bundle env dir) (en_routing env dir) d = (r, d') ->
      performs d ConfigCheck args vals (match r with Ok _ => false | Err _ => true end) d'
  | performs_service name args vals d' :
      performs d (ServiceCommand name) args vals
        (match runServiceCommand (en_serviceCommands env) (en_executeService env) registry name args with
         | None => false | Some _ => true end) d'
  | performs_unconfigured args vals :
      en_shutdownTimeout env = None -> performs d RunApp args vals true d
  | performs_run args vals timeout r result d' :
      en_shutdownTimeout env = Some timeout ->
      runner_reachable (app_runnable started_services 0 0) r ->
      r_phase (app_runnable started_services 0 0) r = Finished result ->
      performs d RunApp args vals (match result with None => false | Some _ => true end) d'
  | performs_library name args vals d' : performs d (LibraryCommand name) args vals (en_library env name args) d'.

(** [main]: the exit code and the disk a command line can end with.  An error
    of the command line or of the command ends the process with code 1. *)
Definition rootCommand (args : list string) : Command process_action :=
  with_defaults (buildRootCommand appName registry) args.

Inductive main (d : Disk) (args : list string) : Z -> Disk -> Prop :=
  | main_helped : ExecuteC (rootCommand args) args = Helped -> main d args 0 d
  | main_rejected e : ExecuteC (rootCommand args) args = Rejected e -> main d args 1 d
  | main_invoked a rest vals failed d' :
      ExecuteC (rootCommand args) args = Invoked a rest vals -> performs d a rest vals failed d' ->
      main d args (if failed then 1 else 0) d'.

(** ** What a command line does *)

(** The last value given for a flag, or its documented default. *)
Definition string_given (name default : string) (l : list given) : string :=
  match last_given name l with Some g => g_value g | None => default end.
Definition bool_given (name : string) (l : list given) : bool :=
  match last_given name l with Some g => bool_decide (parseBool (g_value g) = Some true) | None => false end.

Lemma string_flag_given fs l name dflt f :
  Forall (fun g => writable fs g = true) l -> flag_lookup name fs = Some f -> flag_kind f = StringFlag ->
  string_flag (assign ∅ l) name dflt = string_given name dflt l.
Proof.
  intros Hl Hf Hk. unfold string_flag, string_given. rewrite assign_last.
  destruct (last_given name l) as [g|] eqn:E; [|by rewrite lookup_empty].
  unfold assigned. rewrite (last_given_kind _ _ _ _ _ Hl E Hf), Hk. done.
Qed.

Lemma bool_flag_given fs l name f :
  Forall (fun g => writable fs g = true) l -> flag_lookup name fs = Some f -> flag_kind f = BoolFlag ->
  bool_flag (assign ∅ l) name false = bool_given name l.
Proof.
  intros Hl Hf Hk. unfold bool_flag, bool_given. rewrite assign_last.
  destruct (last_given name l) as [g|] eqn:E; [|by rewrite lookup_empty].
  unfold assigned. rewrite (last_given_kind _ _ _ _ _ Hl E Hf), Hk. by destruct (parseBool (g_value g)) as [[]|].
Qed.

(** The options the words of [config init] ask for. *)
Definition options_given (l : list given) : BootstrapOptions :=
  mkBootstrapOptions (string_given "config-dir" "/config" l) (string_given "host-config-dir" "" l)
    (string_given "controller-image" "psyb0t/pr0xteus:latest" l) (string_given "runtime-user" "" l)
    (bool_given "development" l) (bool_given "refresh-runtime-templates" l).

Lemma optionsOf_given l :
  Forall (fun g => writable configInitFlags g = true) l -> optionsOf (assign ∅ l) = options_given l.
Proof.
  intros Hl. unfold optionsOf, options_given, configInitDefaults.
  cbn [o_ConfigDir o_HostConfigDir o_ControllerImage o_RuntimeUser o_Development o_RefreshRuntimeTemplates].
  f_equal; solve [by eapply string_flag_given | by eapply bool_flag_given].
Qed.

Lemma registered : RegisteredNames registry = [ServiceName].
Proof.
  unfold RegisteredNames, registry, started, Init, Register, GetInstance. cbn [factories st_registry]. rewrite insert_empty.
  pose proof (range_perm {[ServiceName := en_newService env]}) as Hp. rewrite map_to_list_singleton in Hp.
  symmetry in Hp. apply Permutation_singleton_l in Hp. by rewrite <- Hp.
Qed.

(** The commands of the root, with more behind them. *)
Definition root_with (more : list (Command process_action)) : Command process_action :=
  mkCommand appName [] ArgsUnset [] false None
    ([buildRunCommand; buildServiceCommand ServiceName; buildConfigCommand] ++ more).

Lemma root_is : buildRootCommand appName registry = root_with [].
Proof. unfold buildRootCommand. by rewrite registered. Qed.

(** A command found among the root's own is found whatever the library adds. *)
Lemma rootCommand_found args c a :
  (forall more, Find (root_with more) args = Ok (c, a)) -> cmd_name c <> "__complete" ->
  Find (rootCommand args) args = Ok (c, a).
Proof.
  intros Hf Hn. unfold rootCommand, with_defaults. rewrite root_is.
  change (with_commands (with_commands (root_with []) [helpCommand]) [completeCommand])
    with (root_with [helpCommand; completeCommand]).
  rewrite Hf. apply String.eqb_neq in Hn. rewrite Hn.
  change (Find (root_with [helpCommand; completionCommand]) args = Ok (c, a)). apply Hf.
Qed.

Lemma find_run more : Find (root_with more) ["run"] = Ok (buildRunCommand, []).
Proof. reflexivity. Qed.

Lemma find_config sub args more :
  sub ∈ [buildConfigInitCommand; buildConfigCheckCommand] -> stripFlags args (cmd_flags sub) = [] ->
  Find (root_with more) ("config" :: cmd_name sub :: args) = Ok (sub, args).
Proof.
  intros Hsub Hs. pose proof (innerfind_stop sub true args Hs) as E.
  unfold Find. assert (innerfind (root_with more) false ("config" :: cmd_name sub :: args) = (sub, true, args)) as ->.
  { change (innerfind (root_with more) false ("config" :: cmd_name sub :: args))
      with (innerfind buildConfigCommand true (cmd_name sub :: args)).
    repeat (apply elem_of_cons in Hsub as [->|Hsub]); [..|by apply elem_of_nil in Hsub]; exact E. }
  repeat (apply elem_of_cons in Hsub as [->|Hsub]); [..|by apply elem_of_nil in Hsub]; reflexivity.
Qed.

(** The names the root answers to. *)
Definition known_words : list string :=
  ["run"; ServiceName; "config"; "help"; "__complete"; "__completeNoDesc"; "completion"].

Lemma find_unknown more w rest :
  w <> "" -> has_prefix "-" w = false -> w ∉ known_words ->
  more ⊆ [helpCommand; completeCommand; completionCommand] ->
  Find (root_with more) (w :: rest) = Err (UnknownCommand w).
Proof.
  intros Hne Hd Hw Hmore. apply String.eqb_neq in Hne.
  assert (has_prefix "--" w = false) as Hdd.
  { destruct w as [|c w]; [done|]. cbn [has_prefix] in Hd |- *. rewrite andb_true_r in Hd. by rewrite Hd. }
  assert (stripFlags (w :: rest) [] = w :: stripFlags rest []) as Hs.
  { cbn [stripFlags]. unfold takes_next. rewrite Hd, Hdd, Hne. cbn [andb orb negb].
    replace (String.eqb w "--") with false; [done|]. symmetry. apply String.eqb_neq. by intros ->. }
  unfold Find. rewrite (innerfind_none _ _ _ w (stripFlags rest [])); [|exact Hs|].
  - cbn [root_with cmd_args cmd_flags]. rewrite Hs. reflexivity.
  - apply Forall_forall. intros c Hc. unfold called. apply orb_false_iff.
    assert (cmd_name c ∈ known_words /\ cmd_aliases c ⊆ known_words) as [Hn Ha].
    { cbn [root_with cmd_commands] in Hc. apply elem_of_app in Hc as [Hc|Hc%Hmore];
        repeat (apply elem_of_cons in Hc as [->|Hc]; [by split; [apply (bool_decide_unpack _)|]; set_solver|]);
        by apply elem_of_nil in Hc. }
    split; [apply String.eqb_neq; by intros E; rewrite <- E in Hw|].
    apply bool_decide_eq_false. intros Hi. by apply Hw, Ha.
Qed.

Lemma rootCommand_unknown w rest :
  w <> "" -> has_prefix "-" w = false -> w ∉ known_words ->
  Find (rootCommand (w :: rest)) (w :: rest) = Err (UnknownCommand w).
Proof.
  intros Hne Hd Hw. unfold rootCommand, with_defaults. rewrite root_is.
  change (with_commands (with_commands (root_with []) [helpCommand]) [completeCommand])
    with (root_with [helpCommand; completeCommand]).
  rewrite find_unknown by (done || set_solver).
  change (Find (root_with [helpCommand; completionCommand]) (w :: rest) = Err (UnknownCommand w)).
  apply find_unknown; [done..|set_solver].
Qed.

(** Running one of the two configuration commands with written flags. *)
Lemma main_config (sub : Command process_action) run l d code d' :
  sub ∈ [buildConfigInitCommand; buildConfigCheckCommand] -> cmd_run sub = Some run ->
  Forall (fun g => writable (cmd_flags sub) g = true) l ->
  main d ("config" :: cmd_name sub :: concat (render <$> l)) code d' <->
  exists failed : bool, performs d run [] (assign ∅ l) failed d' /\ code = (if failed then 1 else 0)%Z.
Proof.
  intros Hsub Hrun Hl. assert (cmd_disableFlagParsing sub = false /\ cmd_args sub <> MinimumOne /\
    flag_lookup "help" (cmd_flags sub) = None /\ cmd_name sub <> "__complete") as (H1 & H2 & H3 & H4).
  { repeat (apply elem_of_cons in Hsub as [->|Hsub]; [done|]). by apply elem_of_nil in Hsub. }
  assert (ExecuteC (rootCommand ("config" :: cmd_name sub :: concat (render <$> l)))
            ("config" :: cmd_name sub :: concat (render <$> l)) = Invoked run [] (assign ∅ l)) as E.
  { unfold ExecuteC. rewrite (rootCommand_found _ sub (concat (render <$> l))); [by apply execute_rendered| |done].
    intros more. apply find_config; [done|by apply strip_rendered]. }
  split.
  - intros Hm. destruct Hm as [Hx|e Hx|a rest vals failed d' Hx Hp]; rewrite E in Hx; simplify_eq. eauto.
  - intros (failed & Hp & ->). by eapply main_invoked.
Qed.

(** C35. The command line.  Whatever values are given, in whichever of the ways
    flags can be written, repeated or left out: [config init] ends exactly as
    [initializeConfig] with the options those flags name (the last of each, the
    documented default otherwise), with exit code 0 or 1 and the disk it leaves;
    [config check] likewise checks the directory named; [run] ends with code 0
    exactly when the runner was configured and reported no error; and a word that is no command
    ends with code 1 and touches nothing. *)
Theorem command_line d :
  (forall l code d', Forall (fun g => writable configInitFlags g = true) l ->
     main d ("config" :: "init" :: concat (render <$> l)) code d' <->
     exists r, initializeConfig (en_templates env) (en_proc env) (options_given l) d = (r, d') /\
       code = (match r with Ok _ => 0 | Err _ => 1 end)%Z) /\
  (forall l code d', Forall (fun g => writable [mkFlag "config-dir" None StringFlag] g = true) l ->
     let dir := string_given "config-dir" "/config" l in
     main d ("config" :: "check" :: concat (render <$> l)) code d' <->
     exists r, checkCommand dir (en_pools env dir) (en_bundle env dir) (en_routing env dir) d = (r, d') /\
       code = (match r with Ok _ => 0 | Err _ => 1 end)%Z) /\
  (forall code d', main d ["run"] code d' <->
     (en_shutdownTimeout env = None /\ code = 1%Z /\ d' = d) \/
     (is_Some (en_shutdownTimeout env) /\
      exists r result, runner_reachable (app_runnable started_services 0 0) r /\
        r_phase (app_runnable started_services 0 0) r = Finished result /\
        code = (match result with None => 0 | Some _ => 1 end)%Z)) /\
  (forall w rest code d', w <> "" -> has_prefix "-" w = false -> w ∉ known_words ->
     main d (w :: rest) code d' -> code = 1%Z /\ d' = d).
Proof.
  split_and!.
  - intros l code d' Hl. rewrite (main_config buildConfigInitCommand ConfigInit l d code d'); [|by left|done|done].
    rewrite <- (optionsOf_given l Hl). split.
    + intros (failed & Hp & ->). inversion Hp; subst. eexists. split; [done|]. by case_match.
    + intros (r & Hr & ->). eexists. split; [by eapply performs_init|]. by destruct r.
  - intros l code d' Hl dir. rewrite (main_config buildConfigCheckCommand ConfigCheck l d code d'); [|right; by left|done|done].
    assert (string_flag (assign ∅ l) "config-dir" "/config" = dir) as Hdir by (by eapply string_flag_given).
    clearbody dir. subst dir. split.
    + intros (failed & Hp & ->). inversion Hp; subst. eexists. split; [done|]. by case_match.
    + intros (r & Hr & ->). eexists. split; [by eapply performs_check|]. by destruct r.
  - intros code d'. assert (ExecuteC (rootCommand ["run"]) ["run"] = Invoked RunApp [] ∅) as E.
    { unfold ExecuteC. by rewrite (rootCommand_found _ buildRunCommand []). }
    split.
    + intros Hm. destruct Hm as [Hx|e Hx|a rest vals failed d' Hx Hp]; rewrite E in Hx; simplify_eq.
      inversion Hp; subst; [by left|]. right. split; [by eexists|]. do 2 eexists. do 2 (split; [done|]). by case_match.
    + intros [(Ht & -> & ->)|([t Ht] & r & result & Hr & Hf & ->)].
      { eapply (main_invoked _ _ _ _ _ true); [exact E|]. by constructor. }
      replace (match result with None => 0 | Some _ => 1 end)%Z
        with (if match result with None => false | Some _ => true end then 1 else 0)%Z by (by destruct result).
      eapply main_invoked; [exact E|]. by eapply performs_run.
  - intros w rest code d' H1 H2 H3 Hm. pose proof (rootCommand_unknown w rest H1 H2 H3) as E.
    destruct Hm as [Hx|e Hx|a rest' vals failed d' Hx Hp]; unfold ExecuteC in Hx; rewrite E in Hx; by simplify_eq.
Qed.
End process.

Module ProcessExamples.

#[local] Instance order : MapOrder := canonical_order.
#[local] Instance unicode : GoUnicode := no_unicode.

Definition here : environment :=
  mkEnvironment "abc123" "v1.2.3" BootstrapExamples.templates BootstrapExamples.proc (fun _ => None) (fun _ => None) (fun _ => None)
    (Ok (mkService ServiceName None None None true)) [] (Some 10000000000%Z) (fun _ => None) (fun _ _ _ => None) (fun _ _ => false).

Example identity :
  let st := started "pr0xteus" "abc123" "v1.2.3" (en_newService here) in
  st_cellImage st = "psyb0t/pr0xteus:cell-v1.2.3" /\ st_scope st !! scopeKeyVersion = Some "v1.2.3" /\
  RegisteredNames (st_registry st) = ["pr0xteus"].
Proof. vm_compute. done. Qed.

Definition typed : list given :=
  [mkGiven (mkFlag "config-dir" None StringFlag) "/first" Separate;
   mkGiven (mkFlag "development" None BoolFlag) "true" Alone;
   mkGiven (mkFlag "config-dir" None StringFlag) "/srv=1" Joined].

Example typed_words :
  concat (render <$> typed) = ["--config-dir"; "/first"; "--development"; "--config-dir=/srv=1"].
Proof. reflexivity. Qed.

Example typed_options :
  options_given typed = mkBootstrapOptions "/srv=1" "" "psyb0t/pr0xteus:latest" "" true false.
Proof. vm_compute. reflexivity. Qed.

(** A flag before the command takes the next word for its value. *)
Example flag_first :
  ExecuteC (rootCommand here "pr0xteus" ["--development"; "config"; "init"; "now"]) ["--development"; "config"; "init"; "now"]
  = Rejected (UnknownCommand "init").
Proof. vm_compute. reflexivity. Qed.

Lemma command_line_witness :
  exists code d', main here "pr0xteus" BootstrapExamples.roomy ("config" :: "init" :: concat (render <$> typed)) code d'.
Proof.
  destruct (initializeConfig (en_templates here) (en_proc here) (options_given typed) BootstrapExamples.roomy)
    as [r d'] eqn:E.
  exists (match r with Ok _ => 0 | Err _ => 1 end)%Z, d'.
  apply (proj1 (command_line here "pr0xteus" BootstrapExamples.roomy)); [|by exists r]. repeat constructor.
Defined.
End ProcessExamples.
