(* ===== verification/Backoff.v ===== *)
(** * Retry backoff of the client library ([src/pkg/client/retry.go])

    The policy record and the floating-point arithmetic of [backoffFor]: growth,
    cap and jitter, every operation rounded on its own.  [Client.backoffFor]
    draws the random number and converts the result. *)

From Stdlib Require Import QArith Qround Qabs Lqa.
From S2P Require Import Prelude Float64.

Local Open Scope Q_scope.

Record RetryPolicy := mkRetryPolicy {
  MaxAttempts : Z;
  InitialBackoff : Z;
  MaxBackoff : Z;
  BackoffMultiplier : float64;
  Jitter : float64;
  UseFallbackPool : bool;
}.

(** Durations are nanoseconds. *)
Definition Second : Z := 1000000000.

Definition DefaultRetryPolicy : RetryPolicy :=
  mkRetryPolicy 5 (1 * Second) (30 * Second) (Finite 2) (Finite (1 # 4)) true.

(** [base] after the loop of [backoffFor], [initial * mult^(attempt-2)]. *)
Definition growth (p : RetryPolicy) (attempt : Z) : float64 :=
  Nat.iter (Z.to_nat (attempt - 2)) (fun base => fmul base (BackoffMultiplier p)) (of_int64 (InitialBackoff p)).

(** [base] after the cap. *)
Definition capped (p : RetryPolicy) (attempt : Z) : float64 :=
  let base := growth p attempt in
  if fgt base (of_int64 (MaxBackoff p)) then of_int64 (MaxBackoff p) else base.

(** [base] after the jitter, for the number [rand.Float64] gave. *)
Definition jittered (base jitter random : float64) : float64 :=
  let shift := fmul (fsub (fmul random (Finite 2)) (Finite 1)) jitter in
  fmul base (fadd (Finite 1) shift).

(** Policies whose backoffs are meaningful: durations that are not negative,
    a finite multiplier and a jitter fraction between 0 and 1, and a cap whose
    largest jittered value is still a duration. *)
Record sound (p : RetryPolicy) (m j : Q) : Prop := mkSound {
  sound_initial : (0 <= InitialBackoff p < 2 ^ 63)%Z;
  sound_max : (0 <= MaxBackoff p < 2 ^ 63)%Z;
  sound_multiplier : BackoffMultiplier p = Finite m;
  sound_growing : 0 <= m;
  sound_jitter : Jitter p = Finite j;
  sound_fraction : 0 <= j <= 1;
  sound_float : representable j;
  sound_cap : rnd (rnd (inject_Z (MaxBackoff p)) * rnd (1 + j)) < inject_Z (2 ^ 63);
}.

Lemma rnd_0 : rnd 0 = 0.
Proof. reflexivity. Qed.

Lemma rnd_2_64 : rnd (inject_Z (2 ^ 64)) == inject_Z (2 ^ 64).
Proof. vm_compute. reflexivity. Qed.

Lemma small_overflow : inject_Z (2 ^ 64) < overflow.
Proof. vm_compute. reflexivity. Qed.

(** A result between 0 and [2^64] does not overflow. *)
Lemma of_Q_small x : 0 <= x <= inject_Z (2 ^ 64) -> of_Q x = Finite (rnd x) /\ 0 <= rnd x <= inject_Z (2 ^ 64).
Proof.
  intros Hx. pose proof small_overflow. assert (0 < overflow) by apply pow2_pos.
  destruct (of_Q_between 0 (inject_Z (2 ^ 64)) x) as [E Hr]; rewrite ?rnd_2_64, ?rnd_0 in *; try lra. done.
Qed.

Lemma of_int64_finite n : (0 <= n < 2 ^ 63)%Z -> of_int64 n = Finite (rnd (inject_Z n)) /\ 0 <= rnd (inject_Z n).
Proof.
  intros Hn. destruct (of_Q_small (inject_Z n)) as [E Hr]; [|split; [exact E|apply Hr]].
  change 0 with (inject_Z 0). rewrite <- !Zle_Qle. lia.
Qed.

Section Sound.
Context (p : RetryPolicy) (m j : Q) (Hp : sound p m j).

(** Growth never leaves the non-negative numbers; it may overflow upwards. *)
Lemma growth_nonneg attempt :
  (exists r, growth p attempt = Finite r /\ 0 <= r) \/ growth p attempt = Infinite false /\ 0 < m.
Proof.
  unfold growth. rewrite (sound_multiplier _ _ _ Hp). pose proof (sound_growing _ _ _ Hp) as Hm.
  induction (Z.to_nat (attempt - 2)) as [|n IH].
  - left. destruct (of_int64_finite _ (sound_initial _ _ _ Hp)) as [-> H]. by eexists.
  - rewrite Nat.iter_succ. destruct IH as [(r & -> & Hr)|[-> Hpos]]; cbn [fmul].
    + destruct (of_Q_nonneg (r * m) ltac:(nra)) as [H|E]; [by left|].
      destruct (Qlt_le_dec 0 m) as [|Hz]; [by right|]. exfalso.
      destruct (of_Q_small (r * m)) as [E' _]; [|congruence].
      assert (m == 0) as -> by lra. rewrite Qmult_0_r. split; discriminate.
    + right. split; [|done]. destruct (Qeq_bool m 0) eqn:E; [apply Qeq_bool_iff in E; lra|].
      f_equal. cbn [xorb]. by apply Qltb_ge.
Qed.

(** The cap makes it finite. *)
Lemma capped_bounded attempt :
  exists b, capped p attempt = Finite b /\ 0 <= b <= rnd (inject_Z (MaxBackoff p)).
Proof.
  unfold capped. destruct (of_int64_finite _ (sound_max _ _ _ Hp)) as [-> Hm].
  destruct (growth_nonneg attempt) as [(r & -> & Hr)|[-> _]]; cbn [fgt negb].
  - destruct (Qltb _ r) eqn:E; eexists; (split; [done|]); [lra|apply Qltb_ge in E; lra].
  - eexists; split; [done|]. lra.
Qed.

(** The random number moves the factor within [1 - j] and [1 + j]. *)
Lemma shift_bounded r : 0 <= r < 1 ->
  exists f, fadd (Finite 1) (fmul (fsub (fmul (Finite r) (Finite 2)) (Finite 1)) (Finite j)) = Finite f /\
    rnd (1 - j) <= f <= rnd (1 + j) /\ 0 <= f <= 2.
Proof.
  intros Hr. pose proof (sound_fraction _ _ _ Hp) as Hj. pose proof (sound_float _ _ _ Hp) as Hrep.
  assert (rnd 2 == 2) as E2 by reflexivity. assert (rnd 1 == 1) as E1 by reflexivity.
  assert (rnd (-1) == -1) as Em1 by reflexivity. assert (2 < overflow) as Ho by reflexivity.
  red in Hrep. assert (rnd (- j) == - j) as Hnj by (by rewrite rnd_opp, Hrep).
  unfold fsub. cbn [fmul fneg].
  destruct (of_Q_between 0 2 (r * 2)) as [-> B1]; rewrite ?rnd_0, ?E2 in *; try lra. cbn [fadd].
  destruct (of_Q_between (-1) 1 (rnd (r * 2) + - (1))) as [-> B2]; rewrite ?E1, ?Em1 in *; try lra. cbn [fmul].
  destruct (of_Q_between (- j) j (rnd (rnd (r * 2) + - (1)) * j)) as [-> B3]; rewrite ?Hrep, ?Hnj in *; try nra. cbn [fadd].
  set (shift := rnd (rnd (rnd (r * 2) + - (1)) * j)) in *. clearbody shift.
  pose proof (rnd_mono 0 (1 - j) ltac:(lra)) as L. pose proof (rnd_mono (1 + j) 2 ltac:(lra)) as U.
  rewrite rnd_0 in L. rewrite E2 in U.
  destruct (of_Q_between (1 - j) (1 + j) (1 + shift)) as [-> B4]; try lra.
  eexists; split; [done|]. split; lra.
Qed.

Lemma jittered_bounded b r : 0 <= b <= rnd (inject_Z (MaxBackoff p)) -> 0 <= r < 1 ->
  exists x, jittered (Finite b) (Finite j) (Finite r) = Finite x /\
    rnd (b * rnd (1 - j)) <= x <= rnd (b * rnd (1 + j)) /\ 0 <= x.
Proof.
  intros Hb Hr. unfold jittered. destruct (shift_bounded r Hr) as (f & -> & Hf & Hf2). cbn [fmul].
  destruct (of_int64_finite _ (sound_max _ _ _ Hp)) as [_ Hm].
  assert (rnd (inject_Z (MaxBackoff p)) <= inject_Z (2 ^ 63)) as Hcap.
  { assert (inject_Z (MaxBackoff p) <= inject_Z (2 ^ 63)) as H%rnd_mono
      by (rewrite <- Zle_Qle; pose proof (sound_max _ _ _ Hp); lia).
    assert (rnd (inject_Z (2 ^ 63)) == inject_Z (2 ^ 63)) as E by (vm_compute; reflexivity). lra. }
  assert (inject_Z (2 ^ 64) == 2 * inject_Z (2 ^ 63)) as E64 by reflexivity.
  destruct (of_Q_small (b * f)) as [-> B]; [nra|].
  eexists; split; [done|]. split; [|lra]. split; apply rnd_mono; nra.
Qed.

End Sound.
