(* ===== verification/Client.v ===== *)
(** * The client library ([pkg/client])

    The Mode-aware dispatcher, the retry staircase, the pool client's
    classification of the controller's answers, and the preflight leak check.
    Effects (the pool service, the transports, the request body, the backoff
    timer) are the operations of [cop]; an error is the chain of sentinels that
    [errors.Is] would find in it, so wrapping keeps it and [errors.Join]
    appends. *)

From Stdlib Require Import QArith Qround Lqa.
From S2P Require Import Prelude GoStrings Utf8 Encoding UrlParse Json Float64 GoTime JsonStruct.
From S2P Require Import Types Lease Prog System Manager Spawner Connections Api Wire Backoff.

Local Close Scope Q_scope.

Inductive sentinel :=
  | ErrEgressUnavailable
  | ErrEgressExhausted
  | ErrPoolExhausted
  | ErrInvalidCountry
  | ErrDirectDialForbidden
  | ErrNoAttemptError
  | ErrPreflightLeaked
  | ErrPreflightFailed
  | Canceled
  | DeadlineExceeded
  | OtherError (msg : string).

#[global] Instance sentinel_eq_dec : EqDecision sentinel.
Proof. solve_decision. Defined.

Definition cerror := list sentinel.

Definition errIs (e : cerror) (s : sentinel) : bool := bool_decide (s ∈ e).

(** [Mode] is an integer; the package names two of its values. *)
Inductive Mode := ModeVPNOnly | ModePublicFirst | ModeOther (n : Z).

Record attemptStrategy := mkStrategy {
  freshTCP : bool;
  excludePrev : bool;
  allowFallback : bool;
}.

(** [strategyFor]. *)
Definition strategyFor (attempt : Z) : attemptStrategy :=
  if (attempt <=? 1)%Z then mkStrategy false false false
  else if (attempt =? 2)%Z then mkStrategy true false false
  else if (attempt <=? 4)%Z then mkStrategy false true false
  else mkStrategy false true true.

(** The request to the pool service and its answer ([pool.go]). *)
Record ProxyRequest := mkPoolRequest {
  Country : string;
  ExcludeProxy : option URL;
  FallbackOK : bool;
}.

Record ProxyResponse := mkPoolResponse {
  ProxyURL : URL;
  Pool : string;
  ExitCountry : string;
  ExitIP : string;
}.

(** The part of a request the retry loop looks at. *)
Record outbound := mkOutbound { hasBody : bool; hasGetBody : bool }.

Record Client := mkClient {
  country : string;
  policy : RetryPolicy;
  mode : Mode;
}.

(** ** Classification ([retry.go], [dispatch.go], [tunnelpool.go]) *)

Definition retryable_status (status : Z) : bool :=
  (status =? 502)%Z || (status =? 503)%Z || (status =? 504)%Z || (status =? 429)%Z.

(** The errors [shouldRetry] gives up on. *)
Definition permanent (e : cerror) : bool :=
  errIs e Canceled || errIs e DeadlineExceeded || errIs e ErrPoolExhausted || errIs e ErrDirectDialForbidden.

(** [shouldRetry], on what the attempt produced: an error, a status, or
    neither. *)
Definition shouldRetry (resp : option Z) (err : option cerror) : bool :=
  match err with
  | Some e => negb (permanent e)
  | None => match resp with Some status => retryable_status status | None => false end
  end.

(** [shouldFallbackOnStatus]. *)
Definition shouldFallbackOnStatus (status : Z) : bool :=
  (status =? 429)%Z || (status =? 403)%Z || (status =? 503)%Z.

(** [aichteeteapee.ErrorResponse]: the code and the message; the details may be
    anything. *)
Definition errorResponseFields : list (field (string * string)) :=
  [string_field "code" (fun s e => (s, e.2)); string_field "message" (fun s e => (e.1, s)); any_field "details"].

(** [isPoolExhaustedResponse]. *)
Definition codeServiceUnavailable : string := "SERVICE_UNAVAILABLE".
Definition isPoolExhaustedResponse (status : Z) (body : string) : bool :=
  if negb (status =? 503)%Z then false
  else match unmarshal body with
       | None => false
       | Some v =>
           match store_struct false errorResponseFields v ("", "") with
           | None => false
           | Some envelope => String.eqb envelope.1 codeServiceUnavailable
           end
       end.

(** [executeProxyRequest], from the response of the control API: none (no
    response, or a body that cannot be read), or the status and the body, of
    which 64 KiB are read. *)
Definition maxBody : Z := 2 ^ 16.
Definition executeProxyRequest (reply : option (Z * string)) : result cerror string :=
  match reply with
  | None => Err [ErrEgressUnavailable]
  | Some (status, sent) =>
      let body := string_take (Z.to_nat maxBody) sent in
      if (200 <=? status)%Z && (status <? 300)%Z then Ok body
      else if isPoolExhaustedResponse status body then Err [ErrPoolExhausted]
      else Err [ErrEgressUnavailable]
  end.

(** [tunnelPoolWireResponse]. *)
Record wireResponse := mkWireResponse {
  wr_Proxies : ProxyURLs;
  wr_Pool : string;
  wr_ExitCountry : string;
  wr_ExitIP : string;
}.
Definition wireURLsFields : list (field ProxyURLs) :=
  [string_field "socks5" (fun s u => mkProxyURLs s (HTTP u)); string_field "http" (fun s u => mkProxyURLs (SOCKS5 u) s)].
Definition wireResponseFields : list (field wireResponse) := [
  struct_field false "proxies" wireURLsFields wr_Proxies
    (fun u w => mkWireResponse u (wr_Pool w) (wr_ExitCountry w) (wr_ExitIP w));
  string_field "pool" (fun s w => mkWireResponse (wr_Proxies w) s (wr_ExitCountry w) (wr_ExitIP w));
  string_field "exitCountry" (fun s w => mkWireResponse (wr_Proxies w) (wr_Pool w) s (wr_ExitIP w));
  string_field "exitIP" (fun s w => mkWireResponse (wr_Proxies w) (wr_Pool w) (wr_ExitCountry w) s)].

(** [parseTunnelPoolResponse]. *)
Definition parseTunnelPoolResponse `{GoNetip} (body : string) : result cerror ProxyResponse :=
  match (v ← unmarshal body; store_struct false wireResponseFields v (mkWireResponse (mkProxyURLs "" "") "" "" "")) with
  | None => Err [ErrEgressUnavailable]
  | Some raw =>
      if String.eqb (SOCKS5 (wr_Proxies raw)) "" then Err [ErrEgressUnavailable]
      else match url_parse (SOCKS5 (wr_Proxies raw)) with
           | None => Err [ErrEgressUnavailable]
           | Some u => Ok (mkPoolResponse u (wr_Pool raw) (wr_ExitCountry raw) (wr_ExitIP raw))
           end
  end.

(** [socks5Auth]: the credentials the SOCKS5 dialer offers. *)
Definition socks5Auth (u : URL) : option (string * string) :=
  match User u with
  | None => None
  | Some (username, password) => Some (username, default "" password)
  end.

(** ** Effects *)

Inductive cop : Type -> Type :=
  | CRand : cop Q
  | CConvert (f : float64) : cop Z
  | CWait (backoff : Z) : cop (option cerror)
  | CPool (q : ProxyRequest) : cop (result cerror ProxyResponse)
  | CGetBody : cop (option cerror)
  | CSend (proxy : URL) (fresh : bool) : cop (result cerror Z)
  | CDirect : cop (result cerror Z)
  | CClose : cop unit.

Definition ccall {R} (o : cop R) : prog cop R := do_op o.

(** [time.Duration(f)]: outside the range of the type the value is the
    implementation's. *)
Definition toDuration (f : float64) : prog cop Z :=
  match to_int64 f with Some d => Ret d | None => ccall (CConvert f) end.

(** [backoffFor]. *)
Definition backoffFor (p : RetryPolicy) (attempt : Z) : prog cop Z :=
  if (attempt <=? 1)%Z then Ret 0%Z
  else
    let base := capped p attempt in
    if fgt (Jitter p) (Finite 0) then
      random ← ccall CRand;
      toDuration (jittered base (Jitter p) (Finite random))
    else toDuration base.

(** [waitBackoff]: a timer of the backoff, unless it is not positive. *)
Definition waitBackoff (p : RetryPolicy) (attempt : Z) : prog cop (option cerror) :=
  backoff ← backoffFor p attempt;
  if (backoff <=? 0)%Z then Ret None else ccall (CWait backoff).

(** [rewindBody]. *)
Definition rewindBody (req : outbound) : prog cop (option cerror) :=
  if negb (hasBody req) then Ret None
  else if negb (hasGetBody req) then Ret (Some [ErrEgressUnavailable])
  else ccall CGetBody.

(** [fire]. *)
Definition fireOnce (req : outbound) (pr : ProxyResponse) (strategy : attemptStrategy) :
    prog cop (result cerror Z) :=
  err ← rewindBody req;
  match err with
  | Some e => Ret (Err e)
  | None => ccall (CSend (ProxyURL pr) (freshTCP strategy))
  end.

Record attemptResult := mkAttempt {
  a_resp : option Z;
  a_halt : option cerror;
  a_retryErr : option cerror;
  a_proxy : option URL;
}.

(** The request an attempt makes to the pool. *)
Definition poolRequest (c : Client) (prevProxy : option URL) (attempt : Z) : ProxyRequest :=
  let strategy := strategyFor attempt in
  mkPoolRequest (country c)
    (if excludePrev strategy then prevProxy else None)
    (allowFallback strategy && UseFallbackPool (policy c)).

(** [tryOnce]. *)
Definition tryOnce (c : Client) (req : outbound) (prevProxy : option URL) (attempt : Z) :
    prog cop attemptResult :=
  let strategy := strategyFor attempt in
  answer ← ccall (CPool (poolRequest c prevProxy attempt));
  match answer with
  | Err e =>
      if negb (shouldRetry None (Some e)) then Ret (mkAttempt None (Some e) None None)
      else Ret (mkAttempt None None (Some e) None)
  | Ok poolResp =>
      fired ← fireOnce req poolResp strategy;
      match fired with
      | Err e =>
          if negb (shouldRetry None (Some e)) then Ret (mkAttempt None (Some e) None None)
          else Ret (mkAttempt None None (Some e) (Some (ProxyURL poolResp)))
      | Ok status =>
          if negb (shouldRetry (Some status) None) then Ret (mkAttempt (Some status) None None None)
          else
            _ ← ccall CClose;
            Ret (mkAttempt None None (Some [ErrEgressUnavailable]) (Some (ProxyURL poolResp)))
      end
  end.

(** The loop of [do], with [n] attempts left. *)
Fixpoint do_loop (c : Client) (req : outbound) (n : nat) (attempt : Z)
    (lastErr : option cerror) (lastProxy : option URL) : prog cop (result cerror Z) :=
  match n with
  | O => Ret (Err (ErrEgressExhausted :: default [ErrNoAttemptError] lastErr))
  | S n =>
      waited ← waitBackoff (policy c) attempt;
      match waited with
      | Some e => Ret (Err e)
      | None =>
          res ← tryOnce c req lastProxy attempt;
          match a_halt res, a_resp res with
          | Some e, _ => Ret (Err e)
          | None, Some status => Ret (Ok status)
          | None, None =>
              do_loop c req n (attempt + 1)%Z (a_retryErr res)
                (match a_proxy res with Some u => Some u | None => lastProxy end)
          end
      end
  end.

(** [do]. *)
Definition do_proxied (c : Client) (req : outbound) : prog cop (result cerror Z) :=
  do_loop c req (Z.to_nat (MaxAttempts (policy c))) 1 None None.

(** [dispatchPublicFirst]. *)
Definition dispatchPublicFirst (c : Client) (req : outbound) : prog cop (result cerror Z) :=
  err ← rewindBody req;
  match err with
  | Some e => Ret (Err e)
  | None =>
      direct ← ccall CDirect;
      let proxied :=
        err ← rewindBody req;
        match err with
        | Some e => Ret (Err e)
        | None => do_proxied c req
        end in
      match direct with
      | Ok status =>
          if negb (shouldFallbackOnStatus status) then Ret (Ok status)
          else _ ← ccall CClose; proxied
      | Err _ => proxied
      end
  end.

(** [dispatch], reached from [Do] and [Get]. *)
Definition dispatch (c : Client) (req : outbound) : prog cop (result cerror Z) :=
  match mode c with
  | ModePublicFirst => dispatchPublicFirst c req
  | _ => do_proxied c req
  end.

(** ** What a run can observe *)

Inductive cevent :=
  | ERand (random : Q)
  | EConvert (f : float64) (r : Z)
  | EWait (backoff : Z) (r : option cerror)
  | EPool (q : ProxyRequest) (r : result cerror ProxyResponse)
  | EGetBody (r : option cerror)
  | ESend (proxy : URL) (fresh : bool) (r : result cerror Z)
  | EDirect (r : result cerror Z)
  | EClose.

Definition event_of {R} (o : cop R) : R -> cevent :=
  match o in cop R return R -> cevent with
  | CRand => ERand
  | CConvert f => EConvert f
  | CWait d => EWait d
  | CPool q => EPool q
  | CGetBody => EGetBody
  | CSend u f => ESend u f
  | CDirect => EDirect
  | CClose => fun _ => EClose
  end.

(** A wait ends early only because the context did, and [rand.Float64] is in
    [[0, 1)]; everything else the environment answers is arbitrary. *)
Definition may_happen (e : cevent) : Prop :=
  match e with
  | ERand random => Qle_bool 0 random && Qltb random 1 = true
  | EWait _ (Some err) => errIs err Canceled || errIs err DeadlineExceeded = true
  | _ => True
  end.

(** [exec p tr a]: [p] can end with [a] after the events [tr]. *)
Fixpoint exec {A} (p : prog cop A) (tr : list cevent) (a : A) : Prop :=
  match p with
  | Ret a' => tr = [] /\ a = a'
  | Op o k => exists r tr', may_happen (event_of o r) /\ tr = event_of o r :: tr' /\ exec (k r) tr' a
  end.

Lemma exec_bind {A B} (p : prog cop A) (f : A -> prog cop B) tr b :
  exec (p ≫= f) tr b <-> exists a t1 t2, tr = t1 ++ t2 /\ exec p t1 a /\ exec (f a) t2 b.
Proof.
  revert tr. induction p as [a|R o k IH]; intros tr; simpl.
  - split; [intros H; by exists a, [], tr|]. by intros (a' & t1 & t2 & -> & [-> ->] & H).
  - split.
    + intros (r & tr' & Hm & -> & (a & t1 & t2 & -> & H1 & H2)%IH).
      exists a, (event_of o r :: t1), t2. split_and!; [done| |done]. eauto.
    + intros (a & t1 & t2 & -> & (r & tr' & Hm & -> & H1) & H2).
      exists r, (tr' ++ t2). split_and!; [done|done|]. apply IH. eauto 10.
Qed.

Lemma exec_call {R} (o : cop R) tr r :
  exec (ccall o) tr r <-> may_happen (event_of o r) /\ tr = [event_of o r].
Proof.
  simpl. split.
  - intros (r' & tr' & Hm & -> & -> & ->). done.
  - intros [Hm ->]. eauto 10.
Qed.

Lemma exec_ret {A} (a b : A) tr : exec (Ret a) tr b <-> tr = [] /\ b = a.
Proof. done. Qed.

#[export] Hint Rewrite @exec_bind @exec_call @exec_ret : pr0x.

(** Split an execution of a sequence. *)
Tactic Notation "ebind" ident(H) "as" simple_intropattern(pat) :=
  apply exec_bind in H; destruct H as pat.

(** ** One attempt *)

Definition is_ask (e : cevent) : bool := match e with EPool _ _ => true | _ => false end.

(** Responses that were received and given up, and responses closed. *)
Definition is_discarded (e : cevent) : bool :=
  match e with
  | ESend _ _ (Ok status) => retryable_status status
  | EDirect (Ok status) => shouldFallbackOnStatus status
  | _ => false
  end.
Definition is_close (e : cevent) : bool := match e with EClose => true | _ => false end.
Definition count_of (f : cevent -> bool) (tr : list cevent) : nat := length (filter (fun e => f e = true) tr).

Definition is_direct (e : cevent) : bool := match e with EDirect _ => true | _ => false end.

(** The staircase: the [k]-th request to the pool names the client's country,
    excludes the proxy of the last answer from the third on and allows the
    fallback pool from the fifth on, as the policy permits; every send goes to
    the proxy of the last answer, on a fresh connection in the second attempt. *)
Fixpoint staircase (c : Client) (k : Z) (prev : option URL) (tr : list cevent) : Prop :=
  match tr with
  | [] => True
  | EPool q a :: tr =>
      Country q = country c /\
      ExcludeProxy q = (if (3 <=? k)%Z then prev else None) /\
      FallbackOK q = ((5 <=? k)%Z && UseFallbackPool (policy c)) /\
      staircase c (k + 1) (match a with Ok resp => Some (ProxyURL resp) | Err _ => prev end) tr
  | ESend u fresh _ :: tr => prev = Some u /\ fresh = (k - 1 =? 2)%Z /\ staircase c k prev tr
  | _ :: tr => staircase c k prev tr
  end.

(** Rewinding the body, then at most one send. *)
Inductive quiet_send (u : URL) (fresh : bool) : list cevent -> result cerror Z -> Prop :=
  | qs_no_body : quiet_send u fresh [] (Err [ErrEgressUnavailable])
  | qs_body_fails e : quiet_send u fresh [EGetBody (Some e)] (Err e)
  | qs_send r : quiet_send u fresh [ESend u fresh r] r
  | qs_body_send r : quiet_send u fresh [EGetBody None; ESend u fresh r] r.

(** What one attempt can do. *)
Inductive attempted (fresh : bool) (q : ProxyRequest) : list cevent -> attemptResult -> Prop :=
  | att_refused e :
      permanent e = true -> attempted fresh q [EPool q (Err e)] (mkAttempt None (Some e) None None)
  | att_unavailable e :
      permanent e = false -> attempted fresh q [EPool q (Err e)] (mkAttempt None None (Some e) None)
  | att_failed resp pre e :
      permanent e = true -> quiet_send (ProxyURL resp) fresh pre (Err e) ->
      attempted fresh q (EPool q (Ok resp) :: pre) (mkAttempt None (Some e) None None)
  | att_retry resp pre e :
      permanent e = false -> quiet_send (ProxyURL resp) fresh pre (Err e) ->
      attempted fresh q (EPool q (Ok resp) :: pre) (mkAttempt None None (Some e) (Some (ProxyURL resp)))
  | att_ok resp pre status :
      retryable_status status = false -> quiet_send (ProxyURL resp) fresh pre (Ok status) ->
      attempted fresh q (EPool q (Ok resp) :: pre) (mkAttempt (Some status) None None None)
  | att_discard resp pre status :
      retryable_status status = true -> quiet_send (ProxyURL resp) fresh pre (Ok status) ->
      attempted fresh q (EPool q (Ok resp) :: pre ++ [EClose])
        (mkAttempt None None (Some [ErrEgressUnavailable]) (Some (ProxyURL resp))).

Lemma rewindBody_exec req tr r :
  exec (rewindBody req) tr r -> (tr = [] /\ (r = None \/ r = Some [ErrEgressUnavailable])) \/ tr = [EGetBody r].
Proof.
  unfold rewindBody. intros H. repeat case_match.
  - apply exec_ret in H as [-> ->]. auto.
  - apply exec_ret in H as [-> ->]. auto.
  - apply exec_call in H as [_ ->]. auto.
Qed.

Lemma fireOnce_exec req pr s tr r :
  exec (fireOnce req pr s) tr r -> quiet_send (ProxyURL pr) (freshTCP s) tr r.
Proof.
  unfold fireOnce. intros H. ebind H as (e & t1 & t2 & -> & H1 & H2).
  apply rewindBody_exec in H1. destruct e as [e|].
  - apply exec_ret in H2 as [-> ->]. rewrite app_nil_r. destruct H1 as [[-> [?|[= ->]]]| ->]; [done|constructor..].
  - apply exec_call in H2 as [_ ->]. destruct H1 as [[-> _]| ->]; constructor.
Qed.

Lemma tryOnce_exec c req prev k tr res :
  exec (tryOnce c req prev k) tr res ->
  attempted (freshTCP (strategyFor k)) (poolRequest c prev k) tr res.
Proof.
  unfold tryOnce. intros H. ebind H as (ans & t1 & t2 & -> & H1 & H2).
  apply exec_call in H1 as [_ ->]. cbn [event_of app]. destruct ans as [pr|e].
  - ebind H2 as (fired & t3 & t4 & -> & Hf%fireOnce_exec & H2). destruct fired as [status|e].
    + cbn [shouldRetry] in H2. destruct (retryable_status status) eqn:Hs; cbn [negb] in H2.
      * ebind H2 as (u & t5 & t6 & -> & [_ ->]%exec_call & [-> ->]%exec_ret). by apply att_discard with status.
      * apply exec_ret in H2 as [-> ->]. rewrite app_nil_r. by constructor.
    + cbn [shouldRetry] in H2. rewrite negb_involutive in H2.
      destruct (permanent e) eqn:Hp; apply exec_ret in H2 as [-> ->]; rewrite app_nil_r; by constructor.
  - cbn [shouldRetry] in H2. rewrite negb_involutive in H2.
    destruct (permanent e) eqn:Hp; apply exec_ret in H2 as [-> ->]; by constructor.
Qed.

Lemma count_of_app f t1 t2 : count_of f (t1 ++ t2) = count_of f t1 + count_of f t2.
Proof. unfold count_of. by rewrite filter_app, length_app. Qed.

Lemma strategy_fresh k : freshTCP (strategyFor k) = (k =? 2)%Z.
Proof. unfold strategyFor. repeat case_match; cbn; lia. Qed.
Lemma strategy_exclude k : excludePrev (strategyFor k) = (3 <=? k)%Z.
Proof. unfold strategyFor. repeat case_match; cbn; lia. Qed.
Lemma strategy_fallback k : allowFallback (strategyFor k) = (5 <=? k)%Z.
Proof. unfold strategyFor. repeat case_match; cbn; lia. Qed.

(** What the next iteration starts from. *)
Definition next_prev (prev : option URL) (res : attemptResult) : option URL :=
  match a_proxy res with Some u => Some u | None => prev end.

Lemma attempted_counts fresh q tr res :
  attempted fresh q tr res ->
  count_of is_ask tr = 1 /\ count_of is_direct tr = 0 /\ count_of is_close tr = count_of is_discarded tr.
Proof.
  destruct 1 as [| |??? _ Hq|??? _ Hq|??? Hs Hq|??? Hs Hq]; try done;
    inversion Hq; subst; unfold count_of; cbn; rewrite ?Hs; done.
Qed.

Lemma attempted_staircase c k prev tr res rest :
  attempted (freshTCP (strategyFor k)) (poolRequest c prev k) tr res ->
  (a_halt res = None -> a_resp res = None -> staircase c (k + 1) (next_prev prev res) rest) ->
  (a_halt res <> None \/ a_resp res <> None -> rest = []) ->
  staircase c k prev (tr ++ rest).
Proof.
  intros Ha Hn He. rewrite strategy_fresh in Ha.
  destruct Ha as [e _|e _|resp pre e _ Hq|resp pre e _ Hq|resp pre status _ Hq|resp pre status _ Hq];
    cbn in Hn, He; rewrite ?strategy_exclude, ?strategy_fallback; cbn;
    rewrite ?strategy_exclude, ?strategy_fallback; (split_and!; [done..|]).
  - by rewrite He by auto.
  - by apply Hn.
  - rewrite He by auto. inversion Hq; subst; cbn; replace (k + 1 - 1)%Z with k by lia; done.
  - specialize (Hn eq_refl eq_refl). inversion Hq; subst; cbn; replace (k + 1 - 1)%Z with k by lia; done.
  - rewrite He by auto. inversion Hq; subst; cbn; replace (k + 1 - 1)%Z with k by lia; done.
  - specialize (Hn eq_refl eq_refl). inversion Hq; subst; cbn; replace (k + 1 - 1)%Z with k by lia; done.
Qed.

(** ** The retry loop *)

Definition last_send (tr : list cevent) : option (result cerror Z) :=
  foldl (fun acc e => match e with ESend _ _ r => Some r | _ => acc end) None tr.

(** What the loop promises of its value. *)
Definition loop_value (n : nat) (tr : list cevent) (r : result cerror Z) : Prop :=
  match r with
  | Ok status => retryable_status status = false /\ last_send tr = Some (Ok status)
  | Err e => permanent e = true \/ (errIs e ErrEgressExhausted = true /\ count_of is_ask tr = n)
  end.

(** The events of the backoff: the draw, the conversion and the timer. *)
Definition is_timing (e : cevent) : bool :=
  match e with ERand _ | EConvert _ _ | EWait _ _ => true | _ => false end.

Lemma toDuration_exec f tr d :
  exec (toDuration f) tr d -> (to_int64 f = Some d /\ tr = []) \/ (to_int64 f = None /\ tr = [EConvert f d]).
Proof.
  unfold toDuration. destruct (to_int64 f) as [d'|].
  - intros [-> ->]%exec_ret. by left.
  - intros [_ ->]%exec_call. by right.
Qed.

Lemma backoffFor_timing p k tr d : exec (backoffFor p k) tr d -> Forall is_timing tr.
Proof.
  unfold backoffFor. destruct (k <=? 1)%Z; [by intros [-> ->]%exec_ret|]. destruct (fgt _ _).
  - intros H. ebind H as (x & t1 & t2 & -> & [_ ->]%exec_call & [[_ ->]|[_ ->]]%toDuration_exec); repeat constructor.
  - intros [[_ ->]|[_ ->]]%toDuration_exec; repeat constructor.
Qed.

Lemma waitBackoff_exec p k tr r :
  exec (waitBackoff p k) tr r -> Forall is_timing tr /\ forall e, r = Some e -> permanent e = true.
Proof.
  unfold waitBackoff. intros H. ebind H as (d & t1 & t2 & -> & Ht%backoffFor_timing & H). destruct (d <=? 0)%Z.
  - apply exec_ret in H as [-> ->]. by rewrite app_nil_r.
  - apply exec_call in H as [Hm ->]. split; [apply Forall_app; split; [done|by constructor]|].
    intros e ->. cbn in Hm. unfold permanent. by rewrite Hm.
Qed.

(** The staircase and the counts do not see them. *)
Lemma timing_staircase c k prev t1 t :
  Forall is_timing t1 -> staircase c k prev t -> staircase c k prev (t1 ++ t).
Proof. induction 1 as [|[] t1 H _ IH]; [done|..]; (by destruct H || (intros Ht; apply IH, Ht)). Qed.

Lemma timing_count (f : cevent -> bool) t :
  Forall is_timing t -> (forall e, is_timing e -> f e = false) -> count_of f t = 0.
Proof.
  intros Ht Hf. unfold count_of. induction Ht as [|e t He _ IH]; [done|].
  rewrite filter_cons_False; [done|]. by rewrite (Hf e He).
Qed.

Lemma attempted_last fresh q tr status :
  attempted fresh q tr (mkAttempt (Some status) None None None) ->
  retryable_status status = false /\ forall t, last_send (t ++ tr) = Some (Ok status).
Proof.
  inversion 1 as [| | | |resp pre st Hs Hq|]; subst. split; [done|]. intros t. unfold last_send.
  rewrite foldl_app. by inversion Hq; subst.
Qed.

Lemma attempted_halt fresh q tr res e :
  attempted fresh q tr res -> a_halt res = Some e -> permanent e = true.
Proof. by destruct 1; intros [= <-]. Qed.

Lemma last_send_app t1 t2 x : last_send t2 = Some x -> last_send (t1 ++ t2) = Some x.
Proof.
  induction t2 as [|e t2 IH] using rev_ind; [done|]. unfold last_send in *.
  rewrite app_assoc, (foldl_app _ (t1 ++ t2)), (foldl_app _ t2). cbn. by destruct e; auto.
Qed.

Lemma do_loop_exec c req n : forall k lastErr prev tr r,
  exec (do_loop c req n k lastErr prev) tr r ->
  staircase c k prev tr /\ count_of is_ask tr <= n /\ count_of is_direct tr = 0 /\
  count_of is_close tr = count_of is_discarded tr /\ loop_value n tr r.
Proof.
  induction n as [|n IH]; intros k lastErr prev tr r H.
  - apply exec_ret in H as [-> ->]. split_and!; try done. right. split; [|done].
    apply bool_decide_eq_true_2. left.
  - cbn [do_loop] in H. ebind H as (waited & t1 & t2 & -> & Hw%waitBackoff_exec & H).
    destruct Hw as [Ht1 Hw]. pose proof (fun t => timing_staircase c k prev t1 t Ht1) as Hpre.
    assert (Hcw : count_of is_ask t1 = 0 /\ count_of is_direct t1 = 0 /\ count_of is_close t1 = 0 /\
                  count_of is_discarded t1 = 0) by (split_and!; (apply timing_count; [done|by intros []])).
    destruct Hcw as (W1 & W2 & W3 & W4). rewrite !count_of_app, W1, W2, W3, W4.
    destruct waited as [e|].
    { apply exec_ret in H as [-> ->]. split_and!; try done; [by apply Hpre|cbn; lia|].
      left. by apply Hw. }
    ebind H as (res & t3 & t4 & -> & Ha%tryOnce_exec & H).
    pose proof (attempted_counts _ _ _ _ Ha) as (A1 & A2 & A3). rewrite !count_of_app, A1, A2, A3.
    destruct (a_halt res) as [e|] eqn:Hhalt.
    { apply exec_ret in H as [-> ->]. split_and!; try (cbn; lia).
      - apply Hpre. eapply attempted_staircase; [done|by rewrite Hhalt|done].
      - left. by eapply attempted_halt. }
    destruct (a_resp res) as [status|] eqn:Hresp.
    { apply exec_ret in H as [-> ->]. split_and!; try (cbn; lia).
      - apply Hpre. eapply attempted_staircase; [done|by rewrite Hresp|done].
      - rewrite app_nil_r. assert (res = mkAttempt (Some status) None None None) as -> by (destruct Ha; by simplify_eq/=).
        apply attempted_last in Ha as [? ?]. split; [done|auto]. }
    destruct (IH _ _ _ _ _ H) as (S1 & S2 & S3 & S4 & S5). split_and!; try lia.
    + apply Hpre. eapply attempted_staircase; [done|done|]. rewrite Hhalt, Hresp. by intros [?|?].
    + destruct r as [status|e]; cbn in *.
      * destruct S5 as [? ?]. split; [done|]. by apply last_send_app, last_send_app.
      * destruct S5 as [?|[? Hn]]; [by left|]. right. split; [done|]. rewrite !count_of_app, W1, A1, Hn. done.
Qed.

(** The retry staircase.  Whatever the pool, the transports and the request
    body do, the proxied path makes at most [MaxAttempts] pool requests, the
    [k]-th of which is exactly the one the staircase prescribes (country,
    exclusion of the last proxy from the third on, fallback from the fifth on),
    every send goes to the proxy the pool answered last, and nothing is ever
    dialled directly. *)
Theorem retry_staircase c req tr r :
  exec (do_proxied c req) tr r ->
  staircase c 1 None tr /\ count_of is_ask tr <= Z.to_nat (MaxAttempts (policy c)) /\
  count_of is_direct tr = 0.
Proof. intros H. apply do_loop_exec in H. tauto. Qed.

(** What the retry loop returns: a response only if its status is not one
    worth retrying and it is the answer of the last send; an error only if it
    is permanent, or all [MaxAttempts] attempts were made and it carries
    [ErrEgressExhausted].  Every response it gives up is closed. *)
Theorem retry_outcome c req tr r :
  exec (do_proxied c req) tr r ->
  loop_value (Z.to_nat (MaxAttempts (policy c))) tr r /\
  count_of is_close tr = count_of is_discarded tr.
Proof. intros H. apply do_loop_exec in H. tauto. Qed.

(** ** Backoff *)

(** The largest and smallest value of the jittered wait around [b]. *)
Definition least (b j : Q) : Q := rnd (b * rnd (1 - j)).
Definition most (b j : Q) : Q := rnd (b * rnd (1 + j)).

Section Backoffs.
Context (p : RetryPolicy) (m j : Q) (Hp : sound p m j).

Lemma to_int64_floor x : (0 <= x)%Q -> (x < inject_Z (2 ^ 63))%Q -> to_int64 (Finite x) = Some (Qfloor x).
Proof.
  intros Hx Hlt. unfold to_int64. replace (Qle_bool 0 x) with true by (symmetry; by apply Qle_bool_iff).
  assert (0 <= Qfloor x)%Z as Hf by (apply (Qfloor_resp_le 0 x) in Hx; exact Hx).
  assert (Qfloor x < 2 ^ 63)%Z as Hf2.
  { rewrite Zlt_Qlt. eapply Qle_lt_trans; [apply Qfloor_le|exact Hlt]. }
  destruct (Z.leb_spec (- 2 ^ 63) (Qfloor x)); [|lia]. by destruct (Z.ltb_spec (Qfloor x) (2 ^ 63)); [|lia].
Qed.

Lemma sound_cap_plain : (rnd (inject_Z (MaxBackoff p)) < inject_Z (2 ^ 63))%Q.
Proof.
  apply Qnot_le_lt. intros Hc. pose proof (sound_cap _ _ _ Hp) as Hcap. pose proof (sound_fraction _ _ _ Hp).
  assert (rnd 1 <= rnd (1 + j))%Q as H1 by (apply rnd_mono; lra). change (rnd 1) with 1%Q in H1.
  assert (inject_Z (2 ^ 63) <= rnd (inject_Z (MaxBackoff p)) * rnd (1 + j))%Q as H2.
  { assert (0 < inject_Z (2 ^ 63))%Q by reflexivity. nra. }
  apply rnd_mono in H2. assert (rnd (inject_Z (2 ^ 63)) == inject_Z (2 ^ 63))%Q as E by (vm_compute; reflexivity). lra.
Qed.

(** The wait before an attempt: around the capped growth [b], within the
    jitter. *)
Lemma backoff_within attempt tr d :
  exec (backoffFor p attempt) tr d -> (2 <= attempt)%Z ->
  exists b, capped p attempt = Finite b /\ (0 <= b <= rnd (inject_Z (MaxBackoff p)))%Q /\
    ((0 < j)%Q -> (Qfloor (least b j) <= d <= Qfloor (most b j))%Z /\ exists r, tr = [ERand r]) /\
    ((j == 0)%Q -> d = Qfloor b /\ tr = []).
Proof.
  intros H Hk. destruct (capped_bounded p m j Hp attempt) as (b & Eb & Hb). exists b. split; [done|]. split; [done|].
  unfold backoffFor in H. rewrite Eb in H. destruct (Z.leb_spec attempt 1); [lia|].
  rewrite (sound_jitter _ _ _ Hp) in H. cbn [fgt] in H. pose proof sound_cap_plain as Hc.
  destruct (Qltb 0 j) eqn:Hj; [apply Qltb_lt in Hj|apply Qltb_ge in Hj].
  - split; [intros _|lra]. ebind H as (r & t1 & t2 & -> & [Hr ->]%exec_call & H). cbn in Hr.
    apply andb_prop in Hr as [R1%Qle_bool_iff R2%Qltb_lt].
    destruct (jittered_bounded p m j Hp b r Hb (conj R1 R2)) as (x & Ex & Hx & Hx0). rewrite Ex in H.
    assert (most b j <= most (rnd (inject_Z (MaxBackoff p))) j)%Q as Hmost.
    { apply rnd_mono. pose proof (sound_fraction _ _ _ Hp).
      assert (0 <= rnd (1 + j))%Q by (apply rnd_nonneg; lra). nra. }
    pose proof (sound_cap _ _ _ Hp) as Hcap. unfold least, most in *.
    apply toDuration_exec in H. rewrite to_int64_floor in H by lra. destruct H as [[[= <-] ->]|[? _]]; [|done].
    split; [split; apply Qfloor_resp_le; lra|]. by eexists.
  - split; [lra|intros _]. apply toDuration_exec in H. rewrite to_int64_floor in H by lra.
    by destruct H as [[[= <-] ->]|[? _]].
Qed.

(** The longest wait of the policy. *)
Definition longest : Z := Qfloor (most (rnd (inject_Z (MaxBackoff p))) j).

Lemma longest_nonneg : (0 <= longest)%Z.
Proof.
  unfold longest, most. destruct (of_int64_finite _ (sound_max _ _ _ Hp)) as [_ Hm].
  assert (0 <= rnd (rnd (inject_Z (MaxBackoff p)) * rnd (1 + j)))%Q as H.
  { pose proof (sound_fraction _ _ _ Hp). assert (0 <= rnd (1 + j))%Q by (apply rnd_nonneg; lra). apply rnd_nonneg. nra. }
  apply (Qfloor_resp_le 0) in H. exact H.
Qed.

(** Timers are positive and at most the longest wait, and no conversion is out
    of range. *)
Definition timely (e : cevent) : Prop :=
  match e with EWait d _ => (0 < d <= longest)%Z | EConvert _ _ => False | _ => True end.

Definition slept (tr : list cevent) : Z :=
  foldr (fun e acc => match e with EWait d _ => d + acc | _ => acc end)%Z 0%Z tr.

Definition timed (n : nat) (tr : list cevent) : Prop :=
  Forall timely tr /\ (slept tr <= Z.of_nat n * longest)%Z.

Lemma slept_app t1 t2 : slept (t1 ++ t2) = (slept t1 + slept t2)%Z.
Proof.
  induction t1 as [|e t1 IH]; [done|]. unfold slept in *. cbn [app foldr]. rewrite IH. destruct e; lia.
Qed.

Lemma timed_app n1 n2 t1 t2 : timed n1 t1 -> timed n2 t2 -> timed (n1 + n2) (t1 ++ t2).
Proof.
  intros [F1 S1] [F2 S2]. split; [by apply Forall_app|]. rewrite slept_app. lia.
Qed.

Lemma timed_more n n' tr : timed n tr -> n <= n' -> timed n' tr.
Proof. intros [F S] Hn. split; [done|]. pose proof longest_nonneg. nia. Qed.

Lemma timed_quiet tr : Forall (fun e => is_timing e = false) tr -> timed 0 tr.
Proof. induction 1 as [|[] tr H _ [IH1 IH2]]; try done; (split; [by constructor|exact IH2]). Qed.

Lemma backoff_timed attempt tr d :
  exec (backoffFor p attempt) tr d -> (d <= longest)%Z /\ timed 0 tr /\ ((attempt <= 1)%Z -> d = 0%Z).
Proof.
  intros H. destruct (Z.le_gt_cases attempt 1) as [Hk|Hk].
  - unfold backoffFor in H. destruct (Z.leb_spec attempt 1); [|lia]. apply exec_ret in H as [-> ->].
    pose proof longest_nonneg. split_and!; done.
  - destruct (backoff_within attempt tr d H ltac:(lia)) as (b & _ & Hb & Hpos & Hzero).
    pose proof (sound_fraction _ _ _ Hp) as Hj. unfold longest.
    assert (most b j <= most (rnd (inject_Z (MaxBackoff p))) j)%Q as Hmost%Qfloor_resp_le.
    { apply rnd_mono. assert (0 <= rnd (1 + j))%Q by (apply rnd_nonneg; lra). nra. }
    destruct (Qlt_le_dec 0 j) as [Hlt|Hle].
    + destruct (Hpos Hlt) as [[_ Hd] [r ->]]. split_and!; [by etrans| |lia]. split; [by repeat constructor|done].
    + assert (j == 0)%Q as Hz by lra. destruct (Hzero Hz) as [-> ->]. split_and!; [|split; [constructor|done]|lia].
      apply Qfloor_resp_le. apply (Qle_trans _ _ _ (proj2 Hb)). unfold most.
      assert (rnd (1 + j) == 1)%Q as -> by (rewrite Hz; reflexivity). rewrite Qmult_1_r, rnd_idem. apply Qle_refl.
Qed.

Lemma waitBackoff_timed k tr r :
  exec (waitBackoff p k) tr r -> timed (if (k <=? 1)%Z then 0 else 1) tr.
Proof.
  unfold waitBackoff. intros H. ebind H as (d & t1 & t2 & -> & Hb%backoff_timed & H).
  destruct Hb as (Hd & Ht & H0). destruct (Z.leb_spec d 0).
  - apply exec_ret in H as [-> ->]. rewrite app_nil_r. by eapply timed_more; [done|lia].
  - apply exec_call in H as [_ ->]. destruct (Z.leb_spec k 1); [lia|]. apply (timed_app 0 1); [done|].
    split; [repeat constructor; lia|]. cbn. lia.
Qed.

(** One attempt has no timer. *)
Lemma attempted_quiet fresh q tr res : attempted fresh q tr res -> timed 0 tr.
Proof.
  intros H. apply timed_quiet.
  destruct H as [| |? ? ? ? Hq|? ? ? ? Hq|? ? ? ? Hq|? ? ? ? Hq]; try (by repeat constructor);
    destruct Hq; by repeat constructor.
Qed.

Lemma do_loop_timed c req n : policy c = p -> forall k lastErr prev tr r, (1 <= k)%Z ->
  exec (do_loop c req n k lastErr prev) tr r -> timed (if (k <=? 1)%Z then Nat.pred n else n) tr.
Proof.
  intros Hc. induction n as [|n IH]; intros k lastErr prev tr r Hk H.
  { apply exec_ret in H as [-> ->]. apply (timed_more 0); [by apply timed_quiet|lia]. }
  cbn [do_loop] in H. rewrite Hc in H. ebind H as (waited & t1 & t2 & -> & Hw%waitBackoff_timed & H).
  assert (timed n t2) as H2; [|pose proof (timed_app _ _ _ _ Hw H2); by destruct (Z.leb_spec k 1)].
  destruct waited as [e|].
  { apply exec_ret in H as [-> ->]. apply (timed_more 0); [by apply timed_quiet|lia]. }
  ebind H as (res & t3 & t4 & -> & Ha%tryOnce_exec%attempted_quiet & H). apply (timed_app 0 n); [done|].
  destruct (a_halt res), (a_resp res);
    try (apply exec_ret in H as [-> ->]; apply (timed_more 0); [by apply timed_quiet|lia]).
  apply IH in H; [|lia]. by destruct (Z.leb_spec (k + 1) 1); [lia|].
Qed.

Lemma rewind_timed req tr r : exec (rewindBody req) tr r -> timed 0 tr.
Proof. intros [[-> _]| ->]%rewindBody_exec; apply timed_quiet; by repeat constructor. Qed.

Lemma dispatch_timed c req tr r : policy c = p -> exec (dispatch c req) tr r ->
  timed (Nat.pred (Z.to_nat (MaxAttempts p))) tr.
Proof.
  intros Hc. assert (forall tr, exec (do_proxied c req) tr r -> timed (Nat.pred (Z.to_nat (MaxAttempts p))) tr) as Hdo
    by (intros t H; rewrite <- Hc; by apply do_loop_timed in H).
  assert (forall t, exec (err ← rewindBody req; match err with Some e => Ret (Err e) | None => do_proxied c req end) t r ->
    timed (Nat.pred (Z.to_nat (MaxAttempts p))) t) as Hprox.
  { intros t H. ebind H as ([e|] & t1 & t2 & -> & H1%rewind_timed & H).
    - apply exec_ret in H as [-> ->]. rewrite app_nil_r. eapply timed_more; [done|lia].
    - apply (timed_app 0); auto. }
  unfold dispatch. destruct (mode c); [apply Hdo| |apply Hdo].
  unfold dispatchPublicFirst. intros H. ebind H as ([e|] & t1 & t2 & -> & H1%rewind_timed & H).
  { apply exec_ret in H as [-> ->]. rewrite app_nil_r. eapply timed_more; [done|lia]. }
  apply (timed_app 0); [done|]. ebind H as (d & t3 & t4 & -> & [_ ->]%exec_call & H).
  apply (timed_app 0); [apply timed_quiet; by repeat constructor|]. destruct d as [status|e]; [|auto].
  destruct (negb _).
  - apply exec_ret in H as [-> ->]. apply (timed_more 0); [by apply timed_quiet|lia].
  - ebind H as (u & t5 & t6 & -> & [_ ->]%exec_call & H).
    apply (timed_app 0); [apply timed_quiet; by repeat constructor|auto].
Qed.
End Backoffs.

(** C12. A request never waits longer than its policy allows.  For every policy
    with durations that are not negative, a finite multiplier and a jitter
    fraction, and whatever the pool, the proxies and [rand.Float64] do: the wait
    before attempt [k] is the capped growth [b] changed by at most the jitter,
    with no conversion out of the range of a duration; over a whole run of [Do]
    every timer is positive and at most [MaxBackoff] increased by the jitter,
    and together they are at most [MaxAttempts - 1] times that. *)
Theorem backoff_bounded c m j :
  sound (policy c) m j ->
  (forall attempt tr d, (2 <= attempt)%Z -> exec (backoffFor (policy c) attempt) tr d ->
     exists b, capped (policy c) attempt = Finite b /\
       (0 <= b <= rnd (inject_Z (MaxBackoff (policy c))))%Q /\
       ((0 < j)%Q -> (Qfloor (least b j) <= d <= Qfloor (most b j))%Z) /\ ((j == 0)%Q -> d = Qfloor b)) /\
  (forall req tr r, exec (dispatch c req) tr r ->
     Forall (timely (policy c) j) tr /\
     (slept tr <= Z.of_nat (Nat.pred (Z.to_nat (MaxAttempts (policy c)))) * longest (policy c) j)%Z).
Proof.
  intros Hs. split.
  - intros attempt tr d Hk H. destruct (backoff_within _ m j Hs attempt tr d H Hk) as (b & E & Hb & Hp & Hz).
    exists b. split_and!; [done|apply Hb|apply Hb|intros H0; by destruct (Hp H0)|intros H0; by destruct (Hz H0)].
  - intros req tr r H. by apply (dispatch_timed _ m j Hs) in H.
Qed.


(** ** Dispatch *)

(** The public-first flow: a failed rewind; a direct answer that is passed on;
    or one failed direct attempt, then the proxied path. *)
Inductive public_first (c : Client) : list cevent -> result cerror Z -> Prop :=
  | pf_body tr e : count_of is_direct tr = 0 -> count_of is_ask tr = 0 -> public_first c tr (Err e)
  | pf_direct pre status :
      count_of is_direct pre = 0 -> count_of is_ask pre = 0 -> shouldFallbackOnStatus status = false ->
      public_first c (pre ++ [EDirect (Ok status)]) (Ok status)
  | pf_proxied pre d tr r :
      count_of is_direct pre = 0 -> count_of is_ask pre = 0 ->
      match d with Ok status => shouldFallbackOnStatus status = true | Err _ => True end ->
      count_of is_direct tr = 0 -> staircase c 1 None tr ->
      count_of is_ask tr <= Z.to_nat (MaxAttempts (policy c)) ->
      public_first c (pre ++ EDirect d :: tr) r.

Lemma rewind_counts req tr r :
  exec (rewindBody req) tr r ->
  count_of is_direct tr = 0 /\ count_of is_ask tr = 0 /\ forall c k prev rest,
    staircase c k prev rest -> staircase c k prev (tr ++ rest).
Proof. intros [[-> _]| ->]%rewindBody_exec; done. Qed.

Lemma public_first_exec c req tr r : exec (dispatchPublicFirst c req) tr r -> public_first c tr r.
Proof.
  unfold dispatchPublicFirst. intros H. ebind H as (e & t1 & t2 & -> & H1%rewind_counts & H).
  destruct H1 as (D1 & A1 & _).
  destruct e as [e|]; [apply exec_ret in H as [-> ->]; rewrite app_nil_r; by constructor|].
  ebind H as (d & t3 & t4 & -> & [_ ->]%exec_call & H). cbn [event_of app].
  assert (Hprox : forall pre t, count_of is_direct pre = 0 -> count_of is_ask pre = 0 ->
    (forall rest, staircase c 1 None rest -> staircase c 1 None (pre ++ rest)) ->
    match d with Ok status => shouldFallbackOnStatus status = true | Err _ => True end ->
    exec (err ← rewindBody req; match err with Some e => Ret (Err e) | None => do_proxied c req end) t r ->
    public_first c (t1 ++ EDirect d :: pre ++ t) r).
  { intros pre t P1 P2 P3 Hd Hx. ebind Hx as (e & t5 & t6 & -> & H5%rewind_counts & H6).
    destruct H5 as (D5 & A5 & S5). destruct e as [e|].
    - apply exec_ret in H6 as [-> ->]. rewrite app_nil_r.
      apply pf_proxied; [done..| | |]; rewrite ?count_of_app, ?P1, ?P2, ?D5, ?A5; [done| |cbn; lia].
      apply P3. rewrite <- (app_nil_r t5). by apply S5.
    - apply do_loop_exec in H6 as (L1 & L2 & L3 & _).
      apply pf_proxied; [done..| | |]; rewrite ?count_of_app, ?P1, ?P2, ?D5, ?A5, ?L3; [done|by apply P3, S5|done]. }
  destruct d as [status|e]; [|by apply (Hprox [])].
  destruct (shouldFallbackOnStatus status) eqn:Hs; cbn [negb] in H.
  - ebind H as (u & t5 & t6 & -> & [_ ->]%exec_call & H). by apply (Hprox [EClose]).
  - apply exec_ret in H as [-> ->]. by apply pf_direct.
Qed.

(** C10. No leak: unless the mode is public-first, no run of [Do] dials directly,
    every send goes to the proxy the pool answered last, and the pool is asked
    at most [MaxAttempts] times, as the staircase prescribes; in the
    public-first mode there is exactly one direct attempt, before any pool
    request, and the proxied path is entered only after it failed with a
    transport error or one of 429, 403 and 503. *)
Theorem dispatch_never_leaks c req tr r :
  exec (dispatch c req) tr r ->
  match mode c with
  | ModePublicFirst => public_first c tr r
  | _ => count_of is_direct tr = 0 /\ staircase c 1 None tr /\
         count_of is_ask tr <= Z.to_nat (MaxAttempts (policy c))
  end.
Proof.
  unfold dispatch. intros H. destruct (mode c); [|by eapply public_first_exec|]; apply do_loop_exec in H; tauto.
Qed.

(** Every program can run: whatever the environment answers, it ends. *)
Lemma exec_inhabited {A} (p : prog cop A) (answer : forall R, cop R -> R) :
  (forall R (o : cop R), may_happen (event_of o (answer R o))) -> exists tr a, exec p tr a.
Proof.
  intros Hm. induction p as [a|R o k IH]; [by exists [], a|].
  destruct (IH (answer R o)) as (tr & a & Hx). exists (event_of o (answer R o) :: tr), a. simpl. eauto 10.
Qed.

(** ** Preflight ([preflight.go]) *)

(** One IP-echo endpoint: no response, a response whose body cannot be read, or
    a status with the body. *)
Inductive echo_reply :=
  | EchoUnreachable (e : cerror)
  | EchoUnreadable (status : Z) (e : cerror)
  | EchoAnswered (status : Z) (body : string).

Section preflight.
Context `{MO : MapOrder}.

(** [parseIPEchoBody]. *)
Definition parseIPEchoBody (body : string) : string :=
  let trimmed := trim_space body in
  let decoded := v ← unmarshal trimmed; store_struct false [string_field "ip" (fun s _ => s)] v "" in
  match (if has_prefix "{" trimmed then decoded else None) with
  | Some ip => trim_space ip
  | None =>
      match filter (fun v => v <> "") (trim_space <$> split trimmed (ascii_of_N 10)) with
      | v :: _ => v
      | [] => ""
      end
  end.

(** [fetchPublicIPFromEndpoint]: of a body, 4 KiB are read. *)
Definition fetchPublicIPFromEndpoint (reply : echo_reply) : result cerror string :=
  let ok status := (200 <=? status)%Z && (status <? 300)%Z in
  match reply with
  | EchoUnreachable e => Err e
  | EchoUnreadable status e => if ok status then Err e else Err [ErrPreflightFailed]
  | EchoAnswered status sent =>
      if ok status then Ok (parseIPEchoBody (string_take 4096 sent)) else Err [ErrPreflightFailed]
  end.

Definition quorum : Z := 2.

(** One result received from the channel: a vote, or the last error. *)
Definition tally (acc : gmap string Z * option cerror) (r : result cerror string) :
    gmap string Z * option cerror :=
  let '(counts, lastErr) := acc in
  match r with
  | Err e => (counts, Some e)
  | Ok ip => (<[ip := (default 0%Z (counts !! ip) + 1)%Z]> counts, lastErr)
  end.

(** [fetchAgreedPublicIP], with the replies in the order their goroutines
    finished. *)
Definition fetchAgreedPublicIP (replies : list echo_reply) : result cerror string :=
  let '(counts, lastErr) := foldl tally (∅, None) (fetchPublicIPFromEndpoint <$> replies) in
  match filter (fun kv => (quorum <= kv.2)%Z) (range counts) with
  | (ip, _) :: _ => Ok ip
  | [] => match lastErr with
          | Some e => Err e
          | None => Err [ErrPreflightFailed]
          end
  end.

(** [fetchDirectIP]. *)
Definition fetchDirectIP (replies : list echo_reply) : result cerror string :=
  match fetchAgreedPublicIP replies with
  | Err e => Err e
  | Ok ip => if String.eqb ip "" then Err [ErrPreflightFailed] else Ok ip
  end.

(** [fetchProxiedIP]: [None] in the pool's answer is an empty proxy. *)
Definition fetchProxiedIP (pool : result cerror (option URL)) (replies : list echo_reply) :
    result cerror string :=
  match pool with
  | Err e => Err e
  | Ok None => Err [ErrPreflightFailed]
  | Ok (Some _) =>
      match fetchAgreedPublicIP replies with
      | Err e => Err e
      | Ok ip => if String.eqb ip "" then Err [ErrPreflightFailed] else Ok ip
      end
  end.

(** The environment of one check: the direct replies, the pool's answer and the
    proxied replies. *)
Record check_env := mkCheckEnv {
  direct_replies : list echo_reply;
  pool_answer : result cerror (option URL);
  proxied_replies : list echo_reply;
}.

(** [PreflightSanityCheck]: [None] is success. *)
Definition PreflightSanityCheck (env : check_env) : option cerror :=
  match fetchDirectIP (direct_replies env) with
  | Err e => Some e
  | Ok directIP =>
      match fetchProxiedIP (pool_answer env) (proxied_replies env) with
      | Err e => Some e
      | Ok proxiedIP => if String.eqb directIP proxiedIP then Some [ErrPreflightLeaked] else None
      end
  end.

Definition preflightRetryBackoffStart : Z := 5 * second.
Definition preflightRetryBackoffMax : Z := 30 * second.
Definition preflightRetryDeadline : Z := 10 * minute.

(** The errors the retry wrapper tries again on. *)
Definition preflight_retryable (e : cerror) : bool :=
  negb (errIs e ErrPreflightLeaked) && (errIs e ErrEgressUnavailable || errIs e ErrPreflightFailed).

(** [PreflightSanityCheckWithRetry].  [checks i] is what the [i]-th check finds
    and how long it takes, [tie i] which way the select falls when the backoff
    ends exactly at the deadline.  [None] when the fuel runs out. *)
Fixpoint preflight_loop (fuel : nat) (checks : nat -> check_env * Z) (tie : nat -> bool)
    (attempt : nat) (elapsed backoff : Z) : option (option cerror) :=
  match fuel with
  | O => None
  | S fuel =>
      let '(env, took) := checks attempt in
      let elapsed := (elapsed + took)%Z in
      match PreflightSanityCheck env with
      | None => Some None
      | Some e =>
          if negb (preflight_retryable e) then Some (Some e)
          else if (preflightRetryDeadline <? elapsed + backoff)%Z
                  || ((preflightRetryDeadline =? elapsed + backoff)%Z && tie attempt)
          then Some (Some e)
          else preflight_loop fuel checks tie (S attempt) (elapsed + backoff)
                 (Z.min (2 * backoff) preflightRetryBackoffMax)
      end
  end.

(** At most 22 checks fit before the deadline. *)
Definition PreflightSanityCheckWithRetry (checks : nat -> check_env * Z) (tie : nat -> bool) :
    option (option cerror) :=
  preflight_loop 22 checks tie 1 0 preflightRetryBackoffStart.

(** ** The quorum is honest *)

#[global] Instance result_eq_dec {E A} `{EqDecision E, EqDecision A} : EqDecision (result E A).
Proof. solve_decision. Defined.

(** How many endpoints answered [ip]. *)
Definition votes (ip : string) (replies : list echo_reply) : Z :=
  Z.of_nat (length (filter (fun r => fetchPublicIPFromEndpoint r = Ok ip) replies)).

Lemma tally_votes replies : forall acc ip,
  default 0%Z ((foldl tally acc (fetchPublicIPFromEndpoint <$> replies)).1 !! ip)
  = (default 0%Z (acc.1 !! ip) + votes ip replies)%Z.
Proof.
  induction replies as [|r replies IH]; intros [counts lastErr] ip; [unfold votes; cbn; lia|].
  rewrite fmap_cons. cbn [foldl]. rewrite IH. unfold votes. rewrite filter_cons.
  destruct (fetchPublicIPFromEndpoint r) as [ip'|e] eqn:Hr; cbn [tally fst].
  - rewrite lookup_insert. destruct (decide (ip' = ip)) as [->|Hne].
    + rewrite decide_True by done. cbn [default from_option id length]. unfold id. lia.
    + rewrite decide_False by congruence. done.
  - rewrite decide_False by done. done.
Qed.

Lemma fetchAgreedPublicIP_quorum replies ip :
  fetchAgreedPublicIP replies = Ok ip -> (quorum <= votes ip replies)%Z.
Proof.
  unfold fetchAgreedPublicIP. pose proof (tally_votes replies (∅, None) ip) as Hv.
  destruct (foldl tally _ _) as [counts lastErr]. cbn [fst] in Hv. rewrite lookup_empty in Hv. cbn in Hv.
  destruct (filter _ (range counts)) as [|[ip' n] l] eqn:Hf; [by case_match|]. intros [= ->].
  assert ((ip, n) ∈ filter (fun kv => (quorum <= kv.2)%Z) (range counts)) as Hin by (rewrite Hf; left).
  apply list_elem_of_filter in Hin as [Hq Hin%elem_of_range]. rewrite Hin in Hv. cbn in *. lia.
Qed.

(** Endpoints that agree are heard. *)
Lemma fetchAgreedPublicIP_heard replies ip :
  (quorum <= votes ip replies)%Z -> exists ip', fetchAgreedPublicIP replies = Ok ip'.
Proof.
  unfold fetchAgreedPublicIP. pose proof (tally_votes replies (∅, None) ip) as Hv. intros Hq.
  destruct (foldl tally _ _) as [counts lastErr]. cbn [fst] in Hv. rewrite lookup_empty in Hv. cbn in Hv.
  destruct (filter _ (range counts)) as [|[ip' n] l] eqn:Hf; [|eauto].
  destruct (counts !! ip) as [n|] eqn:Hc; [|cbn in Hv; unfold quorum in Hq; lia]. cbn in Hv.
  exfalso. apply (not_elem_of_nil (ip, n)). rewrite <- Hf. apply list_elem_of_filter. split; [cbn; lia|].
  by apply elem_of_range.
Qed.

(** The failures among the replies, in the order they came in. *)
Definition failures (replies : list echo_reply) : list cerror :=
  omap (fun r => match fetchPublicIPFromEndpoint r with Err e => Some e | Ok _ => None end) replies.

Lemma tally_failures replies : forall acc,
  (foldl tally acc (fetchPublicIPFromEndpoint <$> replies)).2 =
  match last (failures replies) with Some e => Some e | None => acc.2 end.
Proof.
  unfold failures. induction replies as [|r replies IH] using rev_ind; intros acc; [done|].
  rewrite fmap_app, foldl_app, omap_app. cbn [foldl fmap list_fmap]. specialize (IH acc).
  destruct (foldl tally acc _) as [counts lastErr]. cbn in IH |- *.
  destruct (fetchPublicIPFromEndpoint r) as [ip|e]; cbn; [by rewrite app_nil_r|by rewrite last_snoc].
Qed.

(** [establishes replies r]: what can be concluded from the replies of the
    endpoints.  An address that at least two of them report, if it is not empty;
    else that the check failed, when two report the empty address, or when no
    two agree, with the last failure among them if there is one. *)
Definition establishes (replies : list echo_reply) (r : result cerror string) : Prop :=
  match r with
  | Ok ip => ip <> "" /\ (2 <= votes ip replies)%Z
  | Err e =>
      (e = [ErrPreflightFailed] /\ (2 <= votes "" replies)%Z) \/
      (e = default [ErrPreflightFailed] (last (failures replies)) /\ forall ip, (votes ip replies < 2)%Z)
  end.

Lemma fetchAgreed_establishes replies :
  establishes replies
    (match fetchAgreedPublicIP replies with
     | Err e => Err e
     | Ok ip => if String.eqb ip "" then Err [ErrPreflightFailed] else Ok ip
     end).
Proof.
  destruct (fetchAgreedPublicIP replies) as [ip|e] eqn:Hf.
  - apply fetchAgreedPublicIP_quorum in Hf. unfold quorum in Hf.
    destruct (String.eqb_spec ip "") as [->|Hne]; [by left|done].
  - right. split.
    + unfold fetchAgreedPublicIP in Hf. pose proof (tally_failures replies (∅, None)) as Hl.
      destruct (foldl tally _ _) as [counts lastErr]. cbn [snd] in Hl. subst lastErr.
      destruct (filter _ (range counts)) as [|[ip' n] l]; [|done].
      destruct (last (failures replies)); by simplify_eq.
    + intros ip. destruct (Z.lt_ge_cases (votes ip replies) 2) as [|Hq]; [done|].
      destruct (fetchAgreedPublicIP_heard replies ip Hq) as [ip' ?]. congruence.
Qed.

(** What the pool and the endpoints behind its proxy allow to conclude. *)
Definition establishes_proxied (env : check_env) (r : result cerror string) : Prop :=
  match pool_answer env with
  | Err e => r = Err e
  | Ok None => r = Err [ErrPreflightFailed]
  | Ok (Some _) => establishes (proxied_replies env) r
  end.

Lemma fetchProxiedIP_establishes env :
  establishes_proxied env (fetchProxiedIP (pool_answer env) (proxied_replies env)).
Proof.
  unfold establishes_proxied, fetchProxiedIP.
  destruct (pool_answer env) as [[u|]|e]; [apply fetchAgreed_establishes|done|done].
Qed.

(** The only address a quorum reports. *)
Definition sole_quorum (ip : string) (replies : list echo_reply) : Prop :=
  forall ip', (2 <= votes ip' replies)%Z <-> ip' = ip.

Lemma sole_established ip replies r :
  ip <> "" -> sole_quorum ip replies -> establishes replies r -> r = Ok ip.
Proof.
  intros Hne Hs He. pose proof (proj2 (Hs ip) eq_refl) as Hq. destruct r as [ip'|e]; cbn in He.
  - destruct He as [_ Hq']. apply Hs in Hq' as ->. done.
  - destruct He as [[_ Hq'%Hs]|[_ Hno]]; [congruence|]. specialize (Hno ip). lia.
Qed.

(** C23. Preflight is honest.  There is an address, or a failure, that the direct
    replies establish, and, when it is an address, one that the pool's answer and
    the proxied replies establish, such that the check returns the first of the
    two failures there is, reports a leak if both are the same address, and
    succeeds if they are different addresses.  An address is established only if
    at least two endpoints report it and it is not empty; a failure is the pool's,
    the last one among the endpoints, or [ErrPreflightFailed], never a leak of the
    check's own.  In particular a leak is reported whenever the same address is the
    only one with a quorum on both sides. *)
Theorem preflight_sound env :
  (exists direct, establishes (direct_replies env) direct /\
     match direct with
     | Err e => PreflightSanityCheck env = Some e
     | Ok directIP => exists proxied, establishes_proxied env proxied /\
         match proxied with
         | Err e => PreflightSanityCheck env = Some e
         | Ok proxiedIP =>
             (directIP = proxiedIP -> PreflightSanityCheck env = Some [ErrPreflightLeaked]) /\
             (directIP <> proxiedIP -> PreflightSanityCheck env = None)
         end
     end) /\
  (forall ip u, ip <> "" -> pool_answer env = Ok (Some u) ->
     sole_quorum ip (direct_replies env) -> sole_quorum ip (proxied_replies env) ->
     PreflightSanityCheck env = Some [ErrPreflightLeaked]).
Proof.
  pose proof (fetchAgreed_establishes (direct_replies env)) as Hd.
  pose proof (fetchProxiedIP_establishes env) as Hp. split.
  - exists (fetchDirectIP (direct_replies env)). split; [exact Hd|]. unfold PreflightSanityCheck.
    destruct (fetchDirectIP _) as [d|e]; [|done]. eexists. split; [exact Hp|].
    destruct (fetchProxiedIP _ _) as [p|e]; [|done].
    split; [intros ->; by rewrite String.eqb_refl|]. intros Hne%String.eqb_neq. by rewrite Hne.
  - intros ip u Hne Hu Hsd Hsp. unfold establishes_proxied in Hp. rewrite Hu in Hp.
    fold (fetchDirectIP (direct_replies env)) in Hd.
    apply (sole_established ip) in Hd, Hp; try done. unfold PreflightSanityCheck.
    rewrite Hd, Hu, Hp. by rewrite String.eqb_refl.
Qed.

(** ** The retry wrapper ends *)

Lemma preflight_tail fuel : forall checks tie attempt elapsed,
  (forall i, 0 <= (checks i).2)%Z ->
  (preflightRetryDeadline < elapsed + Z.of_nat fuel * preflightRetryBackoffMax)%Z ->
  (elapsed <= preflightRetryDeadline)%Z ->
  is_Some (preflight_loop fuel checks tie attempt elapsed preflightRetryBackoffMax).
Proof.
  induction fuel as [|fuel IH]; intros checks tie attempt elapsed Ht Hf Hle; [lia|].
  cbn [preflight_loop]. specialize (Ht attempt) as Hta. destruct (checks attempt) as [env took]. cbn in Hta.
  destruct (PreflightSanityCheck env); [|done]. case_match; [done|]. case_match eqn:Hd; [done|].
  apply orb_false_iff in Hd as [Hd%Z.ltb_ge _].
  replace (Z.min (2 * preflightRetryBackoffMax) preflightRetryBackoffMax) with preflightRetryBackoffMax by done.
  apply IH; [done|lia|done].
Qed.

Lemma preflight_unroll fuel checks tie attempt elapsed backoff :
  (forall i, 0 <= (checks i).2)%Z ->
  (forall elapsed', elapsed + backoff <= elapsed' <= preflightRetryDeadline ->
     is_Some (preflight_loop fuel checks tie (S attempt) elapsed' (Z.min (2 * backoff) preflightRetryBackoffMax)))%Z ->
  is_Some (preflight_loop (S fuel) checks tie attempt elapsed backoff).
Proof.
  intros Ht Hn. cbn [preflight_loop]. specialize (Ht attempt). destruct (checks attempt) as [env took]. cbn in Ht.
  destruct (PreflightSanityCheck env); [|done]. case_match; [done|]. case_match eqn:Hd; [done|].
  apply orb_false_iff in Hd as [Hd%Z.ltb_ge _]. apply Hn. lia.
Qed.

(** The preflight retry wrapper always returns: with backoffs of 5, 10, 20
    and then 30 seconds against a deadline of ten minutes it makes at most 22
    checks, however the checks turn out and however long they take. *)
Theorem preflight_retry_returns checks tie :
  (forall i, 0 <= (checks i).2)%Z -> is_Some (PreflightSanityCheckWithRetry checks tie).
Proof.
  intros Ht. unfold PreflightSanityCheckWithRetry.
  apply preflight_unroll; [done|]. intros e1 H1.
  apply preflight_unroll; [done|]. intros e2 H2.
  apply preflight_unroll; [done|]. intros e3 H3.
  apply preflight_tail; [done| |lia]. cbn in *. unfold preflightRetryDeadline, preflightRetryBackoffMax, preflightRetryBackoffStart, minute, second in *. lia.
Qed.
End preflight.

(** ** The pool client against the control API *)

(** The pool client reads the control API's refusals as the API means them:
    an exhausted or unavailable pool stops the retry loop at once, and every
    other refusal (bad request, internal error) is a transient
    [ErrEgressUnavailable]. *)
Theorem pool_refusals_classified `{GoFloatText, GoZone} error_text (e : Types.error) :
  let status := acquireErrorStatus e in
  executeProxyRequest (Some (WriteJSON error_text (writeError status))) =
    Err [if (status =? 503)%Z then ErrPoolExhausted else ErrEgressUnavailable] /\
  ((status =? 503)%Z = true <->
     errors_is e Types.ErrPoolExhausted || errors_is e Types.ErrPoolUnavailable = true) /\
  shouldRetry None (Some [if (status =? 503)%Z then ErrPoolExhausted else ErrEgressUnavailable])
  = negb (status =? 503)%Z.
Proof.
  cbv zeta. destruct e; split_and!; try done; vm_compute; reflexivity.
Qed.

Lemma store_urls p u :
  store_struct false wireURLsFields (Json.sanitize (proxyURLsJSON p)) u = Some (mkProxyURLs (to_valid (SOCKS5 p)) (to_valid (HTTP p))).
Proof. cbn [proxyURLsJSON member_string app Json.sanitize map fst snd store_struct]. names. store. done. Qed.

(** The bytes the API writes for an allocation, as the client reads them. *)
Lemma response_parsed `{GoFloatText, GoZone, GoNetip} error_text r text u :
  rfc3339 (rsp_ExpiresAt r) = Some text -> valid_utf8 (SOCKS5 (rsp_Proxies r)) = true ->
  SOCKS5 (rsp_Proxies r) <> "" -> url_parse (SOCKS5 (rsp_Proxies r)) = Some u ->
  parseTunnelPoolResponse (WriteJSON error_text (mkResponse 200 (ProxyBody r))).2 =
    Ok (mkPoolResponse u (to_valid (rsp_Pool r)) (to_valid (rsp_ExitCountry r)) (to_valid (rsp_ExitIP r))).
Proof.
  intros Ht Hv Hne Hu. unfold parseTunnelPoolResponse, WriteJSON, payloadJSON, proxyResponseJSON, object, member_time.
  cbn [r_payload snd]. rewrite Ht. cbn [fmap option_fmap option_map mapM mbind option_bind id always mret option_ret concat].
  unfold encode_indented. rewrite unmarshal_print.
  2: { apply printable_object; [done|]. rewrite !Forall_app. split_and!; try apply member_omitempty_printable;
       repeat apply Forall_cons_2; try apply Forall_nil_2; try exact I. apply printable_object; [done|].
       repeat apply Forall_cons_2; try apply Forall_nil_2; exact I. }
  2, 3: done.
  cbn [mbind option_bind Json.sanitize store_struct]. rewrite !map_app. cbn [map fst snd member member_string].
  unfold member_string_omitempty. names. cbn [app Json.sanitize]. store. rewrite store_urls. store.
  assert (forall w, store_members false wireResponseFields [("expiresAt", JString (to_valid text))] w = Some w) as Hx.
  { intros w. by rewrite store_unknown by reflexivity. }
  destruct (String.eqb_spec (rsp_ExitIP r) "") as [He|_]; [rewrite He|]; cbn [map fst snd app Json.sanitize]; names; store; rewrite Hx;
    cbn [wr_Proxies wr_Pool wr_ExitCountry wr_ExitIP SOCKS5]; rewrite (valid_utf8_id _ Hv), Hu;
    by destruct (String.eqb_spec (SOCKS5 (rsp_Proxies r)) "").
Qed.

Lemma url_parse_lease `{GoNetip} leaseID secret addr :
  safe_part leaseID = true -> safe_part secret = true -> plain_address addr = true ->
  url_parse ("socks5://" +:+ leaseID +:+ ":" +:+ secret +:+ "@" +:+ addr) =
  Some (mkURL "socks5" (Some (leaseID, Some secret)) addr).
Proof.
  intros Hi Hs Ha. unfold url_parse. rewrite cut_none.
  - by rewrite parse_lease_url.
  - destruct (plain_address_lease_byte _ Ha) as [Hl _].
    rewrite !has_byte_app, (forallb_no_byte lease_byte "#" addr eq_refl Hl).
    rewrite (forallb_no_byte lease_byte "#" leaseID eq_refl) by by apply safe_part_bytes.
    by rewrite (forallb_no_byte lease_byte "#" secret eq_refl) by by apply safe_part_bytes.
Qed.

Lemma lease_url_valid leaseID secret addr :
  safe_part leaseID = true -> safe_part secret = true -> plain_address addr = true ->
  valid_utf8 ("socks5://" +:+ leaseID +:+ ":" +:+ secret +:+ "@" +:+ addr) = true.
Proof.
  intros Hi Hs Ha. apply ascii_valid. unfold is_ascii. rewrite !string_forallb_app.
  rewrite (safe_part_bytes (fun c => (byte_val c <? 128)%N) leaseID), (safe_part_bytes (fun c => (byte_val c <? 128)%N) secret) by done.
  destruct (plain_address_lease_byte _ Ha) as [Hl _].
  rewrite (string_forallb_impl lease_byte (fun c => (byte_val c <? 128)%N) addr); [done| |done].
  intros c Hc. by destruct c as [[] [] [] [] [] [] [] []].
Qed.

(** A lease on its way to the client: the URL it is given is the gateway with
    the lease's credentials. *)
Lemma lease_parsed `{GoFloatText, GoZone, GoHash, GoNetip} error_text acq t rand1 rand2 now r lease pool exit ip :
  issuable acq = Some t -> plain_address (lg_socksPublicAddr r) = true ->
  is_Some (rfc3339 (now + lg_ttl r)) -> (Issue acq (Some rand1) (Some rand2) now r).2 = Ok lease ->
  parseTunnelPoolResponse
    (WriteJSON error_text (mkResponse 200 (ProxyBody (mkProxyResponse (Proxies lease) pool exit ip (ExpiresAt lease))))).2 =
  Ok (mkPoolResponse (mkURL "socks5" (Some (raw_url_encode rand1, Some (raw_url_encode rand2))) (lg_socksPublicAddr r))
        (to_valid pool) (to_valid exit) (to_valid ip)).
Proof.
  intros Ht Ha [text Hx] Hi. destruct (issued_socks_url acq t rand1 rand2 now r Ht Ha) as (lease' & Hi' & He & Hs).
  assert (lease' = lease) as -> by congruence.
  apply (response_parsed error_text (mkProxyResponse (Proxies lease) pool exit ip (ExpiresAt lease)) text); cbn [rsp_Proxies rsp_ExpiresAt]; rewrite ?He, ?Hs;
    [done|apply lease_url_valid|done|apply url_parse_lease]; auto using raw_url_encode_safe.
Qed.

(** End to end: the client parses the SOCKS5 URL of an issued lease into
    the gateway's public address, and the credentials its SOCKS5 dialer offers
    look up the acquired cell in the controller's registry until the lease
    expires, and nothing afterwards. *)
Theorem lease_end_to_end `{GoFloatText, GoZone, GoHash, GoNetip} error_text acq t rand1 rand2 now r :
  issuable acq = Some t -> plain_address (lg_socksPublicAddr r) = true -> is_Some (rfc3339 (now + lg_ttl r)) ->
  exists lease, (Issue acq (Some rand1) (Some rand2) now r).2 = Ok lease /\
    forall pool exit ip, exists resp username password,
      parseTunnelPoolResponse
        (WriteJSON error_text (mkResponse 200 (ProxyBody (mkProxyResponse (Proxies lease) pool exit ip (ExpiresAt lease))))).2 = Ok resp /\
      Host (ProxyURL resp) = lg_socksPublicAddr r /\
      socks5Auth (ProxyURL resp) = Some (username, password) /\
      forall now',
        (Lookup username password now' (Issue acq (Some rand1) (Some rand2) now r).1).2 =
        if (now' <? ExpiresAt lease)%Z
        then Some (lease_record acq t password (ExpiresAt lease)) else None.
Proof.
  intros Ht Ha Hx. destruct (issued_socks_url acq t rand1 rand2 now r Ht Ha) as (lease & Hi & He & _).
  exists lease. split; [done|]. intros pool exit ip.
  eexists _, (raw_url_encode rand1), (raw_url_encode rand2). split_and!; [by eapply lease_parsed|done..|].
  intros now'. rewrite He. by apply lookup_issued.
Qed.

(** ** Concrete runs *)
Module ClientExamples.


(** Answer the operations of a program from a list of events. *)
Definition answer_of {R} (o : cop R) : cevent -> option R :=
  match o in cop R return cevent -> option R with
  | CRand => fun e => match e with ERand r => Some r | _ => None end
  | CConvert _ => fun e => match e with EConvert _ r => Some r | _ => None end
  | CWait _ => fun e => match e with EWait _ r => Some r | _ => None end
  | CPool _ => fun e => match e with EPool _ r => Some r | _ => None end
  | CGetBody => fun e => match e with EGetBody r => Some r | _ => None end
  | CSend _ _ => fun e => match e with ESend _ _ r => Some r | _ => None end
  | CDirect => fun e => match e with EDirect r => Some r | _ => None end
  | CClose => fun e => match e with EClose => Some tt | _ => None end
  end.

Fixpoint replay {A} (p : prog cop A) (answers : list cevent) : option (list cevent * A) :=
  match p with
  | Ret a => Some ([], a)
  | Op o k =>
      match answers with
      | [] => None
      | e :: answers =>
          match answer_of o e with
          | None => None
          | Some r => match replay (k r) answers with
                      | Some (tr, a) => Some (event_of o r :: tr, a)
                      | None => None
                      end
          end
      end
  end.

Lemma replay_exec {A} (p : prog cop A) : forall answers tr a,
  replay p answers = Some (tr, a) -> Forall may_happen tr -> exec p tr a.
Proof.
  induction p as [a0|R o k IH]; intros answers tr a H Hm; cbn in H; [by simplify_eq|].
  destruct answers as [|e answers]; [done|]. destruct (answer_of o e) as [r|]; [|done].
  destruct (replay (k r) answers) as [[tr' a']|] eqn:Hr; [|done]. simplify_eq.
  apply Forall_cons in Hm as [Hm1 Hm2]. cbn. eauto 10.
Qed.

Definition proxy (host : string) : URL := mkURL "socks5" (Some ("u", Some "p")) host.
Definition us : Client := mkClient "US" DefaultRetryPolicy ModeVPNOnly.
Definition get : outbound := mkOutbound false false.
Definition ask0 : ProxyRequest := mkPoolRequest "" None false.
Definition give (host : string) : cevent := EPool ask0 (Ok (mkPoolResponse (proxy host) "us" "US" "")).
Definition sent (r : result cerror Z) : cevent := ESend (proxy "") false r.

(** A rate limit, a broken tunnel, a third proxy that works. *)
Definition three_tries : list cevent :=
  [give "a:1"; sent (Ok 429%Z); EClose; ERand (1 # 2); EWait 0 None; give "b:1"; sent (Err [OtherError "reset"]);
   ERand (3 # 4); EWait 0 None; give "c:1"; sent (Ok 200%Z)].

Definition three : list cevent * result cerror Z :=
  default ([], Err []) (replay (dispatch us get) three_tries).

Lemma three_exec : exec (dispatch us get) three.1 three.2.
Proof.
  apply (replay_exec _ three_tries); [vm_compute; reflexivity|]. vm_compute. repeat constructor.
Qed.

Example three_result : three.2 = Ok 200%Z.
Proof. vm_compute. reflexivity. Qed.

(** The third request excludes the second proxy. *)
Example three_excludes :
  omap (fun e => match e with EPool q _ => Some (Host <$> ExcludeProxy q) | _ => None end) three.1
  = [None; None; Some "b:1"].
Proof. vm_compute. reflexivity. Qed.

Lemma retry_staircase_witness :
  staircase us 1 None three.1 /\ count_of is_ask three.1 <= 5 /\ count_of is_direct three.1 = 0.
Proof. exact (retry_staircase us get three.1 three.2 three_exec). Defined.

Lemma retry_outcome_witness :
  loop_value 5 three.1 three.2 /\ count_of is_close three.1 = count_of is_discarded three.1.
Proof. exact (retry_outcome us get three.1 three.2 three_exec). Defined.

Lemma dispatch_never_leaks_witness :
  count_of is_direct three.1 = 0 /\ staircase us 1 None three.1 /\ count_of is_ask three.1 <= 5.
Proof. exact (dispatch_never_leaks us get three.1 three.2 three_exec). Defined.

(** The API's texts, in UTC. *)
#[local] Instance whole : GoFloatText := {| float_text := fun q => itoa (QArith.Qround.Qfloor q) |}.
#[local] Instance utc : GoZone := {| zone_offset := fun _ => 0%Z |}.
Definition no_text (e : Types.error) : string := "".

Lemma lease_end_to_end_witness :
  let r := newLeaseRegistry "gw.example:1080" "gw.example:8080" 10 in
  exists lease,
    (@Issue LeaseExamples.plain_hash LeaseExamples.acq (Some "abc") (Some "xyz") 5 r).2 = Ok lease.
Proof.
  cbv zeta.
  destruct (@lease_end_to_end whole utc LeaseExamples.plain_hash {| parse_ip_literal := fun s => Some s |} no_text
    LeaseExamples.acq LeaseExamples.cell "abc" "xyz" 5 (newLeaseRegistry "gw.example:1080" "gw.example:8080" 10)
    eq_refl eq_refl ltac:(vm_compute; eexists; reflexivity)) as (lease & Hi & _).
  exists lease. exact Hi.
Defined.

(** Two endpoints that agree, directly and through a proxy. *)
#[local] Existing Instance canonical_order.

Definition says (ip : string) : echo_reply := EchoAnswered 200 ip.
Definition rerouted : check_env :=
  mkCheckEnv [says "198.51.100.7"; says "198.51.100.7"] (Ok (Some (proxy "a:1")))
    [says "203.0.113.9"; says "203.0.113.9"].
Definition leaking : check_env :=
  mkCheckEnv [says "198.51.100.7"; says "198.51.100.7"] (Ok (Some (proxy "a:1")))
    [says "198.51.100.7"; says "198.51.100.7"].

Example rerouted_passes : PreflightSanityCheck rerouted = None.
Proof. vm_compute. reflexivity. Qed.
Example leaking_refused : PreflightSanityCheck leaking = Some [ErrPreflightLeaked].
Proof. vm_compute. reflexivity. Qed.

Definition busy : check_env := mkCheckEnv [says "1"; says "2"] (Ok None) [].

Lemma preflight_retry_returns_witness :
  is_Some (PreflightSanityCheckWithRetry (fun _ => (busy, 0%Z)) (fun _ => false)).
Proof. apply (preflight_retry_returns (fun _ => (busy, 0%Z)) (fun _ => false)). intros i. cbn. lia. Defined.

(** The bound is tight: a pool that is never ready is asked 22 times. *)
Example preflight_22_checks :
  preflight_loop 21 (fun _ => (busy, 0%Z)) (fun _ => false) 1 0 preflightRetryBackoffStart = None.
Proof. vm_compute. reflexivity. Qed.

(** A 503 of the control API reaches preflight as [ErrPoolExhausted], which the
    retry wrapper does not retry: it gives up on the first check. *)
Definition cold : check_env :=
  mkCheckEnv [says "198.51.100.7"; says "198.51.100.7"]
    (match executeProxyRequest (Some (WriteJSON no_text (writeError 503))) with
     | Ok _ => Ok None | Err e => Err e end) [].

Theorem cold_pool_not_retried checks tie took :
  checks 1 = (cold, took) ->
  PreflightSanityCheckWithRetry checks tie = Some (Some [ErrPoolExhausted]).
Proof.
  intros H. unfold PreflightSanityCheckWithRetry. cbn [preflight_loop]. rewrite H.
  assert (PreflightSanityCheck cold = Some [ErrPoolExhausted]) as -> by (vm_compute; reflexivity). done.
Qed.

(** An echo endpoint that cannot be reached makes preflight fail with an error
    that is neither [ErrPreflightFailed] nor retried. *)
Definition unreachable : check_env :=
  mkCheckEnv [EchoUnreachable [OtherError "connection refused"]; says "198.51.100.7"] (Ok None) [].

Theorem echo_outage_not_retried checks tie took :
  checks 1 = (unreachable, took) ->
  PreflightSanityCheckWithRetry checks tie = Some (Some [OtherError "connection refused"]) /\
  errIs [OtherError "connection refused"] ErrPreflightFailed = false.
Proof.
  intros H. unfold PreflightSanityCheckWithRetry. cbn [preflight_loop]. rewrite H.
  assert (PreflightSanityCheck unreachable = Some [OtherError "connection refused"]) as ->
    by (vm_compute; reflexivity). done.
Qed.

Lemma default_sound : sound DefaultRetryPolicy 2 (1 # 4).
Proof. split; first [done|reflexivity|vm_compute; by split]. Qed.

(** The default policy waits 0.75 to 1.25 s before the second attempt and 6 to
    10 s before the fifth; no wait exceeds 37.5 s, and a request of five
    attempts waits at most 150 s in all. *)
Lemma backoff_bounded_witness :
  (forall tr d, exec (backoffFor DefaultRetryPolicy 2) tr d -> (750000000 <= d <= 1250000000)%Z) /\
  (forall tr d, exec (backoffFor DefaultRetryPolicy 5) tr d -> (6000000000 <= d <= 10000000000)%Z) /\
  (slept three.1 <= 150000000000)%Z.
Proof.
  destruct (backoff_bounded us 2 (1 # 4) default_sound) as [Hw Hr].
  assert (capped DefaultRetryPolicy 2 = Finite (1000000000 # 1)) as E2 by (vm_compute; reflexivity).
  assert (capped DefaultRetryPolicy 5 = Finite (8000000000 # 1)) as E5 by (vm_compute; reflexivity).
  split_and!.
  - intros tr d H. destruct (Hw 2%Z tr d ltac:(lia) H) as (b & E & _ & Hd & _). cbn [policy us] in E.
    rewrite E2 in E. injection E as <-. exact (Hd eq_refl).
  - intros tr d H. destruct (Hw 5%Z tr d ltac:(lia) H) as (b & E & _ & Hd & _). cbn [policy us] in E.
    rewrite E5 in E. injection E as <-. exact (Hd eq_refl).
  - destruct (Hr get three.1 three.2 three_exec) as [_ H]. exact H.
Defined.

(** The jitter is applied after the cap: with the defaults the wait before the
    seventh attempt can be longer than [MaxBackoff]. *)
Theorem backoff_exceeds_max : exists tr d,
  exec (backoffFor DefaultRetryPolicy 7) tr d /\ (MaxBackoff DefaultRetryPolicy < d)%Z.
Proof.
  exists [ERand (3 # 4)], 33750000000%Z. split; [|by vm_compute].
  exists (3 # 4)%Q, []. split; [reflexivity|]. split; [done|]. vm_compute. done.
Qed.

(** With fewer than five attempts no request allows the fallback pool, also
    when the policy asks for it. *)
Theorem short_policy_never_falls_back c req tr r q a :
  (MaxAttempts (policy c) <= 4)%Z ->
  exec (do_proxied c req) tr r -> EPool q a ∈ tr -> FallbackOK q = false.
Proof.
  intros Hmax H Hin. apply do_loop_exec in H as (Hs & Hn & _).
  assert (Hgen : forall k prev t, staircase c k prev t -> (k + Z.of_nat (count_of is_ask t) <= 5)%Z ->
                 EPool q a ∈ t -> FallbackOK q = false).
  { intros k prev t. revert k prev. induction t as [|e t IH]; intros k prev Hst Hk Hi; [by apply elem_of_nil in Hi|].
    assert (Hc : count_of is_ask (e :: t) = (if is_ask e then 1 else 0) + count_of is_ask t)
      by (unfold count_of; rewrite filter_cons; destruct (is_ask e); case_decide; done).
    rewrite Hc in Hk. apply elem_of_cons in Hi as [<-|Hi].
    - cbn in Hst, Hk. destruct Hst as (_ & _ & -> & _). destruct (Z.leb_spec 5 k); [lia|done].
    - destruct e; cbn in Hst, Hk; destruct_and?; eapply IH; try done; lia. }
  eapply Hgen; [exact Hs| |exact Hin]. lia.
Qed.

Lemma short_policy_never_falls_back_witness : exists q a,
  EPool q a ∈ three.1 /\ FallbackOK q = false.
Proof.
  pose (c := mkClient "US" (mkRetryPolicy 3 Second (30 * Second) (Finite 2) (Finite (1 # 4)) true) ModeVPNOnly).
  assert (Hx : exec (do_proxied c get) three.1 three.2).
  { apply (replay_exec _ three_tries); [vm_compute; reflexivity|]. vm_compute. repeat constructor. }
  assert (exists q a rest, three.1 = EPool q a :: rest) as (q & a & rest & E).
  { eexists _, _, _. vm_compute. reflexivity. }
  exists q, a. assert (EPool q a ∈ three.1) as Hin by (rewrite E; left). split; [done|].
  refine (short_policy_never_falls_back c get three.1 three.2 q a _ Hx Hin). vm_compute. discriminate.
Defined.

(** The second attempt asks the pool again: it is sent to whatever proxy the
    pool then hands out, not necessarily the first one. *)
Theorem second_attempt_may_move :
  exists tr r, exec (do_proxied us get) tr r /\
    omap (fun e => match e with ESend u f _ => Some (Host u, f) | _ => None end) tr
    = [("a:1", false); ("b:1", true); ("c:1", false)].
Proof.
  exists three.1, three.2. split; [exact three_exec|]. vm_compute. reflexivity.
Qed.
End ClientExamples.
