(* ===== verification/Relay.v ===== *)
(** * From the client to the target: the gateway and the cell as SOCKS5 servers

    The path of a connection over both hops, byte for byte: the client's dialer
    with the gateway, and the gateway's dialer with the cell.  The second hop is the
    dial of [dialLease]: its outcome is the outcome of the handshake with the cell
    that listens at the address it dials ([handshake]). *)

From S2P Require Import Prelude GoStrings HostPort Encoding UrlParse JsonStruct GoTime Types PoolState Lease Prog System Manager Gateway Connections.
From S2P Require Import Socks Sessions Handshake Conversation Api Wire Client.

(** ** The path of a connection *)

Section path.
Context `{GoIP}.

Lemma splitHostPort_ok address host port :
  splitHostPort address = Ok (host, port) -> bracket_free host /\ (1 <= port <= 65535)%Z.
Proof.
  unfold splitHostPort. destruct (split_host_port address) as [[h ps]|] eqn:Hs; [|done].
  destruct (atoi ps) as [n|]; [|done]. destruct (_ || _) eqn:Hr; [done|]. intros [= <- <-].
  apply orb_false_iff in Hr as [H1%Z.ltb_ge H2%Z.ltb_ge]. split; [by eapply split_host_port_free|done].
Qed.

(** The address the gateway dials through the cell splits into the same host
    and port. *)
Lemma splitHostPort_join host port :
  bracket_free host -> (1 <= port <= 65535)%Z -> splitHostPort (join_host_port host (itoa port)) = Ok (host, port).
Proof.
  intros Hh Hp. unfold splitHostPort. rewrite split_join_host_port by (done || apply itoa_digits; lia).
  rewrite atoi_itoa by (unfold max_int64; lia).
  by rewrite (proj2 (Z.ltb_ge _ _)), (proj2 (Z.ltb_ge _ _)) by lia.
Qed.

(** The gateway passes the destination on as it was asked for. *)
Lemma gateway_passes_on auth host port :
  handleRequest gatewayServer auth CommandConnect (requested host port) = handleConnect auth (requested host port).
Proof.
  unfold handleRequest, requested. destruct (parse_ip host) as [ip|]; [by destruct (To4 ip)|]. cbn [FQDN].
  by destruct (String.eqb host "").
Qed.

(** One hop through the gateway, to the relay. *)
Lemma gateway_hop a u p address host port ip bport :
  splitHostPort address = Ok (host, port) -> wire_host host ->
  1 <= String.length u <= 255 -> String.length p <= 255 -> ans_valid a u p = true ->
  ans_dial a "tcp" (addrString (requested host port)) (Some (u, p)) = Ok (Some (ip, bport)) ->
  ip_bytes ip -> (0 <= bport < 65536)%Z ->
  settles a (start (connect (Some (u, p)) address) (ServeConn gatewayServer))
    (mkSession (Ret (Ok (mkSocksAddr "" (bound_ip ip) bport))) relaying "" ""
       [AskedValid u p; AskedDial "tcp" (addrString (requested host port)) (Some (u, p))]).
Proof.
  intros Ha Hw Hu Hp Hv Hd Hip Hb. destruct (splitHostPort_ok _ _ _ Ha) as [_ Hr].
  apply settles_intro; [|apply relaying_settled].
  apply (negotiate_password a _ _ _ _ u p host port address _ Ha Hu Hp Hv).
  apply send_request; [done|lia|]. fold gatewayServer. rewrite gateway_passes_on.
  exact (reply_success a _ _ _ _ [AskedValid u p] Hd Hip Hb).
Qed.

(** One hop through a cell, for a name the cell can look up. *)
Lemma cell_hop a address host port ip lip lport :
  splitHostPort address = Ok (host, port) -> parse_ip host = None -> 1 <= String.length host <= 255 ->
  ans_lookup a host = Ok ip -> String.length ip <> 0 ->
  ans_dial a "tcp" (join_host_port (ip_string ip) (itoa port)) None = Ok (Some (lip, lport)) ->
  ip_bytes lip -> (0 <= lport < 65536)%Z ->
  settles a (start (connect None address) (ServeConn cellServer))
    (mkSession (Ret (Ok (mkSocksAddr "" (bound_ip lip) lport))) relaying "" ""
       [AskedLookup host; AskedDial "tcp" (join_host_port (ip_string ip) (itoa port)) None]).
Proof.
  intros Ha Hn Hh Hl Hip0 Hd Hip Hb. destruct (splitHostPort_ok _ _ _ Ha) as [_ Hr].
  apply settles_intro; [|apply relaying_settled]. apply (negotiate_open a _ _ _ _ host port address _ Ha).
  apply send_request; [unfold wire_host; rewrite Hn; lia|lia|]. fold cellServer. unfold requested. rewrite Hn.
  unfold handleRequest. cbn [FQDN sv_resolver cellServer as_Port AddrType].
  destruct (String.eqb_spec host "") as [->|_]; [cbn in Hh; lia|].
  refine (server_looks_up a host _ _ _ _ _ _ _). rewrite Hl.
  assert (addrString (mkAddrSpec host ip port ATYPDomain) = join_host_port (ip_string ip) (itoa port)) as Es.
  { unfold addrString. cbn [as_IP as_Port]. destruct (Nat.eqb_spec (String.length ip) 0); done. }
  rewrite <- Es in Hd |- *. exact (reply_success a None _ _ _ [AskedLookup host] Hd Hip Hb).
Qed.
End path.

(** ** The dial of [dialLease] as a handshake *)

Section network.
Context `{GoIP}.

(** The cells of the network, by the address their SOCKS5 server listens at. *)
Variable net : string -> option answers.

(** [proxy.SOCKS5(network, gateway, nil, ...).DialContext]: the outcome of the
    handshake with the cell at [gateway], for a destination. *)
Definition handshake (gateway address : string) (d : dial_result) : Prop :=
  match net gateway with
  | None => d = DialFailed
  | Some cell => exists f, settles cell (start (connect None address) (ServeConn cellServer)) f /\
      d = match ss_dialer f with Ret (Ok _) => DialConnected | _ => DialFailed end
  end.

(** The answers of the outside when the clock reads [now]: dials have the outcome
    of their handshake. *)
Definition outside (now : Z) {R} (o : op R) (a : answer) : Prop :=
  match o with
  | OpNow => a_now a = now
  | OpDial gateway _ address => handshake gateway address (a_dial a)
  | _ => True
  end.

(** [runs_in tid now p w x w']: [p], executed alone with those answers, ends. *)
Fixpoint runs_in (tid : nat) (now : Z) {A} (p : sys A) (w : world) (x : A) (w' : world) : Prop :=
  match p with
  | Ret y => x = y /\ w' = w
  | Op o k => exists a r w1, outside now o a /\ op_exec tid o a w = Some (r, w1) /\ runs_in tid now (k r) w1 x w'
  end.

Lemma runs_in_bind tid now {A B} (p : sys A) (f : A -> sys B) w b w' :
  runs_in tid now (p ≫= f) w b w' <-> exists x w1, runs_in tid now p w x w1 /\ runs_in tid now (f x) w1 b w'.
Proof.
  revert w. induction p as [y|R o k IH]; intros w; simpl.
  - split; [intros Hb; by exists y, w | by intros (? & ? & [-> ->] & ?)].
  - split.
    + intros (a & r & w1 & Ho & He & (x & w2 & Ha & Hb)%IH). eauto 10.
    + intros (x & w2 & (a & r & w1 & Ho & He & Ha) & Hb). exists a, r, w1. split_and!; [done..|]. apply IH. eauto.
Qed.

(** A handshake has one outcome. *)
Lemma settles_unique a x f f' : settles a x f -> settles a x f' -> f = f'.
Proof.
  intros (Hf & _ & Hall) (Hf' & Hn & _). symmetry. exact (rtc_nf _ _ (Hall f' Hf') Hn).
Qed.

Section leased.
Context `{GoHash} (tid : nat) (now : Z) (u pw : string) (w : world).

(** The acquisition of a lease reads the clock once. *)
Lemma runs_in_AcquireForLease x w1 :
  runs_in tid now (AcquireForLease u pw) w x w1 ->
  w_events w1 = w_events w /\
  match (Lookup u pw now (w_leases w)).2 with
  | None => x = Err ErrPoolUnavailable
  | Some rc => forall p t, leased_cell w rc p t -> exists used, x = Ok (mkAcquisition (Some (reserve used t)) (lr_Pool rc))
  end.
Proof.
  unfold AcquireForLease, lookupLease. rewrite runs_in_bind. intros (lease & w2 & H1 & H2).
  apply runs_in_bind in H1 as (n & w3 & H3 & H4). destruct H3 as (a & r & w4 & Hn & He & -> & ->).
  simpl in Hn, He. simplify_eq. destruct H4 as (a' & r' & w5 & _ & He' & -> & ->). cbn [op_exec] in He'.
  cbn [w_leases tick] in He'. destruct (Lookup u pw (a_now a) (w_leases w)) as [lg rc']. injection He' as <- <-.
  cbn [snd]. destruct rc' as [rc|]; [|by destruct H2 as [-> ->]].
  unfold getPool in H2. apply runs_in_bind in H2 as (st & w6 & H5 & H6).
  apply runs_in_bind in H5 as (spec & w7 & H7 & [-> ->]). destruct H7 as (a2 & r2 & w8 & _ & He2 & -> & ->).
  simpl in He2. simplify_eq. destruct (w_pools w !! lr_Pool rc) as [p|] eqn:Hk; simpl in H6.
  2: { destruct H6 as [-> ->]. split; [done|]. intros p t (Hk' & _). congruence. }
  destruct H6 as (a3 & r3 & w9 & _ & He3 & -> & ->). simpl in He3. rewrite Hk in He3.
  pose proof (acquireContainer_correct (lr_ContainerID rc) (a_now a3) p) as Hc.
  destruct (acquireContainer (lr_ContainerID rc) (a_now a3) p) as [p' got]. injection He3 as <- <-. split; [done|].
  intros p0 t (Hk' & Ht & Hh & Hid). assert (p0 = p) as -> by congruence. destruct got as [t'|e].
  - destruct Hc as (t0 & Ht0 & _ & _ & -> & _). assert (t0 = t) as -> by congruence. by eexists.
  - destruct Hc as (_ & _ & Hno). by destruct (Hno t Ht Hh).
Qed.

(** [dialLease] of an expired or unknown lease dials nothing. *)
Lemma dialLease_refused network address x w1 :
  (Lookup u pw now (w_leases w)).2 = None -> runs_in tid now (dialLease u pw network address) w x w1 ->
  x = Err ErrPoolUnavailable /\ w_events w1 = w_events w.
Proof.
  intros Hl. unfold dialLease. rewrite runs_in_bind. intros (acq & w2 & Ha & Hr).
  apply runs_in_AcquireForLease in Ha as [Hv Ha]. rewrite Hl in Ha. subst acq. by destruct Hr as [-> ->].
Qed.

(** [dialLease] of a live lease dials its cell, and connects if the handshake with
    that cell succeeds. *)
Lemma dialLease_connects network address x w1 rc p t cell f bound :
  (Lookup u pw now (w_leases w)).2 = Some rc -> leased_cell w rc p t -> net (GatewayAddr t) = Some cell ->
  settles cell (start (connect None address) (ServeConn cellServer)) f -> ss_dialer f = Ret (Ok bound) ->
  runs_in tid now (dialLease u pw network address) w x w1 ->
  is_ok x = true /\ w_events w1 = EvDialled (GatewayAddr t) network address DialConnected :: w_events w.
Proof.
  intros Hl Hc Hnet Hf Hok. unfold dialLease. rewrite runs_in_bind. intros (acq & w2 & Ha & Hr).
  apply runs_in_AcquireForLease in Ha as [Hv Ha]. rewrite Hl in Ha. destruct (Ha p t Hc) as [used ->]. clear Ha.
  cbn [acq_Tunnel] in Hr. apply runs_in_bind in Hr as (d & w3 & Hd & Hr).
  destruct Hd as (a & r & w4 & Ho & He & -> & ->). simpl in Ho, He. simplify_eq.
  unfold handshake in Ho. change (GatewayAddr (reserve used t)) with (GatewayAddr t) in *. rewrite Hnet in Ho.
  destruct Ho as (f' & Hf' & Hd). rewrite (settles_unique _ _ _ _ Hf' Hf), Hok in Hd. rewrite Hd in *.
  destruct Hr as [-> ->]. simpl. by rewrite Hv.
Qed.
End leased.
End network.

(** The credentials of a lease fit the protocol. *)
Lemma lease_part_length rand : String.length rand = 32 -> 1 <= String.length (raw_url_encode rand) <= 255.
Proof. intros Hr. rewrite raw_url_encode_length, Hr. vm_compute. lia. Qed.

(** C17. A name goes to the target through the leased cell and is resolved nowhere
    else.  Take a lease the controller issued, as the client parses it out of the
    text of the API's response: it names the controller's SOCKS5 gateway and the
    credentials.  Take a controller that holds the lease and whose pool has the
    leased cell hot, the cell that listens at that tunnel's gateway address, and a
    named target the cell can reach.  While the lease is live, [dialLease] for these
    credentials, executed alone, connects after exactly one dial, to that gateway
    address and for the same name and port; the SOCKS5 handshake of the client with
    the gateway, whose dial has that outcome, ends, however the two run, with both
    ends relaying and no byte left over, the gateway having checked the credentials
    and asked for that dial; and the gateway's own handshake with that cell ends with
    the cell having looked the name up and dialled the address it found.  A lease
    that has expired at the check is refused to the client, and one that has expired
    at the dial is not dialled. *)
Theorem name_resolved_in_cell `{GoIP, GoHash, GoNetip, GoFloatText, GoZone} error_text acq t rand1 rand2 now r :
  issuable acq = Some t -> plain_address (lg_socksPublicAddr r) = true -> is_Some (rfc3339 (now + lg_ttl r)) ->
  String.length rand1 = 32 -> String.length rand2 = 32 ->
  exists lease, (Issue acq (Some rand1) (Some rand2) now r).2 = Ok lease /\
  forall pool exit exitIP, exists resp u p,
    parseTunnelPoolResponse (WriteJSON error_text (mkResponse 200 (ProxyBody
      (mkProxyResponse (Proxies lease) pool exit exitIP (ExpiresAt lease))))).2 = Ok resp /\
    Host (Client.ProxyURL resp) = lg_socksPublicAddr r /\ socks5Auth (Client.ProxyURL resp) = Some (u, p) /\
    forall net w pool0 cell0 cell tid now1 now2 address name port ip lip lport gateway dialled w1 gip gport failure,
      w_leases w = (Issue acq (Some rand1) (Some rand2) now r).1 ->
      w_pools w !! acq_Pool acq = Some pool0 -> tunnel pool0 = Some cell0 -> State cell0 = TunnelStateHot ->
      ContainerID cell0 = ContainerID t -> net (GatewayAddr cell0) = Some cell ->
      splitHostPort address = Ok (name, port) -> parse_ip name = None -> 1 <= String.length name <= 255 ->
      ans_lookup cell name = Ok ip -> String.length ip <> 0 ->
      ans_dial cell "tcp" (join_host_port (ip_string ip) (itoa port)) None = Ok (Some (lip, lport)) ->
      ip_bytes lip -> (0 <= lport < 65536)%Z ->
      let hop := join_host_port name (itoa port) in
      runs_in net tid now2 (dialLease u p "tcp" hop) w dialled w1 ->
      ans_valid gateway u p = Valid u p now1 (w_leases w) ->
      ans_dial gateway "tcp" hop (Some (u, p)) =
        match dialled with Ok _ => Ok (Some (gip, gport)) | Err _ => Err failure end ->
      ip_bytes gip -> (0 <= gport < 65536)%Z ->
      ((now1 < ExpiresAt lease)%Z -> (now2 < ExpiresAt lease)%Z ->
       is_ok dialled = true /\
       w_events w1 = EvDialled (GatewayAddr cell0) "tcp" hop DialConnected :: w_events w /\
       settles gateway (start (connect (Some (u, p)) address) (ServeConn gatewayServer))
         (mkSession (Ret (Ok (mkSocksAddr "" (bound_ip gip) gport))) relaying "" ""
            [AskedValid u p; AskedDial "tcp" hop (Some (u, p))]) /\
       settles cell (start (connect None hop) (ServeConn cellServer))
         (mkSession (Ret (Ok (mkSocksAddr "" (bound_ip lip) lport))) relaying "" ""
            [AskedLookup name; AskedDial "tcp" (join_host_port (ip_string ip) (itoa port)) None])) /\
      ((ExpiresAt lease <= now1)%Z ->
       settles gateway (start (connect (Some (u, p)) address) (ServeConn gatewayServer))
         (mkSession (Ret (Err "username/password authentication failed"))
            (Ret (Err "failed to authenticate: user authentication failed")) "" "" [AskedValid u p])) /\
      ((ExpiresAt lease <= now2)%Z -> dialled = Err ErrPoolUnavailable /\ w_events w1 = w_events w).
Proof.
  intros Ht Ha Hx Hr1 Hr2. destruct (issued_socks_url acq t rand1 rand2 now r Ht Ha) as (lease & Hi & He & Hs).
  exists lease. split; [done|]. intros pool exit exitIP.
  eexists _, (raw_url_encode rand1), (raw_url_encode rand2). split; [by eapply lease_parsed|].
  split; [done|]. split; [done|]. cbv zeta. pose proof (lease_part_length _ Hr1). pose proof (lease_part_length _ Hr2).
  intros net w pool0 cell0 cell tid now1 now2 address name port ip lip lport gateway dialled w1 gip gport failure
    Hw Hpool Hcell Hhot Hid Hnet Hsp Hn Hlen Hl Hip0 Hcd Hlip Hlp Hrun Hv Hgd Hgip Hgp.
  set (hop := join_host_port name (itoa port)) in *.
  assert (addrString (requested name port) = hop) as Eh by (unfold requested; by rewrite Hn).
  pose proof (fun n => lookup_issued acq t rand1 rand2 now n r Ht) as Hlook. rewrite <- Hw in Hlook.
  unfold Valid in Hv. rewrite Hlook in Hv. rewrite He. split_and!.
  - intros L1 L2. rewrite (proj2 (Z.ltb_lt _ _) L1) in Hv. specialize (Hlook now2).
    rewrite (proj2 (Z.ltb_lt _ _) L2) in Hlook. destruct (splitHostPort_ok _ _ _ Hsp) as [Hfree Hr].
    assert (Hc : settles cell (start (connect None hop) (ServeConn cellServer))
      (mkSession (Ret (Ok (mkSocksAddr "" (bound_ip lip) lport))) relaying "" ""
         [AskedLookup name; AskedDial "tcp" (join_host_port (ip_string ip) (itoa port)) None])).
    { eapply cell_hop; try done. by apply splitHostPort_join. }
    destruct (dialLease_connects net tid now2 _ _ w "tcp" hop dialled w1 _ pool0 cell0 cell _ _ Hlook
      (conj Hpool (conj Hcell (conj Hhot Hid))) Hnet Hc eq_refl Hrun) as [Hok Hev].
    split; [done|]. split; [done|]. split; [|done]. destruct dialled as [c|e]; [|done].
    rewrite <- Eh in Hgd |- *. eapply gateway_hop; try done; [unfold wire_host; rewrite Hn; lia|lia].
  - intros L1. rewrite (proj2 (Z.ltb_ge _ _) L1) in Hv.
    apply settles_intro; [|apply ended_settled]. eapply negotiate_refused; [done..|lia|done].
  - intros L2. specialize (Hlook now2). rewrite (proj2 (Z.ltb_ge _ _) L2) in Hlook.
    by eapply dialLease_refused.
Qed.

(** ** Concrete conversations *)
Module RelayExamples.

#[local] Instance one_ip : GoIP := {| parse_ip := fun _ => None; ip_string := fun _ => "203.0.113.9" |}.

Definition at_gateway (u p : string) : answers :=
  mkAnswers (fun u' p' => String.eqb u u' && String.eqb p p') (fun _ => Err "no resolver")
    (fun _ _ _ => Ok (Some (bytes [10; 0; 0; 2]%Z, 40000%Z))).
Definition at_cell : answers :=
  mkAnswers (fun _ _ => false) (fun _ => Ok (bytes [203; 0; 113; 9]%Z))
    (fun _ _ _ => Ok (Some (bytes [10; 9; 0; 1]%Z, 40001%Z))).

Definition random1 : string := "0123456789abcdef0123456789abcdef".
Definition random2 : string := "fedcba9876543210fedcba9876543210".
Definition gateway_registry : leaseRegistry := newLeaseRegistry "gw.example:1080" "gw.example:8080" minute.
Definition credentials : string * string := (raw_url_encode random1, raw_url_encode random2).

#[local] Existing Instance LeaseExamples.plain_hash.

(** The controller after the lease was issued, with the leased cell hot, and the
    network the cell listens on. *)
Definition issued_registry : leaseRegistry :=
  (Issue LeaseExamples.acq (Some random1) (Some random2) 5 gateway_registry).1.
Definition controller : world :=
  mkWorld {[ "us" := setTunnel (Some LeaseExamples.cell) (NewPoolState PoolExamples.spec) ]} issued_registry ∅ [] 0.
Definition cell_network (address : string) : option answers :=
  if String.eqb address "10.0.0.2:1080" then Some at_cell else None.

Lemma cell_connects :
  handshake cell_network "10.0.0.2:1080" "example.com:443" DialConnected.
Proof.
  refine (ex_intro _ _ (conj (cell_hop at_cell "example.com:443" "example.com" 443 (bytes [203; 0; 113; 9]%Z)
    (bytes [10; 9; 0; 1]%Z) 40001 _ _ _ _ _ _ _ _) eq_refl));
    first [vm_compute; reflexivity | left; reflexivity | cbn; lia].
Qed.

Definition responds : answer :=
  mkAnswer 5 0 None (Err ErrSpawnFailed) None (Ok []) (Ok 0) true (Err ErrForeign) DialConnected.

Lemma controller_dials :
  exists c w1, runs_in cell_network 0 5 (dialLease credentials.1 credentials.2 "tcp" "example.com:443") controller (Ok c) w1.
Proof.
  eexists _, _.
  do 4 (exists responds; eexists _, _; split; [first [exact I | reflexivity]|];
        split; [vm_compute; reflexivity|]; cbn beta iota zeta delta -[runs_in]).
  exists responds. eexists _, _. split; [exact cell_connects|]. split; [reflexivity|]. split; reflexivity.
Qed.

Lemma name_resolved_in_cell_witness :
  exists w1, w_events w1 = [EvDialled "10.0.0.2:1080" "tcp" "example.com:443" DialConnected] /\
  settles at_cell (start (connect None "example.com:443") (ServeConn cellServer))
    (mkSession (Ret (Ok (mkSocksAddr "" (bytes [10; 9; 0; 1]%Z) 40001))) relaying "" ""
       [AskedLookup "example.com"; AskedDial "tcp" "203.0.113.9:443" None]).
Proof.
  destruct controller_dials as (c & w1 & Hrun). exists w1.
  destruct (@name_resolved_in_cell one_ip LeaseExamples.plain_hash {| parse_ip_literal := fun s => Some s |}
    {| float_text := fun q => "" |} {| zone_offset := fun _ => 0%Z |} (fun _ => "")
    LeaseExamples.acq LeaseExamples.cell random1 random2 5 gateway_registry eq_refl eq_refl
    ltac:(vm_compute; eexists; reflexivity) eq_refl eq_refl) as (lease & Hi & Hx).
  destruct (Hx "us" "US" "") as (resp & u & p & Hr & _ & Hc & Hpath). vm_compute in Hi. injection Hi as <-.
  assert (u = credentials.1 /\ p = credentials.2) as [-> ->].
  { vm_compute in Hr. injection Hr as <-. vm_compute in Hc. injection Hc as <- <-. vm_compute. done. }
  unshelve epose proof (Hpath cell_network controller (setTunnel (Some LeaseExamples.cell) (NewPoolState PoolExamples.spec))
    LeaseExamples.cell at_cell 0 5%Z 5%Z "example.com:443" "example.com" 443%Z (bytes [203; 0; 113; 9]%Z)
    (bytes [10; 9; 0; 1]%Z) 40001%Z (at_gateway credentials.1 credentials.2) (Ok c) w1 (bytes [10; 0; 0; 2]%Z) 40000%Z ""
    _ _ _ _ _ _ _ _ _ _ _ _ _ _ Hrun _ _ _ _) as (Hlive & _).
  1-18: first [reflexivity | vm_compute; reflexivity | left; reflexivity | lia | cbn; lia | discriminate].
  destruct (Hlive ltac:(cbn; lia) ltac:(cbn; lia)) as (_ & Hev & _ & Hcell). split; [exact Hev|exact Hcell].
Defined.
End RelayExamples.
