(* ===== verification/PoolClient.v ===== *)
(** * The pool client ([pkg/client/tunnelpool.go]) and the controller it talks to

    [TunnelPoolClient] from its options to the HTTP request it sends, and that
    request as the control-plane API of [Api] receives it, byte for byte. *)

From S2P Require Import Prelude GoStrings Utf8 Encoding UrlParse Json JsonStruct GoTime MediaType Types Pools Lease Prog System Manager Spawner Connections Api Wire Scenarios Client.

(** ** Construction *)

(** An [http.Client], by what the package sets of it. *)
Record httpClient := mkHTTPClient { hc_Timeout : Z; hc_injected : bool }.

Record TunnelPoolClient := mkTunnelPoolClient {
  baseURL : string;
  poolID : string;
  bearerToken : string;
  doer : option httpClient;
  timeout : Z;
}.

(** [TunnelPoolOption] and the functions that make one. *)
Inductive TunnelPoolOption :=
  | WithPool (pool : string)
  | WithBearerToken (token : string)
  | WithHTTPClient (c : option httpClient).

Definition apply_pool_option (t : TunnelPoolClient) (opt : TunnelPoolOption) : TunnelPoolClient :=
  match opt with
  | WithPool pool => mkTunnelPoolClient (baseURL t) pool (bearerToken t) (doer t) (timeout t)
  | WithBearerToken token => mkTunnelPoolClient (baseURL t) (poolID t) token (doer t) (timeout t)
  | WithHTTPClient c => mkTunnelPoolClient (baseURL t) (poolID t) (bearerToken t) c (timeout t)
  end.

(** [NewTunnelPoolClient]. *)
Definition NewTunnelPoolClient (base : string) (limit : Z) (opts : list TunnelPoolOption) : TunnelPoolClient :=
  let c := foldl apply_pool_option (mkTunnelPoolClient base "" "" None limit) opts in
  match doer c with
  | None => mkTunnelPoolClient (baseURL c) (poolID c) (bearerToken c) (Some (mkHTTPClient limit false)) (timeout c)
  | Some _ => c
  end.

(** ** The request *)

(** [tunnelPoolWireRequest]. *)
Record wireRequest := mkWire {
  w_country : string;
  w_pool : string;
  w_exclude : string;
  w_fallback : bool;
}.

(** What goes out: the method, the URL, the header fields and the payload. *)
Record outgoing := mkOutgoing {
  out_Method : string;
  out_URL : string;
  out_Header : gmap string string;
  out_Payload : string;
}.

(** The text of a wire request. *)
Definition wireJSON (w : wireRequest) : json :=
  JObject (member_string_omitempty "country" (w_country w) ++ member_string_omitempty "pool" (w_pool w) ++
           member_string_omitempty "excludeProxy" (w_exclude w) ++ member_true "fallbackOk" (w_fallback w)).

Section pool_client.
Context `{GoNetip}.

(** The wire request of a pool request: a configured pool replaces the
    country. *)
Definition wire_of (c : TunnelPoolClient) (q : Client.ProxyRequest) : wireRequest :=
  mkWire (if negb (String.eqb (poolID c) "") then "" else Country q) (poolID c)
    (match ExcludeProxy q with Some u => url_string u | None => "" end) (FallbackOK q).

(** [newProxyRequest]; marshalling a [wireRequest] cannot fail. *)
Definition newProxyRequest (c : TunnelPoolClient) (q : Client.ProxyRequest) : result cerror outgoing :=
  let payload := marshal (wireJSON (wire_of c q)) in
  let endpoint := baseURL c +:+ "/v1/proxies" in
  match url_parse endpoint with
  | None => Err [ErrEgressUnavailable]
  | Some _ =>
      let header := <["Content-Type" := "application/json"]> (<["Accept" := "application/json"]> ∅) in
      Ok (mkOutgoing "POST" endpoint
            (if negb (String.eqb (bearerToken c) "")
             then <["Authorization" := "Bearer " +:+ bearerToken c]> header else header) payload)
  end.

(** [doProxyRequest]; the deadline put on the context is part of [exchange],
    which is given it ([None]: no deadline of its own). *)
Definition doProxyRequest (c : TunnelPoolClient) (q : Client.ProxyRequest)
    (exchange : option Z -> outgoing -> option (Z * string)) : result cerror string :=
  let deadline := if (0 <? timeout c)%Z then Some (timeout c) else None in
  match newProxyRequest c q with
  | Err e => Err e
  | Ok req => executeProxyRequest (exchange deadline req)
  end.

(** [ProxyForCountry]. *)
Definition ProxyForCountry (c : TunnelPoolClient) (q : Client.ProxyRequest)
    (exchange : option Z -> outgoing -> option (Z * string)) : result cerror Client.ProxyResponse :=
  match doProxyRequest c q exchange with
  | Err e => Err e
  | Ok body => parseTunnelPoolResponse body
  end.

(** ** As the controller receives it *)

Definition arrives (o : outgoing) : httpRequest :=
  mkHttpRequest (default "" (out_Header o !! "Authorization")) (default "" (out_Header o !! "Content-Type"))
    (out_Payload o) (fun _ => "") "".

(** What the API makes of a wire request. *)
Definition on_wire (w : wireRequest) : Api.ProxyRequest :=
  mkProxyRequest (to_valid (w_country w)) (to_valid (w_pool w)) (to_valid (w_exclude w)) (w_fallback w).

Lemma string_take_all n s : String.length s <= n -> string_take n s = s.
Proof. revert n. induction s as [|c s IH]; intros [|n] Hn; cbn in *; try lia; [done..|]. by rewrite IH by lia. Qed.

(** The API decodes what the client marshals, up to the limit on bodies. *)
Lemma decodeBody_marshal w :
  (Z.of_nat (String.length (marshal (wireJSON w))) <= maxRequestBody)%Z ->
  decodeBody (marshal (wireJSON w)) = Some (on_wire w).
Proof.
  intros Hlen. unfold decodeBody. rewrite string_take_all by lia. unfold marshal.
  rewrite <- (string_app_nil_r (print None (wireJSON w))) at 1. rewrite decode_print, String.eqb_refl; [|..|done].
  2: { apply printable_object; [done|]. rewrite !Forall_app. split_and!; try apply member_omitempty_printable.
       unfold member_true. destruct (w_fallback w); by repeat constructor. }
  destruct w as [country pool exclude fallback]. unfold wireJSON, on_wire, member_string_omitempty, member_true.
  cbn [w_country w_pool w_exclude w_fallback].
  destruct (String.eqb_spec country "") as [->|_], (String.eqb_spec pool "") as [->|_],
    (String.eqb_spec exclude "") as [->|_], fallback; reflexivity.
Qed.

Lemma newProxyRequest_ok c q out :
  newProxyRequest c q = Ok out ->
  out_Payload out = marshal (wireJSON (wire_of c q)) /\ out_Header out !! "Content-Type" = Some "application/json" /\
  (bearerToken c <> "" -> out_Header out !! "Authorization" = Some ("Bearer " +:+ bearerToken c)).
Proof.
  unfold newProxyRequest. destruct (url_parse _); [|done]. intros [= <-]. cbn [out_Payload out_Header].
  destruct (String.eqb_spec (bearerToken c) ""); cbn [negb]; split_and!; try done.
Qed.

Lemma isCountryCode_nonblank country : isCountryCode country = true -> String.eqb (trim_space country) "" = false.
Proof. unfold isCountryCode. by destruct (trim_space country). Qed.

(** A request of the client as the API decodes it: a configured pool is passed
    on, with the country left out; without one the country has to be a code. *)
Lemma request_decoded `{GoUnicode} c q out :
  newProxyRequest c q = Ok out -> (Z.of_nat (String.length (out_Payload out)) <= maxRequestBody)%Z ->
  valid_utf8 (poolID c) = true -> valid_utf8 (Country q) = true ->
  decodeProxyRequest (arrives out) =
    if String.eqb (poolID c) "" then
      if isCountryCode (Country q) then Ok (on_wire (wire_of c q)) else Err StatusBadRequest
    else if String.eqb (trim_space (poolID c)) "" then Err StatusBadRequest else Ok (on_wire (wire_of c q)).
Proof.
  intros (Hp & Hct & _)%newProxyRequest_ok Hlen Hvp%valid_utf8_id Hvc%valid_utf8_id. unfold decodeProxyRequest, arrives.
  cbn [h_contentType h_body]. rewrite Hct. cbn [default]. rewrite Hp in *. rewrite decodeBody_marshal by done.
  change (hasJSONContentType "application/json") with true. cbn [negb]. unfold on_wire, wire_of.
  cbn [rq_Country rq_Pool w_country w_pool]. rewrite Hvp.
  destruct (String.eqb_spec (poolID c) "") as [->|Hne]; cbn [negb]; rewrite ?Hvc.
  - destruct (isCountryCode (Country q)) eqn:Hcc.
    + by rewrite (isCountryCode_nonblank _ Hcc).
    + by destruct (String.eqb (trim_space (Country q)) "").
  - change (to_valid "") with "". by destruct (String.eqb (trim_space (poolID c)) "").
Qed.
End pool_client.

(** ** A retry excludes the cell it failed on *)

Lemma excluded_lease_resolves `{GoUnicode, GoHash, GoNetip, MapOrder} ok tid a acq t rand1 rand2 now w r lease :
  (forall R o, ok R o a = true) ->
  issuable acq = Some t -> plain_address (lg_socksPublicAddr r) = true ->
  w_leases w = (Issue acq (Some rand1) (Some rand2) now r).1 ->
  (Issue acq (Some rand1) (Some rand2) now r).2 = Ok lease ->
  exists w', run_at ok tid a (parseExcludedProxy (SOCKS5 (Proxies lease))) w =
    Some (if (a_now a <? ExpiresAt lease)%Z then Some (Types.ProxyURL t) else None, w').
Proof.
  intros Hok Ht Ha Hw Hi. destruct (issued_url_resolves ok tid a acq t rand1 rand2 now w r Hok Ht Ha Hw) as (lease' & Hi' & w' & Hr).
  assert (lease' = lease) as -> by congruence.
  destruct (issued_socks_url acq t rand1 rand2 now r Ht Ha) as (lease' & Hi'' & _ & Hs).
  assert (lease' = lease) as -> by congruence.
  exists w'. unfold parseExcludedProxy. replace (String.eqb (SOCKS5 (Proxies lease)) "") with false by by rewrite Hs.
  rewrite (run_at_bind ok _ _ _ _ _ _ _ Hr). simpl. by destruct (a_now a <? ExpiresAt lease)%Z.
Qed.

(** C18. The exclusion of a retry reaches the cell.  Take a lease the controller
    issued, as the client parses it out of the text of the API's response, and
    the bytes of the pool request of a retry that excludes its proxy.  With the operator's token the API lets it through to
    the handler; if the client has a pool, or a country that is a code, it is
    decoded to exactly that request; and its [excludeProxy] resolves to the
    internal URL of the leased cell while the lease is live, and is refused
    from its expiry on. *)
Theorem exclusion_reaches_cell `{GoUnicode, GoHash, GoNetip, MapOrder, GoFloatText, GoZone}
    error_text m ok tid a acq t rand1 rand2 now w r c country fallback :
  (forall R o, ok R o a = true) ->
  issuable acq = Some t -> plain_address (lg_socksPublicAddr r) = true -> is_Some (rfc3339 (now + lg_ttl r)) ->
  w_leases w = (Issue acq (Some rand1) (Some rand2) now r).1 ->
  bearerToken c <> "" -> valid_utf8 (poolID c) = true -> valid_utf8 country = true ->
  (if String.eqb (poolID c) "" then isCountryCode country = true else trim_space (poolID c) <> "") ->
  exists lease, (Issue acq (Some rand1) (Some rand2) now r).2 = Ok lease /\
    forall pool exit ip, exists resp,
      parseTunnelPoolResponse (WriteJSON error_text (mkResponse 200 (ProxyBody
        (mkProxyResponse (Proxies lease) pool exit ip (ExpiresAt lease))))).2 = Ok resp /\
      let q := mkPoolRequest country (Some (Client.ProxyURL resp)) fallback in
      forall out, newProxyRequest c q = Ok out -> (Z.of_nat (String.length (out_Payload out)) <= maxRequestBody)%Z ->
        serve m (sha256 (bearerToken c)) PostProxies (arrives out) = handleProxy m (arrives out) /\
        decodeProxyRequest (arrives out) =
          Ok (mkProxyRequest (if String.eqb (poolID c) "" then country else "") (poolID c) (SOCKS5 (Proxies lease)) fallback) /\
        exists w', run_at ok tid a (parseExcludedProxy (SOCKS5 (Proxies lease))) w =
          Some (if (a_now a <? ExpiresAt lease)%Z then Some (Types.ProxyURL t) else None, w').
Proof.
  intros Hok Ht Ha Hx Hw Htok Hvp Hvc Hwho. destruct (issued_socks_url acq t rand1 rand2 now r Ht Ha) as (lease & Hi & He & Hs).
  exists lease. split; [done|]. intros pool exit ip. eexists. split; [by eapply lease_parsed|].
  cbn [Client.ProxyURL]. cbv zeta. intros out Hout Hlen. split_and!.
  - destruct (newProxyRequest_ok _ _ _ Hout) as (_ & _ & Hauth). refine (serve_with_token m _ PostProxies _ (bearerToken c) _ Htok eq_refl).
    unfold arrives. cbn [h_authorization]. by rewrite Hauth.
  - rewrite (request_decoded c _ out Hout Hlen Hvp Hvc). unfold wire_of, on_wire. cbn [Country ExcludeProxy FallbackOK].
    cbn [w_country w_pool w_exclude w_fallback]. rewrite lease_url_string by auto using raw_url_encode_safe.
    rewrite (valid_utf8_id _ Hvp), (valid_utf8_id _ (lease_url_valid _ _ _ (raw_url_encode_safe rand1) (raw_url_encode_safe rand2) Ha)).
    rewrite <- Hs. destruct (String.eqb (poolID c) "") eqn:Hpool; cbn [negb]; [by rewrite Hwho, (valid_utf8_id _ Hvc)|].
    apply String.eqb_neq in Hwho. by rewrite Hwho.
  - exact (excluded_lease_resolves ok tid a acq t rand1 rand2 now w r lease Hok Ht Ha Hw Hi).
Qed.

Module PoolClientExamples.
Import Deployment ScenarioWitnesses.

#[local] Instance no_floats : GoFloatText := {| float_text := fun _ => "" |}.
#[local] Instance utc : GoZone := {| zone_offset := fun _ => 0%Z |}.
Definition no_text (e : error) : string := "".

Definition operator : TunnelPoolClient :=
  NewTunnelPoolClient "http://pr0xteus:8000" (5 * second) [WithBearerToken "token"; WithPool "us"].

Example operator_doer : doer operator = Some (mkHTTPClient (5 * second) false).
Proof. reflexivity. Qed.

Lemma exclusion_reaches_cell_witness :
  exists lease, (Issue (mkAcquisition (Some (cell "c1" "us-a.conf")) "us") (Some bytes1) (Some bytes2) noon registry).2 = Ok lease /\
    exists resp out,
      parseTunnelPoolResponse (WriteJSON no_text (mkResponse 200 (ProxyBody
        (mkProxyResponse (Proxies lease) "us" "US" "" (ExpiresAt lease))))).2 = Ok resp /\
      newProxyRequest operator (mkPoolRequest "US" (Some (Client.ProxyURL resp)) true) = Ok out /\
      decodeProxyRequest (arrives out) = Ok (mkProxyRequest "" "us" (SOCKS5 (Proxies lease)) true).
Proof.
  destruct (exclusion_reaches_cell no_text mgr ScenarioWitnesses.always 0 a1 (mkAcquisition (Some (cell "c1" "us-a.conf")) "us")
    (cell "c1" "us-a.conf") bytes1 bytes2 noon leased registry operator "US" true
    ltac:(intros; reflexivity) ltac:(vm_compute; reflexivity) ltac:(vm_compute; reflexivity) ltac:(vm_compute; eexists; reflexivity)
    ltac:(vm_compute; reflexivity) ltac:(vm_compute; discriminate) ltac:(vm_compute; reflexivity) ltac:(vm_compute; reflexivity)
    ltac:(vm_compute; discriminate)) as (lease & Hi & Hall).
  exists lease. split; [exact Hi|]. destruct (Hall "us" "US" "") as (resp & Hp & Hx).
  vm_compute in Hi. injection Hi as <-. vm_compute in Hp. injection Hp as <-.
  destruct (Hx _ ltac:(vm_compute; reflexivity) ltac:(vm_compute; discriminate)) as (_ & Hd & _).
  eexists _, _. split; [vm_compute; reflexivity|]. split; [vm_compute; reflexivity|]. exact Hd.
Defined.
End PoolClientExamples.
