(* ===== verification/ClientCall.v ===== *)
(** * A call of the pool client, through the control-plane API

    [TunnelPoolClient.ProxyForCountry] with the API's handler on the other end of
    the exchange: the request goes out as bytes, the handler runs on the
    controller's state, and its response comes back as bytes. *)

From S2P Require Import Prelude GoStrings Utf8 Encoding UrlParse Json JsonStruct GoTime Types Lease Prog System Manager.
From S2P Require Import Behaviour Connections Api Wire Scenarios Client PoolClient.

(** ** Programs that leave the leases alone *)

Fixpoint leaseless {A} (p : sys A) : Prop :=
  match p with
  | Ret _ => True
  | Op o k => match o with OpLeases _ => False | _ => True end /\ forall r, leaseless (k r)
  end.

Lemma leaseless_bind {A B} (p : sys A) (f : A -> sys B) :
  leaseless p -> (forall a, leaseless (f a)) -> leaseless (p ≫= f).
Proof. intros Hp Hf. induction p as [a|R o k IH]; simpl in *; [done|]. destruct Hp as [Ho Hk]. split; [done|]. intros r. by apply IH. Qed.

Lemma leaseless_call {R} (o : op R) : match o with OpLeases _ => False | _ => True end -> leaseless (call o).
Proof. intros Ho. by split. Qed.

Lemma step_leaseless `{SpawnerContract} tid {R} (o : op R) w r w' :
  match o with OpLeases _ => False | _ => True end -> op_step tid o w r w' -> w_leases w' = w_leases w.
Proof. intros Ho (a & _ & He). destruct o; try done; simpl in He; repeat case_match; by simplify_eq. Qed.

Lemma runs_leaseless `{SpawnerContract} tid {A} (p : sys A) : forall w a w',
  leaseless p -> runs tid p w a w' -> w_leases w' = w_leases w.
Proof.
  induction p as [a0|R o k IH]; intros w a w' Hp Hr; [by destruct Hr as [_ ->]|].
  destruct Hp as [Ho Hk], Hr as (r & w1 & Hs & Hr). rewrite (IH r w1 a w' (Hk r) Hr). by eapply step_leaseless.
Qed.

(** Steps through a program, splitting on the results it tests. *)
Ltac quiet_leases := repeat first
  [ done | assumption | apply leaseless_call; exact I | apply leaseless_bind; [|intros ?] | case_match ].

Section acquisition.
Context `{GoUnicode, GoHash, GoNetip, MapOrder}.
Variable m : Manager.

Lemma leaseless_spawnFromState st e : leaseless (spawnFromState m st e).
Proof. unfold spawnFromState, excludeConfsFor, recordSpawnFailure, snapshotOf, write, section. quiet_leases. Qed.

Lemma leaseless_acquireFromState st e : leaseless (acquireFromState m st e).
Proof.
  pose proof (leaseless_spawnFromState st e). unfold acquireFromState, acquireOf, section. quiet_leases.
Qed.

Lemma leaseless_apiAcquire request e : leaseless (apiAcquire m request e).
Proof.
  unfold apiAcquire, AcquireForPool, AcquireForCountry, acquireFromPool, getPool.
  pose proof (fun st => leaseless_acquireFromState st e). quiet_leases; auto.
Qed.

Lemma leaseless_Release acq : leaseless (Release acq).
Proof. unfold Release, getPool, write, section. quiet_leases. Qed.
End acquisition.

(** ** What the handler answers *)

Section answered.
Context `{UC : GoUnicode, HA : GoHash, NI : GoNetip, MO : MapOrder, SC : SpawnerContract}.
Variable m : Manager.

(** The registry keeps its addresses and its lease time. *)
Definition same_registry (r r' : leaseRegistry) : Prop :=
  lg_socksPublicAddr r' = lg_socksPublicAddr r /\ lg_ttl r' = lg_ttl r.

Lemma excluded_same_registry tid raw w x w' :
  runs tid (parseExcludedProxy raw) w x w' -> same_registry (w_leases w) (w_leases w').
Proof.
  unfold parseExcludedProxy, ResolveExcludedProxy. destruct (String.eqb raw ""); [by intros [_ ->]|].
  intros Hr. rbind Hr u w1 Hu. destruct Hr as [_ ->]. repeat case_match; try by destruct Hu as [_ ->].
  rbind Hu lease w2 Hlook. destruct Hu as [_ ->]. unfold lookupLease in Hlook. rbind Hlook now w3 Hnow.
  apply runs_now in Hnow as ->. by apply runs_call, step_leases in Hlook as [_ ->].
Qed.

(** A lease that was issued is the last change of the registry. *)
Lemma runs_IssueLease tid acq w x w' :
  runs tid (IssueLease acq) w x w' ->
  match x with
  | Err _ => True
  | Ok lease => exists t rand1 rand2 now, issuable acq = Some t /\
      (Issue acq (Some rand1) (Some rand2) now (w_leases w)).2 = Ok lease /\
      w_leases w' = (Issue acq (Some rand1) (Some rand2) now (w_leases w)).1
  end.
Proof.
  unfold IssueLease, issueLease. intros Hr. rbind Hr issued w1 H1. destruct issued as [lease|e]; [|by destruct Hr as [-> _]].
  assert (match x with Ok l => l = lease | Err _ => True end /\ w_leases w' = w_leases w1) as [Hx Hw].
  { rbind Hr st w2 H2. apply runs_getPool in H2 as [-> ->]. destruct (w_pools w1 !! acq_Pool acq); [|by destruct Hr as [-> ->]].
    rbind Hr u w3 H3. destruct Hr as [-> ->]. split; [done|]. by apply runs_section in H3 as (p' & now & draw & _ & _ & ->). }
  destruct x as [l|]; [|done]. subst l. destruct (issuable acq) as [t|] eqn:Ht; [|by destruct H1].
  rbind H1 rand1 w2 H2. apply runs_call in H2 as (a1 & _ & [= <- <-]). destruct (a_bytes a1) as [b1|]; [|by destruct H1]. cbn [newLeasePart] in H1.
  rbind H1 rand2 w3 H3. apply runs_call in H3 as (a2 & _ & [= <- <-]). destruct (a_bytes a2) as [b2|]; [|by destruct H1]. cbn [newLeasePart] in H1.
  rbind H1 now w4 H4. apply runs_now in H4 as ->. apply runs_call, step_leases in H1 as [Hl ->].
  exists t, b1, b2, now. by rewrite Hw.
Qed.

(** Every response is a refusal, or the allocation of a lease that is in the
    registry. *)
Definition allocated (w w' : world) (resp : response) : Prop :=
  exists acq t rand1 rand2 now reg lease exit ip, same_registry (w_leases w) reg /\ issuable acq = Some t /\
    (Issue acq (Some rand1) (Some rand2) now reg).2 = Ok lease /\
    w_leases w' = (Issue acq (Some rand1) (Some rand2) now reg).1 /\
    resp = mkResponse StatusOK (ProxyBody (mkProxyResponse (Proxies lease) (acq_Pool acq) exit ip (ExpiresAt lease))).

Lemma handleProxy_answers tid r w resp w' :
  runs tid (handleProxy m r) w resp w' ->
  (exists status, (400 <= status)%Z /\ resp = writeError status) \/ allocated w w' resp.
Proof.
  unfold handleProxy. intros Hr. destruct (decodeProxyRequest r) as [request|status] eqn:Hd.
  2: { destruct Hr as [-> _]. left. exists status. split; [|done]. unfold decodeProxyRequest in Hd. repeat case_match; by simplify_eq. }
  rbind Hr excluded w1 H1. apply excluded_same_registry in H1.
  destruct excluded as [e|]; [|destruct Hr as [-> _]; left; by exists StatusBadRequest].
  rbind Hr acquired w2 H2. apply (runs_leaseless _ _ _ _ _ (leaseless_apiAcquire m _ _)) in H2.
  destruct acquired as [acq|err].
  2: { destruct Hr as [-> _]. left. eexists. split; [|done]. unfold acquireErrorStatus. by repeat case_match. }
  rbind Hr issued w3 H3. apply runs_IssueLease in H3. destruct issued as [lease|err].
  2: { rbind Hr u w4 H4. destruct Hr as [-> _]. left. by exists StatusInternalServerError. }
  destruct H3 as (t & rand1 & rand2 & now & Ht & Hi & Hl). rewrite H2 in *.
  rbind Hr u w4 H4. apply runs_leaseless in H4; [|by apply leaseless_call].
  rbind Hr v w5 H5. apply runs_leaseless in H5; [|apply leaseless_Release]. destruct Hr as [-> ->].
  right. exists acq, t, rand1, rand2, now, (w_leases w1), lease. do 2 eexists. split_and!; [done..| |done]. congruence.
Qed.

Lemma serve_answers tid digest r w resp w' :
  runs tid (serve m digest PostProxies r) w resp w' ->
  (exists status, (400 <= status)%Z /\ resp = writeError status) \/ allocated w w' resp.
Proof.
  unfold serve. destruct (authenticate digest r) as [denied|] eqn:Ha; [|by apply handleProxy_answers].
  intros [-> _]. left. exists StatusUnauthorized. split; [done|]. unfold authenticate in Ha. repeat case_match; by simplify_eq.
Qed.
End answered.

(** ** The call *)

Lemma executeProxyRequest_refused `{GoFloatText, GoZone} error_text status : (400 <= status)%Z ->
  executeProxyRequest (Some (WriteJSON error_text (writeError status))) =
    Err [if (status =? 503)%Z then ErrPoolExhausted else ErrEgressUnavailable].
Proof.
  intros Hs. destruct (Z.eqb_spec status 503) as [->|Hne]; [vm_compute; reflexivity|].
  unfold executeProxyRequest, WriteJSON. cbn [r_status writeError].
  replace (status <? 300)%Z with false by (symmetry; lia). rewrite andb_false_r.
  unfold isPoolExhaustedResponse. by rewrite (proj2 (Z.eqb_neq _ _) Hne).
Qed.

(** C6. A call of the pool client is answered by what the API did.  The client's
    request, whatever its country, pool, exclusion and token, goes out as bytes,
    the API's handler runs on it to its end, and the response is read back from
    its bytes.  The call succeeds exactly when the API allocated a lease: the
    client then holds the gateway's public address and credentials that the
    controller's registry, as the handler left it, resolves to that allocation
    until the lease expires and to nothing afterwards, and the pool it is told is
    the allocation's.  Every refusal is an error, [ErrPoolExhausted] exactly for
    a 503. *)
Theorem client_call `{GoUnicode, GoHash, GoNetip, MapOrder, SpawnerContract, GoFloatText, GoZone}
    error_text tid m c q out w resp w' :
  newProxyRequest c q = Ok out ->
  runs tid (serve m (sha256 (bearerToken c)) PostProxies (arrives out)) w resp w' ->
  plain_address (lg_socksPublicAddr (w_leases w)) = true ->
  (forall b, r_payload resp = ProxyBody b -> is_Some (rfc3339 (rsp_ExpiresAt b))) ->
  (Z.of_nat (String.length (WriteJSON error_text resp).2) <= maxBody)%Z ->
  match ProxyForCountry c q (fun _ _ => Some (WriteJSON error_text resp)) with
  | Ok r => r_status resp = StatusOK /\
      exists acq t username password expires,
        issuable acq = Some t /\ Client.Pool r = to_valid (acq_Pool acq) /\
        Host (Client.ProxyURL r) = lg_socksPublicAddr (w_leases w) /\
        socks5Auth (Client.ProxyURL r) = Some (username, password) /\
        forall now', (Lookup username password now' (w_leases w')).2 =
          if (now' <? expires)%Z then Some (lease_record acq t password expires) else None
  | Err e => (400 <= r_status resp)%Z /\
      e = [if (r_status resp =? 503)%Z then ErrPoolExhausted else ErrEgressUnavailable]
  end.
Proof.
  intros Hout Hr Ha Hx Hlen. unfold ProxyForCountry, doProxyRequest. rewrite Hout.
  apply serve_answers in Hr as [(status & Hs & ->)|(acq & t & rand1 & rand2 & now & reg & lease & exit & ip & [Hreg Httl] & Ht & Hi & Hw & ->)].
  { by rewrite executeProxyRequest_refused. }
  assert (forall b, executeProxyRequest (Some (StatusOK, b)) = Ok (string_take (Z.to_nat maxBody) b)) as Hok by done.
  change (WriteJSON error_text ?p) with (StatusOK, (WriteJSON error_text p).2). rewrite Hok, string_take_all by lia.
  rewrite <- Hreg in *. destruct (issued_socks_url acq t rand1 rand2 now reg Ht Ha) as (lease' & Hi' & He & _).
  assert (lease' = lease) as -> by congruence. specialize (Hx _ eq_refl). cbn [rsp_ExpiresAt] in Hx. rewrite He in Hx.
  change StatusOK with 200%Z. rewrite (lease_parsed error_text acq t rand1 rand2 now reg lease) by done. split; [done|].
  exists acq, t, (raw_url_encode rand1), (raw_url_encode rand2), (now + lg_ttl reg)%Z. split_and!; [done..|].
  intros now'. rewrite Hw. by apply lookup_issued.
Qed.

Module CallExamples.
Import Deployment ScenarioWitnesses PoolClientExamples.

#[local] Instance no_floats : GoFloatText := {| float_text := fun _ => "" |}.
#[local] Instance utc : GoZone := {| zone_offset := fun _ => 0%Z |}.

(** The operator's client asks for its pool, which has a hot tunnel. *)
Definition question : Client.ProxyRequest := mkPoolRequest "" None false.
Definition sent : outgoing := match newProxyRequest operator question with Ok o => o | Err _ => mkOutgoing "" "" ∅ "" end.
Definition answered : response * world :=
  ends b2 (serve mgr (sha256 (bearerToken operator)) PostProxies (arrives sent)) warm (writeError 500).

Lemma answered_runs :
  runs 0 (serve mgr (sha256 (bearerToken operator)) PostProxies (arrives sent)) warm answered.1 answered.2.
Proof. unfold answered. apply ends_runs. vm_compute. reflexivity. Qed.

Lemma answered_expiry b : r_payload answered.1 = ProxyBody b -> is_Some (rfc3339 (rsp_ExpiresAt b)).
Proof. intros Hb. vm_compute in Hb. injection Hb as <-. vm_compute. by eexists. Qed.

Lemma client_call_witness :
  is_ok (ProxyForCountry operator question (fun _ _ => Some (WriteJSON no_text answered.1))) = true /\
  r_status answered.1 = StatusOK.
Proof.
  split; [vm_compute; reflexivity|].
  pose proof (client_call no_text 0 mgr operator question sent warm answered.1 answered.2
    ltac:(vm_compute; reflexivity) answered_runs ltac:(vm_compute; reflexivity) answered_expiry
    ltac:(vm_compute; discriminate)) as Hc.
  destruct (ProxyForCountry _ _ _) as [r|e] eqn:Er in Hc; [exact (proj1 Hc)|].
  exfalso. vm_compute in Er. discriminate Er.
Defined.
End CallExamples.
