(* ===== verification/Transports.v ===== *)
(** * Construction and egress of a client ([pkg/client]: [client.go], [mode.go],
      [transport.go], [direct_transport.go], the transport of [preflight.go])

    The options and defaults of a client, the transports it builds, and the TCP
    connections a run opens.  A dial is a program over one operation, the
    connect of [net.Dialer].  The SOCKS5 dialer is an interface of which only
    this is used: it reaches the network through the dialer it is given, at the
    address it is given; the vendored [golang.org/x/net/proxy] discharges it. *)

From S2P Require Import Prelude GoStrings Types Prog Gateway Socks Backoff Client.

(** ** Dialling *)

(** A connect: the dialer's timeout and keep-alive (zero: the defaults), the
    network and the address; the answer is a connection or an error. *)
Inductive tcpop : Type -> Type :=
  | Connect (dialTimeout keepAlive : Z) (network address : string) : tcpop (result cerror nat).

Definition dialer := string -> string -> prog tcpop (result cerror nat).

(** Whatever the network answers, every connect of [p] satisfies [P]. *)
Fixpoint only_connects (P : string -> string -> Prop) {A} (p : prog tcpop A) : Prop :=
  match p with
  | Ret _ => True
  | @Op _ _ R o k => match o with Connect _ _ network address => P network address end /\ forall r, only_connects P (k r)
  end.

Lemma only_connects_bind P {A B} (p : prog tcpop A) (f : A -> prog tcpop B) :
  only_connects P p -> (forall a, only_connects P (f a)) -> only_connects P (p ≫= f).
Proof.
  intros Hp Hf. induction p as [a|R o k IH]; simpl in *; [apply Hf|].
  destruct Hp as [Ho Hk]. split; [done|]. intros r. apply IH, Hk.
Qed.

(** [xproxy.SOCKS5]: a dialer, and whether it is a [ContextDialer] too. *)
Class SocksLibrary := {
  socks5_dialer : string -> string -> option (string * string) -> dialer -> result cerror (dialer * bool);
}.

Class SocksLaws `{SocksLibrary} := {
  socks5_forwards network address auth forward d isContext :
    socks5_dialer network address auth forward = Ok (d, isContext) ->
    forall P net target, only_connects P (forward network address) -> only_connects P (d net target);
}.

(** *** The vendored library *)

Section x_net.
(** How the SOCKS5 handshake on an established connection, [Socks.connect], ends. *)
Variable handshake : nat -> option (string * string) -> string -> option cerror.

(** [proxy.SOCKS5] with a forward dialer, and the [DialContext] of what it
    returns, which is a [ContextDialer]. *)
Definition xnetSOCKS5 (network address : string) (auth : option (string * string)) (forward : dialer) :
    result cerror (dialer * bool) :=
  Ok (fun net target =>
        if negb (String.eqb net "tcp" || String.eqb net "tcp6" || String.eqb net "tcp4")
        then Ret (Err [OtherError "network not implemented"])
        else
          conn ← forward network address;
          Ret (match conn with
               | Err e => Err e
               | Ok c => match handshake c auth target with Some e => Err e | None => Ok c end
               end), true).

Definition xnetLibrary : SocksLibrary := {| socks5_dialer := xnetSOCKS5 |}.

Lemma xnetLaws : @SocksLaws xnetLibrary.
Proof.
  constructor. intros network address auth forward d isContext [= <- _] P net target HP.
  case_match; [done|]. by apply only_connects_bind.
Qed.
End x_net.

(** ** Transports *)

(** The fields of [http.Transport] the package sets; unset ones are zero, and
    [Proxy] is nil everywhere. *)
Record transport := mkTransport {
  DialContext : dialer;
  DisableKeepAlives : bool;
  TLSHandshakeTimeout : Z;
  ResponseHeaderTimeout : Z;
  ExpectContinueTimeout : Z;
  MaxIdleConns : Z;
  MaxIdleConnsPerHost : Z;
  IdleConnTimeout : Z;
}.

(** [ipv4OnlyDialer.Dial]. *)
Definition ipv4OnlyDialer : dialer := fun _ address =>
  conn ← do_op (Connect 0 0 "tcp4" address);
  Ret conn.

Section transports.
Context `{SocksLibrary}.

(** [dialSocks5]. *)
Definition dialSocks5 (proxyURL : URL) (targetAddr : string) : prog tcpop (result cerror nat) :=
  match socks5_dialer "tcp" (Host proxyURL) (socks5Auth proxyURL) ipv4OnlyDialer with
  | Err _ => Ret (Err [ErrEgressUnavailable])
  | Ok (_, false) => Ret (Err [ErrEgressUnavailable])
  | Ok (contextDialer, true) =>
      conn ← contextDialer "tcp" targetAddr;
      Ret (match conn with Err _ => Err [ErrEgressUnavailable] | Ok c => Ok c end)
  end.

(** [buildTransport]. *)
Definition buildTransport (proxyURL : URL) (freshTCP : bool) : transport :=
  mkTransport (fun _ addr => dialSocks5 proxyURL addr) freshTCP
    (15 * second) (30 * second) (1 * second) 10 2 (60 * second).

(** [buildPreflightProxyTransport]. *)
Definition preflightFetchTimeout : Z := 30 * second.
Definition buildPreflightProxyTransport (proxyURL : URL) : transport :=
  mkTransport (fun _ addr => dialSocks5 proxyURL addr) true preflightFetchTimeout 0 0 2 0 0.

(** [buildDirectTransport]. *)
Definition buildDirectTransport : transport :=
  mkTransport (fun _ addr => do_op (Connect (15 * second) (30 * second) "tcp4" addr)) false
    (15 * second) (30 * second) 0 4 0 (30 * second).

(** ** Construction *)

Definition DefaultIPEchoEndpoints : list string := ["https://api.ipify.org"; "https://ifconfig.me/ip"].

(** [Client]: the part the retry loop reads is [Client.Client]. *)
Record egressClient := mkEgress {
  ec_client : Client;
  ec_userAgent : string;
  ec_transportFactory : option (URL -> bool -> transport);
  ec_directTransportFactory : option transport;
  ec_ipEchoEndpoints : list string;
}.

(** [Option] and the functions that make one. *)
Inductive Option :=
  | WithRetryPolicy (p : RetryPolicy)
  | WithUserAgent (ua : string)
  | WithTransport (f : option (URL -> bool -> transport))
  | WithDirectTransport (f : option transport)
  | WithIPEchoEndpoints (urls : list string)
  | WithMode (m : Mode).

Definition apply_option (c : egressClient) (opt : Option) : egressClient :=
  let '(mkEgress b ua tf df urls) := c in
  match opt with
  | WithRetryPolicy p => mkEgress (mkClient (country b) p (mode b)) ua tf df urls
  | WithUserAgent ua => mkEgress b ua tf df urls
  | WithTransport tf => mkEgress b ua tf df urls
  | WithDirectTransport df => mkEgress b ua tf df urls
  | WithIPEchoEndpoints urls => mkEgress b ua tf df urls
  | WithMode m => mkEgress (mkClient (country b) (policy b) m) ua tf df urls
  end.

(** [applyDefaults]. *)
Definition applyDefaults (c : egressClient) : egressClient :=
  mkEgress (ec_client c) (ec_userAgent c)
    (match ec_transportFactory c with None => Some buildTransport | f => f end)
    (match ec_directTransportFactory c with None => Some buildDirectTransport | f => f end)
    (match ec_ipEchoEndpoints c with [] => DefaultIPEchoEndpoints | urls => urls end).

(** [New]; the cookie jar of [net/http/cookiejar] is made without options,
    which does not fail. *)
Definition New (country : string) (hasPool : bool) (opts : list Option) : result cerror egressClient :=
  if String.eqb country "" then Err [ErrInvalidCountry]
  else if negb hasPool then Err [ErrEgressUnavailable]
  else
    let c := mkEgress (mkClient country DefaultRetryPolicy ModeVPNOnly) "" None None [] in
    Ok (applyDefaults (foldl apply_option c opts)).

(** [Mode.String]. *)
Definition Mode_String (m : Mode) : string :=
  match m with
  | ModeVPNOnly => "vpn_only"
  | ModePublicFirst => "public_first"
  | ModeOther _ => "unknown"
  end.

(** [Do]: the header the request goes out with, and the dispatch. *)
Definition Do (c : egressClient) (h : header) (req : outbound) : header * prog cop (result cerror Z) :=
  let agent := match h !! "User-Agent" with Some (v :: _) => v | _ => "" end in
  (if negb (String.eqb (ec_userAgent c) "") && String.eqb agent ""
   then <["User-Agent" := [ec_userAgent c]]> h else h, dispatch (ec_client c) req).

(** ** The connections of a run *)

(** A connect an execution performs, by network and address. *)
Fixpoint connects {A} (p : prog tcpop A) (ds : list (string * string)) : Prop :=
  match p with
  | Ret _ => ds = []
  | @Op _ _ R o k =>
      exists r ds', ds = match o with Connect _ _ network address => (network, address) end :: ds' /\ connects (k r) ds'
  end.

Lemma connects_only P {A} (p : prog tcpop A) ds :
  only_connects P p -> connects p ds -> Forall (fun d => P d.1 d.2) ds.
Proof.
  revert ds. induction p as [a|R o k IH]; simpl; intros ds Hp Hc; [by subst|].
  destruct Hp as [Ho Hk], Hc as (r & ds' & -> & Hc). constructor; [by destruct o|]. by apply (IH r).
Qed.

(** The HTTP library performs a request over a transport: it may call
    [DialContext] any number of times (retries, redirects, other hosts), with
    any network and address. *)
Inductive round_trip (t : transport) : list (string * string) -> Prop :=
  | rt_done : round_trip t []
  | rt_dial network address ds ds' :
      connects (DialContext t network address) ds -> round_trip t ds' -> round_trip t (ds ++ ds').

Lemma round_trip_only P t ds :
  (forall network address, only_connects P (DialContext t network address)) ->
  round_trip t ds -> Forall (fun d => P d.1 d.2) ds.
Proof.
  intros Ht. induction 1 as [|network address ds ds' Hc _ IH]; [done|].
  apply Forall_app. split; [|done]. by eapply connects_only.
Qed.

(** The connects behind the events of a run: a send is a request over the
    transport of its proxy, a direct attempt one over the direct transport. *)
Inductive egress (c : egressClient) : list cevent -> list (string * string) -> Prop :=
  | eg_nil : egress c [] []
  | eg_send u fresh r tr f ds ds' :
      ec_transportFactory c = Some f -> round_trip (f u fresh) ds -> egress c tr ds' ->
      egress c (ESend u fresh r :: tr) (ds ++ ds')
  | eg_direct r tr t ds ds' :
      ec_directTransportFactory c = Some t -> round_trip t ds -> egress c tr ds' ->
      egress c (EDirect r :: tr) (ds ++ ds')
  | eg_quiet e tr ds :
      match e with ESend _ _ _ | EDirect _ => False | _ => True end -> egress c tr ds -> egress c (e :: tr) ds.
End transports.

(** ** Confinement *)

Section confined.
Context `{SocksLaws}.

Lemma dialSocks5_only (P : string -> string -> Prop) u target :
  P "tcp4" (Host u) -> only_connects P (dialSocks5 u target).
Proof.
  intros HP. unfold dialSocks5. destruct (socks5_dialer _ _ _ _) as [[d [|]]|e] eqn:Hd; [|done..].
  apply only_connects_bind; [|done]. apply (socks5_forwards _ _ _ _ _ _ Hd). by split.
Qed.

(** The options of a production client: the transports are not replaced. *)
Definition production (opt : Option) : bool :=
  match opt with WithTransport _ | WithDirectTransport _ => false | _ => true end.

Lemma apply_options_production opts : forall c,
  forallb production opts = true ->
  ec_transportFactory (foldl apply_option c opts) = ec_transportFactory c /\
  ec_directTransportFactory (foldl apply_option c opts) = ec_directTransportFactory c.
Proof.
  induction opts as [|opt opts IH]; intros c; [done|]. cbn [forallb foldl]. rewrite andb_true_iff. intros [Ho Hs].
  destruct (IH (apply_option c opt) Hs) as [-> ->]. by destruct c, opt.
Qed.

Lemma New_production country hasPool opts c :
  New country hasPool opts = Ok c -> forallb production opts = true ->
  ec_transportFactory c = Some buildTransport /\ ec_directTransportFactory c = Some buildDirectTransport.
Proof.
  unfold New. repeat case_match; try done. intros [= <-] Hp.
  destruct (apply_options_production opts (mkEgress (mkClient country DefaultRetryPolicy ModeVPNOnly) "" None None []) Hp) as [E1 E2].
  cbn [applyDefaults ec_transportFactory ec_directTransportFactory]. by rewrite E1, E2.
Qed.

Lemma apply_options_mode opts : forall c,
  mode (ec_client (foldl apply_option c opts)) = ModePublicFirst ->
  mode (ec_client c) = ModePublicFirst \/ WithMode ModePublicFirst ∈ opts.
Proof.
  induction opts as [|opt opts IH]; intros c Hm; [by left|]. destruct (IH _ Hm) as [Ho|Hin]; [|right; by right].
  destruct c, opt; cbn in *; auto. subst. right. left.
Qed.

Lemma New_mode country hasPool opts c :
  New country hasPool opts = Ok c -> mode (ec_client c) = ModePublicFirst -> WithMode ModePublicFirst ∈ opts.
Proof.
  unfold New. repeat case_match; try done. intros [= <-] Hm. by destruct (apply_options_mode _ _ Hm).
Qed.

(** The connects of a run, event by event. *)
Lemma egress_only (P : string -> string -> Prop) c tr ds :
  ec_transportFactory c = Some buildTransport -> ec_directTransportFactory c = Some buildDirectTransport ->
  (forall u fresh r, ESend u fresh r ∈ tr -> P "tcp4" (Host u)) ->
  (forall r address, EDirect r ∈ tr -> P "tcp4" address) ->
  egress c tr ds -> Forall (fun d => P d.1 d.2) ds.
Proof.
  intros Hf Hd Hsend Hdirect.
  induction 1 as [|u fresh r tr f ds ds' Hf' Hrt _ IH|r tr t ds ds' Hd' Hrt _ IH|e tr ds _ _ IH]; [done| | |].
  - apply Forall_app. split; [|apply IH; set_solver]. assert (f = buildTransport) as -> by congruence.
    apply (round_trip_only P) in Hrt; [done|]. intros network address. apply dialSocks5_only. eapply Hsend. left.
  - apply Forall_app. split; [|apply IH; set_solver]. assert (t = buildDirectTransport) as -> by congruence.
    apply (round_trip_only P) in Hrt; [done|]. intros network address. split; [|done]. eapply Hdirect. left.
  - apply IH; set_solver.
Qed.

(** [u] is the URL of a proxy the pool answered with in the run. *)
Definition handed_out (tr : list cevent) (u : URL) : Prop := exists q resp, EPool q (Ok resp) ∈ tr /\ ProxyURL resp = u.

Lemma staircase_handed_out c tr : forall k prev u fresh r,
  staircase c k prev tr -> ESend u fresh r ∈ tr -> prev = Some u \/ handed_out tr u.
Proof.
  induction tr as [|e tr IH]; intros k prev u fresh r Hs Hin; [by apply elem_of_nil in Hin|].
  assert (Hmono : handed_out tr u -> handed_out (e :: tr) u).
  { intros (q & resp & Hq & Hu). exists q, resp. split; [by right|done]. }
  apply elem_of_cons in Hin as [<-|Hin].
  - left. apply Hs.
  - destruct e as [| | | q [resp|err] | | | |]; cbn in Hs.
    4: { destruct Hs as (_ & _ & _ & Hs). destruct (IH _ _ _ _ _ Hs Hin) as [[= <-]|]; [|auto].
         right. exists q, resp. split; [left|done]. }
    4: destruct Hs as (_ & _ & _ & Hs).
    6: destruct Hs as (_ & _ & Hs).
    all: destruct (IH _ _ _ _ _ Hs Hin); auto.
Qed.

Lemma no_direct tr r : count_of is_direct tr = 0 -> EDirect r ∉ tr.
Proof.
  unfold count_of. intros Hc%nil_length_inv Hin. apply (not_elem_of_nil (EDirect r)). rewrite <- Hc.
  by apply list_elem_of_filter.
Qed.

(** C11. The host's address never reaches a target.  Of a client made by [New]
    without replacing the transports, every TCP connection a request opens,
    however the HTTP library retries and redirects, is an IPv4 one; and unless
    the public-first mode was asked for, which is not the default, every one
    goes to the host of a proxy the pool handed out during that request. *)
Theorem egress_confined country hasPool opts c h req tr r ds :
  New country hasPool opts = Ok c -> forallb production opts = true ->
  exec (Do c h req).2 tr r -> egress c tr ds ->
  Forall (fun d => d.1 = "tcp4") ds /\
  (WithMode ModePublicFirst ∉ opts -> Forall (fun d => exists u, handed_out tr u /\ d.2 = Host u) ds).
Proof.
  intros Hnew Hprod Hx He. destruct (New_production _ _ _ _ Hnew Hprod) as [Hf Hd]. split.
  - by apply (egress_only (fun network _ => network = "tcp4") c tr).
  - intros Hm. assert (mode (ec_client c) <> ModePublicFirst) as Hne.
    { intros Hpf. exact (Hm (New_mode _ _ _ _ Hnew Hpf)). }
    assert (Hrun : staircase (ec_client c) 1 None tr /\ count_of is_direct tr = 0).
    { cbn [Do snd] in Hx. unfold dispatch in Hx. destruct (mode (ec_client c)); [|done|]; apply do_loop_exec in Hx; tauto. }
    destruct Hrun as [Hs Hnd]. apply (egress_only (fun _ address => exists u, handed_out tr u /\ address = Host u) c tr); [done..| | |done].
    + intros u fresh r' Hin. destruct (staircase_handed_out _ _ _ _ _ _ _ Hs Hin) as [|Hh]; [done|eauto].
    + intros r' address Hin. by destruct (no_direct tr r' Hnd).
Qed.
End confined.

Module TransportExamples.

(** The vendored library, with handshakes that succeed. *)
#[local] Instance library : SocksLibrary := xnetLibrary (fun _ _ _ => None).
#[local] Instance library_laws : SocksLaws := xnetLaws (fun _ _ _ => None).

Definition made : egressClient :=
  match New "US" true [WithUserAgent "ua"] with Ok c => c | Err _ => mkEgress ClientExamples.us "" None None [] end.

(** The run of three attempts, with a connect for each of its sends. *)
Lemma three_egress : egress made ClientExamples.three.1 [("tcp4", "a:1"); ("tcp4", "b:1"); ("tcp4", "c:1")].
Proof.
  assert (Hdial : forall host fresh, round_trip (buildTransport (ClientExamples.proxy host) fresh) [("tcp4", host)]).
  { intros host fresh. apply (rt_dial _ "tcp" "example.com:443" [("tcp4", host)] []); [|constructor].
    cbn. by exists (Err []), []. }
  assert (Hq : forall e tr ds, match e with ESend _ _ _ | EDirect _ => False | _ => True end -> egress made tr ds -> egress made (e :: tr) ds)
    by (intros; by constructor).
  let tr := eval vm_compute in ClientExamples.three.1 in change ClientExamples.three.1 with tr.
  apply Hq; [done|]. apply (eg_send _ _ _ _ _ buildTransport [("tcp4", "a:1")]); [done|apply Hdial|].
  do 4 (apply Hq; [done|]). apply (eg_send _ _ _ _ _ buildTransport [("tcp4", "b:1")]); [done|apply Hdial|].
  do 3 (apply Hq; [done|]). apply (eg_send _ _ _ _ _ buildTransport [("tcp4", "c:1")] []); [done|apply Hdial|constructor].
Qed.

Lemma egress_confined_witness :
  Forall (fun d => exists u, handed_out ClientExamples.three.1 u /\ d.2 = Host u) [("tcp4", "a:1"); ("tcp4", "b:1"); ("tcp4", "c:1")].
Proof.
  refine (proj2 (egress_confined "US" true [WithUserAgent "ua"] made ∅ ClientExamples.get ClientExamples.three.1 ClientExamples.three.2 _
    eq_refl eq_refl ClientExamples.three_exec three_egress) _).
  intros [Hx|Hx%elem_of_nil]%elem_of_cons; [discriminate Hx|exact Hx].
Defined.

(** A user agent is added only to a request without one. *)
Example agent_added : (Do made ∅ ClientExamples.get).1 !! "User-Agent" = Some ["ua"].
Proof. reflexivity. Qed.
Example agent_kept : (Do made {["User-Agent" := ["mine"]]} ClientExamples.get).1 !! "User-Agent" = Some ["mine"].
Proof. reflexivity. Qed.
End TransportExamples.
